(* ===== verification/_CoqProject ===== *)
-Q . S2P
Prelude.v
Words.v
Cursor.v
Threads.v
Crypto.v
NtpProtocol.v
NtpExtensions.v
NtsPackets.v
Float64.v
Time.v
Cookie.v
KeyRotator.v
UnitTests.v
ServerClock.v
NtpServer.v
ServerProgs.v
ServerReplies.v
ServerLoop.v
Portability.v
KeRecords.v
IpAddr.v
KeStream.v
KeConnection.v
KeServing.v
KeClient.v
NtpClient.v
ClockOffset.v
KeListener.v
Config.v
NtpConfig.v
KeConfig.v
Sockets.v
KeStart.v
NtpStart.v
Metrics.v
Locks.v
ServerThreads.v
ClientCommand.v
ClientPool.v
ClientRun.v
Experiment.v
EndToEnd.v
Main.v
