(* ===== verification/Prelude.v ===== *)
(** * A verification library for cfnts

    cfnts is an implementation of Network Time Security (RFC 8915) in Rust: a key
    exchange (NTS-KE) over TLS that hands a client session keys and cookies, and an
    NTP server and client whose packets are authenticated with those keys.  This
    library models the program's own code as executable Gallina definitions and
    proves what makes it correct.  Source paths below are relative to the crate's
    [src/] directory.

    ** The program and the files

    - Foundations.  [Prelude] (this file): results with errors and panics, the
      state monad, [RwLock], the build profile, slices.  [Words]: machine integers
      and bytes.  [Cursor]: [std::io::Cursor] and [byteorder].  [Time]:
      [SystemTime] and [Duration].  [Float64]: the [f64] operations used.
      [Crypto]: the AEAD, the HMAC and the random generator as classes of
      operations with classes of laws, and a toy instance of each for the witnesses.
      [Threads]: programs of accesses to shared state, their interleaving, and a
      weakest precondition for one thread among others.
    - [ntp/protocol.rs]: [NtpProtocol] holds every type and function of the module
      and the header codec; [NtpExtensions] relates the extension parser to a
      relational wire format; [NtsPackets] treats the authenticator.
    - [cookie.rs]: [Cookie].  [key_rotator.rs]: [KeyRotator], with the rotation
      thread and its lock.  [Portability] follows a cookie from the rotator of one
      process to that of another.  [UnitTests] has the tests of these three modules.
    - [ntp/server/server.rs]: [ServerClock] (timestamps and dispersion in [f64]),
      [NtpServer] (all handlers and loops), [ServerReplies] (what is replied to a
      datagram), [ServerLoop] (the receive loop, the upstream thread, and the
      interleaving of whole rounds of all threads over the two locks), [ServerProgs]
      (the receive loop and the handlers as programs of accesses to the locks, the
      counters, [CLIENT_ADDR], the channels and the socket) and [ServerThreads] (these
      programs interleaved access by access).
    - [nts_ke/records/]: [KeRecords].  [IpAddr] is the text codec of addresses in
      [std::net], the instance of the interface [IpText] that records are written
      against.  [KeStream] is the specification of a stream of records that both
      ends implement.
    - [nts_ke/server/connection.rs]: [KeConnection] and its theorems in [KeServing].
      [nts_ke/server/listener.rs]: [KeListener].
    - [nts_ke/client.rs]: [KeClient].  [ntp/client.rs]: [NtpClient], and the accuracy
      of the clock offset it computes in [ClockOffset].
    - [error.rs] and what both configuration readers share: [Config].
      [ntp/server/config.rs]: [NtpConfig].  [nts_ke/server/config.rs]: [KeConfig].
    - Start-up.  [cfsock.rs]: [Sockets].  [nts_ke/server/server.rs] and
      [sub_command/ke_server.rs]: [KeStart].  [start_ntp_server] and
      [sub_command/ntp_server.rs]: [NtpStart].  [metrics.rs]: [Metrics].
    - [Locks]: the lock of the key rotator as a resource that blocks, with the
      acquisitions of every thread that uses it.
    - [sub_command/client.rs]: [ClientCommand] (parameters, counters, one job),
      [ClientPool] (the jobs as programs interleaved by a thread pool) and [ClientRun]
      ([run] with its pool); [Experiment] has what a run with a working network leaves
      in its files.  [cmd.rs] and [main.rs]: [Main].
    - [EndToEnd]: one job of the client against a key exchange server and NTP servers
      in processes of their own.

    ** How code is modelled

    A function that can fail returns [res E A]: a value, an error, or a panic; every
    [unwrap], [expect], index, slice and checked arithmetic operation that can panic
    does so in the model.  State is threaded through [M S E A]; the records [State]
    (rotator and its counters), [Srv] (the NTP server process), [KeSt] (a key
    exchange connection and what it shares) and [Listener] are the states of the
    components.  What a call sees of the outside (sockets, the clock, TLS,
    memcached, files, the [config] crate) is a record of answers passed to it:
    [World], [Env], [Upstream], [ConnEnv], [ListenerEnv], [KeClientEnv],
    [NtpClientEnv], [Settings] and [ConfigEnv], [Kernel], [StartEnv], [NtpStartEnv],
    [JobEnv], [RunEnv].  Integers are [Z] with their width's overflow behaviour,
    which depends on [Profile] (debug builds panic, release builds wrap).  The TLS
    exporter ([Exporter]), the command line parser ([Clap]) and the thread pool
    ([ThreadPool]), the latter two with their documented laws, are parameters.  A
    process start is a function from the environment to what the process becomes:
    exited with a code, panicked, or running with its threads; the threads' rounds are
    then the steps of a relation.  A call that blocks on a silent peer is one that does
    not return ([Metrics.blocking]); a [sendmsg] that fails sends nothing.

    Concurrency appears at two grains.  In [ServerLoop], [KeListener] and the start-up
    files a step is a whole round of a thread.  In [ServerProgs] and [ClientPool] the
    same code is a tree of calls ([Prog]), one per access to shared state, and a step
    is one call; [program_of] relates such a tree to the code on a state, and
    [threads_serializable] relates the two grains.  The client's pool is not given a
    scheduler: every interleaving of the jobs' programs is considered, which covers
    any number of workers, and the laws of [ThreadPool] say no more than that a batch
    of jobs is one of them.

    Packet sizes, counters and heap contents are unbounded lists and integers.  The
    recursive definitions with fuel are the parsing loops, the record loops, the
    deadline loop, the retry loop of [connect] and the request loop of the metrics
    responder: a parsing loop and the request loop get one unit per byte (and one
    more), the deadline loop one per deadline, [connect] its five tries.  Running out
    is the distinct panic [OutOfFuel], and the theorems that say a function does not
    panic or returns a value include that this does not happen.  The endless loops
    ([run_server], [listen], [periodic_rotate], [refresh_servstate], the jobs of an
    auxiliary client) run over a list or number of rounds, so that theorems about every
    list are theorems about every prefix of an execution.

    ** What is proved

    - Packets: the header and extension codecs round-trip and the extension parser
      computes exactly the wire format; NTS packets round-trip, how much of what is
      accepted was sealed by the key holder (all of it, unless the authenticator
      declares more than the packet holds), and the exact packets on which the parser
      panics or accepts unsealed extensions.
    - Cookies and keys: cookies round-trip and cannot be made up; one rotation on
      every branch, the window of cached keys and what falls out of it, when the latest key is available and
      when it is lost, survival of the rotation thread, and that a cookie stays
      usable in other processes for as long as the rotator keeps its key.
    - NTP server: the reply on every branch (plain, NTS, kiss of death), the exact
      datagrams that crash a handler, the size of replies, exactness of timestamps,
      what the loops preserve and the fate of every datagram, failed sends included, and the health of the locks under any
      interleaving of threads.  Serving threads interleaved access by access are
      serializable: what each replies and counts is what its rounds do one at a time.
      The exception is the choice of what to measure, which races whenever a query of
      the measurement client and another one are handled at the same time.
    - Key exchange: records of all eight types round-trip, a server connection implements the stream
      specification for every segmentation, its state machine, the listener's tokens
      and deadlines, and the client against the same specification.
    - Configuration: each reader accepts exactly the settings and files that describe
      a configuration and returns that one, in the ranges of its types; its errors
      and their causes; a configuration written down reads back.  The text codec of
      addresses round-trips, so that server records can name every IP address.
    - Start-up: what each server subcommand becomes on every branch; a server that
      runs has all its threads, a latest key, and stays healthy through any
      interleaving of their rounds, panics included.
    - The lock of the keys: no deadlock when readers may overtake a waiting writer,
      and, when they may not, the deadlock that the nested read of an NTS query
      leads to; the acquisitions these results are about are those of the handlers.
    - The metrics responder answers every readable request, and waits for ever exactly
      for a peer that falls silent or does not take the answer; the client subcommand,
      with a working network, runs its whole experiment and writes every line of its
      files under any scheduling of its pool; its number of requests is exact; its pool
      comes to the end of its jobs, with counters and files in step; [main] sets the
      channels each subcommand sends on.
    - End to end: a job of the client whose key exchange is served by one process and
      whose queries are served by others, hours and failed rotations later, measures
      every exchange and fails in none; and the clock offset that the client computes
      is accurate to a microsecond.
    - The unit tests: which pass for every AEAD and every generator, and on what the
      others depend.

    ** What is not modelled

    Other packages: [clap], [config], [rustls] and PEM parsing, [mio], [prometheus],
    [threadpool], memcached and the cryptographic primitives are environments or
    parameters.  Logging and what is printed to the terminal are left out.  An access
    to shared state is one indivisible step: the torn reads that the data race on
    [CLIENT_ADDR] allows are not represented.  The time that passes between the jobs of
    a run is not represented, nor what becomes of a server process when all of its
    serving threads have panicked.  Accessor methods have no definitions of their own.

    Planned next: the liveness of the key exchange server's connections under a fair
    poll, and its listeners interleaved access by access as the NTP server's threads
    are. *)

From stdpp Require Import prelude list numbers strings.
From Stdlib Require Import Strings.Byte.

(** ** Results of fallible Rust code *)

(** Why a thread would unwind.  [OutOfFuel] is not a Rust behaviour: it marks a
    [while] loop whose fuel ran out, and every loop of the development is shown
    never to produce it. *)
Inductive panic :=
  | ArithOverflow
  | SliceRange
  | UnwrapFailed
  | Explicit
  | OutOfFuel.

(** [Result<A, E>], extended with the outcome in which the code panics. *)
Inductive res (E A : Type) :=
  | Ok (a : A)
  | Err (e : E)
  | Panic (p : panic).
Arguments Ok {E A} a.
Arguments Err {E A} e.
Arguments Panic {E A} p.

#[export] Instance res_ret {E} : MRet (res E) := fun A a => Ok a.
#[export] Instance res_bind {E} : MBind (res E) := fun A B k m =>
  match m with Ok a => k a | Err e => Err e | Panic p => Panic p end.
#[export] Instance res_fmap {E} : FMap (res E) := fun A B f m =>
  match m with Ok a => Ok (f a) | Err e => Err e | Panic p => Panic p end.

#[export] Instance panic_eq_dec : EqDecision panic.
Proof. solve_decision. Defined.

Definition is_ok {E A} (r : res E A) : bool :=
  match r with Ok _ => true | _ => false end.
Definition is_panic {E A} (r : res E A) : bool :=
  match r with Panic _ => true | _ => false end.

(** [Option::unwrap] and [Result::unwrap]/[expect]. *)
Definition unwrap {E A} (o : option A) : res E A :=
  match o with Some a => Ok a | None => Panic UnwrapFailed end.
Definition unwrap_res {E F A} (r : res F A) : res E A :=
  match r with Ok a => Ok a | Err _ => Panic UnwrapFailed | Panic p => Panic p end.
Definition map_err {E F A} (f : E -> F) (r : res E A) : res F A :=
  match r with Ok a => Ok a | Err e => Err (f e) | Panic p => Panic p end.

Section Res.
Context {E : Type}.

Lemma Ok_inj {A} (a b : A) : Ok (E := E) a = Ok b -> a = b.
Proof. congruence. Qed.

Lemma bind_Ok {A B} (m : res E A) (k : A -> res E B) b :
  m ≫= k = Ok b <-> exists a, m = Ok a /\ k a = Ok b.
Proof. destruct m; cbn; naive_solver. Qed.

Lemma bind_Panic {A B} (m : res E A) (k : A -> res E B) p :
  m ≫= k = Panic p <-> m = Panic p \/ exists a, m = Ok a /\ k a = Panic p.
Proof. destruct m; cbn; naive_solver. Qed.

Lemma bind_Err {A B} (m : res E A) (k : A -> res E B) e :
  m ≫= k = Err e <-> m = Err e \/ exists a, m = Ok a /\ k a = Err e.
Proof. destruct m; cbn; naive_solver. Qed.

Lemma bind_assoc {A B C} (m : res E A) (f : A -> res E B) (g : B -> res E C) :
  (m ≫= f) ≫= g = m ≫= (fun a => f a ≫= g).
Proof. by destruct m. Qed.

Lemma bind_is_panic {A B} (m : res E A) (k : A -> res E B) :
  is_panic m = false -> (forall a, m = Ok a -> is_panic (k a) = false) ->
  is_panic (m ≫= k) = false.
Proof. destruct m; cbn; auto. Qed.

Lemma not_panic_cases {A} (m : res E A) :
  is_panic m = false -> (exists a, m = Ok a) \/ (exists e, m = Err e).
Proof. destruct m; naive_solver. Qed.
End Res.

(** [simpl_bind] destructs every monadic equation of the context that ends in
    [Ok]; [res_step] reduces binds of known results. *)
Ltac simpl_bind :=
  repeat match goal with
  | H : _ ≫= _ = Ok _ |- _ =>
      apply bind_Ok in H; destruct H as (? & ? & H)
  | H : Ok _ = Ok _ |- _ => apply Ok_inj in H; subst
  | H : mret _ = Ok _ |- _ => apply Ok_inj in H; subst
  end.
Ltac res_step := cbn [mbind res_bind mret res_ret fmap res_fmap].

(** ** Errors of [std::io] *)
Inductive ErrorKind := InvalidInput | InvalidData | UnexpectedEof | WouldBlock | Other.
#[export] Instance ErrorKind_eq_dec : EqDecision ErrorKind.
Proof. solve_decision. Defined.

Record io_error := IoError { kind : ErrorKind; message : string }.

Abbreviation io_result := (res io_error).

(** ** Stateful code

    [M S E A] is code that reads and writes a state [S]; the state is kept when
    the code returns early with an error, as [&mut self] methods do. *)
Definition M (S E A : Type) : Type := S -> res E A * S.

#[export] Instance M_ret {S E} : MRet (M S E) := fun A a s => (Ok a, s).
#[export] Instance M_bind {S E} : MBind (M S E) := fun A B k m s =>
  match m s with
  | (Ok a, s') => k a s'
  | (Err e, s') => (Err e, s')
  | (Panic p, s') => (Panic p, s')
  end.

Definition modify {S E} (f : S -> S) : M S E unit := fun s => (Ok tt, f s).
Definition get_state {S E} : M S E S := fun s => (Ok s, s).
Definition lift {S E A} (r : res E A) : M S E A := fun s => (r, s).

(** [match m { Ok(a) => ok(a), Err(e) => err(e) }]. *)
Definition on_result {S E F A B} (m : M S E A) (ok : A -> M S F B) (err : E -> M S F B) : M S F B :=
  fun s =>
    match m s with
    | (Ok a, s') => ok a s'
    | (Err e, s') => err e s'
    | (Panic p, s') => (Panic p, s')
    end.

Lemma M_bind_Ok {S E A B} (m : M S E A) (k : A -> M S E B) s b s' :
  (m ≫= k) s = (Ok b, s') <-> exists a s1, m s = (Ok a, s1) /\ k a s1 = (Ok b, s').
Proof. unfold mbind, M_bind. destruct (m s) as [[] ?]; naive_solver. Qed.

Lemma M_bind_eq {S E A B} (m : M S E A) (k : A -> M S E B) s :
  (m ≫= k) s =
  match m s with (Ok a, s1) => k a s1 | (Err e, s1) => (Err e, s1) | (Panic p, s1) => (Panic p, s1) end.
Proof. reflexivity. Qed.
Lemma M_bind_run {S E A B} (m : M S E A) (k : A -> M S E B) s a s1 :
  m s = (Ok a, s1) -> (m ≫= k) s = k a s1.
Proof. intros H. unfold mbind, M_bind. by rewrite H. Qed.

(** Running the primitives. *)
Section RunM.
Context {S E A : Type}.
Lemma bind_modify (f : S -> S) (k : unit -> M S E A) s : (modify f ≫= k) s = k tt (f s).
Proof. reflexivity. Qed.
Lemma bind_get_state (k : S -> M S E A) s : (get_state ≫= k) s = k s s.
Proof. reflexivity. Qed.
Lemma bind_lift {B} (r : res E B) (k : B -> M S E A) s :
  (lift r ≫= k) s =
  match r with Ok b => k b s | Err e => (Err e, s) | Panic p => (Panic p, s) end.
Proof. by destruct r. Qed.
Lemma bind_ret {B} (b : B) (k : B -> M S E A) s : ((mret b : M S E B) ≫= k) s = k b s.
Proof. reflexivity. Qed.
End RunM.

(** *** Frames: code that leaves a part of the state alone, whatever its outcome *)
Section Frames.
Context {S E T : Type} (part : S -> T).

Definition frames {A} (m : M S E A) : Prop := forall s, part (m s).2 = part s.

Lemma frames_ret {A} (a : A) : frames (mret a).
Proof. done. Qed.
Lemma frames_lift {A} (r : res E A) : frames (lift r).
Proof. done. Qed.
Lemma frames_modify f : (forall s, part (f s) = part s) -> frames (modify f).
Proof. done. Qed.
Lemma frames_bind {A B} (m : M S E A) (f : A -> M S E B) :
  frames m -> (forall a, frames (f a)) -> frames (m ≫= f).
Proof.
  intros Hm Hf s. rewrite M_bind_eq. specialize (Hm s). destruct (m s) as [[a| |] s1]; cbn in *; try done.
  by rewrite Hf.
Qed.
Lemma frames_get {A} (f : S -> M S E A) : (forall s, frames (f s)) -> frames (get_state ≫= f).
Proof. intros Hf s. apply Hf. Qed.
End Frames.

Lemma frames_weaken {S E T T' A} (part : S -> T) (g : T -> T') (m : M S E A) :
  frames part m -> frames (fun s => g (part s)) m.
Proof. intros Hm s. by rewrite Hm. Qed.
Lemma frames_on_result {S E F T A B} (part : S -> T) (m : M S E A) (ok : A -> M S F B) err :
  frames part m -> (forall a, frames part (ok a)) -> (forall e, frames part (err e)) ->
  frames part (on_result m ok err).
Proof.
  intros Hm Hok Herr s. unfold on_result. specialize (Hm s). destruct (m s) as [[a|e|p] s1]; cbn in *; try done.
  - by rewrite Hok.
  - by rewrite Herr.
Qed.

Create HintDb frame discriminated.
#[export] Hint Resolve frames_ret frames_lift frames_bind frames_get frames_on_result : frame.
(** Walks through the structure of stateful code. *)
Ltac frame :=
  repeat match goal with
  | |- forall _, _ => intros ?
  | |- frames _ (modify _) => apply frames_modify; done
  | |- frames _ (match ?x with _ => _ end) => destruct x
  | |- frames _ (let '(_, _) := ?x in _) => destruct x
  | |- frames _ (get_state ≫= _) => apply frames_get
  | |- frames _ (_ ≫= _) => apply frames_bind
  | |- frames _ _ => solve [auto with frame]
  end.

(** ** Locks

    [std::sync::RwLock]: a thread that panics while it holds the write guard
    poisons the lock, and [read().unwrap()] and [write().unwrap()] panic from then
    on. *)
Record RwLock (A : Type) := mkLock { poisoned : bool; guarded : A }.
Arguments mkLock {A} poisoned guarded.
Arguments poisoned {A} r.
Arguments guarded {A} r.

Definition read_lock {E A} (l : RwLock A) : res E A :=
  if poisoned l then Panic UnwrapFailed else Ok (guarded l).

(** [m] run under the write guard of the lock. *)
Definition with_write {S E A} (m : M S E A) : M (RwLock S) E A := fun l =>
  if poisoned l then (Panic UnwrapFailed, l)
  else let '(o, s) := m (guarded l) in (o, mkLock (is_panic o) s).

(** ** Build profile

    Rust's integer arithmetic panics on overflow when overflow checks are
    compiled in (the debug profile) and wraps when they are not (the release
    profile, which the README tells users to build). *)
Class Profile := overflow_checks : bool.
Definition Debug : Profile := true.
Definition Release : Profile := false.

(** ** Lists indexed by [usize] *)
Definition zlen {A} (l : list A) : Z := Z.of_nat (length l).

Lemma zlen_nonneg {A} (l : list A) : (0 <= zlen l)%Z.
Proof. unfold zlen. lia. Qed.
Lemma zlen_app {A} (l k : list A) : zlen (l ++ k) = (zlen l + zlen k)%Z.
Proof. unfold zlen. rewrite length_app. lia. Qed.
Lemma zlen_nil {A} : zlen (@nil A) = 0%Z.
Proof. reflexivity. Qed.
Lemma zlen_cons {A} (x : A) l : zlen (x :: l) = (1 + zlen l)%Z.
Proof. unfold zlen. cbn [length]. lia. Qed.
Lemma zlen_replicate {A} n (x : A) : zlen (replicate n x) = Z.of_nat n.
Proof. unfold zlen. by rewrite length_replicate. Qed.
Lemma zlen_take_drop {A} (l : list A) (a n : Z) :
  (0 <= a)%Z -> (0 <= n)%Z -> (a + n <= zlen l)%Z ->
  zlen (take (Z.to_nat n) (drop (Z.to_nat a) l)) = n.
Proof. unfold zlen. rewrite length_take, length_drop. lia. Qed.

(** [&l[a..b]]. *)
Definition slice {E A} (l : list A) (a b : Z) : res E (list A) :=
  if bool_decide (0 <= a)%Z && bool_decide (a <= b)%Z && bool_decide (b <= zlen l)%Z
  then Ok (take (Z.to_nat (b - a)) (drop (Z.to_nat a) l))
  else Panic SliceRange.

(** [&l[a..]]. *)
Definition slice_from {E A} (l : list A) (a : Z) : res E (list A) :=
  if bool_decide (0 <= a)%Z && bool_decide (a <= zlen l)%Z
  then Ok (drop (Z.to_nat a) l)
  else Panic SliceRange.

(** [l[i]]. *)
Definition index {E A} (l : list A) (i : Z) : res E A :=
  match (if bool_decide (0 <= i)%Z then l !! Z.to_nat i else None) with
  | Some a => Ok a
  | None => Panic SliceRange
  end.

Lemma slice_ok {E A} (l : list A) a b :
  (0 <= a)%Z -> (a <= b)%Z -> (b <= zlen l)%Z ->
  slice l a b = Ok (E := E) (take (Z.to_nat (b - a)) (drop (Z.to_nat a) l)).
Proof. intros. unfold slice. by rewrite !bool_decide_true by done. Qed.

Lemma slice_Ok_inv {E A} (l : list A) a b r :
  slice l a b = Ok (E := E) r ->
  (0 <= a <= b)%Z /\ (b <= zlen l)%Z /\
  r = take (Z.to_nat (b - a)) (drop (Z.to_nat a) l).
Proof. unfold slice. repeat case_bool_decide; cbn; intros; naive_solver lia. Qed.

Lemma slice_app_mid {E A} (l m r : list A) :
  slice (l ++ m ++ r) (zlen l) (zlen l + zlen m) = Ok (E := E) m.
Proof.
  rewrite slice_ok; rewrite ?zlen_app; try (unfold zlen; lia).
  unfold zlen. rewrite Nat2Z.id, drop_app_length.
  replace (Z.to_nat _) with (length m) by lia. by rewrite take_app_length.
Qed.

Lemma slice_from_ok {E A} (l : list A) a :
  (0 <= a)%Z -> (a <= zlen l)%Z -> slice_from l a = Ok (E := E) (drop (Z.to_nat a) l).
Proof. intros. unfold slice_from. by rewrite !bool_decide_true by done. Qed.

(** ** Automation *)
Create HintDb cfnts discriminated.
#[export] Hint Resolve zlen_nonneg : cfnts.
Create Rewrite HintDb zlen.
#[export] Hint Rewrite @zlen_app @zlen_nil @zlen_cons @zlen_replicate : zlen.

Ltac zl := autorewrite with zlen in *; try lia.

(** [lia] with division and remainder by constants. *)
Ltac div_lia := Z.to_euclidean_division_equations; lia.

(** Splits every boolean test of the goal or the context into its two cases. *)
Ltac split_ifs :=
  repeat match goal with
  | |- context [if bool_decide ?P then _ else _] => case_bool_decide
  | H : context [if bool_decide ?P then _ else _] |- _ => case_bool_decide
  end.
