(* ===== verification/Words.v ===== *)
(** * Machine integers and bytes

    [u8], [u16], [u32], [u64], [usize] and [i8] values are integers kept in the
    range of their width; arithmetic that can leave the range says what Rust does
    then, which depends on the build profile.  A [Vec<u8>] or [&[u8]] is a
    [list byte], and [to_be_bytes]/[from_be_bytes] are [be_bytes]/[be_val]. *)

From stdpp Require Import prelude list numbers.
From Stdlib Require Import Strings.Byte.
From S2P Require Import Prelude.

Open Scope Z_scope.

Abbreviation byte := Byte.byte.
Abbreviation bytes := (list byte).

#[export] Instance byte_eq_decision : EqDecision byte := Byte.byte_eq_dec.

(** ** Fixed-width arithmetic *)
Definition wrap (w z : Z) : Z := z mod 2 ^ w.
Definition in_width (w z : Z) : Prop := 0 <= z < 2 ^ w.
Definition in_swidth (w z : Z) : Prop := - 2 ^ (w - 1) <= z < 2 ^ (w - 1).
#[export] Instance in_width_dec w z : Decision (in_width w z).
Proof. unfold in_width. apply _. Defined.
#[export] Instance in_swidth_dec w z : Decision (in_swidth w z).
Proof. unfold in_swidth. apply _. Defined.

(** The value of an unsigned operation whose mathematical result is [z]. *)
Definition fit {P : Profile} {E} (w z : Z) : res E Z :=
  if bool_decide (in_width w z) then Ok z
  else if overflow_checks then Panic ArithOverflow
  else Ok (wrap w z).

Definition uadd {P : Profile} {E} (w a b : Z) : res E Z := fit w (a + b).
(** The difference of two values of the type can only leave it downwards. *)
Definition usub {P : Profile} {E} (w a b : Z) : res E Z :=
  if bool_decide (b <= a) then Ok (a - b)
  else if overflow_checks then Panic ArithOverflow
  else Ok (wrap w (a - b)).
Definition umul {P : Profile} {E} (w a b : Z) : res E Z := fit w (a * b).

Definition checked (w z : Z) : option Z :=
  if bool_decide (in_width w z) then Some z else None.
Definition saturating_sub (a b : Z) : Z := Z.max 0 (a - b).
Definition saturating_add (w a b : Z) : Z := Z.min (2 ^ w - 1) (a + b).

Lemma wrap_range w z : 0 <= w -> in_width w (wrap w z).
Proof. intros. apply Z.mod_pos_bound, Z.pow_pos_nonneg; lia. Qed.
Lemma wrap_id w z : in_width w z -> wrap w z = z.
Proof. intros. by apply Z.mod_small. Qed.
Lemma wrap_neg w z : - 2 ^ w <= z < 0 -> wrap w z = z + 2 ^ w.
Proof. intros. symmetry. apply Z.mod_unique with (-1); lia. Qed.
Lemma fit_ok {P : Profile} {E} w z : in_width w z -> fit w z = Ok (E := E) z.
Proof. intros. unfold fit. by rewrite bool_decide_true. Qed.
Lemma fit_Ok_inv {P : Profile} {E} w z r :
  0 <= w -> fit w z = Ok (E := E) r -> in_width w r.
Proof.
  unfold fit. intros ? H. case_bool_decide; [naive_solver|].
  destruct overflow_checks; [done|]. injection H as <-. by apply wrap_range.
Qed.

Lemma usub_ok {P : Profile} {E} w a b : b <= a -> usub w a b = Ok (E := E) (a - b).
Proof. intros. unfold usub. by rewrite bool_decide_true. Qed.

Lemma usub_under {P : Profile} {E} w a b :
  a < b -> - 2 ^ w <= a - b ->
  usub w a b = if overflow_checks then Panic ArithOverflow else Ok (E := E) (a - b + 2 ^ w).
Proof. intros. unfold usub. by rewrite bool_decide_false, wrap_neg by lia. Qed.

(** ** Bytes as integers *)
Definition byte_val (b : byte) : Z := Z.of_N (Byte.to_N b).
Definition to_byte (z : Z) : byte := default x00 (Byte.of_N (Z.to_N (wrap 8 z))).

Lemma byte_val_range b : 0 <= byte_val b < 256.
Proof. unfold byte_val. pose proof (Byte.to_N_bounded b). lia. Qed.

Lemma byte_val_to_byte z : byte_val (to_byte z) = z mod 256.
Proof.
  unfold to_byte, byte_val, wrap. change (2 ^ 8) with 256.
  pose proof (Z.mod_pos_bound z 256 ltac:(lia)).
  destruct (Byte.of_N (Z.to_N (z mod 256))) as [b|] eqn:Hb; cbn.
  - apply Byte.to_of_N in Hb. rewrite Hb. lia.
  - apply Byte.of_N_None_iff in Hb. lia.
Qed.

Lemma byte_val_inj b c : byte_val b = byte_val c -> b = c.
Proof.
  unfold byte_val. intros H%N2Z.inj.
  pose proof (Byte.of_to_N b). pose proof (Byte.of_to_N c). congruence.
Qed.

Lemma to_byte_byte_val b : to_byte (byte_val b) = b.
Proof.
  apply byte_val_inj. rewrite byte_val_to_byte.
  apply Z.mod_small, byte_val_range.
Qed.

Lemma to_byte_mod z : to_byte (z mod 256) = to_byte z.
Proof. apply byte_val_inj. rewrite !byte_val_to_byte. by rewrite Z.mod_mod by lia. Qed.

(** [i8] in two's complement. *)
Definition byte_sval (b : byte) : Z :=
  if bool_decide (byte_val b < 128) then byte_val b else byte_val b - 256.

Lemma byte_sval_range b : in_swidth 8 (byte_sval b).
Proof.
  pose proof (byte_val_range b). unfold byte_sval, in_swidth.
  change (2 ^ (8 - 1)) with 128. case_bool_decide; lia.
Qed.
Lemma byte_sval_to_byte z : in_swidth 8 z -> byte_sval (to_byte z) = z.
Proof.
  unfold in_swidth, byte_sval. change (2 ^ (8 - 1)) with 128. intros.
  rewrite byte_val_to_byte. destruct (decide (0 <= z)).
  - rewrite Z.mod_small by lia. rewrite bool_decide_true; lia.
  - replace (z mod 256) with (z + 256).
    + rewrite bool_decide_false; lia.
    + apply Z.mod_unique with (-1); lia.
Qed.
Lemma to_byte_byte_sval b : to_byte (byte_sval b) = b.
Proof.
  apply byte_val_inj. rewrite byte_val_to_byte. unfold byte_sval.
  pose proof (byte_val_range b). case_bool_decide.
  - apply Z.mod_small; lia.
  - symmetry. apply Z.mod_unique with (-1); lia.
Qed.

(** ** Big-endian encodings *)
Fixpoint be_bytes (n : nat) (z : Z) : bytes :=
  match n with
  | O => []
  | S m => to_byte (Z.shiftr z (8 * Z.of_nat m)) :: be_bytes m z
  end.

Fixpoint be_val (l : bytes) : Z :=
  match l with
  | [] => 0
  | b :: l => byte_val b * 2 ^ (8 * zlen l) + be_val l
  end.

Lemma be_bytes_length n z : length (be_bytes n z) = n.
Proof. induction n; cbn; auto. Qed.
Lemma zlen_be_bytes n z : zlen (be_bytes n z) = Z.of_nat n.
Proof. unfold zlen. by rewrite be_bytes_length. Qed.

Lemma pow_8_succ n : 2 ^ (8 * Z.of_nat (S n)) = 256 * 2 ^ (8 * Z.of_nat n).
Proof.
  replace (8 * Z.of_nat (S n)) with (8 + 8 * Z.of_nat n) by lia.
  by rewrite Z.pow_add_r by lia.
Qed.

Lemma be_val_range l : 0 <= be_val l < 2 ^ (8 * zlen l).
Proof.
  induction l as [|b l IH]; cbn [be_val]; [split; [lia|reflexivity]|].
  pose proof (byte_val_range b). unfold zlen in *. cbn [length].
  rewrite pow_8_succ. nia.
Qed.

Lemma be_val_width l w : w = 8 * zlen l -> in_width w (be_val l).
Proof. intros ->. apply be_val_range. Qed.

Lemma be_val_be_bytes n z : be_val (be_bytes n z) = z mod 2 ^ (8 * Z.of_nat n).
Proof.
  induction n as [|n IH]; cbn [be_bytes be_val]; [by rewrite Z.mod_1_r|].
  rewrite IH, byte_val_to_byte, zlen_be_bytes, pow_8_succ, Z.shiftr_div_pow2 by lia.
  rewrite (Z.mul_comm 256), Z.rem_mul_r by lia. lia.
Qed.

Lemma be_val_roundtrip n z : in_width (8 * Z.of_nat n) z -> be_val (be_bytes n z) = z.
Proof. intros. rewrite be_val_be_bytes. by apply Z.mod_small. Qed.

Lemma be_val_inj l k : length l = length k -> be_val l = be_val k -> l = k.
Proof.
  revert k. induction l as [|b l IH]; intros [|c k]; cbn [length be_val]; try done.
  intros [= Hlen] H. pose proof (be_val_range l). pose proof (be_val_range k).
  unfold zlen in *. rewrite Hlen in *.
  assert (byte_val b = byte_val c) as Hb%byte_val_inj by nia.
  subst c. f_equal. apply IH; [done|]. lia.
Qed.

Lemma be_bytes_be_val l : be_bytes (length l) (be_val l) = l.
Proof.
  apply be_val_inj; [apply be_bytes_length|].
  apply be_val_roundtrip, be_val_width. done.
Qed.

Lemma be_bytes_val n l : length l = n -> be_bytes n (be_val l) = l.
Proof. intros <-. apply be_bytes_be_val. Qed.

#[export] Hint Rewrite zlen_be_bytes : zlen.
#[export] Hint Resolve be_val_range byte_val_range byte_sval_range wrap_range : cfnts.
