(* ===== verification/Cursor.v ===== *)
(** * [std::io::Cursor] over a byte slice, with the readers of [byteorder]

    A cursor is the slice and a position.  [read_exact] (behind every
    [read_u8]/[read_u16]/...) fails with [UnexpectedEof] when too few bytes are
    left; [read] into a zeroed [Vec] of [n] bytes is a short read that leaves the
    rest of the vector zero. *)

From stdpp Require Import prelude list numbers strings.
From Stdlib Require Import Strings.Byte.
From S2P Require Import Prelude Words.

Open Scope Z_scope.

Record cursor := Cursor { cbuf : bytes; cpos : Z }.

Definition cursor_new (b : bytes) : cursor := Cursor b 0.
Definition set_position (c : cursor) (p : Z) : cursor := Cursor (cbuf c) p.

(** The bytes from the position on (none when it is past the end). *)
Definition remaining (c : cursor) : bytes := drop (Z.to_nat (cpos c)) (cbuf c).

Definition read_exact (n : nat) (c : cursor) : io_result (bytes * cursor) :=
  if bool_decide (n <= length (remaining c))%nat
  then Ok (take n (remaining c), Cursor (cbuf c) (cpos c + Z.of_nat n))
  else Err (IoError UnexpectedEof "failed to fill whole buffer").

Definition read_be (n : nat) (c : cursor) : io_result (Z * cursor) :=
  '(b, c) ← read_exact n c; Ok (be_val b, c).

Definition read_u8 : cursor -> io_result (Z * cursor) := read_be 1.
Definition read_u16 : cursor -> io_result (Z * cursor) := read_be 2.
Definition read_u32 : cursor -> io_result (Z * cursor) := read_be 4.
Definition read_u64 : cursor -> io_result (Z * cursor) := read_be 8.
Definition read_i8 (c : cursor) : io_result (Z * cursor) :=
  '(b, c) ← read_exact 1 c; Ok (byte_sval (default x00 (head b)), c).

(** [let mut v = vec![0; n]; reader.read(&mut v)?], giving [v]. *)
Definition read_vec (n : Z) (c : cursor) : bytes * cursor :=
  let got := take (Z.to_nat n) (remaining c) in
  (got ++ replicate (Z.to_nat n - length got) x00, Cursor (cbuf c) (cpos c + zlen got)).

(** ** A cursor between what was read and what is left *)
Definition at_split (pre rest : bytes) : cursor := Cursor (pre ++ rest) (zlen pre).

Lemma remaining_at_split pre rest : remaining (at_split pre rest) = rest.
Proof. unfold remaining, at_split, zlen. cbn. by rewrite Nat2Z.id, drop_app_length. Qed.

Lemma cursor_new_split b : cursor_new b = at_split [] b.
Proof. reflexivity. Qed.

Lemma at_split_intro b p :
  0 <= p <= zlen b ->
  Cursor b p = at_split (take (Z.to_nat p) b) (drop (Z.to_nat p) b).
Proof.
  intros. unfold at_split. rewrite take_drop. f_equal.
  unfold zlen in *. rewrite length_take. lia.
Qed.

Lemma read_exact_split pre a rest n :
  length a = n -> read_exact n (at_split pre (a ++ rest)) = Ok (a, at_split (pre ++ a) rest).
Proof.
  intros <-. unfold read_exact. rewrite remaining_at_split, length_app.
  rewrite bool_decide_true by lia. rewrite take_app_length.
  unfold at_split. cbn. by rewrite <- app_assoc, zlen_app.
Qed.

Lemma read_exact_Ok_inv pre rest n r :
  read_exact n (at_split pre rest) = Ok r ->
  exists a rest', rest = a ++ rest' /\ length a = n /\ r = (a, at_split (pre ++ a) rest').
Proof.
  unfold read_exact. rewrite remaining_at_split. case_bool_decide; [|done].
  intros [= <-]. exists (take n rest), (drop n rest).
  rewrite take_drop, length_take. split_and!; [done|lia|].
  unfold at_split. cbn. rewrite <- app_assoc, take_drop, zlen_app.
  do 2 f_equal. unfold zlen. rewrite length_take. lia.
Qed.

Lemma read_be_split pre a rest n :
  length a = n -> read_be n (at_split pre (a ++ rest)) = Ok (be_val a, at_split (pre ++ a) rest).
Proof. intros. unfold read_be. by rewrite read_exact_split. Qed.

Lemma read_be_bytes pre n z rest :
  in_width (8 * Z.of_nat n) z ->
  read_be n (at_split pre (be_bytes n z ++ rest)) =
  Ok (z, at_split (pre ++ be_bytes n z) rest).
Proof. intros. rewrite read_be_split by apply be_bytes_length. by rewrite be_val_roundtrip. Qed.

Lemma read_be_Ok_inv pre rest n r :
  read_be n (at_split pre rest) = Ok r ->
  exists a rest', rest = a ++ rest' /\ length a = n /\ r = (be_val a, at_split (pre ++ a) rest').
Proof.
  unfold read_be. intros (p & H & E)%bind_Ok.
  apply read_exact_Ok_inv in H as (a & rest' & -> & ? & ->). injection E as <-. eauto.
Qed.

(** A read succeeds whenever enough bytes are left. *)
Lemma read_be_enough pre rest n :
  (n <= length rest)%nat ->
  read_be n (at_split pre rest) =
  Ok (be_val (take n rest), at_split (pre ++ take n rest) (drop n rest)).
Proof.
  intros. rewrite <- (take_drop n rest) at 1.
  apply read_be_split. rewrite length_take. lia.
Qed.

Lemma read_i8_split pre b rest :
  read_i8 (at_split pre (b :: rest)) = Ok (byte_sval b, at_split (pre ++ [b]) rest).
Proof. change (b :: rest) with ([b] ++ rest). unfold read_i8. by rewrite read_exact_split. Qed.

Lemma read_vec_split pre a rest n :
  n = zlen a -> read_vec n (at_split pre (a ++ rest)) = (a, at_split (pre ++ a) rest).
Proof.
  intros ->. unfold read_vec. rewrite remaining_at_split.
  assert (Z.to_nat (zlen a) = length a) as -> by (unfold zlen; lia).
  rewrite take_app_length, Nat.sub_diag. cbn. rewrite app_nil_r.
  unfold at_split. cbn. by rewrite <- app_assoc, zlen_app.
Qed.

(** A read longer than what is left consumes everything and pads with zeros. *)
Lemma read_vec_short pre rest n :
  zlen rest <= n ->
  read_vec n (at_split pre rest) =
  (rest ++ replicate (Z.to_nat n - length rest) x00, at_split (pre ++ rest) []).
Proof.
  intros. unfold read_vec. rewrite remaining_at_split.
  rewrite take_ge by (unfold zlen in *; lia).
  unfold at_split. by rewrite app_nil_r, zlen_app.
Qed.

Lemma read_vec_cases pre rest n :
  0 <= n ->
  (exists a rest', rest = a ++ rest' /\ zlen a = n /\
     read_vec n (at_split pre rest) = (a, at_split (pre ++ a) rest')) \/
  (zlen rest < n /\ read_vec n (at_split pre rest) =
     (rest ++ replicate (Z.to_nat n - length rest) x00, at_split (pre ++ rest) [])).
Proof.
  intros. destruct (decide (n <= zlen rest)).
  - left. exists (take (Z.to_nat n) rest), (drop (Z.to_nat n) rest).
    assert (zlen (take (Z.to_nat n) rest) = n).
    { unfold zlen in *. rewrite length_take. lia. }
    split_and!; [by rewrite take_drop|done|].
    rewrite <- (take_drop (Z.to_nat n) rest) at 1. by apply read_vec_split.
  - right. split; [lia|]. apply read_vec_short. lia.
Qed.

Lemma read_vec_length n c : 0 <= n -> zlen (read_vec n c).1 = n.
Proof.
  intros. unfold read_vec, zlen. cbn. rewrite length_app, length_replicate, length_take. lia.
Qed.
