(* ===== verification/Threads.v ===== *)
(** * Programs of threads and their interleaving

    A thread is a tree of calls: what it does to the state it shares with other
    threads is one [Call] at a time, and between two calls it computes on its own.
    The file holds the step relation of several such threads over a shared state,
    with steps of the surroundings in between; a weakest precondition for one thread
    that assumes of the others only which answers they let a call have; and the
    theorem that this is sound for every interleaving ([threads_sound]). *)

From stdpp Require Import prelude list numbers relations.
From S2P Require Import Prelude.

Section Programs.
Context {Op : Type} {Ans : Op -> Type}.

Inductive Prog (X : Type) : Type :=
  | Done (x : X)
  | Call (o : Op) (k : Ans o -> Prog X).
Arguments Done {X} x.
Arguments Call {X} o k.

Fixpoint pbind {X Y} (p : Prog X) (f : X -> Prog Y) : Prog Y :=
  match p with
  | Done x => f x
  | Call o k => Call o (fun a => pbind (k a) f)
  end.

(** The program alone on a state, and the calls it makes. *)
Fixpoint exec {S X} (h : forall o, S -> Ans o * S) (p : Prog X) (s : S) : X * S :=
  match p with
  | Done x => (x, s)
  | Call o k => let '(a, s') := h o s in exec h (k a) s'
  end.
Fixpoint calls {S X} (h : forall o, S -> Ans o * S) (p : Prog X) (s : S) : list Op :=
  match p with
  | Done x => []
  | Call o k => o :: calls h (k (h o s).1) (h o s).2
  end.

Lemma exec_bind {S X Y} (h : forall o, S -> Ans o * S) (p : Prog X) (f : X -> Prog Y) s :
  exec h (pbind p f) s = let '(x, s') := exec h p s in exec h (f x) s'.
Proof. revert s. induction p as [x|o k IH]; intros s; cbn; [done|]. by destruct (h o s). Qed.
Lemma calls_bind {S X Y} (h : forall o, S -> Ans o * S) (p : Prog X) (f : X -> Prog Y) s :
  calls h (pbind p f) s = calls h p s ++ calls h (f (exec h p s).1) (exec h p s).2.
Proof.
  revert s. induction p as [x|o k IH]; intros s; cbn; [done|]. rewrite IH. by destruct (h o s).
Qed.

(** ** Interleaving *)
Section Interleaving.
Context {S X : Type}.
(** How a call of a thread acts on the shared state, [None] when it has to wait, and
    what the surroundings may do to it. *)
Context (hand : nat -> forall o, S -> option (Ans o * S)) (env : S -> S -> Prop).

Record Config := mkConfig { progs : list (Prog X); shared : S; history : list (nat * Op) }.

Inductive pstep : Config -> Config -> Prop :=
  | pstep_call c i o k a s' :
      progs c !! i = Some (Call o k) -> hand i o (shared c) = Some (a, s') ->
      pstep c (mkConfig (<[i := k a]> (progs c)) s' (history c ++ [(i, o)]))
  | pstep_env c s' : env (shared c) s' -> pstep c (mkConfig (progs c) s' (history c)).

(** The calls of one thread. *)
Definition ops_of (i : nat) (h : list (nat * Op)) : list Op := map snd (filter (fun e => e.1 = i) h).

(** Running the threads by a list of turns. *)
Fixpoint run_turns (turns : list nat) (c : Config) : option Config :=
  match turns with
  | [] => Some c
  | i :: turns =>
    match progs c !! i with
    | Some (Call o k) =>
      match hand i o (shared c) with
      | Some (a, s') => run_turns turns (mkConfig (<[i := k a]> (progs c)) s' (history c ++ [(i, o)]))
      | None => None
      end
    | _ => None
    end
  end.

Lemma run_turns_steps turns c c' : run_turns turns c = Some c' -> rtc pstep c c'.
Proof.
  revert c. induction turns as [|i turns IH]; intros c; cbn; [by intros [= ->]|].
  destruct (progs c !! i) as [[|o k]|] eqn:Hi; [done| |done].
  destruct (hand i o (shared c)) as [[a s']|] eqn:Ha; [|done].
  intros H%IH. eapply rtc_l; [by eapply pstep_call|done].
Qed.

Lemma ops_of_app i h h' : ops_of i (h ++ h') = ops_of i h ++ ops_of i h'.
Proof. unfold ops_of. by rewrite filter_app, map_app. Qed.
Lemma ops_of_same i o : ops_of i [(i, o)] = [o].
Proof. unfold ops_of. by rewrite filter_cons_True. Qed.
Lemma ops_of_other i j o : j <> i -> ops_of i [(j, o)] = [].
Proof. intros. unfold ops_of. by rewrite filter_cons_False. Qed.

(** ** Schedules

    A schedule is a list of calls with their answers, each by one of the threads. *)
Fixpoint follows (p : Prog X) (l : list (sigT Ans)) (p' : Prog X) : Prop :=
  match l with
  | [] => p = p'
  | existT o a :: l => exists k, p = Call o k /\ follows (k a) l p'
  end.
Fixpoint plays (sched : list (nat * sigT Ans)) (s s' : S) : Prop :=
  match sched with
  | [] => s = s'
  | (i, existT o a) :: sched => exists s1, hand i o s = Some (a, s1) /\ plays sched s1 s'
  end.
Definition moves_of (i : nat) (sched : list (nat * sigT Ans)) : list (sigT Ans) :=
  map snd (filter (fun e => e.1 = i) sched).

Lemma moves_of_app i l l' : moves_of i (l ++ l') = moves_of i l ++ moves_of i l'.
Proof. unfold moves_of. by rewrite filter_app, map_app. Qed.
Lemma moves_of_block i j l : moves_of i (map (pair j) l) = if decide (i = j) then l else [].
Proof.
  unfold moves_of. induction l as [|m l IH]; cbn [map]; [by case_decide|]. case_decide as Hij.
  - subst j. rewrite filter_cons_True by done. cbn [map]. by rewrite IH.
  - by rewrite filter_cons_False by (cbn; congruence).
Qed.
Lemma plays_app l l' s1 s2 s3 : plays l s1 s2 -> plays l' s2 s3 -> plays (l ++ l') s1 s3.
Proof.
  revert s1. induction l as [|[i [o a]] l IH]; intros s1; cbn; [by intros ->|].
  intros (s & Ha & Hl) Hl'. exists s. split; [done|]. by apply IH.
Qed.

(** A schedule that every thread can follow, and whose answers are those of the
    shared state, is an execution. *)
Lemma schedule_runs sched c s' ps :
  plays sched (shared c) s' -> Forall (fun e => e.1 < length (progs c)) sched ->
  length ps = length (progs c) ->
  (forall i p p', progs c !! i = Some p -> ps !! i = Some p' -> follows p (moves_of i sched) p') ->
  exists c', rtc pstep c c' /\ progs c' = ps /\ shared c' = s'.
Proof.
  revert c. induction sched as [|[i [o a]] sched IH]; intros c Hp Hlt Hlen Hf.
  - exists c. split; [done|]. split; [|done]. apply list_eq_same_length with (length ps); [done|done|].
    intros j x y _ Hx Hy. exact (Hf j x y Hx Hy).
  - cbn [plays] in Hp. destruct Hp as (s1 & Ha & Hp). apply Forall_cons in Hlt as [Hi Hlt]. cbn in Hi.
    destruct (lookup_lt_is_Some_2 _ _ Hi) as [p Hpi].
    destruct (lookup_lt_is_Some_2 ps i) as [p' Hpi']; [by rewrite Hlen|].
    pose proof (Hf i p p' Hpi Hpi') as Hfi. unfold moves_of in Hfi. rewrite filter_cons_True in Hfi by done.
    destruct Hfi as (k & -> & Hfi).
    destruct (IH (mkConfig (<[i := k a]> (progs c)) s1 (history c ++ [(i, o)]))) as (c' & Hst & ? & ?).
    + done.
    + cbn. by rewrite length_insert.
    + cbn. by rewrite length_insert.
    + cbn [progs]. intros j q q' Hq Hq'. destruct (decide (i = j)) as [<-|Hne].
      * rewrite list_lookup_insert_eq in Hq by done. injection Hq as <-.
        assert (q' = p') as -> by congruence. exact Hfi.
      * rewrite list_lookup_insert_ne in Hq by done. pose proof (Hf j q q' Hq Hq') as Hj.
        unfold moves_of in Hj. by rewrite filter_cons_False in Hj.
    + exists c'. split; [|done]. eapply rtc_l; [by eapply pstep_call|done].
Qed.

(** ** One thread at a time

    [L] is what a thread knows of the shared state; [may l o a l'] says that a call
    [o] may be answered with [a] and leave it knowing [l']. *)
Section Rely.
Context {L : Type} (may : L -> forall o, Ans o -> L -> Prop).

Fixpoint wp {Y} (l : L) (p : Prog Y) (Q : L -> Y -> list Op -> Prop) : Prop :=
  match p with
  | Done x => Q l x []
  | Call o k => forall a l', may l o a l' -> wp l' (k a) (fun l'' x ops => Q l'' x (o :: ops))
  end.

Lemma wp_weaken {Y} l (p : Prog Y) (Q Q' : L -> Y -> list Op -> Prop) :
  (forall l' x ops, Q l' x ops -> Q' l' x ops) -> wp l p Q -> wp l p Q'.
Proof.
  revert l Q Q'. induction p as [x|o k IH]; intros l Q Q' HQ; cbn; [apply HQ|].
  intros H a l' Hm. eapply IH; [|by apply H]. intros. by apply HQ.
Qed.

Lemma wp_bind {Y Z} l (p : Prog Y) (f : Y -> Prog Z) (Q : L -> Z -> list Op -> Prop) :
  wp l p (fun l' x ops => wp l' (f x) (fun l'' y ops' => Q l'' y (ops ++ ops'))) -> wp l (pbind p f) Q.
Proof.
  revert l Q. induction p as [x|o k IH]; intros l Q; cbn; [done|].
  intros H a l' Hm. apply IH. by apply H.
Qed.

(** What a thread knows is true, its calls respect [may], and nothing that other
    threads or the surroundings do makes it false. *)
Context (knows : nat -> L -> S -> Prop).
Hypothesis knows_call : forall i l o s a s',
  knows i l s -> hand i o s = Some (a, s') -> exists l', may l o a l' /\ knows i l' s'.
Hypothesis knows_other : forall i j l o s a s',
  i <> j -> knows i l s -> hand j o s = Some (a, s') -> knows i l s'.
Hypothesis knows_env : forall i l s s', knows i l s -> env s s' -> knows i l s'.

Definition thread_ok (Q : nat -> X -> list Op -> Prop) (c : Config) : Prop :=
  forall i p, progs c !! i = Some p ->
    exists l, knows i l (shared c) /\ wp l p (fun _ x ops => Q i x (ops_of i (history c) ++ ops)).

Lemma thread_ok_step Q c c' : pstep c c' -> thread_ok Q c -> thread_ok Q c'.
Proof.
  intros Hst Hok. destruct Hst as [c i o k a s' Hi Ha|c s' He]; intros j p Hj; cbn [progs shared history] in *.
  - destruct (Hok i _ Hi) as (l & Hl & Hwp). rewrite ops_of_app. destruct (decide (i = j)) as [<-|Hne].
    + rewrite list_lookup_insert_eq in Hj by (by eapply lookup_lt_Some). injection Hj as <-.
      destruct (knows_call _ _ _ _ _ _ Hl Ha) as (l' & Hm & Hl'). exists l'. split; [done|].
      rewrite ops_of_same. eapply wp_weaken; [|by apply Hwp]. intros l2 x ops. cbn. by rewrite <- app_assoc.
    + rewrite list_lookup_insert_ne in Hj by done. destruct (Hok j p Hj) as (lj & Hlj & Hwj).
      exists lj. split; [by eapply knows_other|]. by rewrite ops_of_other, app_nil_r by done.
  - destruct (Hok j p Hj) as (l & Hl & Hwp). exists l. split; [by eapply knows_env|done].
Qed.

(** A thread whose program satisfies its weakest precondition ends, in any
    interleaving, in its postcondition. *)
Lemma threads_sound Q c c' i x :
  thread_ok Q c -> rtc pstep c c' -> progs c' !! i = Some (Done x) -> Q i x (ops_of i (history c')).
Proof.
  intros Hok Hst Hi. assert (thread_ok Q c') as Hok'.
  { clear Hi. induction Hst as [|c1 c2 c3 H1 _ IH]; [done|]. apply IH. by eapply thread_ok_step. }
  destruct (Hok' i _ Hi) as (l & _ & H). cbn in H. by rewrite app_nil_r in H.
Qed.
End Rely.

(** ** Totals over an interleaving *)
Definition total (f : Op -> Z) (l : list Op) : Z := foldr (fun o n => f o + n)%Z 0%Z l.

Lemma total_app f l l' : total f (l ++ l') = (total f l + total f l')%Z.
Proof. unfold total. induction l as [|o l IH]; cbn; [done|]. rewrite IH. lia. Qed.

Lemma total_split f n h :
  Forall (fun e => e.1 < n) h ->
  total f (map snd h) = foldr Z.add 0%Z (map (fun i => total f (ops_of i h)) (seq 0 n)).
Proof.
  intros Hh. induction h as [|[j o] h IH] using rev_ind; cbv beta in *.
  { cbn. clear. induction (seq 0 n) as [|i l IH]; cbn; [done|]. by rewrite <- IH. }
  apply Forall_app in Hh as [Hh [Hj _]%Forall_cons]. cbn in Hj. rewrite map_app, total_app, IH by done.
  assert (forall l, NoDup l -> foldr Z.add 0%Z (map (fun i => total f (ops_of i (h ++ [(j, o)]))) l) =
    (foldr Z.add 0%Z (map (fun i => total f (ops_of i h)) l) + if decide (j ∈ l) then f o else 0)%Z) as Hsum.
  { clear. induction 1 as [|i l Hi _ IH]; [by rewrite decide_False by set_solver|]. cbn [map foldr].
    rewrite IH, ops_of_app, total_app. destruct (decide (j = i)) as [->|Hne].
    - rewrite ops_of_same, decide_False, decide_True by set_solver. change (total f [o]) with (f o + 0)%Z. lia.
    - rewrite ops_of_other by done. change (total f []) with 0%Z. destruct (decide (j ∈ l)).
      + rewrite decide_True by set_solver. lia.
      + rewrite decide_False by set_solver. lia. }
  rewrite Hsum by apply NoDup_seq. rewrite decide_True by (apply elem_of_seq; lia).
  change (total f (map snd [(j, o)])) with (f o + 0)%Z. lia.
Qed.
End Interleaving.
End Programs.
Arguments Prog {Op} Ans X.
Arguments Done {Op Ans X} x.
Arguments Call {Op Ans X} o k.
Arguments Config {Op} Ans S X.

(** An execution whose surroundings move only to states of that execution. *)
Section Visited.
Context {Op : Type} {Ans : Op -> Type} {S X : Type}.
Context (hand : nat -> forall o : Op, S -> option (Ans o * S)) (env : S -> S -> Prop).

Definition visited (c c' : Config Ans S X) (s : S) : Prop :=
  exists c1, rtc (pstep hand env) c c1 /\ rtc (pstep hand env) c1 c' /\ shared c1 = s.

Lemma visited_steps c c' :
  rtc (pstep hand env) c c' -> rtc (pstep hand (fun s s' => env s s' /\ visited c c' s')) c c'.
Proof.
  intros Hst. cut (forall c1, rtc (pstep hand env) c c1 -> rtc (pstep hand env) c1 c' ->
    rtc (pstep hand (fun s s' => env s s' /\ visited c c' s')) c1 c'); [intros H; by apply H|].
  clear Hst. intros c1 H0 H1. revert H0. induction H1 as [c1|c1 c2 c3 H12 H23 IH]; intros H0; [done|].
  assert (rtc (pstep hand env) c c2) as H02 by (by eapply rtc_r).
  eapply rtc_l; [|by apply IH]. destruct H12 as [c1 i o k a s' Hi Ha|c1 s' He]; [by eapply pstep_call|].
  apply pstep_env. split; [done|]. eexists. by split_and!.
Qed.
End Visited.

(** ** Code of a thread

    A fallible program with a state [R] of the thread's own. *)
Definition Code {Op : Type} (Ans : Op -> Type) (R E X : Type) : Type := R -> Prog Ans (res E X * R).

Section Code.
Context {Op : Type} {Ans : Op -> Type} {R E : Type}.

#[export] Instance Code_ret : MRet (Code Ans R E) := fun X x r => Done (Ok x, r).
#[export] Instance Code_bind : MBind (Code Ans R E) := fun X Y k t r =>
  pbind (t r) (fun '(o, r') =>
    match o with Ok x => k x r' | Err e => Done (Err e, r') | Panic p => Done (Panic p, r') end).

Definition lift_t {X} (o : res E X) : Code Ans R E X := fun r => Done (o, r).
Definition on_rng_t {X} (m : M R E X) : Code Ans R E X := fun r => Done (m r).
Definition access (o : Op) : Code Ans R E (Ans o) := fun r => Call o (fun a => Done (Ok a, r)).
Definition on_result_t {X Y} (t : Code Ans R E X) (ok : X -> Code Ans R E Y) (err : E -> Code Ans R E Y) :
    Code Ans R E Y := fun r =>
  pbind (t r) (fun '(o, r') =>
    match o with Ok x => ok x r' | Err e => err e r' | Panic p => Done (Panic p, r') end).

(** *** The same code on a state

    [m] is code on a state that has the thread's own part in it ([own], [set_own]);
    the program, alone on that state and with that part, does what the code does. *)
Section ProgramOf.
Context {S : Type} {h : forall o : Op, S -> Ans o * S} {own : S -> R} {set_own : R -> S -> S}.

Definition program_of {X} (t : Code Ans R E X) (m : M S E X) : Prop := forall s r0,
  let '(o, s') := m s in exec h (t (own s)) (set_own r0 s) = ((o, own s'), set_own r0 s').

Lemma program_ret {X} (x : X) : program_of (mret x) (mret x).
Proof. done. Qed.
Lemma program_lift {X} (o : res E X) : program_of (lift_t o) (lift o).
Proof. done. Qed.
Lemma program_bind {X Y} (t : Code Ans R E X) (m : M S E X) (f : X -> Code Ans R E Y) (k : X -> M S E Y) :
  program_of t m -> (forall x, program_of (f x) (k x)) -> program_of (t ≫= f) (m ≫= k).
Proof.
  intros Ht Hf s r0. rewrite M_bind_eq. unfold mbind, Code_bind. rewrite exec_bind.
  specialize (Ht s r0). destruct (m s) as [[x|e|p] s']; rewrite Ht; cbn; [|done..]. apply Hf.
Qed.
Lemma program_on_result {X Y} (t : Code Ans R E X) (m : M S E X) (f : X -> Code Ans R E Y) (k : X -> M S E Y)
    (fe : E -> Code Ans R E Y) (ke : E -> M S E Y) :
  program_of t m -> (forall x, program_of (f x) (k x)) -> (forall e, program_of (fe e) (ke e)) ->
  program_of (on_result_t t f fe) (on_result m k ke).
Proof.
  intros Ht Hf He s r0. unfold on_result, on_result_t. rewrite exec_bind.
  specialize (Ht s r0). destruct (m s) as [[x|e|p] s']; rewrite Ht; cbn; [apply Hf|apply He|done].
Qed.
Lemma program_ext {X} (t : Code Ans R E X) (m m' : M S E X) :
  (forall s, m s = m' s) -> program_of t m -> program_of t m'.
Proof. intros He Ht s r0. rewrite <- He. apply Ht. Qed.
End ProgramOf.
End Code.
