(* ===== verification/Crypto.v ===== *)
(** * The cryptographic services the program calls

    [miscreant::aead::Aes128SivAead], [ring::hmac] and [rand::thread_rng] are
    other packages.  They are parameters of the model, given as classes of
    operations; what the program relies on is a second class of laws.

    - [Aead]: [seal key nonce ad plaintext] and [open key nonce ad ciphertext].
      AES-SIV (RFC 5297) prepends a 16-byte synthetic IV to a ciphertext of the
      plaintext's length, decryption inverts encryption, and, encryption being
      deterministic with a recomputed IV, a ciphertext that opens to [p] is the
      sealing of [p].
    - [Hmac]: HMAC-SHA256, whose tag has 32 bytes.
    - [Rng]: [fill n] draws [n] bytes and moves the generator on. *)

From stdpp Require Import prelude list numbers.
From Stdlib Require Import Strings.Byte.
From S2P Require Import Prelude Words.

Open Scope Z_scope.

Class Aead := {
  seal : bytes -> bytes -> bytes -> bytes -> bytes;
  open : bytes -> bytes -> bytes -> bytes -> option bytes;
}.

Class AeadLaws (A : Aead) : Prop := {
  seal_length key nonce ad p : length (seal key nonce ad p) = (length p + 16)%nat;
  open_seal key nonce ad p : open key nonce ad (seal key nonce ad p) = Some p;
  open_sound key nonce ad c p : open key nonce ad c = Some p -> c = seal key nonce ad p;
}.

Class Hmac := sign : bytes -> bytes -> bytes.
Class HmacLaws (H : Hmac) : Prop := { sign_length key v : length (sign key v) = 32%nat }.

Class Rng (R : Type) := fill : nat -> R -> bytes * R.
Class RngLaws {R} (G : Rng R) : Prop := { fill_length n r : length (fill n r).1 = n }.

(** What [open_sound] and [seal_length] give together. *)
Lemma open_length `{L : AeadLaws} key nonce ad c p :
  open key nonce ad c = Some p -> length c = (length p + 16)%nat.
Proof. intros ->%open_sound. apply seal_length. Qed.

Lemma seal_inj `{L : AeadLaws} key nonce ad p q :
  seal key nonce ad p = seal key nonce ad q -> p = q.
Proof.
  intros E. pose proof (open_seal key nonce ad p) as H.
  rewrite E, open_seal in H. congruence.
Qed.

(** ** Concrete instances

    Small executable functions that satisfy the laws: they show that the laws
    can hold and let the definitions be evaluated on concrete inputs. *)
Module Toy.
(** A checksum of its arguments that depends on every byte and its place. *)
Definition digest (l : bytes) : Z :=
  foldl (fun acc b => (acc * 31 + byte_val b + 7) mod 2 ^ 64) 17 l.

Definition tag (key nonce ad p : bytes) : bytes :=
  be_bytes 8 (digest (key ++ nonce)) ++ be_bytes 8 (digest (key ++ ad ++ x00 :: p)).

Definition toy_seal (key nonce ad p : bytes) : bytes := tag key nonce ad p ++ p.
Definition toy_open (key nonce ad c : bytes) : option bytes :=
  if bool_decide (take 16 c = tag key nonce ad (drop 16 c)) then Some (drop 16 c) else None.

#[export] Instance toy_aead : Aead := { seal := toy_seal; open := toy_open }.

Lemma tag_length key nonce ad p : length (tag key nonce ad p) = 16%nat.
Proof. reflexivity. Qed.

Lemma toy_open_seal key nonce ad p : toy_open key nonce ad (toy_seal key nonce ad p) = Some p.
Proof.
  unfold toy_open, toy_seal.
  rewrite drop_app_length', take_app_length' by done.
  by rewrite bool_decide_true.
Qed.

#[export] Instance toy_aead_laws : AeadLaws toy_aead.
Proof.
  split.
  - intros. cbn [seal toy_aead]. unfold toy_seal. rewrite length_app, tag_length. lia.
  - intros. apply toy_open_seal.
  - intros key nonce ad c p. cbn [seal open toy_aead]. unfold toy_open.
    case_bool_decide as H; [|done]. intros [= <-]. unfold toy_seal.
    by rewrite <- H, take_drop.
Qed.

#[export] Instance toy_hmac : Hmac := fun key v =>
  be_bytes 8 (digest (key ++ v)) ++ be_bytes 8 (digest (v ++ key)) ++ replicate 16 x2a.
#[export] Instance toy_hmac_laws : HmacLaws toy_hmac.
Proof. split. reflexivity. Qed.

(** A generator that counts its draws. *)
#[export] Instance toy_rng : Rng Z := fun n r => (replicate n (to_byte r), r + 1).
#[export] Instance toy_rng_laws : RngLaws toy_rng.
Proof. split. intros. apply length_replicate. Qed.
End Toy.
