(* ===== verification/NtpProtocol.v ===== *)
(** * src/ntp/protocol.rs: the NTP and NTS packet formats

    The data types, the bit-packed first byte, the 48-byte header, extension
    fields, and NTS packets with their authenticator.  A decryptor or encryptor
    object ([T: Aead]) is the key it was created with. *)

From stdpp Require Import prelude list numbers strings.
From Stdlib Require Import Strings.Byte.
From S2P Require Import Prelude Words Cursor Crypto.

Open Scope Z_scope.

Definition VERSION : Z := 4.
Definition UNIX_OFFSET : Z := 2208988800.
Definition HEADER_SIZE : Z := 48.
Definition NONCE_LEN : nat := 16.
Definition EXT_TYPE_UNIQUE_IDENTIFIER : Z := 0x0104.
Definition EXT_TYPE_NTS_COOKIE : Z := 0x0204.
Definition EXT_TYPE_NTS_COOKIE_PLACEHOLDER : Z := 0x0304.
Definition EXT_TYPE_NTS_AUTHENTICATOR : Z := 0x0404.

Inductive LeapState := NoLeap | Positive | Negative | LeapUnknown.
Inductive PacketMode :=
  SymmetricActive | SymmetricPassive | Client | Server | Broadcast | Invalid.
Inductive NtpExtensionType :=
  | UniqueIdentifier
  | NTSCookie
  | NTSCookiePlaceholder
  | NTSAuthenticator
  | Unknown (y : Z).

#[export] Instance LeapState_eq_dec : EqDecision LeapState.
Proof. solve_decision. Defined.
#[export] Instance PacketMode_eq_dec : EqDecision PacketMode.
Proof. solve_decision. Defined.
#[export] Instance NtpExtensionType_eq_dec : EqDecision NtpExtensionType.
Proof. solve_decision. Defined.

(** [leap as u8], [mode as u8]: the declared discriminants, [Invalid] taking the
    one after [Broadcast]. *)
Definition leap_u8 (l : LeapState) : Z :=
  match l with NoLeap => 0 | Positive => 1 | Negative => 2 | LeapUnknown => 3 end.
Definition mode_u8 (m : PacketMode) : Z :=
  match m with
  | SymmetricActive => 1 | SymmetricPassive => 2 | Client => 3 | Server => 4
  | Broadcast => 5 | Invalid => 6
  end.

Definition wire_type (x : NtpExtensionType) : Z :=
  match x with
  | UniqueIdentifier => EXT_TYPE_UNIQUE_IDENTIFIER
  | NTSCookie => EXT_TYPE_NTS_COOKIE
  | NTSCookiePlaceholder => EXT_TYPE_NTS_COOKIE_PLACEHOLDER
  | NTSAuthenticator => EXT_TYPE_NTS_AUTHENTICATOR
  | Unknown y => y
  end.

Definition type_from_wire (ext : Z) : NtpExtensionType :=
  if bool_decide (ext = EXT_TYPE_UNIQUE_IDENTIFIER) then UniqueIdentifier
  else if bool_decide (ext = EXT_TYPE_NTS_COOKIE) then NTSCookie
  else if bool_decide (ext = EXT_TYPE_NTS_COOKIE_PLACEHOLDER) then NTSCookiePlaceholder
  else if bool_decide (ext = EXT_TYPE_NTS_AUTHENTICATOR) then NTSAuthenticator
  else Unknown ext.

Record NtpPacketHeader := mkHeader {
  leap_indicator : LeapState;
  version : Z;
  mode : PacketMode;
  stratum : Z;
  poll : Z;
  precision : Z;
  root_delay : Z;
  root_dispersion : Z;
  reference_id : Z;
  reference_timestamp : Z;
  origin_timestamp : Z;
  receive_timestamp : Z;
  transmit_timestamp : Z;
}.

Record NtpExtension := mkExt { ext_type : NtpExtensionType; contents : bytes }.

Record NtsPacket := mkNts {
  nts_header : NtpPacketHeader;
  auth_exts : list NtpExtension;
  auth_enc_exts : list NtpExtension;
}.

Record NtpPacket := mkNtp { header : NtpPacketHeader; exts : list NtpExtension }.

(** ** The first byte *)
Definition parse_leap_indicator (first : Z) : LeapState :=
  let x := Z.shiftr first 6 in
  if bool_decide (x = 0) then NoLeap
  else if bool_decide (x = 1) then Positive
  else if bool_decide (x = 2) then Negative
  else LeapUnknown.

Definition parse_version (first : Z) : Z := Z.shiftr (Z.land first 0x38) 3.

Definition parse_mode (first : Z) : PacketMode :=
  let modnum := Z.land first 0x07 in
  if bool_decide (modnum = 1) then SymmetricActive
  else if bool_decide (modnum = 2) then SymmetricPassive
  else if bool_decide (modnum = 3) then Client
  else if bool_decide (modnum = 4) then Server
  else if bool_decide (modnum = 5) then Broadcast
  else Invalid.

Definition create_first (leap : LeapState) (version : Z) (mode : PacketMode) : Z :=
  Z.lor (Z.lor (wrap 8 (Z.shiftl (leap_u8 leap) 6))
               (Z.land (wrap 8 (Z.shiftl version 3)) 0x38))
        (Z.land (mode_u8 mode) 0x07).

(** ** Headers *)
Definition parse_packet_header (packet : bytes) : io_result NtpPacketHeader :=
  let buff := cursor_new packet in
  if bool_decide (zlen packet < 48) then Err (IoError InvalidInput "Too short")
  else
    '(first, buff) ← read_u8 buff;
    '(stratum, buff) ← read_u8 buff;
    '(poll, buff) ← read_i8 buff;
    '(precision, buff) ← read_i8 buff;
    '(root_delay, buff) ← read_u32 buff;
    '(root_dispersion, buff) ← read_u32 buff;
    '(reference_id, buff) ← read_u32 buff;
    '(ref_timestamp, buff) ← read_u64 buff;
    '(origin_timestamp, buff) ← read_u64 buff;
    '(receive_timestamp, buff) ← read_u64 buff;
    '(transmit_timestamp, buff) ← read_u64 buff;
    Ok {|
      leap_indicator := parse_leap_indicator first;
      version := parse_version first;
      mode := parse_mode first;
      stratum := stratum;
      poll := poll;
      precision := precision;
      root_delay := root_delay;
      root_dispersion := root_dispersion;
      reference_id := reference_id;
      reference_timestamp := ref_timestamp;
      origin_timestamp := origin_timestamp;
      receive_timestamp := receive_timestamp;
      transmit_timestamp := transmit_timestamp;
    |}.

Definition serialize_header (head : NtpPacketHeader) : bytes :=
  let first := create_first (leap_indicator head) (version head) (mode head) in
  be_bytes 1 first ++
  be_bytes 1 (stratum head) ++
  be_bytes 1 (poll head) ++
  be_bytes 1 (precision head) ++
  be_bytes 4 (root_delay head) ++
  be_bytes 4 (root_dispersion head) ++
  be_bytes 4 (reference_id head) ++
  be_bytes 8 (reference_timestamp head) ++
  be_bytes 8 (origin_timestamp head) ++
  be_bytes 8 (receive_timestamp head) ++
  be_bytes 8 (transmit_timestamp head).

(** ** Extension fields *)
Fixpoint parse_extensions_loop {P : Profile} (fuel : nat) (buff : bytes) (reader : cursor)
    (retval : list NtpExtension) : io_result (list NtpExtension) :=
  match fuel with
  | O => Panic OutOfFuel
  | S fuel =>
    left ← usub 64 (zlen buff) (cpos reader);
    if bool_decide (4 <= left) then
      '(ext_type, reader) ← read_u16 reader;
      '(ext_len, reader) ← read_u16 reader;
      if bool_decide (ext_len mod 4 ≠ 0) then
        Err (IoError InvalidInput "extension not on word boundary")
      else if bool_decide (ext_len < 4) then
        Err (IoError InvalidInput "extension too short")
      else
        n ← usub 16 ext_len 4;
        let '(contents, reader) := read_vec n reader in
        parse_extensions_loop fuel buff reader
          (retval ++ [mkExt (type_from_wire ext_type) contents])
    else Ok retval
  end.

(** Each round of the loop consumes at least four bytes of [buff]. *)
Definition parse_extensions {P : Profile} (buff : bytes) : io_result (list NtpExtension) :=
  parse_extensions_loop (S (length buff)) buff (cursor_new buff) [].

Definition parse_ntp_packet {P : Profile} (buff : bytes) : io_result NtpPacket :=
  header ← parse_packet_header buff;
  rest ← slice_from buff 48;
  extensions ← parse_extensions rest;
  Ok (mkNtp header extensions).

Fixpoint serialize_extensions {E} (exts : list NtpExtension) : res E bytes :=
  match exts with
  | [] => Ok []
  | ext :: exts =>
    if bool_decide (zlen (contents ext) mod 4 ≠ 0) then Panic Explicit
    else
      rest ← serialize_extensions exts;
      Ok (be_bytes 2 (wire_type (ext_type ext)) ++
          be_bytes 2 (wrap 16 (zlen (contents ext) + 4)) ++
          contents ext ++ rest)
  end.

Definition serialize_ntp_packet {E} (pack : NtpPacket) : res E bytes :=
  rest ← serialize_extensions (exts pack);
  Ok (serialize_header (header pack) ++ rest).

Definition has_extension (pack : NtpPacket) (kind : NtpExtensionType) : bool :=
  existsb (fun ext => bool_decide (ext_type ext = kind)) (exts pack).

Definition is_nts_packet (pack : NtpPacket) : bool :=
  has_extension pack NTSCookie
  && has_extension pack NTSAuthenticator
  && has_extension pack UniqueIdentifier.

Definition extract_extension (pack : NtpPacket) (kind : NtpExtensionType) : option NtpExtension :=
  List.find (fun ext => bool_decide (ext_type ext = kind)) (exts pack).

(** ** NTS packets *)
Section Nts.
Context {P : Profile} {A : Aead}.

Definition parse_decrypt_auth_ext (auth_dat auth_ext_contents key : bytes) : io_result bytes :=
  let reader := cursor_new auth_ext_contents in
  left ← usub 64 (zlen auth_ext_contents) (cpos reader);
  if bool_decide (left < 4) then Err (IoError InvalidInput "insufficient length")
  else
    '(nonce_len, reader) ← read_u16 reader;
    '(cipher_len, reader) ← read_u16 reader;
    let nonce_pad_len := nonce_len + ((4 - (nonce_len mod 4)) mod 4) in
    let cipher_pad_len := cipher_len + ((4 - (cipher_len mod 4)) mod 4) in
    if bool_decide (nonce_pad_len + cipher_pad_len + 4 > zlen auth_ext_contents) then
      Err (IoError InvalidInput "length of data exceeds wrapper")
    else
      nonce ← slice auth_ext_contents 4 (4 + nonce_len);
      ciphertext ← slice auth_ext_contents (4 + nonce_pad_len) (4 + nonce_pad_len + cipher_len);
      match open key nonce auth_dat ciphertext with
      | None => Err (IoError InvalidInput "authentication failed")
      | Some res => Ok res
      end.

Fixpoint parse_nts_loop (fuel : nat) (hdr : NtpPacketHeader) (buff key : bytes)
    (reader : cursor) (auth_exts : list NtpExtension) : io_result NtsPacket :=
  match fuel with
  | O => Panic OutOfFuel
  | S fuel =>
    left ← usub 64 (zlen buff) (cpos reader);
    if bool_decide (4 <= left) then
      '(ext_type, reader) ← read_u16 reader;
      '(l, reader) ← read_u16 reader;
      ext_len ← usub 16 l 4;
      if bool_decide (type_from_wire ext_type = NTSAuthenticator) then
        let '(auth_ext_contents, reader) := read_vec ext_len reader in
        p ← usub 64 (cpos reader) 4;
        oldpos ← usub 64 p ext_len;
        auth_dat ← slice buff 0 oldpos;
        enc_ext_data ← parse_decrypt_auth_ext auth_dat auth_ext_contents key;
        enc_exts ← parse_extensions enc_ext_data;
        Ok (mkNts hdr auth_exts enc_exts)
      else
        let '(contents, reader) := read_vec ext_len reader in
        parse_nts_loop fuel hdr buff key reader
          (auth_exts ++ [mkExt (type_from_wire ext_type) contents])
    else Err (IoError InvalidInput "never saw the authenticator")
  end.

Definition parse_nts_packet (buff key : bytes) : io_result NtsPacket :=
  header ← parse_packet_header buff;
  parse_nts_loop (S (length buff)) header buff key
    (set_position (cursor_new buff) HEADER_SIZE) [].
End Nts.

Section Serialize.
Context {A : Aead} {R : Type} {G : Rng R}.

(** [rand::thread_rng().fill(&mut buf)] on a buffer of [n] bytes. *)
Definition rng_fill {E} (n : nat) : M R E bytes := fun r =>
  let '(b, r) := fill n r in (Ok b, r).

Definition serialize_nts_packet {E} (packet : NtsPacket) (key : bytes) : M R E bytes :=
  exts ← lift (serialize_extensions (auth_exts packet));
  let buff := serialize_header (nts_header packet) ++ exts in
  plaintext ← lift (serialize_extensions (auth_enc_exts packet));
  nonce ← rng_fill NONCE_LEN;
  let ciphertext := seal key nonce buff plaintext in
  let padlen := (4 - (zlen ciphertext mod 4)) mod 4 in
  let authent_buffer :=
    be_bytes 2 (Z.of_nat NONCE_LEN) ++
    be_bytes 2 (wrap 16 (zlen ciphertext)) ++
    nonce ++ ciphertext ++ replicate (Z.to_nat padlen) x00 in
  let last_ext := mkExt NTSAuthenticator authent_buffer in
  res ← lift (serialize_extensions [last_ext]);
  mret (buff ++ res).
End Serialize.

(** ** Well-formed packets *)

(** The values the Rust types of the fields can hold. *)
Definition header_wf (h : NtpPacketHeader) : Prop :=
  in_width 8 (version h) /\ in_width 8 (stratum h) /\
  in_swidth 8 (poll h) /\ in_swidth 8 (precision h) /\
  in_width 32 (root_delay h) /\ in_width 32 (root_dispersion h) /\
  in_width 32 (reference_id h) /\ in_width 64 (reference_timestamp h) /\
  in_width 64 (origin_timestamp h) /\ in_width 64 (receive_timestamp h) /\
  in_width 64 (transmit_timestamp h).

Definition set_version (v : Z) (h : NtpPacketHeader) : NtpPacketHeader :=
  mkHeader (leap_indicator h) v (mode h) (stratum h) (poll h) (precision h)
    (root_delay h) (root_dispersion h) (reference_id h) (reference_timestamp h)
    (origin_timestamp h) (receive_timestamp h) (transmit_timestamp h).

(** An extension whose type is one the wire format can tell apart and whose
    contents the two-byte length field and the alignment rule can carry. *)
Definition ext_wf (e : NtpExtension) : Prop :=
  in_width 16 (wire_type (ext_type e)) /\
  type_from_wire (wire_type (ext_type e)) = ext_type e /\
  zlen (contents e) mod 4 = 0 /\ zlen (contents e) + 4 < 2 ^ 16.

#[export] Instance header_wf_dec h : Decision (header_wf h).
Proof. unfold header_wf. apply _. Defined.
#[export] Instance ext_wf_dec e : Decision (ext_wf e).
Proof. unfold ext_wf. apply _. Defined.

(** ** Properties of the extension types and the header *)
Lemma type_from_wire_wire_type w : wire_type (type_from_wire w) = w.
Proof. unfold type_from_wire. by repeat case_bool_decide. Qed.

(** The three packed fields are disjoint bit ranges of the first byte. *)
Lemma create_first_sum leap v mode :
  in_width 8 v -> create_first leap v mode = leap_u8 leap * 64 + (v mod 8) * 8 + mode_u8 mode.
Proof.
  intros Hv. unfold in_width in Hv. change (2 ^ 8) with 256 in Hv.
  assert (H : forallb (fun n => create_first leap (Z.of_nat n) mode =?
      leap_u8 leap * 64 + (Z.of_nat n mod 8) * 8 + mode_u8 mode) (List.seq 0 256) = true).
  { destruct leap, mode; vm_compute; reflexivity. }
  rewrite forallb_forall in H. specialize (H (Z.to_nat v)).
  rewrite Z2Nat.id in H by lia. apply Z.eqb_eq, H, in_seq. lia.
Qed.

Definition u8_all (f : Z -> bool) : bool := forallb (fun n => f (Z.of_nat n)) (List.seq 0 256).

Lemma u8_all_spec f v : u8_all f = true -> 0 <= v < 256 -> f v = true.
Proof.
  unfold u8_all. rewrite forallb_forall. intros H ?.
  specialize (H (Z.to_nat v)). rewrite Z2Nat.id in H by lia. apply H, in_seq. lia.
Qed.

Lemma parse_first_create leap v mode :
  in_width 8 v ->
  let b := create_first leap v mode in
  0 <= b < 256 /\
  parse_leap_indicator b = leap /\ parse_version b = v mod 8 /\ parse_mode b = mode.
Proof.
  intros Hv b. unfold b. rewrite create_first_sum by done. clear b Hv.
  pose proof (Z.mod_pos_bound v 8 ltac:(lia)).
  assert (v mod 8 = 0 \/ v mod 8 = 1 \/ v mod 8 = 2 \/ v mod 8 = 3 \/
          v mod 8 = 4 \/ v mod 8 = 5 \/ v mod 8 = 6 \/ v mod 8 = 7) as Hc by lia.
  destruct leap, mode; destruct_or! Hc; rewrite Hc; (split; [cbn; lia | by vm_compute]).
Qed.

Lemma create_first_parse b :
  0 <= b < 256 -> parse_mode b ≠ Invalid ->
  create_first (parse_leap_indicator b) (parse_version b) (parse_mode b) = b.
Proof.
  intros Hb Hm.
  pose proof (u8_all_spec (fun b => bool_decide (parse_mode b = Invalid) ||
    (create_first (parse_leap_indicator b) (parse_version b) (parse_mode b) =? b)) b) as H.
  cbv beta in H. rewrite bool_decide_false in H by done.
  apply Z.eqb_eq, H; [by vm_compute|done].
Qed.

Lemma serialize_header_length h : length (serialize_header h) = 48%nat.
Proof. unfold serialize_header. by rewrite !length_app, !be_bytes_length. Qed.
Lemma zlen_serialize_header h : zlen (serialize_header h) = 48.
Proof. unfold zlen. by rewrite serialize_header_length. Qed.
#[export] Hint Rewrite zlen_serialize_header : zlen.

(** Reading back one field of the header. *)
Lemma read_u8_bytes pre z rest :
  in_width 8 z ->
  read_u8 (at_split pre (be_bytes 1 z ++ rest)) = Ok (z, at_split (pre ++ be_bytes 1 z) rest).
Proof. intros. by apply read_be_bytes. Qed.
Lemma read_u16_bytes pre z rest :
  in_width 16 z ->
  read_u16 (at_split pre (be_bytes 2 z ++ rest)) = Ok (z, at_split (pre ++ be_bytes 2 z) rest).
Proof. intros. by apply read_be_bytes. Qed.
Lemma read_u32_bytes pre z rest :
  in_width 32 z ->
  read_u32 (at_split pre (be_bytes 4 z ++ rest)) = Ok (z, at_split (pre ++ be_bytes 4 z) rest).
Proof. intros. by apply read_be_bytes. Qed.
Lemma read_u64_bytes pre z rest :
  in_width 64 z ->
  read_u64 (at_split pre (be_bytes 8 z ++ rest)) = Ok (z, at_split (pre ++ be_bytes 8 z) rest).
Proof. intros. by apply read_be_bytes. Qed.
Lemma read_i8_bytes pre z rest :
  in_swidth 8 z ->
  read_i8 (at_split pre (be_bytes 1 z ++ rest)) = Ok (z, at_split (pre ++ be_bytes 1 z) rest).
Proof.
  intros. cbn [be_bytes app]. rewrite Z.shiftr_0_r, read_i8_split.
  by rewrite byte_sval_to_byte.
Qed.

Lemma parse_serialize_header h rest :
  header_wf h ->
  parse_packet_header (serialize_header h ++ rest) = Ok (set_version (version h mod 8) h).
Proof.
  intros (Hv & ? & ? & ? & ? & ? & ? & ? & ? & ? & ?).
  destruct (parse_first_create (leap_indicator h) (version h) (mode h) Hv)
    as (Hb & Hl & Hver & Hm).
  unfold parse_packet_header. rewrite bool_decide_false by (zl; unfold zlen; lia).
  unfold serialize_header. rewrite cursor_new_split, <- !app_assoc.
  rewrite read_u8_bytes by done. res_step.
  rewrite read_u8_bytes by done. res_step.
  do 2 (rewrite read_i8_bytes by done; res_step).
  do 3 (rewrite read_u32_bytes by done; res_step).
  do 4 (rewrite read_u64_bytes by done; res_step).
  unfold set_version. by rewrite Hl, Hver, Hm.
Qed.

Lemma read_u8_split pre b rest :
  read_u8 (at_split pre (b :: rest)) = Ok (byte_val b, at_split (pre ++ [b]) rest).
Proof.
  change (b :: rest) with ([b] ++ rest). unfold read_u8. rewrite read_be_split by done.
  cbn [be_val]. change (2 ^ (8 * zlen (@nil byte))) with 1. do 2 f_equal. lia.
Qed.

(** The pieces of a buffer that a header was read from. *)
Lemma parse_packet_header_inv p h :
  parse_packet_header p = Ok h ->
  exists a s po pr rd rp ri t1 t2 t3 t4 rest,
    p = a :: s :: po :: pr :: rd ++ rp ++ ri ++ t1 ++ t2 ++ t3 ++ t4 ++ rest /\
    length rd = 4%nat /\ length rp = 4%nat /\ length ri = 4%nat /\
    length t1 = 8%nat /\ length t2 = 8%nat /\ length t3 = 8%nat /\ length t4 = 8%nat /\
    h = mkHeader (parse_leap_indicator (byte_val a)) (parse_version (byte_val a))
          (parse_mode (byte_val a)) (byte_val s) (byte_sval po) (byte_sval pr)
          (be_val rd) (be_val rp) (be_val ri) (be_val t1) (be_val t2) (be_val t3) (be_val t4).
Proof.
  unfold parse_packet_header. case_bool_decide; [done|].
  rewrite cursor_new_split. destruct p as [|a [|s [|po [|pr p]]]]; try (zl; done).
  do 2 (rewrite read_u8_split; res_step). do 2 (rewrite read_i8_split; res_step). intros H'.
  repeat match goal with
  | H : _ ≫= _ = Ok _ |- _ =>
      apply bind_Ok in H; destruct H as (? & Hr & H);
      apply read_be_Ok_inv in Hr; destruct Hr as (? & ? & -> & ? & ->); cbv beta iota in H
  end.
  injection H' as <-. eauto 30.
Qed.

Lemma parse_packet_header_wf p h :
  parse_packet_header p = Ok h -> header_wf h /\ version h < 8 /\ 48 <= zlen p.
Proof.
  intros (a & s & po & pr & rd & rp & ri & t1 & t2 & t3 & t4 & rest & -> & ? & ? & ? & ? &
    ? & ? & ? & ->)%parse_packet_header_inv.
  pose proof (byte_val_range a) as Ha.
  pose proof (u8_all_spec (fun b => (0 <=? parse_version b) && (parse_version b <? 8))
    (byte_val a) ltac:(by vm_compute) Ha) as Hv. cbv beta in Hv.
  assert (zlen rd = 4 /\ zlen rp = 4 /\ zlen ri = 4 /\ zlen t1 = 8 /\ zlen t2 = 8 /\
    zlen t3 = 8 /\ zlen t4 = 8) as (? & ? & ? & ? & ? & ? & ?) by (unfold zlen; lia).
  unfold header_wf. cbn. split_and!; try (apply be_val_width; lia); try apply byte_sval_range;
    try apply byte_val_range; try lia.
  - unfold in_width. lia.
  - zl. pose proof (zlen_nonneg rest). lia.
Qed.

Lemma serialize_parse_header p h :
  parse_packet_header p = Ok h -> mode h ≠ Invalid -> serialize_header h = take 48 p.
Proof.
  intros (a & s & po & pr & rd & rp & ri & t1 & t2 & t3 & t4 & rest & -> & ? & ? & ? & ? &
    ? & ? & ? & ->)%parse_packet_header_inv Hm.
  unfold serialize_header. cbn [leap_indicator version mode stratum poll precision root_delay
    root_dispersion reference_id reference_timestamp origin_timestamp receive_timestamp
    transmit_timestamp] in *.
  rewrite create_first_parse by (try done; apply byte_val_range).
  rewrite (be_bytes_val 4 rd), (be_bytes_val 4 rp), (be_bytes_val 4 ri), (be_bytes_val 8 t1),
    (be_bytes_val 8 t2), (be_bytes_val 8 t3), (be_bytes_val 8 t4) by done.
  cbn [be_bytes]. rewrite !Z.shiftr_0_r, !to_byte_byte_sval, !to_byte_byte_val.
  cbn [app take firstn]. do 4 f_equal. rewrite !app_assoc. symmetry.
  apply take_app_length'. rewrite !length_app. lia.
Qed.

Lemma parse_packet_header_total p :
  if bool_decide (zlen p < 48)
  then parse_packet_header p = Err (IoError InvalidInput "Too short")
  else exists h, parse_packet_header p = Ok h.
Proof.
  unfold parse_packet_header. case_bool_decide as Hl; [done|].
  rewrite cursor_new_split. unfold zlen in Hl.
  destruct p as [|a [|s [|po [|pr p]]]]; try (cbn in Hl; lia).
  do 2 (rewrite read_u8_split; res_step). do 2 (rewrite read_i8_split; res_step). cbn [length] in Hl.
  unfold read_u32, read_u64.
  do 7 (rewrite read_be_enough by (rewrite ?length_drop; lia); res_step).
  eauto.
Qed.

Lemma parse_packet_header_no_panic p : is_panic (parse_packet_header p) = false.
Proof.
  pose proof (parse_packet_header_total p) as H. case_bool_decide; [by rewrite H|].
  by destruct H as [h ->].
Qed.

(** Only the first 48 bytes matter. *)
Lemma parse_packet_header_prefix p q :
  48 <= zlen p -> parse_packet_header (p ++ q) = parse_packet_header p.
Proof.
  intros Hp. pose proof (parse_packet_header_total p) as H.
  rewrite bool_decide_false in H by lia. destruct H as [h H]. rewrite H.
  apply parse_packet_header_inv in H as (a & s & po & pr & rd & rp & ri & t1 & t2 & t3 & t4 &
    rest & -> & ? & ? & ? & ? & ? & ? & ? & ->).
  pose proof (parse_packet_header_total ((a :: s :: po :: pr :: rd ++ rp ++ ri ++ t1 ++ t2 ++
    t3 ++ t4 ++ rest) ++ q)) as H'.
  rewrite bool_decide_false in H' by (zl; pose proof (zlen_nonneg q); lia).
  destruct H' as [h' H']. rewrite H'.
  apply parse_packet_header_inv in H' as (a' & s' & po' & pr' & rd' & rp' & ri' & t1' & t2' &
    t3' & t4' & rest' & E & ? & ? & ? & ? & ? & ? & ? & ->).
  cbn [app] in E. rewrite <- !app_assoc in E. injection E as <- <- <- <- E.
  repeat (apply app_inj_1 in E; [|congruence]; destruct E as [<- E]). done.
Qed.

(** C35: The 48-byte header codec.  A header whose fields are in the range of
    their Rust types, serialized and followed by any bytes, is read back with
    every field unchanged, except that only the low three bits of the version
    survive; a header read from any packet is in range and, unless its mode was
    one of the unassigned codes, serializes to the packet's first 48 bytes. *)
Theorem header_codec :
  (forall h rest, header_wf h ->
     parse_packet_header (serialize_header h ++ rest) = Ok (set_version (version h mod 8) h)) /\
  (forall p h, parse_packet_header p = Ok h ->
     header_wf h /\ version h < 8 /\ (mode h ≠ Invalid -> serialize_header h = take 48 p)) /\
  (forall p, is_ok (parse_packet_header p) = bool_decide (48 <= zlen p)).
Proof.
  split_and!.
  - exact parse_serialize_header.
  - intros p h H. destruct (parse_packet_header_wf p h H) as (? & ? & _).
    split_and!; [done..|]. by apply serialize_parse_header.
  - intros p. pose proof (parse_packet_header_total p) as H. case_bool_decide.
    + rewrite H, bool_decide_false by lia. done.
    + destruct H as [h ->]. by rewrite bool_decide_true by lia.
Qed.
