(* ===== verification/NtpExtensions.v ===== *)
(** * Extension fields: what the parser accepts

    [ext_stream] is the wire format of a sequence of extension fields as a
    relation; [parse_extensions] is proved to compute exactly it, to terminate
    within its fuel and never to panic, and serialization to be its inverse. *)

From stdpp Require Import prelude list numbers strings.
From Stdlib Require Import Strings.Byte.
From S2P Require Import Prelude Words Cursor Crypto NtpProtocol.

Open Scope Z_scope.

(** ** The wire format as a relation

    The last field may be cut off by the end of the buffer: the code then reads
    what is there and leaves the rest of the declared length zero. *)
Inductive ext_stream : bytes -> list NtpExtension -> Prop :=
  | stream_end rest : zlen rest < 4 -> ext_stream rest []
  | stream_ext w len c rest exts :
      in_width 16 w -> in_width 16 len -> len mod 4 = 0 -> 4 <= len -> zlen c = len - 4 ->
      ext_stream rest exts ->
      ext_stream (be_bytes 2 w ++ be_bytes 2 len ++ c ++ rest)
                 (mkExt (type_from_wire w) c :: exts)
  | stream_cut w len c :
      in_width 16 w -> in_width 16 len -> len mod 4 = 0 -> zlen c < len - 4 ->
      ext_stream (be_bytes 2 w ++ be_bytes 2 len ++ c)
        [mkExt (type_from_wire w) (c ++ replicate (Z.to_nat (len - 4) - length c) x00)].

(** The first field's declared length is not acceptable. *)
Inductive ext_bad : bytes -> Prop :=
  | bad_here w len rest :
      in_width 16 w -> in_width 16 len -> len mod 4 ≠ 0 \/ len < 4 ->
      ext_bad (be_bytes 2 w ++ be_bytes 2 len ++ rest)
  | bad_later w len c rest :
      in_width 16 w -> in_width 16 len -> len mod 4 = 0 -> 4 <= len -> zlen c = len - 4 ->
      ext_bad rest -> ext_bad (be_bytes 2 w ++ be_bytes 2 len ++ c ++ rest).

(** ** One round of the loop *)
Lemma ext_header_split rest :
  4 <= zlen rest ->
  exists w len body, in_width 16 w /\ in_width 16 len /\
    rest = be_bytes 2 w ++ be_bytes 2 len ++ body.
Proof.
  intros H. destruct rest as [|a [|b [|c [|d rest]]]]; try (zl; done).
  exists (be_val [a; b]), (be_val [c; d]), rest.
  split_and!; [by apply be_val_width..|]. by rewrite !be_bytes_val by done.
Qed.

Lemma in_width_16 z : in_width 16 z -> 0 <= z < 65536.
Proof. done. Qed.

Section Loop.
Context {P : Profile}.

Lemma parse_loop_end fuel pre rest acc :
  zlen rest < 4 ->
  parse_extensions_loop (S fuel) (pre ++ rest) (at_split pre rest) acc = Ok acc.
Proof.
  intros. cbn [parse_extensions_loop cpos at_split].
  rewrite usub_ok by (zl; pose proof (zlen_nonneg rest); lia). res_step.
  rewrite bool_decide_false; [done|]. zl.
Qed.

Lemma parse_loop_step fuel pre w len body acc :
  in_width 16 w -> in_width 16 len ->
  let buff := pre ++ be_bytes 2 w ++ be_bytes 2 len ++ body in
  parse_extensions_loop (S fuel) buff (at_split pre (be_bytes 2 w ++ be_bytes 2 len ++ body)) acc =
  if bool_decide (len mod 4 ≠ 0) then
    Err (IoError InvalidInput "extension not on word boundary")
  else if bool_decide (len < 4) then Err (IoError InvalidInput "extension too short")
  else
    let '(c, reader) := read_vec (len - 4) (at_split (pre ++ be_bytes 2 w ++ be_bytes 2 len) body) in
    parse_extensions_loop fuel buff reader (acc ++ [mkExt (type_from_wire w) c]).
Proof.
  intros Hw Hl buff. cbn [parse_extensions_loop].
  rewrite usub_ok by (unfold buff; cbn; zl; pose proof (zlen_nonneg body); lia). res_step.
  rewrite bool_decide_true
    by (unfold buff; cbn [cpos at_split]; zl; pose proof (zlen_nonneg body); lia).
  rewrite read_u16_bytes by done. res_step. rewrite read_u16_bytes by done. res_step.
  rewrite <- app_assoc. case_bool_decide; [done|]. case_bool_decide as Hlt; [done|].
  rewrite usub_ok by lia. done.
Qed.

(** The loop computes [ext_stream], fails exactly on [ext_bad], and its fuel is
    enough. *)
Lemma parse_loop_spec fuel pre rest acc :
  (length rest < fuel)%nat ->
  (exists exts, parse_extensions_loop fuel (pre ++ rest) (at_split pre rest) acc = Ok (acc ++ exts)
     /\ ext_stream rest exts) \/
  (exists e, parse_extensions_loop fuel (pre ++ rest) (at_split pre rest) acc = Err e
     /\ ext_bad rest).
Proof.
  revert pre rest acc. induction fuel as [|fuel IH]; intros pre rest acc Hf; [lia|].
  destruct (decide (zlen rest < 4)) as [Hs|Hs].
  { left. exists []. rewrite parse_loop_end, app_nil_r by done. split; [done|by constructor]. }
  destruct (ext_header_split rest ltac:(lia)) as (w & len & body & Hw & Hl & ->).
  pose proof (in_width_16 _ Hl).
  rewrite parse_loop_step by done.
  case_bool_decide as Hm; [right; eauto 10 using ext_bad|].
  case_bool_decide as Hlt; [right; eauto 10 using ext_bad|].
  destruct (read_vec_cases (pre ++ be_bytes 2 w ++ be_bytes 2 len) body (len - 4) ltac:(lia))
    as [(c & rest' & -> & Hc & ->)|(Hc & ->)].
  - replace (pre ++ be_bytes 2 w ++ be_bytes 2 len ++ c ++ rest')
      with (((pre ++ be_bytes 2 w ++ be_bytes 2 len) ++ c) ++ rest') by by rewrite <- !app_assoc.
    destruct (IH ((pre ++ be_bytes 2 w ++ be_bytes 2 len) ++ c) rest'
      (acc ++ [mkExt (type_from_wire w) c])) as [(exts & -> & Hs')|(e & -> & Hb)].
    + rewrite !length_app, !be_bytes_length in Hf. lia.
    + left. exists (mkExt (type_from_wire w) c :: exts). rewrite <- app_assoc.
      split; [done|]. constructor; auto; lia.
    + right. exists e. split; [done|]. apply bad_later; auto; lia.
  - left. eexists. split; [|by apply stream_cut].
    destruct fuel as [|fuel]; [rewrite !length_app, !be_bytes_length in Hf; lia|].
    replace (pre ++ be_bytes 2 w ++ be_bytes 2 len ++ body)
      with (((pre ++ be_bytes 2 w ++ be_bytes 2 len) ++ body) ++ [])
      by by rewrite app_nil_r, <- !app_assoc.
    by rewrite parse_loop_end.
Qed.
End Loop.

(** ** The relation is functional *)
Lemma be_bytes_2_inj w w' l l' :
  in_width 16 w -> in_width 16 w' -> be_bytes 2 w ++ l = be_bytes 2 w' ++ l' -> w = w' /\ l = l'.
Proof.
  intros Hw Hw' E. apply app_inj_1 in E as [E ->]; [|by rewrite !be_bytes_length].
  split; [|done]. rewrite <- (be_val_roundtrip 2 w), <- (be_val_roundtrip 2 w') by done.
  by rewrite E.
Qed.

Lemma ext_header_inj w len r w' len' r' :
  in_width 16 w -> in_width 16 w' -> in_width 16 len -> in_width 16 len' ->
  be_bytes 2 w ++ be_bytes 2 len ++ r = be_bytes 2 w' ++ be_bytes 2 len' ++ r' ->
  w = w' /\ len = len' /\ r = r'.
Proof.
  intros ???? E. apply be_bytes_2_inj in E as [-> E]; [|done..].
  by apply be_bytes_2_inj in E as [-> ->].
Qed.

Ltac ext_header_cases :=
  match goal with
  | E : be_bytes 2 _ ++ be_bytes 2 _ ++ _ = be_bytes 2 _ ++ be_bytes 2 _ ++ _ |- _ =>
      apply ext_header_inj in E; [destruct E as (? & ? & ?); subst|done..]
  end.

Lemma ext_header_long w len r : ~ zlen (be_bytes 2 w ++ be_bytes 2 len ++ r) < 4.
Proof. zl. pose proof (zlen_nonneg r). lia. Qed.

(** Inversion, stated so that the buffer need not be taken apart. *)
Lemma ext_bad_inv b :
  ext_bad b -> exists w len r, b = be_bytes 2 w ++ be_bytes 2 len ++ r /\
    in_width 16 w /\ in_width 16 len /\
    ((len mod 4 ≠ 0 \/ len < 4) \/
     (exists c rest, r = c ++ rest /\ zlen c = len - 4 /\ ext_bad rest)).
Proof. destruct 1; naive_solver. Qed.

Lemma ext_stream_inv b exts :
  ext_stream b exts ->
  (zlen b < 4 /\ exts = []) \/
  (exists w len r, b = be_bytes 2 w ++ be_bytes 2 len ++ r /\
    in_width 16 w /\ in_width 16 len /\ len mod 4 = 0 /\ 4 <= len /\
    ((exists c rest exts', r = c ++ rest /\ zlen c = len - 4 /\
        exts = mkExt (type_from_wire w) c :: exts' /\ ext_stream rest exts') \/
     (zlen r < len - 4 /\
        exts = [mkExt (type_from_wire w) (r ++ replicate (Z.to_nat (len - 4) - length r) x00)]))).
Proof.
  destruct 1 as [|w len c rest exts|w len c ? ? ? Hc]; [by left|right..].
  - exists w, len, (c ++ rest). split_and!; try done. left. eauto 10.
  - exists w, len, c. pose proof (zlen_nonneg c). split_and!; try done; [lia|]. by right.
Qed.

Lemma ext_stream_not_bad b exts : ext_stream b exts -> ~ ext_bad b.
Proof.
  induction 1 as [rest Hs|w len c rest exts Hw Hl Hm H4 Hc _ IH|w len c Hw Hl Hm Hc];
    intros (w' & len' & r' & E & ? & ? & Hor)%ext_bad_inv.
  { subst. by apply ext_header_long in Hs. }
  all: ext_header_cases; destruct Hor as [?|(c' & rest' & E & ? & ?)];
    try (match goal with H : zlen ?x < _ |- _ => pose proof (zlen_nonneg x) end; lia); try lia.
  - apply app_inj_1 in E as [-> ->]; [done|]. unfold zlen in *. lia.
  - rewrite E in Hc. zl. pose proof (zlen_nonneg rest'). lia.
Qed.

Lemma ext_stream_functional b exts exts' : ext_stream b exts -> ext_stream b exts' -> exts = exts'.
Proof.
  intros H. revert exts'.
  induction H as [rest Hs|w len c rest exts Hw Hl Hm H4 Hc _ IH|w len c Hw Hl Hm Hc];
    intros exts' [[Hs' ->]|(w' & len' & r' & E & ? & ? & _ & _ & Hor)]%ext_stream_inv; subst;
    try done; try (by apply ext_header_long in Hs); try (by apply ext_header_long in Hs').
  all: ext_header_cases; destruct Hor as [(c' & rest' & exts'' & E & ? & -> & ?)|[? ->]].
  - apply app_inj_1 in E as [-> ->]; [f_equal; auto|]. unfold zlen in *. lia.
  - zl. pose proof (zlen_nonneg rest). lia.
  - rewrite E in Hc. zl. pose proof (zlen_nonneg rest'). lia.
  - done.
Qed.

(** ** The parser against the relation *)
Section Parser.
Context {P : Profile}.

Lemma parse_extensions_spec b :
  (exists exts, parse_extensions b = Ok exts /\ ext_stream b exts) \/
  (exists e, parse_extensions b = Err e /\ ext_bad b).
Proof.
  unfold parse_extensions. rewrite cursor_new_split.
  destruct (parse_loop_spec (S (length b)) [] b [] ltac:(lia)) as [(e & H & ?)|(e & H & ?)];
    cbn [app] in H; rewrite H; eauto.
Qed.

Lemma parse_extensions_Ok b exts : parse_extensions b = Ok exts <-> ext_stream b exts.
Proof.
  destruct (parse_extensions_spec b) as [(e & -> & ?)|(e & -> & ?)]; split; intros Hp.
  - by injection Hp as ->.
  - f_equal. by eapply ext_stream_functional.
  - done.
  - by apply ext_stream_not_bad in Hp.
Qed.

Lemma parse_extensions_no_panic b : is_panic (parse_extensions b) = false.
Proof. by destruct (parse_extensions_spec b) as [(e & -> & ?)|(e & -> & ?)]. Qed.
End Parser.

(** ** Serialization *)

(** Bytes that a list of extensions takes on the wire. *)
Definition exts_size (exts : list NtpExtension) : Z :=
  foldr (fun e n => 4 + zlen (contents e) + n) 0 exts.

Lemma serialize_extensions_stream {E} exts b tail :
  Forall ext_wf exts -> serialize_extensions (E := E) exts = Ok b -> zlen tail < 4 ->
  ext_stream (b ++ tail) exts.
Proof.
  intros Hwf. revert b. induction Hwf as [|[ty c] exts (Hw & Ht & Hm & Hl) _ IH]; intros b H Htail.
  - injection H as <-. by constructor.
  - cbn [serialize_extensions contents ext_type] in *.
    rewrite bool_decide_false in H by naive_solver. simpl_bind.
    pose proof (zlen_nonneg c).
    assert (in_width 16 (zlen c + 4)) by (unfold in_width; lia).
    rewrite wrap_id by done. rewrite <- !app_assoc.
    rewrite <- Ht at 2. apply stream_ext; try done; [|lia..|auto].
    rewrite Z.add_mod, Hm by lia. done.
Qed.

Lemma serialize_extensions_ok {E} exts :
  Forall (fun e => zlen (contents e) mod 4 = 0) exts ->
  exists b, serialize_extensions (E := E) exts = Ok b /\
    zlen b = exts_size exts.
Proof.
  induction 1 as [|e exts He _ (b & IH & Hb)]; [by exists []|].
  cbn [serialize_extensions]. rewrite bool_decide_false by naive_solver. rewrite IH.
  eexists. split; [done|]. zl. cbn [exts_size foldr]. unfold exts_size in Hb. lia.
Qed.

Lemma serialize_extensions_app {E} l1 l2 b1 b2 :
  serialize_extensions (E := E) l1 = Ok b1 -> serialize_extensions (E := E) l2 = Ok b2 ->
  serialize_extensions (E := E) (l1 ++ l2) = Ok (b1 ++ b2).
Proof.
  intros H1 H2. revert b1 H1. induction l1 as [|e l1 IH]; intros b1 H1; cbn [serialize_extensions app] in *.
  - apply Ok_inj in H1 as <-. done.
  - case_bool_decide; [done|]. apply bind_Ok in H1 as (b & Hb & <-%Ok_inj). rewrite (IH _ Hb). res_step. by rewrite <- !app_assoc.
Qed.

Lemma exts_size_app l1 l2 : exts_size (l1 ++ l2) = exts_size l1 + exts_size l2.
Proof. induction l1 as [|e l1 IH]; [done|]. cbn [exts_size foldr app]. unfold exts_size in *. cbn. lia. Qed.

Lemma exts_size_nonneg l : 0 <= exts_size l.
Proof. induction l as [|e l IH]; [done|]. cbn. unfold exts_size in IH. pose proof (zlen_nonneg (contents e)). lia. Qed.

Lemma exts_size_aligned l :
  Forall (fun e => zlen (contents e) mod 4 = 0) l -> exts_size l mod 4 = 0.
Proof.
  induction 1 as [|e l He _ IH]; [done|]. cbn [exts_size foldr]. fold (exts_size l). div_lia.
Qed.

(** What the parser returns can be serialized again. *)
Lemma ext_stream_wf b exts : ext_stream b exts -> Forall ext_wf exts.
Proof.
  induction 1 as [|w len c rest exts Hw Hl Hm H4 Hc _ IH|w len c Hw Hl Hm Hc];
    constructor; try done; pose proof (in_width_16 _ Hl).
  - split_and!; cbn; rewrite ?type_from_wire_wire_type; try done; rewrite Hc.
    + rewrite Zminus_mod, Hm. done.
    + lia.
  - pose proof (zlen_nonneg c).
    assert (zlen (c ++ replicate (Z.to_nat (len - 4) - length c) x00) = len - 4) as E.
    { zl. unfold zlen in *. lia. }
    split_and!; cbn [contents ext_type]; rewrite ?type_from_wire_wire_type; try done; rewrite E.
    + rewrite Zminus_mod, Hm. done.
    + lia.
Qed.

(** C32: The extension parser implements the wire format: it returns a list of
    extensions exactly when the format relates the buffer to that list, it fails
    exactly when some field has a length that is not a multiple of four or is
    below four, and it neither panics nor runs out of fuel, in either build
    profile. *)
Theorem parse_extensions_refines {P : Profile} b :
  (forall exts, parse_extensions b = Ok exts <-> ext_stream b exts) /\
  ((exists e, parse_extensions b = Err e) <-> ext_bad b) /\
  is_panic (parse_extensions b) = false.
Proof.
  split_and!; [apply parse_extensions_Ok| |apply parse_extensions_no_panic].
  destruct (parse_extensions_spec b) as [(exts & H & Hs)|(e & H & Hb)]; rewrite H; split; intros Hx.
  - by destruct Hx.
  - by apply ext_stream_not_bad in Hs.
  - done.
  - eauto.
Qed.

(** Extensions round-trip.  A list of extensions with distinguishable types
    and aligned contents that fit the length field serializes, and parsing the
    result, even with up to three stray bytes behind it, gives the list back;
    conversely everything the parser returns is such a list. *)
Lemma extensions_roundtrip {P : Profile} exts tail :
  Forall ext_wf exts -> zlen tail < 4 ->
  (exists b, serialize_extensions (E := io_error) exts = Ok b /\ zlen b = exts_size exts /\
     parse_extensions (b ++ tail) = Ok exts) /\
  (forall c exts', parse_extensions c = Ok exts' -> Forall ext_wf exts').
Proof.
  intros Hwf Ht. split.
  - destruct (serialize_extensions_ok (E := io_error) exts) as (b & Hb & Hl).
    { eapply Forall_impl; [done|]. by intros ? (? & ? & ? & ?). }
    exists b. split_and!; [done..|]. apply parse_extensions_Ok.
    by apply (serialize_extensions_stream (E := io_error)).
  - intros c exts' H%parse_extensions_Ok. by eapply ext_stream_wf.
Qed.

Lemma extensions_roundtrip_witness :
  (exists b, serialize_extensions (E := io_error)
       [mkExt UniqueIdentifier (replicate 32 x01); mkExt (Unknown 7) []] = Ok b /\
     zlen b = exts_size [mkExt UniqueIdentifier (replicate 32 x01); mkExt (Unknown 7) []] /\
     parse_extensions (P := Debug) (b ++ [x00; x00; x00]) =
       Ok [mkExt UniqueIdentifier (replicate 32 x01); mkExt (Unknown 7) []]) /\
  (forall c exts', parse_extensions (P := Debug) c = Ok exts' -> Forall ext_wf exts').
Proof.
  apply (extensions_roundtrip (P := Debug)).
  - apply (bool_decide_unpack _). by vm_compute.
  - by vm_compute.
Defined.
