(* ===== verification/NtsPackets.v ===== *)
(** * NTS packets: authentication, round trip, and the authenticator's length

    The authenticator field of an NTS packet, the loop that looks for it, and
    what a packet accepted by [parse_nts_packet] has authenticated. *)

From stdpp Require Import prelude list numbers strings.
From Stdlib Require Import Strings.Byte.
From S2P Require Import Prelude Words Cursor Crypto NtpProtocol NtpExtensions.

Open Scope Z_scope.

(** ** The authenticator's contents *)
Definition pad4 (n : Z) : Z := (4 - n mod 4) mod 4.

Lemma pad4_range n : 0 <= pad4 n < 4.
Proof. apply Z.mod_pos_bound. lia. Qed.
Lemma pad4_align n : (n + pad4 n) mod 4 = 0.
Proof.
  unfold pad4. pose proof (Z.mod_pos_bound n 4 ltac:(lia)).
  rewrite Z.add_mod by lia.
  assert (n mod 4 = 0 \/ n mod 4 = 1 \/ n mod 4 = 2 \/ n mod 4 = 3) as Hc by lia.
  destruct_or! Hc; rewrite Hc; reflexivity.
Qed.

(** Two lengths, the nonce, its padding, the ciphertext, and the rest. *)
Record auth_fields := AuthFields {
  af_nonce : bytes; af_npad : bytes; af_ct : bytes; af_tail : bytes;
}.
Definition auth_contents (f : auth_fields) : bytes :=
  be_bytes 2 (zlen (af_nonce f)) ++ be_bytes 2 (zlen (af_ct f)) ++
  af_nonce f ++ af_npad f ++ af_ct f ++ af_tail f.
Arguments auth_contents : simpl never.
Definition auth_fields_wf (f : auth_fields) : Prop :=
  in_width 16 (zlen (af_nonce f)) /\ in_width 16 (zlen (af_ct f)) /\
  zlen (af_npad f) = pad4 (zlen (af_nonce f)) /\ pad4 (zlen (af_ct f)) <= zlen (af_tail f).

Section Decrypt.
Context {P : Profile} {A : Aead}.

Lemma parse_decrypt_fields f ad key :
  auth_fields_wf f ->
  parse_decrypt_auth_ext ad (auth_contents f) key =
  match open key (af_nonce f) ad (af_ct f) with
  | None => Err (IoError InvalidInput "authentication failed")
  | Some pt => Ok pt
  end.
Proof.
  intros (Hn & Hc & Hnp & Ht). destruct f as [nonce npad ct tail].
  cbn [af_nonce af_npad af_ct af_tail] in *.
  pose proof (zlen_nonneg nonce). pose proof (zlen_nonneg ct). pose proof (zlen_nonneg tail).
  unfold parse_decrypt_auth_ext.
  assert (zlen (auth_contents (AuthFields nonce npad ct tail)) =
    4 + zlen nonce + zlen npad + zlen ct + zlen tail) as Hlen by (unfold auth_contents; cbn; zl).
  rewrite usub_ok by (cbn [cpos cursor_new]; pose proof (zlen_nonneg npad); lia). res_step.
  rewrite bool_decide_false by (cbn [cpos cursor_new]; pose proof (zlen_nonneg npad); lia).
  rewrite cursor_new_split. unfold auth_contents in *. cbn [af_nonce af_npad af_ct af_tail] in *.
  rewrite read_u16_bytes by done. res_step. rewrite read_u16_bytes by done. res_step.
  fold (pad4 (zlen nonce)) (pad4 (zlen ct)).
  rewrite bool_decide_false by lia.
  rewrite (app_assoc (be_bytes 2 _) (be_bytes 2 _)).
  set (h := be_bytes 2 (zlen nonce) ++ be_bytes 2 (zlen ct)).
  assert (zlen h = 4) as Hh by (unfold h; by zl). rewrite <- Hh.
  rewrite slice_app_mid. res_step.
  replace (h ++ nonce ++ npad ++ ct ++ tail) with ((h ++ nonce ++ npad) ++ ct ++ tail)
    by by rewrite <- !app_assoc.
  replace (zlen h + (zlen nonce + pad4 (zlen nonce))) with (zlen (h ++ nonce ++ npad)) by zl.
  rewrite slice_app_mid. done.
Qed.

(** Contents either decompose in this way or are refused whatever the key. *)
Lemma parse_decrypt_cases c :
  (exists e, forall ad key, parse_decrypt_auth_ext ad c key = Err e) \/
  (exists f, auth_fields_wf f /\ c = auth_contents f).
Proof.
  destruct (decide (zlen c < 4)) as [Hs|Hs].
  { left. eexists. intros. unfold parse_decrypt_auth_ext.
    rewrite usub_ok by (cbn [cpos cursor_new]; pose proof (zlen_nonneg c); lia). res_step.
    rewrite bool_decide_true by (cbn; lia). done. }
  destruct (ext_header_split c ltac:(lia)) as (nl & cl & body & Hn & Hc & ->).
  pose proof (in_width_16 _ Hn). pose proof (in_width_16 _ Hc).
  pose proof (pad4_range nl). pose proof (pad4_range cl). autorewrite with zlen in Hs.
  destruct (decide (nl + pad4 nl + (cl + pad4 cl) <= zlen body)) as [Hfit|Hfit].
  - right. unfold zlen in Hfit.
    set (n1 := Z.to_nat nl). set (n2 := Z.to_nat (pad4 nl)). set (n3 := Z.to_nat cl).
    exists (AuthFields (take n1 body) (take n2 (drop n1 body))
      (take n3 (drop n2 (drop n1 body))) (drop n3 (drop n2 (drop n1 body)))).
    assert (zlen (take n1 body) = nl) as E1 by (unfold zlen; rewrite length_take; lia).
    assert (zlen (take n3 (drop n2 (drop n1 body))) = cl) as E2
      by (unfold zlen; rewrite length_take, !length_drop; lia).
    unfold auth_fields_wf, auth_contents. cbn. rewrite E1, E2, !take_drop.
    split_and!; try done; unfold zlen; rewrite ?length_take, !length_drop; lia.
  - left. eexists. intros. unfold parse_decrypt_auth_ext.
    rewrite usub_ok by (cbn [cpos cursor_new]; zl). res_step.
    rewrite bool_decide_false by (cbn [cpos cursor_new]; zl).
    rewrite cursor_new_split.
    rewrite read_u16_bytes by done. res_step. rewrite read_u16_bytes by done. res_step.
    fold (pad4 nl) (pad4 cl). rewrite bool_decide_true by (zl). done.
Qed.

Lemma parse_decrypt_no_panic ad c key : is_panic (parse_decrypt_auth_ext ad c key) = false.
Proof.
  destruct (parse_decrypt_cases c) as [[e H]|(f & Hf & ->)]; [by rewrite H|].
  rewrite parse_decrypt_fields by done. by case_match.
Qed.

Lemma parse_decrypt_Ok ad c key pt :
  parse_decrypt_auth_ext ad c key = Ok pt ->
  exists f, auth_fields_wf f /\ c = auth_contents f /\ open key (af_nonce f) ad (af_ct f) = Some pt.
Proof.
  destruct (parse_decrypt_cases c) as [[e H]|(f & Hf & ->)]; [by rewrite H|].
  rewrite parse_decrypt_fields by done. case_match; naive_solver.
Qed.

(** Bytes after the authenticator's data change nothing. *)
Lemma parse_decrypt_tail ad c key pt extra :
  parse_decrypt_auth_ext ad c key = Ok pt ->
  parse_decrypt_auth_ext ad (c ++ extra) key = Ok pt.
Proof.
  intros ([n np ct t] & Hf & -> & Ho)%parse_decrypt_Ok.
  replace (auth_contents (AuthFields n np ct t) ++ extra)
    with (auth_contents (AuthFields n np ct (t ++ extra)))
    by (unfold auth_contents; cbn [af_nonce af_npad af_ct af_tail]; by rewrite <- !app_assoc).
  rewrite parse_decrypt_fields; cbn in *; [by rewrite Ho|].
  destruct Hf as (? & ? & ? & ?). cbn in *. split_and!; try done. cbn. zl.
  pose proof (zlen_nonneg extra). lia.
Qed.
End Decrypt.

(** ** The fields before the authenticator *)
Inductive fields : bytes -> list NtpExtension -> Prop :=
  | fields_nil : fields [] []
  | fields_cons w len c rest exts :
      in_width 16 w -> in_width 16 len -> 4 <= len -> zlen c = len - 4 ->
      type_from_wire w ≠ NTSAuthenticator -> fields rest exts ->
      fields (be_bytes 2 w ++ be_bytes 2 len ++ c ++ rest) (mkExt (type_from_wire w) c :: exts).

(** A field of authenticator type with declared length [len]. *)
Definition auth_field (len : Z) (body : bytes) : bytes :=
  be_bytes 2 EXT_TYPE_NTS_AUTHENTICATOR ++ be_bytes 2 len ++ body.

Lemma fields_app b1 e1 b2 e2 : fields b1 e1 -> fields b2 e2 -> fields (b1 ++ b2) (e1 ++ e2).
Proof.
  induction 1; intros; [done|]. rewrite <- !app_assoc. cbn [app]. constructor; auto.
Qed.

Lemma fields_no_auth b exts :
  fields b exts -> Forall (fun e => ext_type e ≠ NTSAuthenticator) exts.
Proof. induction 1; constructor; auto. Qed.

Lemma fields_size b exts : fields b exts -> zlen b = exts_size exts.
Proof.
  induction 1 as [|w len c rest exts ? ? ? Hc ? ? IH]; [done|].
  zl. cbn [exts_size foldr contents]. unfold exts_size in IH. lia.
Qed.

Lemma serialize_extensions_fields {E} exts b :
  Forall ext_wf exts -> Forall (fun e => ext_type e ≠ NTSAuthenticator) exts ->
  serialize_extensions (E := E) exts = Ok b -> fields b exts.
Proof.
  intros Hwf Hna. revert b. induction Hwf as [|[ty c] exts (Hw & Ht & Hm & Hl) _ IH]; intros b H.
  - apply Ok_inj in H as <-. constructor.
  - cbn [serialize_extensions contents ext_type] in *.
    apply Forall_cons in Hna as [Hty Hna]. cbn [ext_type] in Hty.
    rewrite bool_decide_false in H by naive_solver. simpl_bind.
    pose proof (zlen_nonneg c).
    assert (in_width 16 (zlen c + 4)) by (unfold in_width; lia).
    rewrite wrap_id by done. rewrite <- Ht at 2.
    apply fields_cons; rewrite ?Ht; try done; [lia..|auto].
Qed.

(** A stream of extensions, read from the left, meets an authenticator or has
    none. *)
Lemma ext_stream_fields rest exts :
  ext_stream rest exts ->
  (exists fb es len body, rest = fb ++ auth_field len body /\ fields fb es /\
     in_width 16 len /\ 4 <= len) \/
  (forall e, e ∈ exts -> ext_type e ≠ NTSAuthenticator).
Proof.
  induction 1 as [rest Hs|w len c rest exts Hw Hl Hm H4 Hc _ IH|w len c Hw Hl Hm Hc].
  - right. intros e He. by apply elem_of_nil in He.
  - destruct (decide (type_from_wire w = NTSAuthenticator)) as [Ht|Ht].
    + left. exists [], [], len, (c ++ rest).
      apply (f_equal wire_type) in Ht. rewrite type_from_wire_wire_type in Ht. subst w.
      split_and!; [done|constructor|done|done].
    + destruct IH as [(fb & es & len' & body & -> & Hf & ? & ?)|IH].
      * left. exists (be_bytes 2 w ++ be_bytes 2 len ++ c ++ fb),
          (mkExt (type_from_wire w) c :: es), len', body.
        split_and!; [by rewrite <- !app_assoc| |done|done]. by constructor.
      * right. intros e [->|He]%elem_of_cons; [done|auto].
  - destruct (decide (type_from_wire w = NTSAuthenticator)) as [Ht|Ht].
    + left. exists [], [], len, c.
      apply (f_equal wire_type) in Ht. rewrite type_from_wire_wire_type in Ht. subst w.
      pose proof (zlen_nonneg c). split_and!; [done|constructor|done|lia].
    + right. by intros e ->%list_elem_of_singleton.
Qed.

Section Loop.
Context {P : Profile} {A : Aead}.

Lemma nts_loop_end fuel hdr key pre rest acc :
  zlen rest < 4 ->
  parse_nts_loop (S fuel) hdr (pre ++ rest) key (at_split pre rest) acc =
  Err (IoError InvalidInput "never saw the authenticator").
Proof.
  intros. cbn [parse_nts_loop cpos at_split].
  rewrite usub_ok by (zl; pose proof (zlen_nonneg rest); lia). res_step.
  rewrite bool_decide_false; [done|]. zl.
Qed.

(** The loop up to the declared length of the next field. *)
Lemma nts_loop_step fuel hdr key pre w len body acc :
  in_width 16 w -> in_width 16 len ->
  let buff := pre ++ be_bytes 2 w ++ be_bytes 2 len ++ body in
  let reader := at_split (pre ++ be_bytes 2 w ++ be_bytes 2 len) body in
  parse_nts_loop (S fuel) hdr buff key
    (at_split pre (be_bytes 2 w ++ be_bytes 2 len ++ body)) acc =
  ext_len ← usub 16 len 4;
  if bool_decide (type_from_wire w = NTSAuthenticator) then
    let '(auth_ext_contents, reader) := read_vec ext_len reader in
    p ← usub 64 (cpos reader) 4;
    oldpos ← usub 64 p ext_len;
    auth_dat ← slice buff 0 oldpos;
    enc_ext_data ← parse_decrypt_auth_ext auth_dat auth_ext_contents key;
    enc_exts ← parse_extensions enc_ext_data;
    Ok (mkNts hdr acc enc_exts)
  else
    let '(contents, reader) := read_vec ext_len reader in
    parse_nts_loop fuel hdr buff key reader (acc ++ [mkExt (type_from_wire w) contents]).
Proof.
  intros Hw Hl buff reader. cbn [parse_nts_loop].
  rewrite usub_ok by (unfold buff; cbn; zl; pose proof (zlen_nonneg body); lia). res_step.
  rewrite bool_decide_true
    by (unfold buff; cbn [cpos at_split]; zl; pose proof (zlen_nonneg body); lia).
  rewrite read_u16_bytes by done. res_step. rewrite read_u16_bytes by done. res_step.
  unfold reader. by rewrite <- app_assoc.
Qed.

Lemma nts_loop_fields fb es fuel hdr key pre tail acc :
  fields fb es -> (length fb <= fuel)%nat ->
  exists fuel', (fuel - length fb <= fuel')%nat /\
  parse_nts_loop fuel hdr (pre ++ fb ++ tail) key (at_split pre (fb ++ tail)) acc =
  parse_nts_loop fuel' hdr ((pre ++ fb) ++ tail) key (at_split (pre ++ fb) tail) (acc ++ es).
Proof.
  intros Hf. revert fuel pre acc.
  induction Hf as [|w len c rest es Hw Hl H4 Hc Ht _ IH]; intros fuel pre acc Hfuel.
  - exists fuel. rewrite !app_nil_r. cbn. split; [lia|done].
  - rewrite !length_app, !be_bytes_length in Hfuel.
    destruct fuel as [|fuel]; [lia|].
    rewrite <- !app_assoc. rewrite nts_loop_step by done.
    rewrite usub_ok by lia. res_step. rewrite bool_decide_false by done.
    rewrite read_vec_split by lia.
    destruct (IH fuel ((pre ++ be_bytes 2 w ++ be_bytes 2 len) ++ c)
      (acc ++ [mkExt (type_from_wire w) c]) ltac:(lia)) as (fuel' & Hfuel' & E).
    exists fuel'. split; [rewrite !length_app, !be_bytes_length; lia|].
    rewrite <- !app_assoc in E. rewrite <- !app_assoc. exact E.
Qed.

(** An authenticator that lies within the packet authenticates everything
    before it. *)
Lemma nts_loop_auth fuel hdr key pre len c rest acc :
  in_width 16 len -> 4 <= len -> zlen c = len - 4 ->
  parse_nts_loop (S fuel) hdr (pre ++ auth_field len (c ++ rest)) key
    (at_split pre (auth_field len (c ++ rest))) acc =
  enc_ext_data ← parse_decrypt_auth_ext pre c key;
  enc_exts ← parse_extensions enc_ext_data;
  Ok (mkNts hdr acc enc_exts).
Proof.
  intros Hl H4 Hc. unfold auth_field. rewrite nts_loop_step by done.
  rewrite usub_ok by lia. res_step. rewrite bool_decide_true by done.
  rewrite read_vec_split by lia. cbn [cpos at_split]. zl.
  pose proof (zlen_nonneg pre). pose proof (zlen_nonneg c). pose proof (zlen_nonneg rest).
  rewrite usub_ok by lia. res_step. rewrite usub_ok by lia. res_step.
  rewrite slice_ok; [|lia|zl|zl]. res_step.
  rewrite drop_0, take_app_length'; [done|]. unfold zlen in *. lia.
Qed.

(** One that is cut off by the end of the packet authenticates as many bytes
    less as are missing. *)
Lemma nts_loop_auth_cut fuel hdr key pre len c acc :
  in_width 16 len -> zlen c < len - 4 -> len - 4 - zlen c <= zlen pre ->
  parse_nts_loop (S fuel) hdr (pre ++ auth_field len c) key (at_split pre (auth_field len c)) acc =
  enc_ext_data ← parse_decrypt_auth_ext
    (take (Z.to_nat (zlen pre - (len - 4 - zlen c))) pre)
    (c ++ replicate (Z.to_nat (len - 4) - length c) x00) key;
  enc_exts ← parse_extensions enc_ext_data;
  Ok (mkNts hdr acc enc_exts).
Proof.
  intros Hl Hc Hp. unfold auth_field. rewrite nts_loop_step by done.
  pose proof (zlen_nonneg pre). pose proof (zlen_nonneg c).
  rewrite usub_ok by lia. res_step. rewrite bool_decide_true by done.
  rewrite read_vec_short by lia. cbn [cpos at_split]. zl.
  rewrite usub_ok by lia. res_step. rewrite usub_ok by lia. res_step.
  rewrite slice_ok; [|lia|lia|zl]. res_step.
  rewrite drop_0, take_app_le by (unfold zlen in *; lia).
  replace (Z.to_nat _) with (Z.to_nat (zlen pre - (len - 4 - zlen c))) by lia. done.
Qed.

(** One whose missing part is longer than the packet before it makes the
    position computation underflow. *)
Lemma nts_loop_auth_panic fuel hdr key pre len c acc :
  in_width 16 len -> zlen pre + zlen c < len - 4 -> zlen pre + zlen c < 2 ^ 63 ->
  parse_nts_loop (S fuel) hdr (pre ++ auth_field len c) key (at_split pre (auth_field len c)) acc =
  Panic (if overflow_checks then ArithOverflow else SliceRange).
Proof.
  intros Hl Hc Hb. unfold auth_field. rewrite nts_loop_step by done.
  pose proof (zlen_nonneg pre). pose proof (zlen_nonneg c). pose proof (in_width_16 _ Hl).
  rewrite usub_ok by lia. res_step. rewrite bool_decide_true by done.
  rewrite read_vec_short by lia. cbn [cpos at_split]. zl.
  rewrite usub_ok by lia. res_step. unfold usub. rewrite bool_decide_false by lia.
  destruct overflow_checks; [done|]. res_step. unfold slice.
  rewrite (bool_decide_false (wrap _ _ <= _)); [by rewrite andb_false_r|].
  rewrite wrap_neg by lia. zl.
Qed.
End Loop.

(** ** Accepted packets *)

(** What the authenticator at the end of [pre] authenticates, and the contents
    the code reads for it. *)
Definition auth_data (pre : bytes) (len : Z) (body : bytes) : bytes :=
  if bool_decide (len - 4 <= zlen body) then pre
  else take (Z.to_nat (zlen pre - (len - 4 - zlen body))) pre.
Definition auth_body (len : Z) (body : bytes) : bytes :=
  if bool_decide (len - 4 <= zlen body) then take (Z.to_nat (len - 4)) body
  else body ++ replicate (Z.to_nat (len - 4) - length body) x00.

Section Packet.
Context {P : Profile} {A : Aead}.

Lemma parse_nts_start b1 rest key hdr :
  zlen b1 = 48 -> parse_packet_header (b1 ++ rest) = Ok hdr ->
  parse_nts_packet (b1 ++ rest) key =
  parse_nts_loop (S (length (b1 ++ rest))) hdr (b1 ++ rest) key (at_split b1 rest) [].
Proof.
  intros Hl Hh. unfold parse_nts_packet. rewrite Hh. res_step.
  unfold set_position, cursor_new, HEADER_SIZE, at_split. cbn [cbuf]. by rewrite Hl.
Qed.

(** The result on a packet taken apart at its first authenticator. *)
Lemma parse_nts_decompose b1 fb es len body key hdr :
  zlen b1 = 48 -> parse_packet_header (b1 ++ fb ++ auth_field len body) = Ok hdr ->
  fields fb es -> in_width 16 len -> 4 <= len ->
  len - 4 <= zlen (b1 ++ fb) + zlen body ->
  parse_nts_packet (b1 ++ fb ++ auth_field len body) key =
  enc_ext_data ← parse_decrypt_auth_ext (auth_data (b1 ++ fb) len body) (auth_body len body) key;
  enc_exts ← parse_extensions enc_ext_data;
  Ok (mkNts hdr es enc_exts).
Proof.
  intros Hb1 Hh Hf Hl H4 Hfit. rewrite (parse_nts_start _ _ _ hdr) by done.
  destruct (nts_loop_fields fb es (S (length (b1 ++ fb ++ auth_field len body))) hdr key b1
    (auth_field len body) [] Hf) as (fuel & Hfuel & ->).
  { rewrite !length_app. lia. }
  rewrite !length_app in Hfuel. destruct fuel as [|fuel]; [lia|].
  unfold auth_data, auth_body. case_bool_decide as Hc.
  - rewrite <- (take_drop (Z.to_nat (len - 4)) body) at 1 2.
    rewrite nts_loop_auth; try done.
    unfold zlen in *. rewrite length_take. lia.
  - rewrite nts_loop_auth_cut; [done|done|lia|lia].
Qed.

(** A declared length below four, or one reaching back before the packet, is
    never accepted. *)
Lemma nts_loop_auth_misfit fuel hdr key pre len body acc :
  in_width 16 len -> zlen pre + zlen body < 65532 ->
  ~ (4 <= len /\ len - 4 <= zlen pre + zlen body) ->
  is_ok (parse_nts_loop (S fuel) hdr (pre ++ auth_field len body) key
    (at_split pre (auth_field len body)) acc) = false.
Proof.
  intros Hl Hb Hbad. pose proof (in_width_16 _ Hl).
  pose proof (zlen_nonneg pre). pose proof (zlen_nonneg body).
  destruct (decide (4 <= len)); [by rewrite nts_loop_auth_panic by (done || lia)|].
  unfold auth_field. rewrite nts_loop_step by done. rewrite usub_under by lia.
  destruct overflow_checks eqn:Ho; [done|]. res_step. rewrite bool_decide_true by done.
  rewrite read_vec_short by lia. cbn [cpos at_split]. zl. rewrite usub_ok by lia. res_step.
  rewrite usub_under, Ho by lia. res_step. unfold slice.
  rewrite (bool_decide_false (_ <= zlen _)); [by rewrite andb_false_r|]. zl.
Qed.

(** After a field that the packet's end cuts off there is no authenticator. *)
Lemma nts_loop_cut fuel hdr key pre w len body n acc :
  in_width 16 w -> in_width 16 len -> type_from_wire w ≠ NTSAuthenticator ->
  usub 16 len 4 = Ok (E := io_error) n -> zlen body < n ->
  is_ok (parse_nts_loop (S fuel) hdr (pre ++ be_bytes 2 w ++ be_bytes 2 len ++ body) key
    (at_split pre (be_bytes 2 w ++ be_bytes 2 len ++ body)) acc) = false.
Proof.
  intros Hw Hl Ht Hn Hc. rewrite nts_loop_step, Hn by done. res_step.
  rewrite bool_decide_false by done. rewrite read_vec_short by lia.
  destruct fuel; [done|].
  replace (pre ++ be_bytes 2 w ++ be_bytes 2 len ++ body)
    with (((pre ++ be_bytes 2 w ++ be_bytes 2 len) ++ body) ++ [])
    by by rewrite app_nil_r, <- !app_assoc.
  by rewrite nts_loop_end.
Qed.

Lemma nts_loop_auth_inv fuel hdr key pre len body acc p :
  in_width 16 len -> zlen pre + zlen body < 65532 ->
  parse_nts_loop (S fuel) hdr (pre ++ auth_field len body) key
    (at_split pre (auth_field len body)) acc = Ok p ->
  exists enc, 4 <= len /\ len - 4 <= zlen pre + zlen body /\
    p = mkNts hdr acc (auth_enc_exts p) /\
    parse_decrypt_auth_ext (auth_data pre len body) (auth_body len body) key = Ok enc /\
    parse_extensions enc = Ok (auth_enc_exts p).
Proof.
  intros Hl Hb H.
  destruct (decide (4 <= len /\ len - 4 <= zlen pre + zlen body)) as [[? ?]|Hbad].
  2: { pose proof (nts_loop_auth_misfit fuel hdr key pre len body acc Hl Hb Hbad) as Hm.
       by rewrite H in Hm. }
  unfold auth_data, auth_body. case_bool_decide.
  - rewrite <- (take_drop (Z.to_nat (len - 4)) body) in H at 1 2.
    rewrite nts_loop_auth in H by (try done; unfold zlen in *; rewrite length_take; lia).
    simpl_bind. eexists. by split_and!.
  - rewrite nts_loop_auth_cut in H by (try done; lia).
    simpl_bind. eexists. by split_and!.
Qed.

Lemma nts_loop_Ok_inv fuel hdr key pre rest acc p :
  zlen (pre ++ rest) < 65532 ->
  parse_nts_loop fuel hdr (pre ++ rest) key (at_split pre rest) acc = Ok p ->
  exists fb es len body enc,
    rest = fb ++ auth_field len body /\ fields fb es /\ in_width 16 len /\ 4 <= len /\
    len - 4 <= zlen (pre ++ fb) + zlen body /\
    p = mkNts hdr (acc ++ es) (auth_enc_exts p) /\
    parse_decrypt_auth_ext (auth_data (pre ++ fb) len body) (auth_body len body) key = Ok enc /\
    parse_extensions enc = Ok (auth_enc_exts p).
Proof.
  revert pre rest acc. induction fuel as [|fuel IH]; intros pre rest acc Hb H; [done|].
  destruct (decide (zlen rest < 4)) as [Hs|Hs]; [by rewrite nts_loop_end in H|].
  destruct (ext_header_split rest ltac:(lia)) as (w & len & body & Hw & Hl & ->).
  pose proof (in_width_16 _ Hl). autorewrite with zlen in Hb.
  pose proof (zlen_nonneg pre). pose proof (zlen_nonneg body).
  destruct (decide (type_from_wire w = NTSAuthenticator)) as [Ht|Ht].
  { apply (f_equal wire_type) in Ht. rewrite type_from_wire_wire_type in Ht. subst w.
    change (wire_type NTSAuthenticator) with EXT_TYPE_NTS_AUTHENTICATOR in H |- *.
    apply nts_loop_auth_inv in H as (enc & ? & ? & ? & ? & ?); [|done|lia].
    exists [], [], len, body, enc. rewrite !app_nil_r. split_and!; try done. constructor. }
  destruct (usub (E := io_error) 16 len 4) as [n|e|q] eqn:Hn.
  2, 3: rewrite nts_loop_step, Hn in H by done; done.
  destruct (decide (zlen body < n)) as [Hc|Hc].
  { pose proof (nts_loop_cut fuel hdr key pre w len body n acc Hw Hl Ht Hn Hc) as Hm.
    by rewrite H in Hm. }
  destruct (decide (4 <= len)).
  2: { rewrite usub_under in Hn by lia. destruct overflow_checks; simplify_eq. lia. }
  rewrite usub_ok in Hn by lia. apply Ok_inj in Hn. subst n.
  destruct (read_vec_cases (pre ++ be_bytes 2 w ++ be_bytes 2 len) body (len - 4) ltac:(lia))
    as [(c & rest' & -> & Hc' & E)|(Hc' & E)]; [|lia].
  rewrite nts_loop_step, usub_ok in H by (done || lia). revert H. res_step.
  rewrite bool_decide_false by done. rewrite E. clear E.
  replace (pre ++ be_bytes 2 w ++ be_bytes 2 len ++ c ++ rest')
    with (((pre ++ be_bytes 2 w ++ be_bytes 2 len) ++ c) ++ rest') by by rewrite <- !app_assoc.
  intros H'. apply IH in H'; [|zl].
  destruct H' as (fb & es & len' & body' & enc & -> & Hf & ? & ? & ? & Hp & Hd & He).
  exists (be_bytes 2 w ++ be_bytes 2 len ++ c ++ fb), (mkExt (type_from_wire w) c :: es), len', body', enc.
  rewrite <- !app_assoc in *. by split_and!; try done; constructor.
Qed.
End Packet.

(** ** Serialization *)
Lemma set_version_id h : header_wf h -> version h < 8 -> set_version (version h mod 8) h = h.
Proof.
  intros [[Hv _] _] ?. rewrite Z.mod_small by lia. by destruct h.
Qed.

Section Serialized.
Context {P : Profile} {A : Aead} {R : Type} {G : Rng R}.

(** The bytes of a serialized packet, for the nonce that was drawn. *)
Definition nts_wire (hdr exts nonce ct : bytes) : bytes :=
  let c := auth_contents (AuthFields nonce [] ct (replicate (Z.to_nat (pad4 (zlen ct))) x00)) in
  hdr ++ exts ++ auth_field (zlen c + 4) c.

Lemma zlen_auth_contents nonce ct :
  zlen (auth_contents (AuthFields nonce [] ct (replicate (Z.to_nat (pad4 (zlen ct))) x00))) =
  4 + zlen nonce + zlen ct + pad4 (zlen ct).
Proof. unfold auth_contents. cbn [af_nonce af_npad af_ct af_tail]. zl. pose proof (pad4_range (zlen ct)). lia. Qed.

Lemma serialize_nts_packet_run {L : AeadLaws A} {GL : RngLaws G} {E} p key r eb pt :
  serialize_extensions (E := E) (auth_exts p) = Ok eb ->
  serialize_extensions (E := E) (auth_enc_exts p) = Ok pt ->
  zlen pt + 43 < 2 ^ 16 ->
  let hb := serialize_header (nts_header p) in
  let '(nonce, r') := fill NONCE_LEN r in
  serialize_nts_packet (E := E) p key r =
  (Ok (nts_wire hb eb nonce (seal key nonce (hb ++ eb) pt)), r').
Proof.
  intros He Hp Hsz hb. pose proof (fill_length NONCE_LEN r) as Hn.
  destruct (fill NONCE_LEN r) as [nonce r'] eqn:Hf. cbn [fst] in Hn.
  unfold serialize_nts_packet, lift, mbind, M_bind, rng_fill, mret, M_ret.
  rewrite He, Hp, Hf. fold hb. set (ct := seal key nonce (hb ++ eb) pt).
  assert (zlen ct = zlen pt + 16) as Hct by (unfold ct, zlen; rewrite seal_length; lia).
  assert (zlen nonce = 16) as Hzn by (unfold zlen; rewrite Hn; done).
  pose proof (zlen_nonneg pt). pose proof (pad4_range (zlen ct)).
  fold (pad4 (zlen ct)).
  rewrite (wrap_id 16 (zlen ct)) by (unfold in_width; lia).
  change (Z.of_nat NONCE_LEN) with 16. rewrite <- Hzn.
  change (be_bytes 2 (zlen nonce) ++ be_bytes 2 (zlen ct) ++ nonce ++ ct ++
    replicate (Z.to_nat (pad4 (zlen ct))) x00) with
    (auth_contents (AuthFields nonce [] ct (replicate (Z.to_nat (pad4 (zlen ct))) x00))).
  pose proof (zlen_auth_contents nonce ct) as Hlen.
  cbn [serialize_extensions contents ext_type wire_type].
  rewrite bool_decide_false.
  2: { rewrite Hlen. pose proof (pad4_align (zlen ct)). intros Hbad. apply Hbad.
       replace (4 + zlen nonce + zlen ct + pad4 (zlen ct))
         with (zlen ct + pad4 (zlen ct) + 5 * 4) by lia.
       by rewrite Z.mod_add. }
  res_step. rewrite wrap_id by (unfold in_width; lia).
  unfold nts_wire, auth_field. by rewrite app_nil_r, <- !app_assoc.
Qed.

Lemma parse_nts_wire {L : AeadLaws A} key h eb es nonce pt :
  header_wf h -> version h < 8 -> fields eb es -> zlen nonce = 16 -> zlen pt + 43 < 2 ^ 16 ->
  let hb := serialize_header h in
  parse_nts_packet (nts_wire hb eb nonce (seal key nonce (hb ++ eb) pt)) key =
  enc ← parse_extensions pt; Ok (mkNts h es enc).
Proof.
  intros Hh Hv Hf Hn Hsz hb. unfold nts_wire.
  set (ct := seal key nonce (hb ++ eb) pt).
  assert (zlen ct = zlen pt + 16) as Hct by (unfold ct, zlen; rewrite seal_length; lia).
  pose proof (zlen_auth_contents nonce ct) as Hlen.
  set (f := AuthFields nonce [] ct (replicate (Z.to_nat (pad4 (zlen ct))) x00)) in *.
  pose proof (pad4_range (zlen ct)). pose proof (zlen_nonneg pt).
  assert (zlen hb = 48) as Hhb by apply zlen_serialize_header.
  rewrite (parse_nts_decompose hb eb es _ _ key h); try done.
  - unfold auth_data, auth_body. rewrite !bool_decide_true by lia.
    rewrite take_ge by (unfold zlen; lia). rewrite parse_decrypt_fields.
    + cbn [af_nonce af_ct f]. unfold ct. rewrite open_seal. done.
    + split_and!; cbn [af_nonce af_ct af_npad af_tail f]; try (unfold in_width; lia).
      * rewrite Hn. reflexivity.
      * zl.
  - unfold hb. rewrite parse_serialize_header by done. by rewrite set_version_id.
  - unfold in_width. lia.
  - lia.
  - zl. pose proof (zlen_nonneg eb). lia.
Qed.
Lemma exts_wf_aligned l : Forall ext_wf l -> Forall (fun e => zlen (contents e) mod 4 = 0) l.
Proof. intros. eapply Forall_impl; [done|]. by intros ? (? & ? & ? & ?). Qed.

(** The plain parser sees the authenticator as one more extension. *)
Lemma parse_ntp_wire {E} h exts eb c :
  header_wf h -> version h < 8 -> Forall ext_wf (exts ++ [mkExt NTSAuthenticator c]) ->
  serialize_extensions (E := E) exts = Ok eb ->
  parse_ntp_packet (serialize_header h ++ eb ++ auth_field (zlen c + 4) c) =
  Ok (mkNtp h (exts ++ [mkExt NTSAuthenticator c])).
Proof.
  intros Hh Hv Hwf Heb. unfold parse_ntp_packet. pose proof (zlen_serialize_header h) as Hhb.
  rewrite parse_serialize_header, set_version_id by done. res_step.
  rewrite slice_from_ok.
  2, 3: rewrite ?zlen_app, ?Hhb; pose proof (zlen_nonneg (eb ++ auth_field (zlen c + 4) c)) as Hnn; rewrite ?zlen_app in Hnn; unfold HEADER_SIZE; lia.
  res_step. rewrite drop_app_length' by (unfold zlen in Hhb; lia).
  rewrite (proj2 (parse_extensions_Ok _ (exts ++ [mkExt NTSAuthenticator c]))); [done|].
  rewrite <- (app_nil_r (eb ++ _)). apply (serialize_extensions_stream (E := E)); [done| |done].
  rewrite (serialize_extensions_app _ _ eb (auth_field (zlen c + 4) c)); [done|done|].
  apply Forall_app in Hwf as [_ (_ & _ & Hm & Hl)%Forall_singleton]. cbn [contents] in Hm, Hl.
  cbn [serialize_extensions contents ext_type]. rewrite bool_decide_false by (rewrite Hm; naive_solver).
  res_step. rewrite wrap_id by (unfold in_width; pose proof (zlen_nonneg c); lia). by rewrite app_nil_r.
Qed.

(** Both parsers on a serialized packet, and its size: the plain one sees the
    authenticator as one more extension. *)
Lemma nts_serialize_parse {L : AeadLaws A} {GL : RngLaws G} {E} p key r :
  header_wf (nts_header p) -> version (nts_header p) < 8 ->
  Forall ext_wf (auth_exts p) ->
  Forall (fun e => ext_type e ≠ NTSAuthenticator) (auth_exts p) ->
  Forall ext_wf (auth_enc_exts p) -> exts_size (auth_enc_exts p) + 43 < 2 ^ 16 ->
  exists b r' c, serialize_nts_packet (E := E) p key r = (Ok b, r') /\
    parse_nts_packet b key = Ok p /\
    parse_ntp_packet b = Ok (mkNtp (nts_header p) (auth_exts p ++ [mkExt NTSAuthenticator c])) /\
    zlen b = 88 + exts_size (auth_exts p) + exts_size (auth_enc_exts p).
Proof.
  intros Hh Hv Ha Hna He Hsz.
  destruct (serialize_extensions_ok (E := E) _ (exts_wf_aligned _ Ha)) as (eb & Heb & Hel).
  destruct (serialize_extensions_ok (E := E) _ (exts_wf_aligned _ He)) as (pt & Hpt & Hlen).
  rewrite <- Hlen in Hsz.
  pose proof (serialize_nts_packet_run p key r eb pt Heb Hpt Hsz) as Hrun.
  pose proof (fill_length NONCE_LEN r) as Hn.
  destruct (fill NONCE_LEN r) as [nonce r']. cbn [fst] in Hn.
  assert (zlen nonce = 16) as Hzn by (unfold zlen; by rewrite Hn).
  set (hb := serialize_header (nts_header p)) in *.
  set (ct := seal key nonce (hb ++ eb) pt) in *.
  assert (zlen ct = zlen pt + 16) as Hct by (unfold ct, zlen; rewrite seal_length; lia).
  pose proof (zlen_auth_contents nonce ct) as Hcl. pose proof (zlen_nonneg pt).
  assert (pad4 (zlen ct) = 0) as Hpad.
  { rewrite Hct, Hlen. pose proof (exts_size_aligned _ (exts_wf_aligned _ He)) as Hal.
    unfold pad4. rewrite Z.add_mod, Hal by lia. done. }
  assert (zlen hb = 48) as Hhb by apply zlen_serialize_header.
  set (c := auth_contents (AuthFields nonce [] ct (replicate (Z.to_nat (pad4 (zlen ct))) x00))) in *.
  assert (zlen c = 4 + zlen nonce + zlen ct) as Hcl' by lia. clear Hcl. rename Hcl' into Hcl.
  assert (ext_wf (mkExt NTSAuthenticator c)) as Hcwf.
  { split_and!; cbn [ext_type contents wire_type]; try done; [|lia]. rewrite Hcl, Hct, Hlen, Hzn.
    pose proof (exts_size_aligned _ (exts_wf_aligned _ He)).
    replace (4 + 16 + (exts_size (auth_enc_exts p) + 16)) with (exts_size (auth_enc_exts p) + 9 * 4) by lia.
    by rewrite Z.mod_add. }
  exists (nts_wire hb eb nonce ct), r', c. split; [exact Hrun|]. split_and!.
  - subst hb ct. rewrite (parse_nts_wire key (nts_header p) eb (auth_exts p) nonce pt); try done.
    + rewrite (proj2 (parse_extensions_Ok pt (auth_enc_exts p))); [by destruct p|].
      rewrite <- (app_nil_r pt). by apply (serialize_extensions_stream (E := E)).
    + by apply (serialize_extensions_fields (E := E)).
  - apply (parse_ntp_wire (E := E)); [done..| |done]. by apply Forall_app, conj, Forall_singleton.
  - change (nts_wire hb eb nonce ct) with (hb ++ eb ++ auth_field (zlen c + 4) c).
    unfold auth_field. clearbody c. zl.
Qed.
End Serialized.

(** C3: Parsing what [serialize_nts_packet] wrote gives the packet back: with any
    AEAD that satisfies its laws and any generator, for every packet whose fields
    are in range and whose encrypted part fits the two-byte lengths, serialization
    succeeds and [parse_nts_packet] under the same key returns exactly the header,
    the authenticated and the encrypted extensions. *)
Theorem nts_roundtrip {P : Profile} {A : Aead} {R} {G : Rng R}
    (L : AeadLaws A) (GL : RngLaws G) p key r :
  header_wf (nts_header p) -> version (nts_header p) < 8 ->
  Forall ext_wf (auth_exts p) ->
  Forall (fun e => ext_type e ≠ NTSAuthenticator) (auth_exts p) ->
  Forall ext_wf (auth_enc_exts p) -> exts_size (auth_enc_exts p) + 43 < 2 ^ 16 ->
  exists b r', serialize_nts_packet (E := io_error) p key r = (Ok b, r') /\
               parse_nts_packet b key = Ok p.
Proof.
  intros Hh Hv Ha Hna He Hsz.
  destruct (nts_serialize_parse (E := io_error) p key r Hh Hv Ha Hna He Hsz) as (b & r' & c & ? & ? & _). eauto.
Qed.

(** ** Concrete packets *)
Module Example.
Definition hdr : NtpPacketHeader :=
  mkHeader NoLeap 4 Client 1 0 (-18) 0 0 0 0xdeadbeef 0 0 7.
Definition uid : NtpExtension := mkExt UniqueIdentifier (replicate 32 x11).
Definition cookie : NtpExtension := mkExt NTSCookie (replicate 100 x22).
Definition secret : NtpExtension := mkExt NTSCookiePlaceholder (replicate 32 xfe).
Definition packet : NtsPacket := mkNts hdr [uid; cookie] [secret].
Definition key : bytes := replicate 32 x07.
Definition get {E X} (d : X) (r : res E X) : X := match r with Ok x => x | _ => d end.
(** The packet on the wire, and its parts before and in the authenticator. *)
Definition wire : bytes :=
  get [] (serialize_nts_packet (A := Toy.toy_aead) (G := Toy.toy_rng) (E := io_error)
            packet key 5).1.
Definition fb : bytes := get [] (serialize_extensions (E := io_error) [uid; cookie]).
Definition body : bytes := drop (48 + length fb + 4) wire.
(** An extension that was not there when the packet was sealed. *)
Definition extra : NtpExtension := mkExt NTSCookiePlaceholder (replicate 104 x33).
Definition xb : bytes := get [] (serialize_extensions (E := io_error) [extra]).
End Example.

Lemma nts_roundtrip_witness :
  exists b r', serialize_nts_packet (A := Toy.toy_aead) (G := Toy.toy_rng) (E := io_error)
                 Example.packet Example.key 5 = (Ok b, r') /\
               parse_nts_packet (P := Release) (A := Toy.toy_aead) b Example.key = Ok Example.packet.
Proof.
  apply (nts_roundtrip (P := Release) Toy.toy_aead_laws Toy.toy_rng_laws Example.packet Example.key 5).
  - apply (bool_decide_unpack _). by vm_compute.
  - reflexivity.
  - apply (bool_decide_unpack _). by vm_compute.
  - apply (bool_decide_unpack _). by vm_compute.
  - apply (bool_decide_unpack _). by vm_compute.
  - reflexivity.
Defined.

(** ** What acceptance means *)
Section Accepted.
Context {P : Profile} {A : Aead} {L : AeadLaws A}.

Lemma parse_nts_Ok_inv buff key p :
  zlen buff < 65532 -> parse_nts_packet buff key = Ok p ->
  exists b1 fb len body enc, buff = (b1 ++ fb) ++ auth_field len body /\
    zlen b1 = 48 /\ parse_packet_header b1 = Ok (nts_header p) /\ fields fb (auth_exts p) /\
    in_width 16 len /\ 4 <= len /\ len - 4 <= zlen (b1 ++ fb) + zlen body /\
    parse_decrypt_auth_ext (auth_data (b1 ++ fb) len body) (auth_body len body) key = Ok enc /\
    ext_stream enc (auth_enc_exts p).
Proof.
  intros Hb H. pose proof H as H'. unfold parse_nts_packet in H'.
  apply bind_Ok in H' as (hdr & Hh & _).
  destruct (parse_packet_header_wf _ _ Hh) as (_ & _ & Hlen).
  rewrite <- (take_drop 48 buff) in H, Hb, Hh.
  assert (zlen (take 48 buff) = 48) as H48 by (unfold zlen in *; rewrite length_take; lia).
  rewrite (parse_nts_start _ _ _ hdr) in H by done.
  apply nts_loop_Ok_inv in H as (fb & es & len & body & enc & E & Hf & ? & ? & ? & -> & Hd & He);
    [|done].
  exists (take 48 buff), fb, len, body, enc. cbn [nts_header auth_exts auth_enc_exts app].
  rewrite <- app_assoc, <- E, take_drop.
  rewrite parse_packet_header_prefix in Hh by lia.
  split_and!; try done. by apply (parse_extensions_Ok (P := P)).
Qed.
End Accepted.

(** C2: A packet is accepted only if the holder of the key sealed it: in every
    packet shorter than 65532 bytes that [parse_nts_packet] accepts, the returned
    header and authenticated extensions are those of the bytes [pre] before the
    first authenticator, the returned encrypted extensions are the content of a
    plaintext [pt], and the packet carries the sealing of [pt] under the key with,
    as associated data, all of [pre] when the authenticator lies within the
    packet, and [pre] less its last [len - 4 - zlen body] bytes when the
    authenticator's declared length reaches past the end. *)
Theorem nts_accept_sealed {P : Profile} {A : Aead} (L : AeadLaws A) buff key p :
  zlen buff < 65532 -> parse_nts_packet buff key = Ok p ->
  exists pre len body f pt,
    buff = pre ++ auth_field len body /\
    parse_packet_header pre = Ok (nts_header p) /\ fields (drop 48 pre) (auth_exts p) /\
    auth_fields_wf f /\ auth_body len body = auth_contents f /\
    ext_stream pt (auth_enc_exts p) /\
    ((len - 4 <= zlen body /\ af_ct f = seal key (af_nonce f) pre pt) \/
     (zlen body < len - 4 /\ af_ct f = seal key (af_nonce f)
        (take (Z.to_nat (zlen pre - (len - 4 - zlen body))) pre) pt)).
Proof.
  intros Hb H. apply parse_nts_Ok_inv in H as
    (b1 & fb & len & body & enc & -> & H48 & Hh & Hf & ? & ? & ? & Hd & He); [|done].
  apply parse_decrypt_Ok in Hd as (f & Hwf & Hc & Ho%open_sound).
  exists (b1 ++ fb), len, body, f, enc.
  rewrite parse_packet_header_prefix, drop_app_length' by (unfold zlen in *; lia).
  split_and!; try done. revert Ho. unfold auth_data.
  case_bool_decide; intros; [left|right]; split; (lia || done).
Qed.

Lemma nts_accept_sealed_witness :
  exists pre len body f pt,
    Example.wire = pre ++ auth_field len body /\
    parse_packet_header pre = Ok (nts_header Example.packet) /\
    fields (drop 48 pre) (auth_exts Example.packet) /\
    auth_fields_wf f /\ auth_body len body = auth_contents f /\
    ext_stream pt (auth_enc_exts Example.packet) /\
    ((len - 4 <= zlen body /\ af_ct f = seal (Aead := Toy.toy_aead) Example.key (af_nonce f) pre pt) \/
     (zlen body < len - 4 /\ af_ct f = seal (Aead := Toy.toy_aead) Example.key (af_nonce f)
        (take (Z.to_nat (zlen pre - (len - 4 - zlen body))) pre) pt)).
Proof.
  apply (nts_accept_sealed (P := Release) (A := Toy.toy_aead) Toy.toy_aead_laws).
  - by vm_compute.
  - by vm_compute.
Defined.

(** C39: The authenticator's length field can be stretched to hide bytes from
    authentication.  Take any packet accepted under a key, whose authenticator is
    its first and reaches exactly to the end; insert any whole extension fields
    [xb] in front of the authenticator and add their size to the authenticator's
    declared length.  The result is accepted under the same key, with the inserted
    extensions among the authenticated ones, although only the original bytes were
    sealed. *)
Theorem nts_accept_unsealed {P : Profile} {A : Aead} b1 fb es len body key p xb xs :
  zlen b1 = 48 -> fields fb es -> 4 <= len -> zlen body = len - 4 ->
  parse_nts_packet (b1 ++ fb ++ auth_field len body) key = Ok p ->
  fields xb xs -> len + zlen xb < 2 ^ 16 ->
  parse_nts_packet (b1 ++ (fb ++ xb) ++ auth_field (len + zlen xb) body) key =
  Ok (mkNts (nts_header p) (auth_exts p ++ xs) (auth_enc_exts p)).
Proof.
  intros H48 Hf H4 Hl H Hx Hw. pose proof (zlen_nonneg xb).
  pose proof H as H'. unfold parse_nts_packet in H'. apply bind_Ok in H' as (hdr & Hh & _).
  rewrite (parse_nts_decompose _ _ es _ _ _ hdr) in H
    by (try done; unfold in_width; zl; pose proof (zlen_nonneg fb); lia).
  unfold auth_data, auth_body in H. rewrite !bool_decide_true in H by lia.
  rewrite take_ge in H by (unfold zlen in *; lia).
  apply bind_Ok in H as (enc & Hd & H). apply bind_Ok in H as (ee & He & H).
  apply Ok_inj in H as <-. cbn [nts_header auth_exts auth_enc_exts].
  rewrite parse_packet_header_prefix in Hh by lia.
  rewrite (parse_nts_decompose _ _ (es ++ xs) _ _ _ hdr);
    try done; [|by rewrite parse_packet_header_prefix by lia|by apply fields_app
    |unfold in_width; lia|lia|zl; pose proof (zlen_nonneg fb); lia].
  unfold auth_data, auth_body. destruct (decide (zlen xb = 0)) as [Hz|Hz].
  - assert (xb = []) as -> by (by apply nil_length_inv; unfold zlen in Hz; lia).
    inversion Hx; subst.
    rewrite !app_nil_r, Z.add_0_r, !bool_decide_true by lia.
    rewrite take_ge by (unfold zlen in *; lia). rewrite Hd. res_step. by rewrite He.
  - rewrite !bool_decide_false by lia.
    rewrite app_assoc, take_app_length' by (unfold zlen in *; rewrite !length_app in *; lia).
    rewrite (parse_decrypt_tail _ _ _ _ _ Hd). res_step. by rewrite He.
Qed.

Lemma nts_accept_unsealed_witness :
  parse_nts_packet (P := Release) (A := Toy.toy_aead)
    (take 48 Example.wire ++ (Example.fb ++ Example.xb) ++
     auth_field (zlen Example.body + 4 + zlen Example.xb) Example.body) Example.key =
  Ok (mkNts Example.hdr ([Example.uid; Example.cookie] ++ [Example.extra]) [Example.secret]).
Proof.
  apply (nts_accept_unsealed (P := Release) (A := Toy.toy_aead) (take 48 Example.wire)
    Example.fb [Example.uid; Example.cookie] (zlen Example.body + 4) Example.body Example.key
    Example.packet Example.xb [Example.extra]).
  - reflexivity.
  - apply (serialize_extensions_fields (E := io_error));
      [apply (bool_decide_unpack _); by vm_compute..|by vm_compute].
  - by vm_compute.
  - by vm_compute.
  - by vm_compute.
  - apply (serialize_extensions_fields (E := io_error));
      [apply (bool_decide_unpack _); by vm_compute..|by vm_compute].
  - by vm_compute.
Defined.

(** ** When the parser panics *)

(** The first authenticator's declared length exceeds everything in the packet. *)
Definition auth_overruns (buff : bytes) : Prop :=
  exists b1 fb es len body, buff = b1 ++ fb ++ auth_field len body /\
    zlen b1 = 48 /\ fields fb es /\ in_width 16 len /\
    zlen (b1 ++ fb) + zlen body < len - 4.

Section Panics.
Context {P : Profile} {A : Aead}.

Lemma nts_overrun b1 fb es len body key :
  zlen b1 = 48 -> fields fb es -> in_width 16 len ->
  zlen (b1 ++ fb) + zlen body < len - 4 ->
  parse_nts_packet (b1 ++ fb ++ auth_field len body) key =
  Panic (if overflow_checks then ArithOverflow else SliceRange).
Proof.
  intros H48 Hf Hl Hlong. pose proof (in_width_16 _ Hl).
  pose proof (parse_packet_header_total (b1 ++ fb ++ auth_field len body)) as Hh.
  rewrite bool_decide_false in Hh
    by (zl; pose proof (zlen_nonneg fb); pose proof (zlen_nonneg (auth_field len body)); lia).
  destruct Hh as [hdr Hh]. rewrite (parse_nts_start _ _ _ hdr) by done.
  destruct (nts_loop_fields fb es (S (length (b1 ++ fb ++ auth_field len body))) hdr key b1
    (auth_field len body) [] Hf) as (fuel & Hfuel & ->); [rewrite !length_app; lia|].
  rewrite !length_app in Hfuel. destruct fuel as [|fuel]; [lia|].
  apply nts_loop_auth_panic; [done|lia|lia].
Qed.

(** In a debug build a field shorter than its own header underflows. *)
Lemma nts_short_field b1 fb es w len body key :
  overflow_checks = true -> zlen b1 = 48 -> fields fb es -> in_width 16 w -> in_width 16 len ->
  len < 4 ->
  parse_nts_packet (b1 ++ fb ++ be_bytes 2 w ++ be_bytes 2 len ++ body) key = Panic ArithOverflow.
Proof.
  intros Ho H48 Hf Hw Hl Hs. pose proof (in_width_16 _ Hl).
  set (tail := be_bytes 2 w ++ be_bytes 2 len ++ body).
  pose proof (parse_packet_header_total (b1 ++ fb ++ tail)) as Hh.
  rewrite bool_decide_false in Hh
    by (zl; pose proof (zlen_nonneg fb); pose proof (zlen_nonneg tail); lia).
  destruct Hh as [hdr Hh]. rewrite (parse_nts_start _ _ _ hdr) by done.
  destruct (nts_loop_fields fb es (S (length (b1 ++ fb ++ tail))) hdr key b1 tail [] Hf)
    as (fuel & Hfuel & ->); [rewrite !length_app; lia|].
  rewrite !length_app in Hfuel. destruct fuel as [|fuel]; [lia|].
  unfold tail. rewrite nts_loop_step by done. rewrite usub_under by lia. by rewrite Ho.
Qed.

Lemma nts_loop_no_auth rest exts fuel hdr key pre acc :
  ext_stream rest exts -> (forall e, e ∈ exts -> ext_type e ≠ NTSAuthenticator) ->
  (length rest < fuel)%nat ->
  parse_nts_loop fuel hdr (pre ++ rest) key (at_split pre rest) acc =
  Err (IoError InvalidInput "never saw the authenticator").
Proof.
  intros H. revert fuel pre acc.
  induction H as [rest Hs|w len c rest exts Hw Hl Hm H4 Hc _ IH|w len c Hw Hl Hm Hc];
    intros fuel pre acc Hna Hfuel; (destruct fuel as [|fuel]; [lia|]).
  - by rewrite nts_loop_end.
  - rewrite !length_app, !be_bytes_length in Hfuel. rewrite nts_loop_step by done.
    rewrite usub_ok by lia. res_step.
    rewrite bool_decide_false by (apply (Hna (mkExt (type_from_wire w) c)), elem_of_cons; by left).
    rewrite read_vec_split by lia.
    replace (pre ++ be_bytes 2 w ++ be_bytes 2 len ++ c ++ rest)
      with (((pre ++ be_bytes 2 w ++ be_bytes 2 len) ++ c) ++ rest) by by rewrite <- !app_assoc.
    apply IH; [|lia]. intros e He. apply Hna, elem_of_cons. by right.
  - rewrite !length_app, !be_bytes_length in Hfuel. pose proof (zlen_nonneg c).
    rewrite nts_loop_step by done. rewrite usub_ok by lia. res_step.
    rewrite bool_decide_false
      by (eapply (Hna (mkExt (type_from_wire w) _)), elem_of_cons; by left).
    rewrite read_vec_short by lia. destruct fuel as [|fuel]; [lia|].
    replace (pre ++ be_bytes 2 w ++ be_bytes 2 len ++ c)
      with (((pre ++ be_bytes 2 w ++ be_bytes 2 len) ++ c) ++ [])
      by by rewrite app_nil_r, <- !app_assoc.
    by rewrite nts_loop_end.
Qed.

Lemma parse_ntp_packet_inv buff q :
  parse_ntp_packet buff = Ok q ->
  exists b1 rest, buff = b1 ++ rest /\ zlen b1 = 48 /\
    parse_packet_header b1 = Ok (header q) /\ ext_stream rest (exts q).
Proof.
  unfold parse_ntp_packet. intros (hdr & Hh & H)%bind_Ok.
  destruct (parse_packet_header_wf _ _ Hh) as (_ & _ & Hlen).
  rewrite slice_from_ok in H by lia. simpl_bind. cbn [header exts].
  exists (take 48 buff), (drop 48 buff).
  assert (zlen (take 48 buff) = 48) by (unfold zlen in *; rewrite length_take; lia).
  split_and!; [by rewrite take_drop|done| |by apply (parse_extensions_Ok (P := P))].
  rewrite <- (take_drop 48 buff), parse_packet_header_prefix in Hh by lia. done.
Qed.

(** On a packet that [parse_ntp_packet] accepts: no panic, unless the
    authenticator overruns the packet. *)
Lemma parse_nts_no_panic buff key q :
  parse_ntp_packet buff = Ok q ->
  is_panic (parse_nts_packet buff key) = false \/ auth_overruns buff.
Proof.
  intros (b1 & rest & -> & H48 & Hh & Hs)%parse_ntp_packet_inv.
  assert (parse_packet_header (b1 ++ rest) = Ok (header q)) as Hh'
    by by rewrite parse_packet_header_prefix by lia.
  destruct (ext_stream_fields _ _ Hs) as [(fb & es & len & body & -> & Hf & Hl & H4)|Hna].
  - destruct (decide (len - 4 <= zlen (b1 ++ fb) + zlen body)) as [Hfit|Hfit].
    + left. rewrite (parse_nts_decompose _ _ es _ _ _ (header q)); try done.
      apply bind_is_panic; [apply parse_decrypt_no_panic|]. intros enc _.
      apply bind_is_panic; [apply parse_extensions_no_panic|]. done.
    + right. exists b1, fb, es, len, body. split_and!; (done || lia).
  - left. rewrite (parse_nts_start _ _ _ (header q)) by done.
    rewrite (nts_loop_no_auth rest (exts q)); [done..|]. rewrite length_app. lia.
Qed.
End Panics.

(** The NTS parser panics on a packet that passed [parse_ntp_packet] exactly
    when the declared length of its first authenticator exceeds the packet: the
    start of the authenticator is computed as the reader's position less the
    declared length, although the read was cut short.  This holds in both build
    profiles and needs no key. *)
Lemma nts_panics_iff {P : Profile} {A : Aead} buff key q :
  parse_ntp_packet buff = Ok q ->
  (is_panic (parse_nts_packet buff key) = true <-> auth_overruns buff).
Proof.
  intros Hq. split.
  - destruct (parse_nts_no_panic buff key q Hq) as [->|?]; done.
  - intros (b1 & fb & es & len & body & -> & ? & ? & ? & ?). by erewrite nts_overrun.
Qed.

Lemma nts_panics_iff_witness :
  is_panic (parse_nts_packet (P := Release) (A := Toy.toy_aead)
    (take 48 Example.wire ++ Example.fb ++ auth_field 400 Example.body) Example.key) = true
  <-> auth_overruns (take 48 Example.wire ++ Example.fb ++ auth_field 400 Example.body).
Proof.
  eapply (nts_panics_iff (P := Release) (A := Toy.toy_aead)).
  by vm_compute.
Defined.
