(* ===== verification/Float64.v ===== *)
(** * [f64] arithmetic

    The double-precision computations of the program, on the finite values they
    meet: every operation computes the exact rational result and rounds it to 53
    significant bits, ties to even.  The program's values lie between 2^-60 and
    2^70, far from the exponents where overflow or subnormal numbers would need
    more. *)

From stdpp Require Import prelude numbers.
From S2P Require Import Prelude Words.

Open Scope Z_scope.

(** The number [fm * 2 ^ fe]. *)
Record f64 := F64 { fm : Z; fe : Z }.

(** The integer nearest to [n / d], for a positive [d], ties to even. *)
Definition rne (n d : Z) : Z :=
  let q := n / d in
  match Z.compare (2 * (n mod d)) d with
  | Lt => q
  | Gt => q + 1
  | Eq => if Z.even q then q else q + 1
  end.

(** [n / d * 2 ^ (- e)] as a fraction. *)
Definition scale (n d e : Z) : Z * Z :=
  if bool_decide (e <= 0) then (n * 2 ^ (- e), d) else (n, d * 2 ^ e).

(** The exponent that gives [n / d] a 53-bit integral significand. *)
Definition exponent (n d : Z) : Z :=
  let e := Z.log2 n - Z.log2 d - 52 in
  let '(a, b) := scale n d e in
  if bool_decide (a < 2 ^ 52 * b) then e - 1 else e.

Definition round_pos (n d : Z) : f64 :=
  if bool_decide (n = 0) then F64 0 0
  else let e := exponent n d in
       let '(a, b) := scale n d e in F64 (rne a b) e.

Definition round_f64 (n d : Z) : f64 :=
  if bool_decide (n < 0) then F64 (- fm (round_pos (- n) d)) (fe (round_pos (- n) d))
  else round_pos n d.

(** The value as a reduced fraction. *)
Definition ratio (x : f64) : Z * Z :=
  if bool_decide (0 <= fe x) then (fm x * 2 ^ fe x, 1)
  else let g := Z.gcd (fm x) (2 ^ (- fe x)) in (fm x / g, 2 ^ (- fe x) / g).

Definition f64_of_Z (n : Z) : f64 := round_f64 n 1.
Definition fadd (x y : f64) : f64 :=
  let '(a, b) := ratio x in let '(c, d) := ratio y in round_f64 (a * d + c * b) (b * d).
Definition fsub (x y : f64) : f64 :=
  let '(a, b) := ratio x in let '(c, d) := ratio y in round_f64 (a * d - c * b) (b * d).
Definition fmul (x y : f64) : f64 :=
  let '(a, b) := ratio x in let '(c, d) := ratio y in round_f64 (a * c) (b * d).
(** Division by a positive number. *)
Definition fdiv (x y : f64) : f64 :=
  let '(a, b) := ratio x in let '(c, d) := ratio y in round_f64 (a * d) (b * c).

Definition ffloor (x : f64) : Z := let '(a, b) := ratio x in a / b.
(** [f64::round] of a non-negative number: half away from zero. *)
Definition fround (x : f64) : Z := let '(a, b) := ratio x in (2 * a + b) / (2 * b).
(** [as u32] of an integral float saturates. *)
Definition as_u32 (n : Z) : Z := Z.max 0 (Z.min (2 ^ 32 - 1) n).

(** ** Rounding *)
Lemma rne_spec n d : 0 < d -> - d <= 2 * (d * rne n d - n) <= d.
Proof.
  intros Hd. unfold rne. pose proof (Z.div_mod n d ltac:(lia)) as E.
  pose proof (Z.mod_pos_bound n d Hd).
  destruct (Z.compare_spec (2 * (n mod d)) d); [destruct (Z.even _)|..]; nia.
Qed.

Lemma rne_exact a d : 0 < d -> rne (a * d) d = a.
Proof.
  intros Hd. unfold rne. rewrite Z.mod_mul, Z.div_mul by lia.
  destruct (Z.compare_spec (2 * 0) d); lia.
Qed.

Lemma ratio_scaled_int N k : 0 <= k -> ratio (F64 (N * 2 ^ k) (- k)) = (N, 1).
Proof.
  intros Hk. unfold ratio. cbn [fm fe]. rewrite Z.opp_involutive.
  pose proof (Z.pow_pos_nonneg 2 k ltac:(lia) Hk).
  case_bool_decide.
  - assert (k = 0) as -> by lia. cbn. f_equal; lia.
  - assert (Z.gcd (N * 2 ^ k) (2 ^ k) = 2 ^ k) as ->.
    { rewrite Z.gcd_comm, Z.mul_comm. rewrite <- (Z.mul_1_r (2 ^ k)) at 1.
      rewrite Z.gcd_mul_mono_l_nonneg, Z.gcd_1_l by lia. lia. }
    rewrite Z.div_mul, Z.div_same by lia. done.
Qed.

(** Integers with at most 53 significant bits are represented exactly. *)
Lemma round_int_exact N j :
  0 < N -> 0 <= j -> N mod 2 ^ j = 0 -> Z.log2 N - 52 <= j ->
  ratio (round_f64 N 1) = (N, 1).
Proof.
  intros HN Hj Hdiv Hlog. unfold round_f64, round_pos.
  rewrite bool_decide_false by lia. rewrite bool_decide_false by lia.
  assert (exponent N 1 <= Z.log2 N - 52) as He.
  { unfold exponent. change (Z.log2 1) with 0. destruct (scale N 1 _). case_bool_decide; lia. }
  set (e := exponent N 1) in *. unfold scale. case_bool_decide as Hs.
  - rewrite <- (Z.mul_1_r (N * 2 ^ (- e))), rne_exact by lia.
    replace e with (- - e) at 2 by lia. apply ratio_scaled_int. lia.
  - assert (N = (N / 2 ^ e) * 2 ^ e) as E.
    { rewrite Z.mul_comm. apply Z.div_exact; [apply Z.pow_nonzero; lia|].
      apply Z.mod_divide; [apply Z.pow_nonzero; lia|].
      apply Z.divide_trans with (2 ^ j).
      - exists (2 ^ (j - e)). rewrite <- Z.pow_add_r by lia. f_equal. lia.
      - apply Z.mod_divide; [apply Z.pow_nonzero; lia|done]. }
    pose proof (Z.pow_pos_nonneg 2 e ltac:(lia) ltac:(lia)).
    rewrite Z.mul_1_l. rewrite E at 1. rewrite rne_exact by done.
    unfold ratio. cbn [fm fe]. rewrite bool_decide_true by lia. by rewrite <- E.
Qed.

Lemma f64_of_Z_exact N : 0 <= N < 2 ^ 53 -> ratio (f64_of_Z N) = (N, 1).
Proof.
  intros HN. destruct (decide (N = 0)) as [->|]; [reflexivity|].
  apply (round_int_exact N 0); try lia.
  - by rewrite Z.mod_1_r.
  - assert (Z.log2 N < 53); [apply Z.log2_lt_pow2; lia|lia].
Qed.

(** ** Rounding of a positive fraction *)
Lemma scale_pos n d e : 0 < n -> 0 < d -> 0 < (scale n d e).1 /\ 0 < (scale n d e).2.
Proof.
  intros. unfold scale. pose proof (Z.pow_pos_nonneg 2 (- e)). pose proof (Z.pow_pos_nonneg 2 e).
  case_bool_decide; cbn; nia.
Qed.

(** One binary exponent less doubles the scaled fraction. *)
Lemma scale_pred n d e :
  (scale n d (e - 1)).1 * (scale n d e).2 = 2 * (scale n d e).1 * (scale n d (e - 1)).2.
Proof.
  unfold scale. repeat case_bool_decide; cbn; try lia.
  - replace (- (e - 1)) with (- e + 1) by lia. rewrite Z.pow_add_r by lia. lia.
  - assert (e = 1) as -> by lia. cbn. lia.
  - replace e with (e - 1 + 1) at 1 by lia. rewrite Z.pow_add_r by lia. lia.
Qed.

Lemma scale_log n d :
  0 < n -> 0 < d ->
  let '(a, b) := scale n d (Z.log2 n - Z.log2 d - 52) in 2 ^ 51 * b < a < 2 ^ 53 * b.
Proof.
  intros Hn Hd. pose proof (Z.log2_spec n Hn) as [Hn1 Hn2]. pose proof (Z.log2_spec d Hd) as [Hd1 Hd2].
  pose proof (Z.log2_nonneg n). pose proof (Z.log2_nonneg d).
  set (i := Z.log2 n) in *. set (j := Z.log2 d) in *. unfold Z.succ in *.
  rewrite Z.pow_add_r in Hn2, Hd2 by lia. unfold scale. case_bool_decide.
  - replace (- (i - j - 52)) with (52 + j - i) by lia.
    assert (2 ^ i * 2 ^ (52 + j - i) = 2 ^ 52 * 2 ^ j) as E
      by (rewrite <- !Z.pow_add_r by lia; f_equal; lia).
    pose proof (Z.pow_pos_nonneg 2 (52 + j - i)). nia.
  - assert (2 ^ j * 2 ^ (i - j - 52) * 2 ^ 52 = 2 ^ i) as E
      by (rewrite <- !Z.pow_add_r by lia; f_equal; lia).
    pose proof (Z.pow_pos_nonneg 2 (i - j - 52)). nia.
Qed.

(** The significand of a rounded number has 53 bits. *)
Lemma exponent_spec n d :
  0 < n -> 0 < d -> let '(a, b) := scale n d (exponent n d) in 0 < b /\ 2 ^ 52 * b <= a < 2 ^ 53 * b.
Proof.
  intros Hn Hd. pose proof (scale_log n d Hn Hd) as Hs. unfold exponent.
  set (e := Z.log2 n - Z.log2 d - 52) in *.
  pose proof (scale_pos n d e Hn Hd). pose proof (scale_pos n d (e - 1) Hn Hd).
  pose proof (scale_pred n d e) as Hp.
  destruct (scale n d e) as [a b] eqn:Hab. cbn [fst snd] in *. case_bool_decide.
  - destruct (scale n d (e - 1)) as [a' b']. cbn [fst snd] in *. split; [lia|]. nia.
  - rewrite Hab. lia.
Qed.

Lemma round_pos_eq n d :
  0 < n -> round_f64 n d = F64 (rne (scale n d (exponent n d)).1 (scale n d (exponent n d)).2) (exponent n d).
Proof.
  intros Hn. unfold round_f64, round_pos. rewrite !bool_decide_false by lia.
  by destruct (scale _ _ _).
Qed.

(** [ratio] is the value. *)
Lemma ratio_spec m k : 0 <= k -> let '(a, b) := ratio (F64 m (- k)) in 0 < b /\ a * 2 ^ k = m * b.
Proof.
  intros Hk. pose proof (Z.pow_pos_nonneg 2 k ltac:(lia) Hk). unfold ratio. cbn [fm fe].
  rewrite Z.opp_involutive. case_bool_decide.
  - assert (k = 0) as -> by lia. cbn. lia.
  - pose proof (Z.gcd_nonneg m (2 ^ k)). set (g := Z.gcd m (2 ^ k)) in *.
    destruct (Z.gcd_divide_l m (2 ^ k)) as [x Hx]. destruct (Z.gcd_divide_r m (2 ^ k)) as [y Hy].
    fold g in Hx, Hy. assert (0 < g) by (destruct (decide (g = 0)); nia).
    rewrite Hx, Hy. rewrite !Z.div_mul by lia. nia.
Qed.

(** A fraction [m / 2 ^ k] with a 53-bit numerator is represented exactly. *)
Lemma round_exact n d m k :
  0 < n -> 0 < d -> 0 <= k -> n * 2 ^ k = m * d -> m < 2 ^ 53 ->
  let '(a, b) := ratio (round_f64 n d) in 0 < b /\ a * 2 ^ k = m * b.
Proof.
  intros Hn Hd Hk Hm Hb. pose proof (exponent_spec n d Hn Hd) as He. rewrite round_pos_eq by done.
  set (e := exponent n d) in *. pose proof (Z.pow_pos_nonneg 2 k ltac:(lia) Hk).
  assert (e <= - k) as Hek.
  { destruct (decide (e <= - k)) as [|Hgt]; [done|exfalso]. revert He. unfold scale.
    case_bool_decide; intros [_ [He _]].
    - assert (2 ^ k = 2 ^ (- e) * 2 ^ (k + e)) as E by (rewrite <- Z.pow_add_r by lia; f_equal; lia).
      assert (2 ^ 1 <= 2 ^ (k + e)) by (apply Z.pow_le_mono_r; lia). change (2 ^ 1) with 2 in *.
      change (2 ^ 53) with (2 * 2 ^ 52) in Hb. nia.
    - assert (2 ^ 1 <= 2 ^ e) by (apply Z.pow_le_mono_r; lia). change (2 ^ 1) with 2 in *.
      change (2 ^ 53) with (2 * 2 ^ 52) in Hb. nia. }
  unfold scale. rewrite bool_decide_true by lia. cbn [fst snd].
  assert (2 ^ (- e) = 2 ^ k * 2 ^ (- e - k)) as E by (rewrite <- Z.pow_add_r by lia; f_equal; lia).
  replace (n * 2 ^ (- e)) with (m * 2 ^ (- e - k) * d) by (rewrite E; nia).
  rewrite rne_exact by done. pose proof (ratio_spec (m * 2 ^ (- e - k)) (- e) ltac:(lia)) as Hr.
  rewrite Z.opp_involutive in Hr. destruct (ratio _) as [a b]. destruct Hr as [? Hr]. split; [done|].
  rewrite E in Hr. pose proof (Z.pow_pos_nonneg 2 (- e - k)). nia.
Qed.

(** Rounding a fraction below [2 ^ h] moves it by at most [2 ^ (h - 54)]: the scaled
    significand [m] is within half a unit of the exact one. *)
Lemma round_close_at h n d :
  0 <= h <= 52 -> 0 < n -> 0 < d -> n < 2 ^ h * d ->
  exists m k, 53 - h <= k /\ - d <= 2 * (d * m - n * 2 ^ k) <= d /\
    let '(a, b) := ratio (round_f64 n d) in 0 < b /\ a * 2 ^ k = m * b.
Proof.
  intros Hh Hn Hd Hlt. pose proof (exponent_spec n d Hn Hd) as He. rewrite round_pos_eq by done.
  assert (2 ^ 52 = 2 ^ (52 - h) * 2 ^ h) as E52 by (rewrite <- Z.pow_add_r by lia; f_equal; lia).
  pose proof (Z.pow_pos_nonneg 2 h ltac:(lia) ltac:(lia)).
  pose proof (Z.pow_pos_nonneg 2 (52 - h) ltac:(lia) ltac:(lia)).
  set (e := exponent n d) in *. revert He. unfold scale. case_bool_decide as Hs; cbn [fst snd]; intros [_ [He _]];
    rewrite E52 in He.
  - exists (rne (n * 2 ^ (- e)) d), (- e). split_and!.
    + assert (2 ^ (52 - h) < 2 ^ (- e)) as Hp%Z.pow_lt_mono_r_iff; [|lia..]. nia.
    + pose proof (rne_spec (n * 2 ^ (- e)) d Hd). lia.
    + pose proof (rne_spec (n * 2 ^ (- e)) d Hd). lia.
    + pose proof (ratio_spec (rne (n * 2 ^ (- e)) d) (- e) ltac:(lia)) as Hr.
      by rewrite Z.opp_involutive in Hr.
  - exfalso. assert (2 ^ 1 <= 2 ^ e) by (apply Z.pow_le_mono_r; lia). change (2 ^ 1) with 2 in *. nia.
Qed.

Lemma round_close n d :
  0 < n -> 0 < d -> n < 2 ^ 32 * d ->
  exists m k, 21 <= k /\ - d <= 2 * (d * m - n * 2 ^ k) <= d /\
    let '(a, b) := ratio (round_f64 n d) in 0 < b /\ a * 2 ^ k = m * b.
Proof. intros. by apply (round_close_at 32). Qed.

(** Rounding a positive fraction changes it by at most one part in [2 ^ 53]. *)
Lemma round_rel n d :
  0 < n -> 0 < d ->
  let '(a, b) := ratio (round_f64 n d) in 0 < a /\ 0 < b /\ 2 ^ 53 * Z.abs (a * d - n * b) <= n * b.
Proof.
  intros Hn Hd. pose proof (exponent_spec n d Hn Hd) as He. rewrite round_pos_eq by done.
  set (e := exponent n d) in *.
  assert (0 < (scale n d e).2 /\ 2 ^ 52 * (scale n d e).2 <= (scale n d e).1) as [Hq Hlo]
    by (destruct (scale n d e); cbn; lia).
  pose proof (rne_spec (scale n d e).1 (scale n d e).2 Hq) as Hr.
  set (m := rne (scale n d e).1 (scale n d e).2) in *.
  assert (2 ^ 53 * Z.abs (m * (scale n d e).2 - (scale n d e).1) <= (scale n d e).1) as Hrel.
  { change (2 ^ 53) with (2 ^ 52 * 2). nia. }
  assert (0 < m) as Hm by (change (2 ^ 52) with 4503599627370496 in Hlo; nia).
  revert Hrel. unfold scale. case_bool_decide as Hs; cbn [fst snd]; intros Hrel.
  - pose proof (ratio_spec m (- e) ltac:(lia)) as Hrat. rewrite Z.opp_involutive in Hrat.
    destruct (ratio (F64 m e)) as [a b]. destruct Hrat as [Hb Hab].
    pose proof (Z.pow_pos_nonneg 2 (- e) ltac:(lia) ltac:(lia)) as Hp.
    split_and!; [nia|done|]. set (p := 2 ^ (- e)) in *.
    assert (p * (a * d - n * b) = b * (m * d - n * p)) as E by nia.
    apply (Z.mul_le_mono_pos_l _ _ p Hp). replace (p * (2 ^ 53 * Z.abs (a * d - n * b)))
      with (2 ^ 53 * Z.abs (p * (a * d - n * b))) by (rewrite Z.abs_mul; rewrite (Z.abs_eq p) by lia; lia).
    rewrite E, Z.abs_mul, (Z.abs_eq b) by lia. nia.
  - unfold ratio. cbn [fm fe]. rewrite bool_decide_true by lia.
    pose proof (Z.pow_pos_nonneg 2 e ltac:(lia) ltac:(lia)) as Hp.
    split_and!; [nia|done|]. replace (m * 2 ^ e * d - n * 1) with (m * (d * 2 ^ e) - n) by lia. lia.
Qed.
