(* ===== verification/Time.v ===== *)
(** * [std::time]: [SystemTime] and [Duration]

    A [SystemTime] is its distance in nanoseconds from the UNIX epoch, negative
    before it; a [Duration] is a non-negative number of nanoseconds whose whole
    seconds fit a [u64]. *)

From stdpp Require Import prelude numbers.
From S2P Require Import Prelude Words.

Open Scope Z_scope.

Abbreviation SystemTime := Z.
Abbreviation Duration := Z.

Definition NANOS : Z := 1000000000.
Definition UNIX_EPOCH : SystemTime := 0.

Definition from_secs (s : Z) : Duration := s * NANOS.
Definition as_secs (d : Duration) : Z := d / NANOS.
Definition subsec_nanos (d : Duration) : Z := d mod NANOS.

(** [later.duration_since(earlier)]: an error when [later] is the earlier one. *)
Definition duration_since (later earlier : SystemTime) : res unit Duration :=
  if bool_decide (earlier <= later) then Ok (later - earlier) else Err tt.

(** [Duration + Duration] panics when the seconds overflow. *)
Definition duration_add {E} (a b : Duration) : res E Duration :=
  if bool_decide (as_secs (a + b) < 2 ^ 64) then Ok (a + b) else Panic ArithOverflow.

(** The instants a [SystemTime] can hold: 64-bit signed seconds. *)
Definition systime_ok (t : SystemTime) : Prop := - 2 ^ 63 <= t / NANOS < 2 ^ 63.
#[export] Instance systime_ok_dec t : Decision (systime_ok t).
Proof. unfold systime_ok. apply _. Defined.

(** [SystemTime::checked_add]. *)
Definition systime_checked_add (t : SystemTime) (d : Duration) : option SystemTime :=
  if bool_decide (systime_ok (t + d)) then Some (t + d) else None.

Lemma secs_nanos d : d = as_secs d * NANOS + subsec_nanos d.
Proof. unfold as_secs, subsec_nanos. pose proof (Z.div_mod d NANOS ltac:(done)). lia. Qed.
Lemma subsec_nanos_range d : 0 <= subsec_nanos d < NANOS.
Proof. by apply Z.mod_pos_bound. Qed.
