(* ===== verification/Cookie.v ===== *)
(** * src/cookie.rs: NTS cookies

    A cookie is the id of the key that sealed it, a nonce, and the sealing of the
    two session keys.  [NTSKeys] holds byte arrays of length 32 ([keys_wf]). *)

From stdpp Require Import prelude list numbers strings.
From Stdlib Require Import Strings.Byte.
From S2P Require Import Prelude Words Crypto NtpProtocol.

Open Scope Z_scope.

Definition COOKIE_SIZE : Z := 100.

Record NTSKeys := mkKeys { c2s : bytes; s2c : bytes }.
Definition keys_wf (k : NTSKeys) : Prop := length (c2s k) = 32%nat /\ length (s2c k) = 32%nat.
#[export] Instance NTSKeys_eq_dec : EqDecision NTSKeys.
Proof. solve_decision. Defined.

(** A [u32]. *)
Abbreviation KeyId := Z.

(** src/key_rotator.rs: the conversions of [KeyId]. *)
Definition KeyId_from_epoch (epoch : Z) : KeyId := wrap 32 epoch.
Definition KeyId_from_be_bytes (b : bytes) : KeyId := be_val b.
Definition KeyId_to_be_bytes (k : KeyId) : bytes := be_bytes 4 k.

(** [for i in 0..32 { plaintext[off + i] = key[i] }] on a buffer long enough. *)
Fixpoint copy_from (dst src : bytes) (off i n : nat) : bytes :=
  match n with
  | O => dst
  | S n => copy_from (<[(off + i)%nat := default x00 (src !! i)]> dst) src off (S i) n
  end.

Section Make.
Context {A : Aead} {R : Type} {G : Rng R}.

Definition make_cookie {E} (keys : NTSKeys) (master_key : bytes) (key_id : KeyId) : M R E bytes :=
  nonce ← rng_fill 16;
  let plaintext := replicate 64 x00 in
  let plaintext := copy_from plaintext (c2s keys) 0 0 32 in
  let plaintext := copy_from plaintext (s2c keys) 32 0 32 in
  let ciphertext := seal master_key nonce [] plaintext in
  mret (KeyId_to_be_bytes key_id ++ nonce ++ ciphertext).
End Make.

Definition get_keyid (cookie : bytes) : option KeyId :=
  if bool_decide (zlen cookie < 4) then None
  else Some (KeyId_from_be_bytes (take 4 cookie)).

(** The loop of [unpack] copies the two halves of [pt] side by side. *)
Fixpoint unpack_loop (key : NTSKeys) (pt : bytes) (i n : nat) : NTSKeys :=
  match n with
  | O => key
  | S n =>
    unpack_loop (mkKeys (<[i := default x00 (pt !! i)]> (c2s key))
                        (<[i := default x00 (pt !! (32 + i)%nat)]> (s2c key))) pt (S i) n
  end.

Definition unpack (pt : bytes) : option NTSKeys :=
  if bool_decide (zlen pt ≠ 64) then None
  else Some (unpack_loop (mkKeys (replicate 32 x00) (replicate 32 x00)) pt 0 32).

Section Eat.
Context {A : Aead}.

Definition eat_cookie {E} (cookie key : bytes) : res E (option NTSKeys) :=
  if bool_decide (zlen cookie < 40) then Ok None
  else
    ciphertext ← slice_from cookie 4;
    nonce ← slice ciphertext 0 16;
    ct ← slice_from ciphertext 16;
    match open key nonce [] ct with
    | None => Ok None
    | Some buf => Ok (unpack buf)
    end.
End Eat.

(** ** The copy loops *)
Lemma copy_from_spec (b s : bytes) dst_pre dst_post src_pre src_post off :
  length b = length s -> length dst_pre = (off + length src_pre)%nat ->
  copy_from (dst_pre ++ b ++ dst_post) (src_pre ++ s ++ src_post) off (length src_pre) (length s) =
  dst_pre ++ s ++ dst_post.
Proof.
  revert b dst_pre src_pre. induction s as [|y s IH]; intros [|x b] dp sp Hb Hd; try done.
  cbn [length copy_from app].
  rewrite list_lookup_middle by done. cbn [default from_option id].
  rewrite insert_app_r_alt, Hd, Nat.sub_diag by lia. cbn [insert list_insert app].
  specialize (IH b (dp ++ [y]) (sp ++ [y])). rewrite !length_app in IH. cbn [length] in IH.
  rewrite !Nat.add_1_r in IH. rewrite <- !app_assoc in IH. cbn [app] in IH.
  apply IH; cbn in *; lia.
Qed.

Lemma unpack_loop_spec (q q' b b' : bytes) p p' :
  length q = length b -> length q' = length b' -> length q = length q' ->
  length p = length p' -> length (p ++ q) = 32%nat ->
  unpack_loop (mkKeys (p ++ b) (p' ++ b')) ((p ++ q) ++ p' ++ q') (length p) (length q) =
  mkKeys (p ++ q) (p' ++ q').
Proof.
  revert q' b b' p p'. induction q as [|y q IH]; intros [|y' q'] [|x b] [|x' b'] p p' H1 H2 H3 H4 H5;
    try done. cbn [length unpack_loop c2s s2c].
  rewrite <- (app_assoc p). cbn [app]. rewrite list_lookup_middle by done.
  replace (p ++ y :: q ++ p' ++ y' :: q') with ((p ++ y :: q) ++ p' ++ y' :: q')
    by by rewrite <- app_assoc.
  rewrite lookup_app_r by (rewrite H5; lia).
  rewrite H5, Nat.add_comm, Nat.add_sub, list_lookup_middle by done.
  cbn [default from_option id].
  rewrite !insert_app_r_alt, H4, Nat.sub_diag by lia. cbn [insert list_insert].
  specialize (IH q' b b' (p ++ [y]) (p' ++ [y'])). rewrite !length_app in IH. cbn [length] in IH.
  rewrite !Nat.add_1_r in IH. rewrite <- !app_assoc in IH. cbn [app] in IH.
  rewrite <- H4, <- app_assoc. cbn [app]. apply IH; rewrite length_app in H5; cbn in *; lia.
Qed.

(** The plaintext of a cookie is the two keys, one after the other. *)
Lemma cookie_plaintext k :
  keys_wf k ->
  copy_from (copy_from (replicate 64 x00) (c2s k) 0 0 32) (s2c k) 32 0 32 = c2s k ++ s2c k.
Proof.
  intros [Hc Hs].
  pose proof (copy_from_spec (replicate 32 x00) (c2s k) [] (replicate 32 x00) [] [] 0) as E1.
  cbn [length app] in E1. rewrite Hc, !app_nil_r in E1.
  change (replicate 64 x00) with (replicate 32 x00 ++ replicate 32 x00).
  rewrite E1 by done.
  pose proof (copy_from_spec (replicate 32 x00) (s2c k) (c2s k) [] [] [] 32) as E2.
  cbn [length app] in E2. rewrite Hs, !app_nil_r in E2. by apply E2.
Qed.

Lemma unpack_keys k : keys_wf k -> unpack (c2s k ++ s2c k) = Some k.
Proof.
  intros [Hc Hs]. unfold unpack. rewrite bool_decide_false by (zl; unfold zlen; lia). f_equal.
  pose proof (unpack_loop_spec (c2s k) (s2c k) (replicate 32 x00) (replicate 32 x00) [] []) as E.
  cbn [length app] in E. rewrite Hc in E. rewrite E by done. by destruct k.
Qed.

Lemma unpack_Some pt k : unpack pt = Some k -> keys_wf k /\ pt = c2s k ++ s2c k.
Proof.
  unfold unpack. case_bool_decide as Hl; [done|]. intros H%(inj Some). subst k.
  assert (exists a b, pt = a ++ b /\ length a = 32%nat /\ length b = 32%nat) as (a & b & -> & Ha & Hb).
  { exists (take 32 pt), (drop 32 pt). unfold zlen in Hl. rewrite take_drop, length_take, length_drop.
    split_and!; (done || lia). }
  pose proof (unpack_loop_spec a b (replicate 32 x00) (replicate 32 x00) [] []) as E.
  cbn [length app] in E. rewrite Ha in E. rewrite E by (rewrite ?Ha, ?Hb; reflexivity).
  clear E. repeat split; assumption.
Qed.

(** ** Cookies on the wire *)
Section Facts.
Context {A : Aead} {L : AeadLaws A} {R : Type} {G : Rng R} {GL : RngLaws G}.

Definition cookie_bytes (key_id : KeyId) (nonce master_key : bytes) (k : NTSKeys) : bytes :=
  be_bytes 4 key_id ++ nonce ++ seal master_key nonce [] (c2s k ++ s2c k).

Lemma make_cookie_run {E} k mk id r :
  keys_wf k ->
  make_cookie (E := E) k mk id r =
  (Ok (cookie_bytes id (fill 16 r).1 mk k), (fill 16 r).2).
Proof.
  intros Hk. unfold make_cookie, rng_fill, mbind, M_bind, mret, M_ret.
  destruct (fill 16 r) as [nonce r']. cbn [fst snd]. by rewrite cookie_plaintext.
Qed.

Lemma cookie_bytes_length id nonce mk k :
  keys_wf k -> length nonce = 16%nat -> zlen (cookie_bytes id nonce mk k) = COOKIE_SIZE.
Proof.
  intros [Hc Hs] Hn. unfold cookie_bytes, zlen.
  rewrite !length_app, be_bytes_length, seal_length, length_app, Hc, Hs, Hn. done.
Qed.

Lemma get_keyid_cookie id nonce mk k :
  in_width 32 id -> get_keyid (cookie_bytes id nonce mk k) = Some id.
Proof.
  intros Hid. unfold get_keyid, cookie_bytes.
  rewrite bool_decide_false
    by (zl; pose proof (zlen_nonneg nonce);
        pose proof (zlen_nonneg (seal mk nonce [] (c2s k ++ s2c k))); lia).
  rewrite take_app_length' by by rewrite be_bytes_length.
  unfold KeyId_from_be_bytes. by rewrite (be_val_roundtrip 4).
Qed.

(** What [eat_cookie] computes on a cookie cut at its fixed offsets. *)
Lemma eat_cookie_eq {E} cookie key :
  40 <= zlen cookie ->
  eat_cookie (E := E) cookie key =
  Ok (match open key (take 16 (drop 4 cookie)) [] (drop 20 cookie) with
      | None => None | Some buf => unpack buf end).
Proof.
  intros Hl. unfold eat_cookie. rewrite bool_decide_false by lia.
  rewrite slice_from_ok by lia. res_step.
  assert (zlen (drop (Z.to_nat 4) cookie) = zlen cookie - 4) as Hz
    by (unfold zlen in *; rewrite length_drop; lia).
  rewrite slice_ok, slice_from_ok by lia. res_step. rewrite drop_0, drop_drop.
  change (Z.to_nat (16 - 0)) with 16%nat. change (Z.to_nat 4) with 4%nat.
  change (4 + Z.to_nat 16)%nat with 20%nat. by case_match.
Qed.

Lemma eat_cookie_total {E} cookie key : exists o, eat_cookie (E := E) cookie key = Ok o.
Proof.
  destruct (decide (40 <= zlen cookie)); [rewrite eat_cookie_eq by done; eauto|].
  unfold eat_cookie. rewrite bool_decide_true by lia. eauto.
Qed.

Lemma eat_cookie_cookie {E} id nonce mk k :
  keys_wf k -> length nonce = 16%nat ->
  eat_cookie (E := E) (cookie_bytes id nonce mk k) mk = Ok (Some k).
Proof.
  intros Hk Hn. rewrite eat_cookie_eq by (by rewrite cookie_bytes_length).
  unfold cookie_bytes. rewrite drop_app_length', take_app_length' by by rewrite ?be_bytes_length.
  rewrite app_assoc, drop_app_length' by by rewrite length_app, be_bytes_length, Hn.
  rewrite open_seal. by rewrite unpack_keys.
Qed.

(** A cookie that is eaten was made under the same key. *)
Lemma eat_cookie_Some {E} cookie key k :
  eat_cookie (E := E) cookie key = Ok (Some k) ->
  keys_wf k /\ zlen cookie = COOKIE_SIZE /\
  cookie = cookie_bytes (be_val (take 4 cookie)) (take 16 (drop 4 cookie)) key k.
Proof.
  intros H. destruct (decide (40 <= zlen cookie)) as [Hl|Hl].
  2: { unfold eat_cookie in H. by rewrite bool_decide_true in H by lia. }
  rewrite eat_cookie_eq in H by done. apply Ok_inj in H.
  destruct (open key _ [] _) as [pt|] eqn:Ho; [|done].
  apply unpack_Some in H as [Hk ->]. apply open_sound in Ho.
  assert (cookie = cookie_bytes (be_val (take 4 cookie)) (take 16 (drop 4 cookie)) key k) as E'.
  { unfold cookie_bytes. rewrite <- Ho, be_bytes_val by (unfold zlen in *; rewrite length_take; lia).
    replace (drop 20 cookie) with (drop 16 (drop 4 cookie)) by by rewrite drop_drop.
    by rewrite !take_drop. }
  split_and!; [done| |done]. rewrite E'. apply cookie_bytes_length; [done|].
  rewrite length_take, length_drop. unfold zlen in *. lia.
Qed.
End Facts.

(** C12: Cookies round-trip.  A cookie made for any pair of session keys under any
    master key and key id has exactly [COOKIE_SIZE] bytes, names its key id, and
    [eat_cookie] under the same master key returns the same session keys. *)
Theorem cookie_roundtrip {A : Aead} {R} {G : Rng R} (L : AeadLaws A) (GL : RngLaws G)
    k master_key key_id r :
  keys_wf k -> in_width 32 key_id ->
  exists cookie r', make_cookie (E := io_error) k master_key key_id r = (Ok cookie, r') /\
    zlen cookie = COOKIE_SIZE /\ get_keyid cookie = Some key_id /\
    eat_cookie (E := io_error) cookie master_key = Ok (Some k).
Proof.
  intros Hk Hid. pose proof (fill_length 16 r). rewrite make_cookie_run by done.
  eexists _, _. split; [done|].
  split_and!; [by apply cookie_bytes_length|by apply get_keyid_cookie|by apply eat_cookie_cookie].
Qed.

Lemma cookie_roundtrip_witness :
  exists cookie r', make_cookie (A := Toy.toy_aead) (G := Toy.toy_rng) (E := io_error)
      (mkKeys (replicate 32 x0a) (replicate 32 x09)) (replicate 32 x07) 0x03030303 1 = (Ok cookie, r') /\
    zlen cookie = COOKIE_SIZE /\ get_keyid cookie = Some 0x03030303 /\
    eat_cookie (A := Toy.toy_aead) (E := io_error) cookie (replicate 32 x07) =
      Ok (Some (mkKeys (replicate 32 x0a) (replicate 32 x09))).
Proof.
  apply (cookie_roundtrip Toy.toy_aead_laws Toy.toy_rng_laws); by vm_compute.
Defined.

(** C11: Cookies cannot be made up.  [eat_cookie] never panics on any input, and
    when it returns session keys for a cookie, the cookie has exactly
    [COOKIE_SIZE] bytes and is, byte for byte, what sealing these keys under the
    same master key and the cookie's own nonce produces. *)
Theorem eat_cookie_sound {A : Aead} (L : AeadLaws A) cookie key :
  (exists o, eat_cookie (E := io_error) cookie key = Ok o) /\
  (forall k, eat_cookie (E := io_error) cookie key = Ok (Some k) ->
     keys_wf k /\ zlen cookie = COOKIE_SIZE /\
     cookie = take 4 cookie ++ take 16 (drop 4 cookie) ++
              seal key (take 16 (drop 4 cookie)) [] (c2s k ++ s2c k)).
Proof.
  split; [apply eat_cookie_total|]. intros k (Hk & Hl & E)%eat_cookie_Some.
  split_and!; [done..|]. rewrite E at 1. unfold cookie_bytes.
  by rewrite be_bytes_val by (unfold zlen, COOKIE_SIZE in *; rewrite length_take; lia).
Qed.

Definition example_cookie : bytes :=
  cookie_bytes (A := Toy.toy_aead) 7 (replicate 16 x05) (replicate 32 x07)
    (mkKeys (replicate 32 x0a) (replicate 32 x09)).

Lemma eat_cookie_sound_witness :
  eat_cookie (A := Toy.toy_aead) (E := io_error) example_cookie (replicate 32 x07) =
    Ok (Some (mkKeys (replicate 32 x0a) (replicate 32 x09))) /\
  example_cookie = take 4 example_cookie ++ take 16 (drop 4 example_cookie) ++
    seal (Aead := Toy.toy_aead) (replicate 32 x07) (take 16 (drop 4 example_cookie)) []
      (replicate 32 x0a ++ replicate 32 x09).
Proof.
  split; [by vm_compute|].
  destruct (eat_cookie_sound Toy.toy_aead_laws example_cookie (replicate 32 x07)) as [_ H].
  apply (H (mkKeys (replicate 32 x0a) (replicate 32 x09))). by vm_compute.
Defined.
