(* ===== verification/KeyRotator.v ===== *)
(** * src/key_rotator.rs: keys shared through memcached

    The rotator caches, per period, the HMAC of a secret that the operator wrote
    to a memcached server, and names the key of the current period.  The
    memcached client is another package: what one rotation sees of it, and of the
    clock, is a [World]. *)

From stdpp Require Import prelude list numbers strings gmap pretty.
From Stdlib Require Import Strings.Byte.
From S2P Require Import Prelude Words Crypto Time Cookie.

Open Scope Z_scope.

Section Rotator.
Context {P : Profile} {H : Hmac} {MemcacheErr : Type}.

Inductive RotateError :=
  | MemcacheError (e : MemcacheErr)
  | KeyIdNotFound (key_id : KeyId).

Record KeyRotator := mkRotator {
  memcached_url : string;
  prefix : string;
  duration : Z;
  number_of_forward_periods : Z;
  number_of_backward_periods : Z;
  master_key : bytes;
  latest_key_id : KeyId;
  cache : gmap KeyId bytes;
}.

(** The answers of the outside during one rotation. *)
Record World := mkWorld {
  now : SystemTime;
  memc_connect : string -> option MemcacheErr;
  memc_get : string -> MemcacheErr + option bytes;
}.

(** The rotator and the two Prometheus counters of the module. *)
Record State := mkState {
  rot : KeyRotator;
  rotations : Z;
  failures : Z;
}.

Definition set_cache (f : gmap KeyId bytes -> gmap KeyId bytes) (r : KeyRotator) : KeyRotator :=
  mkRotator (memcached_url r) (prefix r) (duration r) (number_of_forward_periods r)
    (number_of_backward_periods r) (master_key r) (latest_key_id r) (f (cache r)).
Definition set_latest (k : KeyId) (r : KeyRotator) : KeyRotator :=
  mkRotator (memcached_url r) (prefix r) (duration r) (number_of_forward_periods r)
    (number_of_backward_periods r) (master_key r) k (cache r).
Definition on_rot (f : KeyRotator -> KeyRotator) (s : State) : State :=
  mkState (f (rot s)) (rotations s) (failures s).

Definition cache_insert (key_id : KeyId) (value : bytes) : M State RotateError unit :=
  modify (on_rot (fun r => set_cache <[key_id := sign (master_key r) value]> r)).

Definition cache_remove (key_id : KeyId) : M State RotateError unit :=
  modify (on_rot (set_cache (delete key_id))).

Definition memcached_key (prefix : string) (epoch : Z) : string :=
  (prefix +:+ "/" +:+ pretty epoch)%string.

(** [for period_number in first_period..=last_period]. *)
Fixpoint rotate_loop (w : World) (periods : list Z) : M State RotateError unit :=
  match periods with
  | [] => mret tt
  | period_number :: periods =>
    s ← get_state;
    epoch ← lift (umul 64 period_number (duration (rot s)));
    let key := memcached_key (prefix (rot s)) epoch in
    memcached_value ← lift
      (match memc_get w key with inl e => Err (MemcacheError e) | inr v => Ok v end);
    let key_id := KeyId_from_epoch epoch in
    match memcached_value with
    | Some value => _ ← cache_insert key_id value; rotate_loop w periods
    | None =>
      _ ← modify (fun s => mkState (rot s) (rotations s) (failures s + 1));
      lift (Err (KeyIdNotFound key_id))
    end
  end.

Definition rotate (w : World) : M State RotateError unit :=
  _ ← modify (fun s => mkState (rot s) (rotations s + 1) (failures s));
  since ← lift (unwrap_res (duration_since (now w) UNIX_EPOCH));
  s ← get_state;
  let self := rot s in
  let timestamp := as_secs since in
  _ ← lift (if bool_decide (duration self = 0) then Panic ArithOverflow else Ok tt);
  let current_period := timestamp / duration self in
  current_epoch ← lift (umul 64 current_period (duration self));
  let first_period := saturating_sub current_period (number_of_backward_periods self) in
  let last_period := saturating_add 64 current_period (number_of_forward_periods self) in
  let removed_period := saturating_sub first_period 1 in
  removed_epoch ← lift (umul 64 removed_period (duration self));
  _ ← cache_remove (KeyId_from_epoch removed_epoch);
  _ ← lift (match memc_connect w (memcached_url self) with
            | Some e => Err (MemcacheError e) | None => Ok tt end);
  _ ← rotate_loop w (seqZ first_period (last_period - first_period + 1));
  modify (on_rot (set_latest (KeyId_from_epoch current_epoch))).

Definition get (r : KeyRotator) (key_id : KeyId) : option bytes := cache r !! key_id.

Definition latest_key_value {E} (r : KeyRotator) : res E (KeyId * bytes) :=
  v ← unwrap (get r (latest_key_id r)); Ok (latest_key_id r, v).

(** [for try_number in 1..], with the answers of the outside at each try. *)
Fixpoint connect_loop (fuel : nat) (worlds : Z -> World) (try_number : Z) :
    M State RotateError unit :=
  match fuel with
  | O => lift (Panic OutOfFuel)
  | S fuel => fun s =>
    match rotate (worlds try_number) s with
    | (Err error, s) =>
      if bool_decide (try_number = 5) then (Err error, s)
      else connect_loop fuel worlds (try_number + 1) s
    | (Ok _, s) => (Ok tt, s)
    | (Panic p, s) => (Panic p, s)
    end
  end.

Definition connect (prefix memcached_url : string) (master_key : bytes) (worlds : Z -> World)
    (rotations failures : Z) : res RotateError KeyRotator * State :=
  let rotator := mkRotator memcached_url prefix 3600 2 24 master_key 0 ∅ in
  match connect_loop 5 worlds 1 (mkState rotator rotations failures) with
  | (Ok _, s) => (Ok (rot s), s)
  | (Err e, s) => (Err e, s)
  | (Panic p, s) => (Panic p, s)
  end.

(** [inner] and [read_sleep], the two halves of the thread's loop; the result
    of [rotate] is dropped. *)
Definition inner (w : World) (rotor : RwLock State) : res RotateError unit * RwLock State :=
  match with_write (rotate w) rotor with
  | (Panic p, rotor) => (Panic p, rotor)
  | (_, rotor) => (Ok tt, rotor)
  end.

Definition read_sleep (rotor : RwLock State) : res RotateError Z :=
  s ← read_lock rotor; Ok (duration (rot s)).

(** [periodic_rotate]: the thread's loop, over what it sees of the outside at
    each round, with the sleeps between the rounds; a panic ends the thread. *)
Fixpoint periodic_rotate (ws : list World) (rotor : RwLock State) (sleeps : list Z) :
    res RotateError (list Z) * RwLock State :=
  match ws with
  | [] => (Ok sleeps, rotor)
  | w :: ws =>
    match inner w rotor with
    | (Ok _, rotor) =>
      match read_sleep rotor with
      | Ok restlen => periodic_rotate ws rotor (sleeps ++ [restlen])
      | Err e => (Err e, rotor)
      | Panic p => (Panic p, rotor)
      end
    | (Err e, rotor) => (Err e, rotor)
    | (Panic p, rotor) => (Panic p, rotor)
    end
  end.
End Rotator.
Arguments RotateError : clear implicits.
Arguments World : clear implicits.

(** ** A rotation, as a function of the cache *)
Section Facts.
Context {P : Profile} {H : Hmac} {ME : Type}.
Implicit Types (r : KeyRotator) (s : State) (w : World ME).

Definition keyid_of r (p : Z) : KeyId := KeyId_from_epoch (p * duration r).
Definition period_of w r : Z := as_secs (now w) / duration r.
Definition first_of w r : Z := saturating_sub (period_of w r) (number_of_backward_periods r).
Definition removed_of w r : Z := saturating_sub (first_of w r) 1.
(** The periods a rotation asks memcached for. *)
Definition window r (p : Z) : list Z :=
  let first := saturating_sub p (number_of_backward_periods r) in
  seqZ first (p + number_of_forward_periods r - first + 1).

(** The clock is after the epoch, the window is shorter than the range of key
    ids, and its last epoch is still a [u64]. *)
Definition sane w r : Prop :=
  0 < duration r /\ 0 <= number_of_backward_periods r /\ 0 <= number_of_forward_periods r /\
  (number_of_backward_periods r + number_of_forward_periods r + 2) * duration r < 2 ^ 32 /\
  0 <= now w /\ as_secs (now w) + (number_of_forward_periods r + 1) * duration r < 2 ^ 64.

(** The loop on the cache alone: it stops at the first missing value. *)
Fixpoint fetch w r (ps : list Z) (c : gmap KeyId bytes) : res (RotateError ME) unit * gmap KeyId bytes :=
  match ps with
  | [] => (Ok tt, c)
  | p :: ps =>
    match memc_get w (memcached_key (prefix r) (p * duration r)) with
    | inl e => (Err (MemcacheError e), c)
    | inr None => (Err (KeyIdNotFound (keyid_of r p)), c)
    | inr (Some v) => fetch w r ps (<[keyid_of r p := sign (master_key r) v]> c)
    end
  end.

Definition missing (o : res (RotateError ME) unit) : Z :=
  match o with Err (KeyIdNotFound _) => 1 | _ => 0 end.

Lemma fetch_set_cache w r f ps c : fetch w (set_cache f r) ps c = fetch w r ps c.
Proof.
  revert c. induction ps as [|p ps IH]; intros c; cbn; [done|].
  destruct (memc_get _ _) as [|[]]; auto.
Qed.

Lemma rotate_loop_eq w ps s :
  Forall (fun p => in_width 64 (p * duration (rot s))) ps ->
  let '(o, c) := fetch w (rot s) ps (cache (rot s)) in
  rotate_loop w ps s = (o, mkState (set_cache (fun _ => c) (rot s)) (rotations s) (failures s + missing o)).
Proof.
  intros Hw. revert s Hw. induction ps as [|p ps IH]; intros s Hw.
  - cbn. destruct s as [[] ? ?]. cbn. by rewrite Z.add_0_r.
  - apply Forall_cons in Hw as [Hp Hps]. cbn [rotate_loop fetch].
    unfold mbind, M_bind, get_state, lift, umul. rewrite fit_ok by done.
    destruct (memc_get w _) as [e|[v|]]; cbn.
    + destruct s as [[] ? ?]. cbn. by rewrite Z.add_0_r.
    + specialize (IH (on_rot (fun r => set_cache <[keyid_of (rot s) p := sign (master_key r) v]> r) s)).
      cbn [rot on_rot] in IH. rewrite fetch_set_cache in IH. by apply IH.
    + by destruct s as [[] ? ?].
Qed.

Lemma period_bounds w r :
  sane w r -> 0 <= period_of w r /\ period_of w r * duration r <= as_secs (now w).
Proof.
  intros (Hd & ? & ? & ? & Hn & ?). unfold period_of.
  assert (0 <= as_secs (now w)) by (unfold as_secs; by apply Z.div_pos).
  split; [apply Z.div_pos; lia|]. rewrite Z.mul_comm. apply Z.mul_div_le. lia.
Qed.

(** What one rotation does to a state. *)
Definition rotate_spec w s : res (RotateError ME) unit * State :=
  let r := rot s in
  let c0 := delete (keyid_of r (removed_of w r)) (cache r) in
  let '(o, c) := match memc_connect w (memcached_url r) with
                 | Some e => (Err (MemcacheError e), c0)
                 | None => fetch w r (window r (period_of w r)) c0
                 end in
  let r' := set_cache (fun _ => c) r in
  (o, mkState (if is_ok o then set_latest (keyid_of r (period_of w r)) r' else r')
        (rotations s + 1) (failures s + missing o)).

Lemma rotate_eq w s : sane w (rot s) -> rotate w s = rotate_spec w s.
Proof.
  intros Hs. destruct (period_bounds _ _ Hs) as [Hp0 Hp].
  destruct Hs as (Hd & Hb & Hf & Hwin & Hn & Hts). unfold period_of in *.
  set (r := rot s) in *. set (p := as_secs (now w) / duration r) in *.
  assert (forall q, 0 <= q <= p + number_of_forward_periods r -> in_width 64 (q * duration r)) as Hq
    by (intros; unfold in_width; nia).
  unfold rotate. rewrite bind_modify, bind_lift. unfold duration_since.
  rewrite bool_decide_true by done. cbn [unwrap_res]. rewrite Z.sub_0_r, bind_get_state.
  cbn [rot]. fold r. rewrite bind_lift, bool_decide_false by lia. fold p.
  unfold umul. rewrite bind_lift, fit_ok by (apply Hq; lia).
  rewrite bind_lift, fit_ok by (apply Hq; unfold saturating_sub; lia).
  unfold cache_remove. rewrite bind_modify, bind_lift.
  unfold rotate_spec. fold r. change (period_of w r) with p.
  change (first_of w r) with (saturating_sub p (number_of_backward_periods r)).
  destruct (memc_connect w (memcached_url r)) as [e|].
  { cbn. unfold on_rot. cbn. by rewrite Z.add_0_r. }
  replace (saturating_add 64 p (number_of_forward_periods r))
    with (p + number_of_forward_periods r) by (unfold saturating_add; nia).
  change (seqZ _ _) with (window r p). set (s1 := on_rot _ _).
  pose proof (rotate_loop_eq w (window r p) s1) as Hl.
  unfold mbind, M_bind. cbn [rot s1 on_rot cache set_cache] in Hl.
  rewrite fetch_set_cache in Hl.
  change (KeyId_from_epoch (?a * duration ?b)) with (keyid_of b a) in *.
  change (saturating_sub (saturating_sub p (number_of_backward_periods r)) 1)
    with (removed_of w r) in *.
  destruct (fetch w r (window r p) _) as [o c]. rewrite Hl.
  - destruct o as [[]| |]; reflexivity.
  - apply Forall_forall. intros q Hin%elem_of_seqZ. apply Hq. unfold saturating_sub in Hin. lia.
Qed.

(** ** The cache after the loop *)
Lemma fetch_no_panic w r ps c : is_panic (fetch w r ps c).1 = false.
Proof.
  revert c. induction ps as [|p ps IH]; intros c; cbn; [done|].
  destruct (memc_get _ _) as [|[]]; auto.
Qed.

Lemma fetch_keeps w r ps c k : is_Some (c !! k) -> is_Some ((fetch w r ps c).2 !! k).
Proof.
  revert c. induction ps as [|p ps IH]; intros c Hk; cbn; [done|].
  destruct (memc_get _ _) as [|[v|]]; try done. apply IH. by apply lookup_insert_is_Some'; right.
Qed.

Lemma fetch_other w r ps c k :
  (forall p, p ∈ ps -> keyid_of r p ≠ k) -> (fetch w r ps c).2 !! k = c !! k.
Proof.
  revert c. induction ps as [|p ps IH]; intros c Hk; cbn; [done|].
  destruct (memc_get _ _) as [|[v|]]; try done. rewrite IH.
  - apply lookup_insert_ne, Hk, elem_of_cons. by left.
  - intros q Hq. apply Hk, elem_of_cons. by right.
Qed.

(** The value memcached holds for a period. *)
Definition secret w r (p : Z) : option bytes :=
  match memc_get w (memcached_key (prefix r) (p * duration r)) with
  | inr o => o | inl _ => None end.

Lemma fetch_Ok w r ps c o :
  (fetch w r ps c).1 = Ok o ->
  forall p, p ∈ ps -> exists v, secret w r p = Some v.
Proof.
  revert c. induction ps as [|p ps IH]; intros c Ho q Hq; [by apply elem_of_nil in Hq|].
  cbn in Ho. unfold secret. apply elem_of_cons in Hq as [->|Hq].
  - destruct (memc_get _ _) as [|[v|]]; naive_solver.
  - destruct (memc_get w (memcached_key (prefix r) (p * duration r))) as [|[v|]]; try done.
    by eapply IH.
Qed.

Lemma fetch_all w r ps c :
  (forall p, p ∈ ps -> is_Some (secret w r p)) -> (fetch w r ps c).1 = Ok tt.
Proof.
  revert c. induction ps as [|p ps IH]; intros c Hp; cbn; [done|].
  destruct (Hp p) as [v Hv]; [apply elem_of_cons; by left|]. unfold secret in Hv.
  destruct (memc_get _ _) as [|[]]; try done. apply IH.
  intros q Hq. apply Hp, elem_of_cons. by right.
Qed.

Lemma fetch_lookup w r ps c o p v :
  (fetch w r ps c).1 = Ok o -> p ∈ ps ->
  (forall q q', q ∈ ps -> q' ∈ ps -> keyid_of r q = keyid_of r q' -> q = q') ->
  secret w r p = Some v ->
  (fetch w r ps c).2 !! keyid_of r p = Some (sign (master_key r) v).
Proof.
  revert c. induction ps as [|q ps IH]; intros c Ho Hp Hinj Hv; [by apply elem_of_nil in Hp|].
  cbn in *. destruct (memc_get w (memcached_key (prefix r) (q * duration r))) as [|[u|]] eqn:Hq;
    try done.
  destruct (decide (p ∈ ps)) as [Hin|Hin].
  - apply IH; try done. intros. apply Hinj; try done; apply elem_of_cons; by right.
  - apply elem_of_cons in Hp as [->|Hp]; [|done].
    rewrite fetch_other.
    + unfold secret in Hv. rewrite Hq in Hv. injection Hv as ->. apply lookup_insert_eq.
    + intros p' Hp' E. apply Hin. replace q with p'; [done|].
      apply Hinj; [apply elem_of_cons; by right|apply elem_of_cons; by left|done].
Qed.

(** ** Key ids in a window are distinct *)
Lemma keyid_inj r q q' :
  0 < duration r -> Z.abs (q - q') * duration r < 2 ^ 32 ->
  keyid_of r q = keyid_of r q' -> q = q'.
Proof.
  intros Hd Hq E. unfold keyid_of, KeyId_from_epoch, wrap in E.
  assert ((q * duration r - q' * duration r) mod 2 ^ 32 = 0) as E'.
  { rewrite Zminus_mod, E, Z.sub_diag. done. }
  apply Z.mod_divide in E' as [m Em]; [|done].
  rewrite <- Z.mul_sub_distr_r in Em.
  assert (m = 0) as ->; [|nia].
  destruct (Z.lt_trichotomy m 0) as [?|[?|?]]; [exfalso|done|exfalso].
  - assert (Z.abs (q - q') * duration r = Z.abs m * 2 ^ 32) by (rewrite <- (Z.abs_eq (duration r)),
      <- Z.abs_mul, Em, Z.abs_mul by lia; done). nia.
  - assert (Z.abs (q - q') * duration r = Z.abs m * 2 ^ 32) by (rewrite <- (Z.abs_eq (duration r)),
      <- Z.abs_mul, Em, Z.abs_mul by lia; done). nia.
Qed.

Lemma elem_of_window r p q :
  q ∈ window r p <->
  saturating_sub p (number_of_backward_periods r) <= q <= p + number_of_forward_periods r.
Proof. unfold window. rewrite elem_of_seqZ. lia. Qed.

Lemma window_inj w r p q q' :
  sane w r -> 0 <= p -> q ∈ window r p -> q' ∈ window r p -> keyid_of r q = keyid_of r q' -> q = q'.
Proof.
  intros (? & ? & ? & ? & _) ? Hq%elem_of_window Hq'%elem_of_window.
  apply keyid_inj; [done|]. unfold saturating_sub in *. nia.
Qed.

(** The fields a rotation never writes. *)
Definition same_config r r' : Prop :=
  memcached_url r' = memcached_url r /\ prefix r' = prefix r /\ duration r' = duration r /\
  number_of_forward_periods r' = number_of_forward_periods r /\
  number_of_backward_periods r' = number_of_backward_periods r /\ master_key r' = master_key r.

Lemma rotate_config w s : sane w (rot s) -> same_config (rot s) (rot (rotate w s).2).
Proof.
  intros Hs. rewrite rotate_eq by done. unfold rotate_spec.
  destruct (match memc_connect w _ with Some _ => _ | None => _ end) as [[] ?]; cbn; by split_and!.
Qed.

Lemma rotate_no_panic w s : sane w (rot s) -> is_panic (rotate w s).1 = false.
Proof.
  intros Hs. rewrite rotate_eq by done. unfold rotate_spec.
  destruct (memc_connect w _); cbn; [done|].
  pose proof (fetch_no_panic w (rot s) (window (rot s) (period_of w (rot s)))
    (delete (keyid_of (rot s) (removed_of w (rot s))) (cache (rot s)))).
  by destruct (fetch _ _ _ _).
Qed.

(** A successful rotation, read off its specification. *)
Lemma rotate_Ok_inv w s u s' :
  sane w (rot s) -> rotate w s = (Ok u, s') ->
  let r := rot s in let p := period_of w r in
  let c0 := delete (keyid_of r (removed_of w r)) (cache r) in
  memc_connect w (memcached_url r) = None /\ (fetch w r (window r p) c0).1 = Ok tt /\
  rot s' = set_latest (keyid_of r p) (set_cache (fun _ => (fetch w r (window r p) c0).2) r).
Proof.
  intros Hs. rewrite rotate_eq by done. unfold rotate_spec.
  destruct (memc_connect w _); cbn; [done|].
  destruct (fetch _ _ _ _) as [[[]| |] c]; cbn; intros E; naive_solver.
Qed.

Lemma rotate_Err_inv w s e s' :
  sane w (rot s) -> rotate w s = (Err e, s') ->
  latest_key_id (rot s') = latest_key_id (rot s) /\
  (forall k, k ≠ keyid_of (rot s) (removed_of w (rot s)) ->
     is_Some (get (rot s) k) -> is_Some (get (rot s') k)).
Proof.
  intros Hs. rewrite rotate_eq by done. unfold rotate_spec, get.
  destruct (memc_connect w _); cbn.
  - intros [= _ <-]. cbn. split; [done|]. intros k Hk. by rewrite lookup_delete_ne.
  - destruct (fetch _ _ _ _) as [[[]| |] c] eqn:Hf; cbn; intros [= _ <-]. cbn. split; [done|].
    intros k Hk Hc.
    pose proof (fetch_keeps w (rot s) (window (rot s) (period_of w (rot s)))
      (delete (keyid_of (rot s) (removed_of w (rot s))) (cache (rot s))) k) as Hkeep.
    rewrite Hf in Hkeep. apply Hkeep. by rewrite lookup_delete_ne.
Qed.

Lemma current_in_window w r : sane w r -> period_of w r ∈ window r (period_of w r).
Proof.
  intros Hs. destruct (period_bounds w r Hs) as [? _]. destruct Hs as (? & ? & ? & _).
  apply elem_of_window. unfold saturating_sub. lia.
Qed.

(** After a success the current key is there. *)
Lemma rotate_Ok_latest w s u s' :
  sane w (rot s) -> rotate w s = (Ok u, s') ->
  latest_key_id (rot s') = keyid_of (rot s) (period_of w (rot s)) /\
  is_Some (get (rot s') (latest_key_id (rot s'))).
Proof.
  intros Hs Hr. pose proof Hr as Hr'. apply rotate_Ok_inv in Hr as (_ & Hf & ->); [|done].
  cbn. split; [done|]. unfold get. cbn.
  pose proof (current_in_window w _ Hs) as Hin.
  destruct (fetch_Ok _ _ _ _ _ Hf _ Hin) as [v Hv].
  destruct (period_bounds w _ Hs).
  rewrite (fetch_lookup _ _ _ _ _ _ v Hf Hin); [eauto| |done].
  intros. by eapply window_inj.
Qed.

(** ** The window invariant *)
Definition window_only r (p : Z) : Prop :=
  forall k, is_Some (get r k) <-> exists q, q ∈ window r p /\ k = keyid_of r q.

Lemma window_only_dom r p :
  dom (cache r) = (list_to_set (keyid_of r <$> window r p) : gset KeyId) -> window_only r p.
Proof.
  intros Hd k. unfold get. rewrite <- elem_of_dom, Hd, elem_of_list_to_set, list_elem_of_fmap.
  naive_solver.
Qed.

(** C29: eviction.  When the cache holds exactly the window of a period, a
    successful rotation in the same or in the next period leaves it holding
    exactly the window of the new one: the keys that fell out of the window are
    gone, and cookies made under them no longer open. *)
Theorem rotate_evicts w s u s' p :
  sane w (rot s) -> rotate w s = (Ok u, s') ->
  window_only (rot s) p -> 0 <= p -> period_of w (rot s) = p \/ period_of w (rot s) = p + 1 ->
  window_only (rot s') (period_of w (rot s)).
Proof.
  intros Hs Hr Hw Hp Hnext. apply rotate_Ok_inv in Hr as (_ & Hf & Hrot); [|done].
  set (r := rot s) in *. set (p' := period_of w r) in *.
  intros k. rewrite Hrot. unfold get. cbn [cache set_latest set_cache].
  change (window (set_latest _ _) p') with (window r p').
  change (keyid_of (set_latest _ _)) with (keyid_of r).
  assert (0 <= p') by lia. split.
  - intros Hk.
    destruct (decide (Exists (fun q => k = keyid_of r q) (window r p'))) as [Hyes|Hno];
      [by apply Exists_exists in Hyes|exfalso].
    assert (forall q, q ∈ window r p' -> keyid_of r q ≠ k) as Hne.
    { intros q Hq E. apply Hno, Exists_exists. eauto. }
    rewrite fetch_other in Hk by done.
    apply lookup_delete_is_Some in Hk as [Hrem Hk].
    apply Hw in Hk as (q & Hq & ->). apply elem_of_window in Hq.
    apply (Hne q); [|done]. apply elem_of_window.
    destruct Hs as (? & Hb & ? & _). unfold removed_of, first_of in Hrem. fold p' in Hrem.
    assert (q ≠ p - number_of_backward_periods r \/ p' = p \/ p' <= number_of_backward_periods r) as Hc.
    { destruct (decide (p' = p + 1 /\ number_of_backward_periods r < p')) as [[-> ?]|]; [left|lia].
      intros ->. apply Hrem. f_equal. unfold saturating_sub. lia. }
    unfold saturating_sub in *. lia.
  - intros (q & Hq & ->). destruct (fetch_Ok _ _ _ _ _ Hf _ Hq) as [v Hv].
    rewrite (fetch_lookup _ _ _ _ _ _ v Hf Hq); [eauto| |done]. intros. by eapply window_inj.
Qed.

Lemma latest_key_value_eq {E} r v :
  get r (latest_key_id r) = Some v -> @latest_key_value E r = Ok (latest_key_id r, v).
Proof. unfold latest_key_value. by intros ->. Qed.

Lemma latest_key_value_None {E} r :
  get r (latest_key_id r) = None -> exists q, @latest_key_value E r = Panic q.
Proof. unfold latest_key_value. intros ->. by eexists. Qed.

Lemma sane_config w r r' : same_config r r' -> sane w r -> sane w r'.
Proof. unfold same_config, sane. intros (_ & _ & -> & -> & -> & _). done. Qed.

Lemma keyid_config r r' p : same_config r r' -> keyid_of r' p = keyid_of r p.
Proof. unfold same_config, keyid_of. by intros (_ & _ & -> & _). Qed.

Lemma period_config w r r' : same_config r r' -> period_of w r' = period_of w r.
Proof. unfold same_config, period_of. by intros (_ & _ & -> & _). Qed.

(** ** A failed rotation drops one period *)

(** The period dropped by a rotation is older than one that succeeded at most
    [number_of_backward_periods] ago. *)
Lemma removed_not_recent w r l :
  sane w r -> 0 < l <= period_of w r -> period_of w r <= l + number_of_backward_periods r ->
  keyid_of r l ≠ keyid_of r (removed_of w r).
Proof.
  intros Hs Hl Hb E. destruct Hs as (Hd & ? & ? & Hwin & _).
  unfold removed_of, first_of, saturating_sub in E. apply keyid_inj in E; [lia|done|nia].
Qed.

(** Histories of one rotator: its state, the period of its last success and the
    period of its last rotation. *)
Inductive supplied : State -> Z -> Z -> Prop :=
  | supplied_start w s u s' :
      sane w (rot s) -> rotate w s = (Ok u, s') -> 0 < period_of w (rot s) ->
      supplied s' (period_of w (rot s)) (period_of w (rot s))
  | supplied_ok w s l p u s' :
      supplied s l p -> sane w (rot s) -> p <= period_of w (rot s) ->
      rotate w s = (Ok u, s') ->
      supplied s' (period_of w (rot s)) (period_of w (rot s))
  | supplied_err w s l p e s' :
      supplied s l p -> sane w (rot s) -> p <= period_of w (rot s) ->
      period_of w (rot s) <= l + number_of_backward_periods (rot s) ->
      rotate w s = (Err e, s') ->
      supplied s' l (period_of w (rot s)).

Lemma rotate_config_of w s o s' :
  sane w (rot s) -> rotate w s = (o, s') -> same_config (rot s) (rot s').
Proof. intros Hs Hr. pose proof (rotate_config w s Hs) as Hc. by rewrite Hr in Hc. Qed.

Lemma rotate_count w s o s' :
  sane w (rot s) -> rotate w s = (o, s') -> rotations s' = rotations s + 1.
Proof.
  intros Hs. rewrite rotate_eq by done. unfold rotate_spec.
  destruct (match memc_connect w _ with Some _ => _ | None => _ end) as [? ?].
  by intros [= _ <-].
Qed.

Lemma supplied_inv s l p :
  supplied s l p ->
  0 < l <= p /\ latest_key_id (rot s) = keyid_of (rot s) l /\
  is_Some (get (rot s) (latest_key_id (rot s))).
Proof.
  induction 1 as [w s u s' Hs Hr Hp|w s l p u s' _ IH Hs Hp Hr|w s l p e s' _ IH Hs Hp Hb Hr].
  - destruct (rotate_Ok_latest _ _ _ _ Hs Hr) as [Hl Hk].
    split_and!; [lia|lia| |done]. rewrite Hl. symmetry. eapply keyid_config, rotate_config_of; eauto.
  - destruct (rotate_Ok_latest _ _ _ _ Hs Hr) as [Hl Hk].
    split_and!; [lia|lia| |done]. rewrite Hl. symmetry. eapply keyid_config, rotate_config_of; eauto.
  - destruct IH as (Hlp & Hid & Hk).
    destruct (rotate_Err_inv _ _ _ _ Hs Hr) as [Hlat Hkeep]. rewrite Hlat.
    split_and!; [lia|lia| |].
    + rewrite Hid. symmetry. eapply keyid_config, rotate_config_of; eauto.
    + apply Hkeep; [|done]. rewrite Hid. apply removed_not_recent; [done|lia|done].
Qed.

(** The latest key is kept. *)
Lemma latest_key_kept s l p :
  supplied s l p ->
  exists v, @latest_key_value (RotateError ME) (rot s) = Ok (keyid_of (rot s) l, v).
Proof.
  intros (_ & Hid & [v Hv])%supplied_inv. exists v. rewrite <- Hid.
  by apply latest_key_value_eq.
Qed.

Lemma rotate_Err_removed w s e s' k :
  sane w (rot s) -> rotate w s = (Err e, s') ->
  k = keyid_of (rot s) (removed_of w (rot s)) ->
  (forall q, q ∈ window (rot s) (period_of w (rot s)) -> keyid_of (rot s) q ≠ k) ->
  get (rot s') k = None.
Proof.
  intros Hs. rewrite rotate_eq by done. unfold rotate_spec, get.
  destruct (memc_connect w _); cbn.
  - intros [= _ <-] -> _. cbn. apply lookup_delete_eq.
  - intros Hr -> Hq. pose proof (fetch_other w (rot s) _
      (delete (keyid_of (rot s) (removed_of w (rot s))) (cache (rot s))) _ Hq) as Hf.
    destruct (fetch _ _ _ _) as [[[]| |] c]; cbn in Hr; try done.
    injection Hr as _ <-. cbn in *. rewrite Hf. apply lookup_delete_eq.
Qed.

(** The latest key is lost. *)
Lemma latest_key_lost w s e s' l :
  sane w (rot s) -> 0 <= l -> latest_key_id (rot s) = keyid_of (rot s) l ->
  period_of w (rot s) = l + number_of_backward_periods (rot s) + 1 ->
  rotate w s = (Err e, s') ->
  exists q, @latest_key_value (RotateError ME) (rot s') = Panic q.
Proof.
  intros Hs Hl Hid Hp Hr. apply latest_key_value_None.
  destruct (rotate_Err_inv _ _ _ _ Hs Hr) as [-> _].
  pose proof Hs as (Hd & Hb & Hf & Hwin & _).
  eapply rotate_Err_removed; [done|done| |].
  - rewrite Hid. f_equal. unfold removed_of, first_of, saturating_sub. lia.
  - intros q Hq%elem_of_window E. rewrite Hid in E. unfold saturating_sub in Hq.
    apply keyid_inj in E; [lia|done|nia].
Qed.

(** C30: when [latest_key_value] returns and when it panics.  As long as every
    failed rotation happens at most [number_of_backward_periods] periods after the
    last successful one and the clock does not go back, it returns a key: the
    [unwrap] in it does not panic.  But a failed rotation one period later drops the
    key that [latest_key_id] names, so that the next call panics, although the
    comment at the [unwrap] says that it cannot. *)
Theorem latest_key_available :
  (forall s l p, supplied s l p ->
   exists v, @latest_key_value (RotateError ME) (rot s) = Ok (keyid_of (rot s) l, v)) /\
  (forall w s e s' l,
   sane w (rot s) -> 0 <= l -> latest_key_id (rot s) = keyid_of (rot s) l ->
   period_of w (rot s) = l + number_of_backward_periods (rot s) + 1 ->
   rotate w s = (Err e, s') ->
   exists q, @latest_key_value (RotateError ME) (rot s') = Panic q).
Proof. split; [exact latest_key_kept|exact latest_key_lost]. Qed.

(** C10: one rotation, on every branch.  It does not panic; it succeeds exactly
    when memcached can be reached and holds a value for every period of the
    window; then every period of the window is cached under its own key id as
    the HMAC of its value, and the latest key is that of the current period;
    when it fails the latest key id is unchanged and no key but that of the
    removed period is lost. *)
Theorem rotate_correct w s :
  sane w (rot s) ->
  let r := rot s in let p := period_of w r in
  let '(o, s') := rotate w s in
  match o with
  | Ok _ =>
    memc_connect w (memcached_url r) = None /\
    latest_key_id (rot s') = keyid_of r p /\
    (forall q, q ∈ window r p -> exists v, secret w r q = Some v /\
       get (rot s') (keyid_of r q) = Some (sign (master_key r) v))
  | Err e =>
    (is_Some (memc_connect w (memcached_url r)) \/
     exists q, q ∈ window r p /\ secret w r q = None) /\
    latest_key_id (rot s') = latest_key_id r /\
    (forall k, k ≠ keyid_of r (removed_of w r) -> is_Some (get r k) -> is_Some (get (rot s') k))
  | Panic _ => False
  end /\
  rotations s' = rotations s + 1 /\ same_config r (rot s').
Proof.
  intros Hs r p. destruct (rotate w s) as [o s'] eqn:Hr.
  pose proof (rotate_config_of _ _ _ _ Hs Hr) as Hc.
  pose proof (rotate_no_panic w s Hs) as Hnp. rewrite Hr in Hnp.
  split_and!; [|by eapply rotate_count|done].
  - destruct o as [u|e|q]; [| |done].
    + pose proof (rotate_Ok_latest _ _ _ _ Hs Hr) as [Hl _].
      apply rotate_Ok_inv in Hr as (Hm & Hf & Hrot); [|done]. split_and!; [done|done|].
      intros q Hq. destruct (fetch_Ok _ _ _ _ _ Hf _ Hq) as [v Hv]. exists v. split; [done|].
      rewrite Hrot. unfold get. cbn. apply (fetch_lookup _ _ _ _ _ _ v Hf Hq); [|done].
      destruct (period_bounds w _ Hs). intros. by eapply window_inj.
    + split; [|by eapply rotate_Err_inv]. rewrite rotate_eq in Hr by done. unfold rotate_spec in Hr.
      destruct (memc_connect w _) eqn:Hm; [left; by eexists|right].
      destruct (decide (Exists (fun q => secret w r q = None) (window r p))) as [Hx|Hx];
        [by apply Exists_exists in Hx|exfalso].
      assert ((fetch w r (window r p) (delete (keyid_of r (removed_of w r)) (cache r))).1 = Ok tt) as Hf.
      { apply fetch_all. intros q Hq. destruct (secret w r q) eqn:E; [eauto|].
        exfalso. apply Hx, Exists_exists. eauto. }
      fold r in Hr. fold p in Hr. destruct (fetch _ _ _ _) as [o c]. cbn in Hf. by subst.
Qed.

(** ** Connecting *)
Lemma connect_loop_spec fuel worlds n s :
  (forall i, sane (worlds i) (rot s)) -> 1 <= n -> n + Z.of_nat fuel = 6 -> fuel <> O ->
  let '(o, s') := connect_loop fuel worlds n s in
  match o with
  | Ok _ => exists m, n <= m <= 5 /\ rotations s' = rotations s + (m - n + 1) /\
      latest_key_id (rot s') = keyid_of (rot s) (period_of (worlds m) (rot s)) /\
      is_Some (get (rot s') (latest_key_id (rot s')))
  | Err e => rotations s' = rotations s + (5 - n + 1) /\ exists s1, (rotate (worlds 5) s1).1 = Err e
  | Panic _ => False
  end.
Proof.
  revert n s. induction fuel as [|fuel IH]; intros n s Hs Hn Hfuel H0; [done|].
  cbn [connect_loop]. pose proof (rotate_no_panic _ _ (Hs n)) as Hnp.
  destruct (rotate (worlds n) s) as [o s1] eqn:Hr.
  pose proof (rotate_config_of _ _ _ _ (Hs n) Hr) as Hc.
  pose proof (rotate_count _ _ _ _ (Hs n) Hr) as Hcount.
  destruct o as [u|e|q]; [| |done].
  - exists n. destruct (rotate_Ok_latest _ _ _ _ (Hs n) Hr). split_and!; [lia|lia|lia|done|done].
  - case_bool_decide as Hlast.
    + subst n. split; [lia|]. exists s. by rewrite Hr.
    + specialize (IH (n + 1) s1). destruct (connect_loop fuel worlds (n + 1) s1) as [o s2].
      assert (forall i, sane (worlds i) (rot s1)) as Hs1 by (intros; by eapply sane_config).
      specialize (IH Hs1). destruct o as [u|e'|q].
      * destruct IH as (m & ? & -> & Hl & ?); [lia|lia|lia|]. exists m.
        split_and!; [lia|lia|lia| |done]. rewrite Hl, (keyid_config _ _ _ Hc), (period_config _ _ _ Hc).
        done.
      * destruct IH as [-> ?]; [lia|lia|lia|]. split; [lia|done].
      * apply IH; lia.
Qed.

Lemma same_config_refl r : same_config r r.
Proof. by split_and!. Qed.
Lemma same_config_trans r1 r2 r3 : same_config r1 r2 -> same_config r2 r3 -> same_config r1 r3.
Proof. unfold same_config. naive_solver congruence. Qed.

Lemma connect_loop_config fuel worlds n s :
  (forall i, sane (worlds i) (rot s)) -> same_config (rot s) (rot (connect_loop fuel worlds n s).2).
Proof.
  revert n s. induction fuel as [|fuel IH]; intros n s Hs; [apply same_config_refl|]. cbn [connect_loop].
  destruct (rotate (worlds n) s) as [o s1] eqn:Hr.
  pose proof (rotate_config_of _ _ _ _ (Hs n) Hr) as Hc. destruct o as [u|e|q]; [done| |done].
  case_bool_decide; [done|]. eapply same_config_trans; [done|]. apply IH. intros i. by eapply sane_config.
Qed.

Lemma inner_sane w s :
  sane w (rot s) ->
  inner w (mkLock false s) = (Ok tt, mkLock false (rotate w s).2).
Proof.
  intros Hs. unfold inner, with_write. cbn [poisoned guarded].
  pose proof (rotate_no_panic w s Hs). by destruct (rotate w s) as [[] ?].
Qed.

Lemma periodic_rotate_run ws s sleeps :
  Forall (fun w => sane w (rot s)) ws ->
  exists s', periodic_rotate ws (mkLock false s) sleeps =
      (Ok (sleeps ++ replicate (length ws) (duration (rot s))), mkLock false s') /\
    rotations s' = rotations s + zlen ws /\ same_config (rot s) (rot s').
Proof.
  revert s sleeps. induction ws as [|w ws IH]; intros s sleeps Hws.
  - exists s. rewrite app_nil_r, zlen_nil. split_and!; try done. lia.
  - apply Forall_cons in Hws as [Hw Hws]. cbn [periodic_rotate].
    rewrite inner_sane by done. unfold read_sleep, read_lock. cbn [poisoned guarded]. res_step.
    destruct (rotate w s) as [o s1] eqn:Hr. cbn [snd].
    pose proof (rotate_config_of _ _ _ _ Hw Hr) as Hc.
    destruct (IH s1 (sleeps ++ [duration (rot s1)])) as (s' & -> & Hn & Hc').
    { eapply Forall_impl; [done|]. intros w' Hw'. by eapply sane_config. }
    exists s'. rewrite (rotate_count _ _ _ _ Hw Hr) in Hn.
    assert (duration (rot s1) = duration (rot s)) as -> by apply Hc.
    split_and!; [|zl|by eapply same_config_trans]. rewrite <- app_assoc. done.
Qed.

(** The rotation thread survives.  While the clock is sane, no round of
    [periodic_rotate] panics or poisons the lock the servers read the keys
    through, whatever memcached answers; every round counts one rotation and
    sleeps one period, and the configuration never changes. *)
Lemma periodic_rotate_survives ws s :
  Forall (fun w => sane w (rot s)) ws ->
  exists s', periodic_rotate ws (mkLock false s) [] =
      (Ok (replicate (length ws) (duration (rot s))), mkLock false s') /\
    rotations s' = rotations s + zlen ws /\ same_config (rot s) (rot s').
Proof. apply (periodic_rotate_run ws s []). Qed.
End Facts.

(** ** What [connect] returns *)
Section Connect.
Context {P : Profile} {H : Hmac} {ME : Type}.

(** A clock after the epoch from which a window of keys can be computed. *)
Definition sane_clock (w : World ME) : Prop := 0 <= now w /\ as_secs (now w) + 3 * 3600 < 2 ^ 64.
Lemma sane_clock_sane w r :
  sane_clock w -> duration r = 3600 -> number_of_forward_periods r = 2 -> number_of_backward_periods r = 24 ->
  sane w r.
Proof. unfold sane_clock, sane. intros ? -> -> ->. lia. Qed.

Lemma connect_spec (prefix url : string) master (worlds : Z -> World ME) n0 f0 :
  (forall i, sane_clock (worlds i)) ->
  let r0 := mkRotator url prefix 3600 2 24 master 0 ∅ in
  let '(o, s') := connect prefix url master worlds n0 f0 in
  match o with
  | Ok r => exists m v, 1 <= m <= 5 /\ rotations s' = n0 + m /\ rot s' = r /\ same_config r0 r /\
      @latest_key_value (RotateError ME) r =
        Ok (KeyId_from_epoch (as_secs (now (worlds m)) / 3600 * 3600), v)
  | Err e => rotations s' = n0 + 5 /\ exists s1, (rotate (worlds 5) s1).1 = Err e
  | Panic _ => False
  end.
Proof.
  intros Hs. unfold connect. cbv zeta. set (r0 := mkRotator _ _ _ _ _ _ _ _). set (s0 := mkState r0 n0 f0).
  assert (forall i, sane (worlds i) (rot s0)) as Hsane by (intros i; by apply sane_clock_sane).
  pose proof (connect_loop_spec 5 worlds 1 s0 Hsane ltac:(lia) ltac:(lia) ltac:(lia)) as Hl.
  pose proof (connect_loop_config 5 worlds 1 s0 Hsane) as Hc.
  destruct (connect_loop 5 worlds 1 s0) as [[u|e|q] s']; [|split; [cbn in Hl; lia|naive_solver]|done].
  destruct Hl as (m & Hm & Hrot & Hlat & [v Hv]). exists m, v. split_and!; try done; [lia|lia| |].
  - rewrite Hrot. cbn. lia.
  - rewrite (latest_key_value_eq _ _ Hv), Hlat. done.
Qed.

(** [connect] ends after at most five rotations.  It returns a rotator
    whose latest key is that of the period of its last rotation and is there to
    be used, or the error of the fifth failing rotation; it does not panic when
    the clock is sane. *)
Lemma connect_correct (prefix url : string) master (worlds : Z -> World ME) n0 f0 :
  (forall i, sane_clock (worlds i)) ->
  let r0 := mkRotator url prefix 3600 2 24 master 0 ∅ in
  let '(o, s') := connect prefix url master worlds n0 f0 in
  match o with
  | Ok r => exists m v, 1 <= m <= 5 /\ rotations s' = n0 + m /\ rot s' = r /\ same_config r0 r /\
      @latest_key_value (RotateError ME) r =
        Ok (KeyId_from_epoch (as_secs (now (worlds m)) / 3600 * 3600), v)
  | Err e => rotations s' = n0 + 5 /\ exists s1, (rotate (worlds 5) s1).1 = Err e
  | Panic _ => False
  end.
Proof. apply connect_spec. Qed.
End Connect.

(** ** Cookies under a rotator's keys *)
Section Usable.
Context {A : Aead} {R : Type} {G : Rng R}.

(** A cookie that a server with these keys turns back into [k]. *)
Definition usable_cookie (kr : KeyRotator) (k : NTSKeys) (c : bytes) : Prop :=
  zlen c = COOKIE_SIZE /\ get_keyid c = Some (latest_key_id kr) /\
  exists key, get kr (latest_key_id kr) = Some key /\ eat_cookie (E := io_error) c key = Ok (Some k).

(** Keys that can be read and used. *)
Definition keys_ready (l : RwLock KeyRotator) : Prop :=
  poisoned l = false /\ in_width 32 (latest_key_id (guarded l)) /\
  is_Some (get (guarded l) (latest_key_id (guarded l))).

Lemma make_cookie_usable {L : AeadLaws A} {GL : RngLaws G} {E} kr k key r :
  keys_wf k -> in_width 32 (latest_key_id kr) -> get kr (latest_key_id kr) = Some key ->
  exists c r', make_cookie (E := E) k key (latest_key_id kr) r = (Ok c, r') /\ usable_cookie kr k c.
Proof.
  intros Hk Hid Hkey. rewrite make_cookie_run by done. eexists _, _. split; [done|].
  pose proof (fill_length 16 r).
  split_and!; [by apply cookie_bytes_length|by apply get_keyid_cookie|].
  exists key. split; [done|by apply eat_cookie_cookie].
Qed.
End Usable.

(** ** Witnesses: an hourly rotator and a memcached server that holds one secret *)
Module RotatorExample.
Import Toy.
Definition at_hour (h : Z) : SystemTime := h * 3600 * NANOS.
Definition up (h : Z) : World unit :=
  mkWorld (at_hour h) (fun _ => None) (fun _ => inr (Some [x41; x42])).
Definition down (h : Z) : World unit :=
  mkWorld (at_hour h) (fun _ => Some tt) (fun _ => inl tt).
Definition fresh : State :=
  mkState (mkRotator "memcache://localhost" "/nts/nts-keys" 3600 2 24 [x01; x02] 0 ∅) 0 0.
Definition step (w : World unit) (s : State) : State := (rotate (P := Debug) w s).2.

Lemma rotated (w : World unit) s u :
  (rotate (P := Debug) w s).1 = Ok u -> rotate (P := Debug) w s = (Ok u, step w s).
Proof. unfold step. destruct (rotate w s). by intros [= ->]. Qed.

Lemma not_rotated (w : World unit) s e :
  (rotate (P := Debug) w s).1 = Err e -> rotate (P := Debug) w s = (Err e, step w s).
Proof. unfold step. destruct (rotate w s). by intros [= ->]. Qed.
End RotatorExample.

Section Witnesses.
Import Toy RotatorExample.

Lemma supplied_example : supplied (P := Debug) (ME := unit) (step (down 124) (step (up 100) fresh)) 100 124.
Proof.
  apply (supplied_err (down 124) (step (up 100) fresh) 100 100 (MemcacheError tt)).
  - apply (supplied_start (up 100) fresh tt); [vm_compute; split_and!; done| |done].
    apply rotated. vm_compute. done.
  - vm_compute; split_and!; done.
  - vm_compute. done.
  - vm_compute. done.
  - apply not_rotated. vm_compute. done.
Qed.

(** A key of period 100 with memcached gone in period 124, and in period 125. *)
Lemma latest_key_available_witness :
  (exists v, @latest_key_value (RotateError unit) (rot (step (down 124) (step (up 100) fresh))) = Ok (360000, v)) /\
  (exists q, @latest_key_value (RotateError unit) (rot (step (down 125) (step (up 100) fresh))) = Panic q).
Proof.
  destruct (latest_key_available (P := Debug) (ME := unit)) as [Hkept Hlost].
  split; [exact (Hkept _ _ _ supplied_example)|].
  apply (Hlost (down 125) (step (up 100) fresh) (MemcacheError tt)
    (step (down 125) (step (up 100) fresh)) 100).
  - vm_compute; split_and!; done.
  - done.
  - vm_compute. done.
  - vm_compute. done.
  - apply not_rotated. vm_compute. done.
Defined.

Lemma rotate_correct_witness :
  (rotate (P := Debug) (up 100) fresh).1 = Ok tt /\
  latest_key_id (rot (step (up 100) fresh)) = 360000.
Proof.
  assert (sane (up 100) (rot fresh)) as Hs by (vm_compute; split_and!; done).
  pose proof (rotate_correct (P := Debug) (up 100) fresh Hs) as Hc.
  assert (rotate (P := Debug) (up 100) fresh = (Ok tt, step (up 100) fresh)) as Hr
    by (apply rotated; vm_compute; done).
  rewrite Hr in *. destruct Hc as [(_ & Hl & _) _]. split; [done|]. rewrite Hl. vm_compute. done.
Defined.

Lemma rotate_evicts_witness :
  window_only (rot (step (up 101) (step (up 100) fresh))) 101.
Proof.
  assert (forall (w : World unit) s, sane w (rot s) -> window_only (rot s) 100 -> (rotate (P := Debug) w s).1 = Ok tt ->
    period_of w (rot s) = 101 -> window_only (rot (step w s)) 101) as Hstep.
  { intros w s Hs Hw Hr Hp. rewrite <- Hp.
    apply (rotate_evicts (P := Debug) w s tt _ 100); [done|by apply rotated|done|done|by right]. }
  apply Hstep; [vm_compute; split_and!; done| |vm_compute; done|vm_compute; done].
  apply window_only_dom. vm_compute. done.
Defined.

Lemma periodic_rotate_survives_witness :
  exists s', periodic_rotate (P := Debug) [up 100; down 101; up 102] (mkLock false fresh) [] =
      (Ok [3600; 3600; 3600], mkLock false s') /\ rotations s' = 3.
Proof.
  destruct (periodic_rotate_survives (P := Debug) [up 100; down 101; up 102] fresh) as (s' & E & Hn & _).
  - do 3 (apply Forall_cons; split; [vm_compute; split_and!; done|]). apply Forall_nil. done.
  - exists s'. split; [exact E|]. rewrite Hn. done.
Defined.

Lemma connect_correct_witness :
  exists r v, (connect (P := Debug) "/nts/nts-keys" "memcache://localhost" [x01] (fun _ => up 100) 0 0).1 = Ok r /\
    @latest_key_value (RotateError unit) r = Ok (360000, v).
Proof.
  pose proof (connect_correct (P := Debug) "/nts/nts-keys" "memcache://localhost" [x01]
    (fun _ => up 100) 0 0) as Hc.
  destruct (connect _ _ _ _ _ _) as [o s'] eqn:Hr.
  assert (is_ok o = true) as Ho by (change o with (o, s').1; rewrite <- Hr; vm_compute; done).
  destruct o as [r|e|q]; [|discriminate Ho|discriminate Ho].
  destruct Hc as (m & v & _ & _ & _ & _ & Hv); [intros _; vm_compute; split_and!; done|].
  exists r, v. split; [done|]. rewrite Hv. vm_compute. done.
Defined.
End Witnesses.
