(* ===== verification/UnitTests.v ===== *)
(** * The repository's unit tests

    The [#[cfg(test)]] modules of [cookie.rs], [key_rotator.rs] and [ntp/protocol.rs],
    with the mocks of the clock and of memcached that the second one sets up.  A test
    is a program whose failing assertion is a panic.  The file shows which tests pass
    for every AEAD and every random generator, and on what the others depend. *)

From stdpp Require Import prelude list numbers strings gmap.
From Stdlib Require Import Strings.Byte.
From S2P Require Import Prelude Words Crypto NtpProtocol NtpExtensions NtsPackets Time Cookie KeyRotator.

Open Scope Z_scope.

(** ** Assertions and loops *)
Section Asserts.
Context {E : Type}.

(** [assert_eq!] and [assert_ne!]. *)
Definition assert_eq {X} `{EqDecision X} (a b : X) : res E unit := if decide (a = b) then Ok tt else Panic Explicit.
Definition assert_ne {X} `{EqDecision X} (a b : X) : res E unit := if decide (a = b) then Panic Explicit else Ok tt.

Fixpoint for_in {X} (l : list X) (f : X -> res E unit) : res E unit :=
  match l with [] => Ok tt | x :: l => _ ← f x; for_in l f end.

(** [l[i] = v]. *)
Definition index_set {X} (l : list X) (i : nat) (v : X) : res E (list X) :=
  if bool_decide (i < length l)%nat then Ok (<[i := v]> l) else Panic SliceRange.

Lemma for_in_ok {X} (l : list X) f : (forall x, x ∈ l -> f x = Ok tt) -> for_in l f = Ok tt.
Proof.
  induction l as [|x l IH]; intros Hf; cbn [for_in]; [done|]. rewrite Hf by apply list_elem_of_here. res_step.
  apply IH. intros. by apply Hf, list_elem_of_further.
Qed.
Lemma assert_eq_refl {X} `{EqDecision X} (a : X) : assert_eq a a = Ok tt.
Proof. unfold assert_eq. by rewrite decide_True. Qed.
Lemma index_in {X} (l : list X) i : 0 <= i < zlen l -> exists x, index (E := E) l i = Ok x.
Proof.
  intros Hi. unfold index. rewrite bool_decide_true by lia. destruct (l !! Z.to_nat i) as [x|] eqn:Hx; [by exists x|].
  apply lookup_ge_None in Hx. unfold zlen in Hi. lia.
Qed.
End Asserts.

(** ** src/cookie.rs *)
Definition CookieKey_from (b : bytes) : bytes := b.

Definition check_eq {E} (a b : NTSKeys) : res E unit :=
  for_in (seqZ 0 32) (fun i =>
    x ← index (c2s a) i; y ← index (c2s b) i; _ ← assert_eq x y;
    x ← index (s2c a) i; y ← index (s2c b) i; assert_eq x y).

Definition cookie_test_keys : NTSKeys := mkKeys (replicate 32 x0a) (replicate 32 x09).

Section CookieTests.
Context {A : Aead} {R : Type} {G : Rng R}.

Definition check_cookie : M R io_error unit :=
  let test := cookie_test_keys in
  let master_key := replicate 32 x07 in
  let key_id := KeyId_from_be_bytes (replicate 4 x03) in
  cookie ← make_cookie test master_key key_id;
  let ret := get_keyid cookie in
  _ ← lift (assert_eq (zlen cookie) COOKIE_SIZE);
  _ ← lift (match ret with None => Panic Explicit | Some id => assert_eq id key_id end);
  ret2 ← lift (eat_cookie cookie master_key);
  _ ← lift (match ret2 with None => Panic Explicit | Some new_key => check_eq new_key test end);
  cookie ← lift (index_set cookie 9 xff);
  cookie ← lift (index_set cookie 10 xff);
  ret3 ← lift (eat_cookie cookie master_key);
  lift (match ret3 with None => Ok tt | Some _ => Panic Explicit end).
End CookieTests.

(** ** src/key_rotator.rs *)
Section RotationTests.
Context {P : Profile} {H : Hmac} {ME : Type}.
Abbreviation RE := (RotateError ME).

(** The mocks: [HASH_MAP] behind a memcached client, and [NOW] behind the clock. *)
Definition Client_connect (url : string) : option ME := None.
Definition Client_get (HASH_MAP : gmap string bytes) (key : string) : ME + option bytes := inr (HASH_MAP !! key).
Definition SystemTime_now (NOW : Z) : res RE SystemTime := unwrap (systime_checked_add UNIX_EPOCH (from_secs NOW)).
Definition mock_world (HASH_MAP : gmap string bytes) (NOW : Z) : res RE (World ME) :=
  now ← SystemTime_now NOW; Ok (mkWorld now Client_connect (Client_get HASH_MAP)).

(** [rotator.rotate().unwrap()] and [rotator.rotate().unwrap_err()]. *)
Definition rotate_unwrap (w : World ME) (rotator : State) : res RE State :=
  let '(r, rotator) := rotate w rotator in _ ← unwrap_res r; Ok rotator.
Definition rotate_unwrap_err (w : World ME) (rotator : State) : res RE State :=
  match rotate w rotator with
  | (Ok _, _) => Panic UnwrapFailed
  | (Err _, rotator) => Ok rotator
  | (Panic p, _) => Panic p
  end.

Definition test_rotation (rotations failures : Z) : res RE unit :=
  let hash_map := ∅ in
  let hash_map := <["test/1" := replicate 32 x01]> hash_map in
  let hash_map := <["test/2" := replicate 32 x02]> hash_map in
  let hash_map := <["test/3" := replicate 32 x03]> hash_map in
  let hash_map := <["test/4" := replicate 32 x04]> hash_map in
  let rotator := mkState (mkRotator "unused" "test" 1 1 1 (CookieKey_from [x00; x20])
    (KeyId_from_be_bytes [x01; x02; x03; x04]) ∅) rotations failures in
  w ← mock_world hash_map 2;
  rotator ← rotate_unwrap w rotator;
  let old_latest := latest_key_id (rot rotator) in
  w ← mock_world hash_map 3;
  rotator ← rotate_unwrap w rotator;
  let new_latest := latest_key_id (rot rotator) in
  _ ← assert_ne old_latest new_latest;
  w ← mock_world hash_map 1;
  rotator ← rotate_unwrap_err w rotator;
  w ← mock_world hash_map 4;
  _ ← rotate_unwrap_err w rotator;
  Ok tt.
End RotationTests.

(** ** src/ntp/protocol.rs *)
#[export] Instance NtpPacketHeader_eq_dec : EqDecision NtpPacketHeader.
Proof. solve_decision. Defined.

Definition test_ntp_header_parse : io_result unit :=
  let leaps := [NoLeap; Positive; Negative; LeapUnknown] in
  let versions := [1; 2; 3; 4; 5; 6; 7] in
  let modes := [SymmetricActive; SymmetricPassive; Client; Server; Broadcast] in
  for_in leaps (fun leap => for_in versions (fun version => for_in modes (fun mode =>
    let start_header := mkHeader leap version mode 0 0 0 0 0 0 0 0 0 0 in
    ret_header ← unwrap_res (parse_packet_header (serialize_header start_header));
    assert_eq ret_header start_header))).

Definition check_eq_ext (a b : NtpExtension) : io_result unit :=
  _ ← assert_eq (ext_type a) (ext_type b);
  _ ← assert_eq (zlen (contents a)) (zlen (contents b));
  for_in (seqZ 0 (zlen (contents a))) (fun i =>
    x ← index (contents a) i; y ← index (contents b) i; assert_eq x y).

Definition check_ext_array_eq (exts1 exts2 : list NtpExtension) : io_result unit :=
  _ ← assert_eq (zlen exts1) (zlen exts2);
  for_in (seqZ 0 (zlen exts1)) (fun i =>
    x ← index exts1 i; y ← index exts2 i; check_eq_ext x y).

Definition check_nts_match (pkt1 pkt2 : NtsPacket) : io_result unit :=
  _ ← assert_eq (nts_header pkt1) (nts_header pkt2);
  _ ← check_ext_array_eq (auth_enc_exts pkt1) (auth_enc_exts pkt2);
  check_ext_array_eq (auth_exts pkt1) (auth_exts pkt2).

Section PacketTests.
Context {P : Profile} {A : Aead} {R : Type} {G : Rng R}.

Definition roundtrip_test (input : NtsPacket) (enc : bytes) : M R io_error unit :=
  packet ← serialize_nts_packet input enc;
  decrypt ← lift (unwrap_res (parse_nts_packet packet enc));
  _ ← lift (check_nts_match input decrypt);
  packet ← lift (index_set packet 0 xde);
  packet ← lift (index_set packet 1 xad);
  packet ← lift (index_set packet 2 xbe);
  packet ← lift (index_set packet 3 xef);
  match parse_nts_packet packet enc with
  | Ok _ => lift (Panic Explicit)
  | Err _ => mret tt
  | Panic p => lift (Panic p)
  end.

Definition test_packet : NtsPacket :=
  mkNts (mkHeader NoLeap 4 Client 1 0 0 0 0 0 0 0 0 0)
    [mkExt UniqueIdentifier (replicate 32 x00); mkExt NTSCookie (replicate 32 x00)]
    [mkExt NTSCookiePlaceholder (replicate 32 xfe)].

Definition test_nts_parse : M R io_error unit :=
  let key := replicate 32 x00 in
  roundtrip_test test_packet key.
End PacketTests.

(** ** What the checks say *)
Lemma check_eq_refl {E} k : keys_wf k -> check_eq (E := E) k k = Ok tt.
Proof.
  intros [Hc Hs]. apply for_in_ok. intros i Hi%elem_of_seqZ.
  destruct (index_in (E := E) (c2s k) i) as [x ->]; [unfold zlen; lia|].
  destruct (index_in (E := E) (s2c k) i) as [y ->]; [unfold zlen; lia|]. res_step. rewrite !assert_eq_refl. done.
Qed.
Lemma check_eq_ext_refl e : check_eq_ext e e = Ok tt.
Proof.
  unfold check_eq_ext. rewrite !assert_eq_refl. res_step. apply for_in_ok. intros i Hi%elem_of_seqZ.
  destruct (index_in (E := io_error) (contents e) i) as [x ->]; [lia|]. res_step. apply assert_eq_refl.
Qed.
Lemma check_ext_array_refl l : check_ext_array_eq l l = Ok tt.
Proof.
  unfold check_ext_array_eq. rewrite !assert_eq_refl. res_step. apply for_in_ok. intros i Hi%elem_of_seqZ.
  destruct (index_in (E := io_error) l i) as [x ->]; [lia|]. res_step. apply check_eq_ext_refl.
Qed.
Lemma check_nts_refl p : check_nts_match p p = Ok tt.
Proof. unfold check_nts_match. rewrite !assert_eq_refl, !check_ext_array_refl. done. Qed.

Lemma index_set_ok {E X} (l : list X) i v : (i < length l)%nat -> index_set (E := E) l i v = Ok (<[i := v]> l).
Proof. intros Hi. unfold index_set. by rewrite bool_decide_true. Qed.

(** The first four bytes overwritten. *)
Definition spoiled (b : bytes) : bytes := [xde; xad; xbe; xef] ++ drop 4 b.
Lemma spoiled_eq (b : bytes) :
  (4 <= length b)%nat -> <[3%nat := xef]> (<[2%nat := xbe]> (<[1%nat := xad]> (<[0%nat := xde]> b))) = spoiled b.
Proof. intros Hb. destruct b as [|x0 [|x1 [|x2 [|x3 b]]]]; cbn in Hb; try lia. done. Qed.

Section Verdicts.
Context {P : Profile} {A : Aead} {L : AeadLaws A} {R : Type} {G : Rng R} {GL : RngLaws G}.

(** What is authenticated of a packet, and what is encrypted. *)
Definition ser (l : list NtpExtension) : bytes := match serialize_extensions (E := io_error) l with Ok b => b | _ => [] end.
Definition packet_ad (p : NtsPacket) : bytes := serialize_header (nts_header p) ++ ser (auth_exts p).
Definition packet_pt (p : NtsPacket) : bytes := ser (auth_enc_exts p).

(** A serialized packet with its header spoiled, when the AEAD tells the difference. *)
Lemma parse_spoiled key h eb es nonce pt :
  fields eb es -> zlen nonce = 16 -> zlen pt + 43 < 2 ^ 16 ->
  let hb := serialize_header h in
  open key nonce (spoiled hb ++ eb) (seal key nonce (hb ++ eb) pt) = None ->
  exists e, parse_nts_packet (spoiled (nts_wire hb eb nonce (seal key nonce (hb ++ eb) pt))) key = Err e.
Proof.
  intros Hf Hn Hsz hb Ho. assert (length hb = 48%nat) as Hl by apply serialize_header_length.
  set (ct := seal key nonce (hb ++ eb) pt) in *.
  assert (zlen ct = zlen pt + 16) as Hct by (unfold ct, zlen; rewrite seal_length; lia).
  assert (zlen (spoiled hb) = 48) as Hsl by (unfold spoiled, zlen; rewrite length_app, length_drop, Hl; done).
  set (c := auth_contents (AuthFields nonce [] ct (replicate (Z.to_nat (pad4 (zlen ct))) x00))).
  assert (spoiled (nts_wire hb eb nonce ct) = spoiled hb ++ eb ++ auth_field (zlen c + 4) c) as ->.
  { unfold nts_wire, spoiled. rewrite <- app_assoc. fold c. rewrite drop_app_le by lia. done. }
  pose proof (zlen_auth_contents nonce ct) as Hlen. fold c in Hlen.
  pose proof (pad4_range (zlen ct)). pose proof (zlen_nonneg pt). pose proof (zlen_nonneg eb).
  pose proof (parse_packet_header_total (spoiled hb ++ eb ++ auth_field (zlen c + 4) c)) as Hh.
  rewrite bool_decide_false in Hh by (pose proof (zlen_nonneg (eb ++ auth_field (zlen c + 4) c)); zl; lia).
  destruct Hh as [h' Hh]. rewrite (parse_nts_decompose (spoiled hb) eb es _ _ key h'); try done.
  - unfold auth_data, auth_body. rewrite !bool_decide_true by lia. rewrite take_ge by (unfold zlen; lia).
    unfold c. rewrite parse_decrypt_fields.
    + cbn [af_nonce af_ct]. rewrite Ho. by eexists.
    + split_and!; cbn [af_nonce af_ct af_npad af_tail]; try (unfold in_width; lia); [by rewrite Hn|zl].
  - unfold in_width. lia.
  - lia.
  - zl.
Qed.

Lemma roundtrip_test_passes p key r :
  header_wf (nts_header p) -> version (nts_header p) < 8 -> Forall ext_wf (auth_exts p) ->
  Forall (fun e => ext_type e ≠ NTSAuthenticator) (auth_exts p) ->
  Forall ext_wf (auth_enc_exts p) -> exts_size (auth_enc_exts p) + 43 < 2 ^ 16 ->
  let nonce := (fill NONCE_LEN r).1 in
  open key nonce (spoiled (packet_ad p)) (seal key nonce (packet_ad p) (packet_pt p)) = None ->
  (roundtrip_test p key r).1 = Ok tt.
Proof.
  intros Hh Hv Ha Hna He Hsz nonce Ho.
  destruct (nts_serialize_parse (E := io_error) p key r Hh Hv Ha Hna He Hsz) as (b & r' & c & Hb & Hp & _ & Hlen).
  unfold roundtrip_test. rewrite (M_bind_run _ _ _ _ _ Hb), bind_lift, Hp. cbn [unwrap_res].
  rewrite bind_lift, check_nts_refl.
  destruct (serialize_extensions_ok (E := io_error) _ (exts_wf_aligned _ Ha)) as (eb & Heb & Hel).
  destruct (serialize_extensions_ok (E := io_error) _ (exts_wf_aligned _ He)) as (pt & Hpt & Hpl).
  pose proof (serialize_nts_packet_run p key r eb pt Heb Hpt ltac:(lia)) as Hrun.
  unfold packet_ad, packet_pt, ser in Ho. rewrite Heb, Hpt in Ho. subst nonce.
  pose proof (fill_length NONCE_LEN r) as Hn. destruct (fill NONCE_LEN r) as [nonce r2]. cbn [fst] in *.
  rewrite Hb in Hrun. injection Hrun as -> ->.
  destruct (parse_spoiled key (nts_header p) eb (auth_exts p) nonce pt) as [e Hbad];
    [by apply (serialize_extensions_fields (E := io_error))|unfold zlen; by rewrite Hn|lia| |].
  { unfold spoiled in Ho |- *. rewrite drop_app_le in Ho by (rewrite serialize_header_length; lia). by rewrite <- app_assoc. }
  set (w := nts_wire _ _ _ _) in *. pose proof (exts_size_nonneg (auth_exts p)). pose proof (exts_size_nonneg (auth_enc_exts p)).
  assert (4 <= length w)%nat as Hw by (unfold zlen in Hlen; lia).
  do 4 (rewrite bind_lift, index_set_ok by (rewrite ?length_insert; lia)).
  by rewrite spoiled_eq, Hbad.
Qed.
End Verdicts.

(** ** The test of the cookies *)
Section CookieVerdict.
Context {A : Aead} {L : AeadLaws A} {R : Type} {G : Rng R} {GL : RngLaws G}.

(** The two bytes of the cookie that the test overwrites are in its nonce. *)
Definition spoiled_nonce (nonce : bytes) : bytes := <[6%nat := xff]> (<[5%nat := xff]> nonce).
Definition cookie_master_key : bytes := replicate 32 x07.
Definition test_sealed (nonce : bytes) : bytes :=
  seal cookie_master_key nonce [] (c2s cookie_test_keys ++ s2c cookie_test_keys).

Lemma eat_spoiled id nonce :
  length nonce = 16%nat ->
  eat_cookie (E := io_error) (<[10%nat := xff]> (<[9%nat := xff]> (cookie_bytes id nonce cookie_master_key cookie_test_keys)))
    cookie_master_key =
  Ok (match open cookie_master_key (spoiled_nonce nonce) [] (test_sealed nonce) with None => None | Some buf => unpack buf end).
Proof.
  intros Hn. unfold cookie_bytes. fold (test_sealed nonce).
  rewrite (insert_app_r_alt _ _ 9), be_bytes_length by (rewrite be_bytes_length; lia).
  rewrite (insert_app_r_alt _ _ 10), be_bytes_length by (rewrite be_bytes_length; lia).
  change (9 - 4)%nat with 5%nat. change (10 - 4)%nat with 6%nat.
  rewrite !insert_app_l by (rewrite ?length_insert; lia). fold (spoiled_nonce nonce).
  assert (length (spoiled_nonce nonce) = 16%nat) as Hs by (unfold spoiled_nonce; by rewrite !length_insert).
  assert (length (test_sealed nonce) = 80%nat) as Ht by (unfold test_sealed; by rewrite seal_length).
  rewrite eat_cookie_eq by (unfold zlen; rewrite !length_app, be_bytes_length, Hs, Ht; lia).
  rewrite drop_app_length', take_app_length' by by rewrite ?be_bytes_length.
  by rewrite app_assoc, drop_app_length' by by rewrite length_app, be_bytes_length, Hs.
Qed.

Lemma check_cookie_eq r :
  let nonce := (fill 16 r).1 in
  (check_cookie r).1 =
  match open cookie_master_key (spoiled_nonce nonce) [] (test_sealed nonce) with None => Ok tt | Some _ => Panic Explicit end.
Proof.
  intros nonce. assert (length nonce = 16%nat) as Hn by apply fill_length.
  assert (keys_wf cookie_test_keys) as Hk by done. unfold check_cookie.
  rewrite (M_bind_run _ _ _ _ _ (make_cookie_run _ _ _ r Hk)). fold nonce cookie_master_key. set (id := KeyId_from_be_bytes _).
  pose proof (cookie_bytes_length id nonce cookie_master_key _ Hk Hn) as Hlen.
  rewrite bind_lift, Hlen, assert_eq_refl, bind_lift, get_keyid_cookie, assert_eq_refl by done.
  rewrite bind_lift, eat_cookie_cookie, bind_lift, check_eq_refl by done.
  unfold COOKIE_SIZE, zlen in Hlen. do 2 (rewrite bind_lift, index_set_ok by (rewrite ?length_insert; lia)).
  rewrite bind_lift, eat_spoiled by done. unfold lift. cbn [fst].
  destruct (open _ (spoiled_nonce nonce) _ _) as [buf|] eqn:Ho; [|done].
  assert (length buf = 64%nat) as Hbuf.
  { apply open_length in Ho. unfold test_sealed in Ho. rewrite seal_length in Ho. cbn in Ho. lia. }
  unfold unpack. by rewrite bool_decide_false by (unfold zlen; lia).
Qed.
End CookieVerdict.

(** C38: the unit tests.  The test of the header's parser and the test of the rotation,
    over the mocks of memcached and of the clock, pass.  The test of the packets
    passes whenever the AEAD does not open, under the spoiled header, what was sealed
    under the true one.  The test of the cookies passes exactly when it does not open
    the cookie under the nonce that the test has overwritten in part; so it fails when
    the nonce drawn had these two bytes already, which is so once in 65536 runs. *)
Theorem unit_tests {P : Profile} {A : Aead} (L : AeadLaws A) {H : Hmac} {ME R : Type} {G : Rng R} (GL : RngLaws G)
    (r : R) rotations failures :
  let nonce := (fill 16 r).1 in
  test_ntp_header_parse = Ok tt /\
  test_rotation (ME := ME) rotations failures = Ok tt /\
  (open (replicate 32 x00) nonce (spoiled (packet_ad test_packet))
     (seal (replicate 32 x00) nonce (packet_ad test_packet) (packet_pt test_packet)) = None ->
   (test_nts_parse r).1 = Ok tt) /\
  ((check_cookie r).1 = Ok tt <-> open cookie_master_key (spoiled_nonce nonce) [] (test_sealed nonce) = None) /\
  (nonce !! 5%nat = Some xff -> nonce !! 6%nat = Some xff -> (check_cookie r).1 = Panic Explicit).
Proof.
  intros nonce. split_and!.
  - vm_compute. reflexivity.
  - vm_compute. reflexivity.
  - intros Ho. apply roundtrip_test_passes; [..|exact Ho]; apply (bool_decide_eq_true_1 _); vm_compute; reflexivity.
  - rewrite check_cookie_eq. fold nonce. by destruct (open _ _ _ _).
  - intros H5 H6. rewrite check_cookie_eq. fold nonce. unfold spoiled_nonce.
    rewrite (list_insert_id nonce 5), (list_insert_id nonce 6) by done. unfold test_sealed. by rewrite open_seal.
Qed.

Section Witnesses.
Import Toy.

Lemma unit_tests_witness :
  (test_nts_parse (P := Debug) (A := toy_aead) (G := toy_rng) 1).1 = Ok tt /\
  (check_cookie (A := toy_aead) (G := toy_rng) 1).1 = Ok tt /\
  (check_cookie (A := toy_aead) (G := toy_rng) 255).1 = Panic Explicit.
Proof.
  destruct (unit_tests (P := Debug) toy_aead_laws (H := toy_hmac) (ME := unit) toy_rng_laws 1 0 0) as (_ & _ & Hnts & Hc & _).
  destruct (unit_tests (P := Debug) toy_aead_laws (H := toy_hmac) (ME := unit) toy_rng_laws 255 0 0) as (_ & _ & _ & _ & Hbad).
  split; [apply Hnts; vm_compute; reflexivity|]. split; [apply Hc; vm_compute; reflexivity|].
  apply Hbad; vm_compute; reflexivity.
Defined.
End Witnesses.
