(* ===== verification/ServerClock.v ===== *)
(** * src/ntp/server/server.rs: the server's clock arithmetic

    [ntp_timestamp] turns a [SystemTime] into a 64-bit NTP timestamp and
    [fix_dispersion] ages the root dispersion, both through [f64]. *)

From stdpp Require Import prelude numbers.
From S2P Require Import Prelude Words Float64 Time NtpProtocol.

Open Scope Z_scope.

Definition TWO_POW_32 : f64 := f64_of_Z 4294967296.
Definition TWO_POW_16 : f64 := f64_of_Z 65536.
(** src/ntp/protocol.rs: [15e-6]. *)
Definition PHI : f64 := round_f64 15 1000000.

Section Clock.
Context {P : Profile} {E : Type}.

Definition fix_dispersion (disp : Z) (now taken : SystemTime) : res E Z :=
  let disp_frac := f64_of_Z (Z.land disp 0x0000ffff) in
  let disp_secs := f64_of_Z (Z.shiftr (Z.land disp 0xffff0000) 16) in
  let dispf := fadd disp_secs (fdiv disp_frac TWO_POW_16) in
  match duration_since now taken with
  | Ok secs =>
    let curdispf := fadd dispf (fmul (f64_of_Z (as_secs secs)) PHI) in
    let curdisp_secs := as_u32 (ffloor curdispf) in
    let curdisp_frac := as_u32 (ffloor (fmul curdispf (f64_of_Z 65336))) in
    uadd 32 (wrap 32 (Z.shiftl curdisp_secs 16)) curdisp_frac
  | Err _ => Ok disp
  | Panic p => Panic p
  end.

Definition ntp_timestamp (time : SystemTime) : res E Z :=
  unix_time ← unwrap_res (duration_since time UNIX_EPOCH);
  let unix_offset := from_secs UNIX_OFFSET in
  epoch_time ← duration_add unix_offset unix_time;
  let ts_secs := as_secs epoch_time in
  let ts_nanos := f64_of_Z (subsec_nanos epoch_time) in
  let ts_frac := as_u32 (fround (fdiv (fmul ts_nanos TWO_POW_32) (f64_of_Z 1000000000))) in
  uadd 64 (wrap 64 (Z.shiftl ts_secs 32)) ts_frac.
End Clock.

(** ** Timestamps *)

(** The multiple of 2^-32 s nearest to [n] nanoseconds. *)
Definition nearest_frac (n : Z) : Z := (2 * n * 2 ^ 32 + NANOS) / (2 * NANOS).

Lemma nearest_frac_range n : 0 <= n < NANOS -> 0 <= nearest_frac n < 2 ^ 32.
Proof.
  unfold nearest_frac, NANOS. intros. split; [apply Z.div_pos; lia|].
  apply Z.div_lt_upper_bound; lia.
Qed.

(** No multiple of 2^32 ns lies within 512 of an odd multiple of half of the
    divisor: the two have different powers of two. *)
Lemma half_gap n q :
  2 * (n * 2 ^ 32) <= NANOS * (2 * q + 1) - 512 \/ NANOS * (2 * q + 1) + 512 <= 2 * (n * 2 ^ 32).
Proof.
  unfold NANOS. change (2 ^ 32) with 4294967296.
  replace (2 * (n * 4294967296)) with (512 * (n * 16777216)) by lia.
  replace (1000000000 * (2 * q + 1)) with (512 * (1953125 * (2 * q + 1))) by lia.
  lia.
Qed.

Lemma frac_f64 n :
  0 <= n < NANOS ->
  as_u32 (fround (fdiv (fmul (f64_of_Z n) TWO_POW_32) (f64_of_Z 1000000000))) = nearest_frac n.
Proof.
  intros Hn. pose proof (nearest_frac_range n Hn) as Hr.
  destruct (decide (n = 0)) as [->|Hn0]; [by vm_compute|].
  assert (ratio (fmul (f64_of_Z n) TWO_POW_32) = (n * 2 ^ 32, 1)) as Hmul.
  { unfold fmul, TWO_POW_32. rewrite !f64_of_Z_exact by (unfold NANOS in *; lia).
    change (1 * 1) with 1. apply (round_int_exact _ 32); [lia|lia| |].
    - apply Z.mod_mul. lia.
    - assert (Z.log2 (n * 4294967296) < 64); [|lia]. apply Z.log2_lt_pow2; unfold NANOS in *; lia. }
  unfold fdiv. rewrite Hmul, f64_of_Z_exact by lia. rewrite Z.mul_1_r, Z.mul_1_l.
  destruct (round_close (n * 2 ^ 32) NANOS) as (m & k & Hk & Hm & Hv); [lia|done|unfold NANOS in *; lia|].
  unfold fround. change (round_f64 _ 1000000000) with (round_f64 (n * 2 ^ 32) NANOS).
  destruct (ratio (round_f64 (n * 2 ^ 32) NANOS)) as [a b]. destruct Hv as [Hb Hv].
  replace ((2 * a + b) / (2 * b)) with (nearest_frac n); [unfold as_u32; lia|].
  set (q := nearest_frac n). assert (2 ^ 21 <= 2 ^ k) as HK by (apply Z.pow_le_mono_r; lia).
  assert (NANOS * (2 * q - 1) <= 2 * (n * 2 ^ 32) < NANOS * (2 * q + 1)) as Hq.
  { unfold q, nearest_frac. pose proof (Z.div_mod (2 * n * 2 ^ 32 + NANOS) (2 * NANOS) ltac:(done)).
    pose proof (Z.mod_pos_bound (2 * n * 2 ^ 32 + NANOS) (2 * NANOS) ltac:(done)). lia. }
  pose proof (half_gap n q) as Hg1. pose proof (half_gap n (q - 1)) as Hg2.
  replace (2 * (q - 1) + 1) with (2 * q - 1) in Hg2 by lia.
  assert (NANOS * (2 * q - 1) + 512 <= 2 * (n * 2 ^ 32) <= NANOS * (2 * q + 1) - 512) as [Hlo Hhi] by lia.
  assert (2 ^ k * (2 * q - 1) < 2 * m < 2 ^ k * (2 * q + 1)) as [Hmlo Hmhi].
  { assert (NANOS < 512 * 2 ^ k) by (unfold NANOS; lia). unfold NANOS in *. nia. }
  apply (Z.div_unique_pos _ _ _ (2 * a + b - 2 * b * q)); [|lia]. nia.
Qed.

Lemma epoch_time_parts t :
  0 <= t -> let e := from_secs UNIX_OFFSET + t in
  as_secs e = UNIX_OFFSET + as_secs t /\ subsec_nanos e = subsec_nanos t.
Proof.
  intros. unfold as_secs, subsec_nanos, from_secs, NANOS in *. subst e. split.
  - rewrite Z.add_comm, Z.div_add by done. lia.
  - rewrite Z.add_comm, Z.mod_add by done. done.
Qed.

Lemma ntp_timestamp_eq {P : Profile} {E} t :
  0 <= t -> UNIX_OFFSET + as_secs t < 2 ^ 64 ->
  ntp_timestamp (E := E) t =
  Ok ((UNIX_OFFSET + as_secs t) mod 2 ^ 32 * 2 ^ 32 + nearest_frac (subsec_nanos t)).
Proof.
  intros Ht Hs. destruct (epoch_time_parts t Ht) as [Hes Hen].
  unfold ntp_timestamp, duration_since. rewrite bool_decide_true by done. cbn [unwrap_res]. res_step.
  change (t - UNIX_EPOCH) with (t - 0). rewrite Z.sub_0_r. unfold duration_add.
  rewrite Hes, bool_decide_true by done. res_step. rewrite Hes, Hen.
  pose proof (subsec_nanos_range t) as Hn. rewrite frac_f64 by done.
  pose proof (nearest_frac_range _ Hn). unfold wrap. rewrite Z.shiftl_mul_pow2 by lia.
  change (2 ^ 64) with (2 ^ 32 * 2 ^ 32). rewrite Z.mul_mod_distr_r by done.
  pose proof (Z.mod_pos_bound (UNIX_OFFSET + as_secs t) (2 ^ 32) ltac:(done)).
  unfold uadd. rewrite fit_ok; [done|]. unfold in_width. lia.
Qed.

Lemma nearest_frac_mono n n' : n < n' -> nearest_frac n < nearest_frac n'.
Proof.
  intros. unfold nearest_frac.
  assert ((2 * n * 2 ^ 32 + NANOS + 1 * (2 * NANOS)) / (2 * NANOS) <=
    (2 * n' * 2 ^ 32 + NANOS) / (2 * NANOS)) as Hle by (apply Z.div_le_mono; unfold NANOS; lia).
  rewrite Z.div_add in Hle by done. lia.
Qed.

(** [ntp_timestamp], computed in double precision, is exact: whole seconds
    since 1900 modulo 2^32 in the high half, and in the low half the multiple of
    2^-32 s nearest to the nanoseconds, with no carry into the seconds, although
    the division is rounded before it is rounded again.  It panics before the UNIX
    epoch. *)
Lemma ntp_timestamp_exact {P : Profile} t :
  UNIX_OFFSET + as_secs t < 2 ^ 64 ->
  ntp_timestamp (E := io_error) t =
  if bool_decide (0 <= t)
  then Ok ((UNIX_OFFSET + as_secs t) mod 2 ^ 32 * 2 ^ 32 + nearest_frac (subsec_nanos t))
  else Panic UnwrapFailed.
Proof.
  intros. case_bool_decide; [by apply ntp_timestamp_eq|].
  unfold ntp_timestamp, duration_since. by rewrite bool_decide_false by done.
Qed.

Lemma ntp_timestamp_exact_witness :
  ntp_timestamp (P := Debug) (E := io_error) (1700000000 * NANOS + 999999999) =
  Ok (3908988800 * 2 ^ 32 + 4294967292).
Proof. rewrite (ntp_timestamp_exact (P := Debug)) by (by vm_compute). by vm_compute. Defined.

(** Timestamps order events.  Within one NTP era (2^32 seconds) a later
    [SystemTime] gets a strictly greater timestamp, so that two instants a
    nanosecond apart never share one. *)
Lemma ntp_timestamp_increasing {P : Profile} t t' :
  0 <= t < t' -> (UNIX_OFFSET + as_secs t) / 2 ^ 32 = (UNIX_OFFSET + as_secs t') / 2 ^ 32 ->
  UNIX_OFFSET + as_secs t' < 2 ^ 64 ->
  exists x x', ntp_timestamp (E := io_error) t = Ok x /\ ntp_timestamp (E := io_error) t' = Ok x' /\
    0 <= x < x' /\ x' < 2 ^ 64.
Proof.
  intros Ht Hera Hs.
  assert (as_secs t <= as_secs t') by (unfold as_secs; apply Z.div_le_mono; unfold NANOS; lia).
  rewrite !ntp_timestamp_eq by lia. eexists _, _. split; [done|]. split; [done|].
  pose proof (subsec_nanos_range t) as Hn. pose proof (subsec_nanos_range t') as Hn'.
  pose proof (nearest_frac_range _ Hn). pose proof (nearest_frac_range _ Hn').
  pose proof (secs_nanos t). pose proof (secs_nanos t').
  pose proof (Z.div_mod (UNIX_OFFSET + as_secs t) (2 ^ 32) ltac:(done)).
  pose proof (Z.div_mod (UNIX_OFFSET + as_secs t') (2 ^ 32) ltac:(done)).
  pose proof (Z.mod_pos_bound (UNIX_OFFSET + as_secs t) (2 ^ 32) ltac:(done)).
  pose proof (Z.mod_pos_bound (UNIX_OFFSET + as_secs t') (2 ^ 32) ltac:(done)).
  split; [|lia]. split; [lia|].
  destruct (decide (as_secs t = as_secs t')) as [E|].
  - rewrite E. pose proof (nearest_frac_mono (subsec_nanos t) (subsec_nanos t')). lia.
  - lia.
Qed.

(** ** Dispersion *)

Lemma fadd_exact x y m m' k :
  0 <= k -> 0 <= m + m' < 2 ^ 53 ->
  (let '(a, b) := ratio x in 0 < b /\ a * 2 ^ k = m * b) ->
  (let '(a, b) := ratio y in 0 < b /\ a * 2 ^ k = m' * b) ->
  let '(a, b) := ratio (fadd x y) in 0 < b /\ a * 2 ^ k = (m + m') * b.
Proof.
  intros Hk Hm Hx Hy. unfold fadd. pose proof (Z.pow_pos_nonneg 2 k ltac:(lia) Hk).
  destruct (ratio x) as [a b]. destruct (ratio y) as [c d]. destruct Hx as [? Hx], Hy as [? Hy].
  assert ((a * d + c * b) * 2 ^ k = (m + m') * (b * d)) as E by nia.
  destruct (decide (m + m' = 0)) as [E0|].
  - rewrite E0 in *. apply Z.mul_eq_0_l in E; [|lia]. rewrite E.
    change (ratio (round_f64 0 (b * d))) with (0, 1). cbv beta iota. lia.
  - assert (0 < b * d) by nia. assert (0 < (m + m') * (b * d)) as Hp by nia.
    rewrite <- E in Hp. apply Z.mul_pos_cancel_r in Hp; [|done].
    apply round_exact; try done; lia.
Qed.

Lemma fdiv_exact x c m k :
  0 <= k -> 0 <= m < 2 ^ 53 -> 0 < c -> ratio x = (m, 1) -> c = 2 ^ k ->
  ratio (f64_of_Z c) = (c, 1) ->
  let '(a, b) := ratio (fdiv x (f64_of_Z c)) in 0 < b /\ a * 2 ^ k = m * b.
Proof.
  intros Hk Hm Hc Hx -> Hf. unfold fdiv. rewrite Hx, Hf.
  destruct (decide (m = 0)) as [->|]; [change (ratio _) with (0, 1); cbv beta iota; lia|]. apply round_exact; try lia.
Qed.

Lemma fmul_int_exact x c m k :
  0 <= k -> 0 <= m -> 0 < c -> m * c < 2 ^ 53 -> ratio (f64_of_Z c) = (c, 1) ->
  (let '(a, b) := ratio x in 0 < b /\ a * 2 ^ k = m * b) ->
  let '(a, b) := ratio (fmul x (f64_of_Z c)) in 0 < b /\ a * 2 ^ k = (m * c) * b.
Proof.
  intros Hk Hm Hc Hb Hf Hx. unfold fmul. rewrite Hf. pose proof (Z.pow_pos_nonneg 2 k ltac:(lia) Hk).
  destruct (ratio x) as [a b]. destruct Hx as [? Hx].
  destruct (decide (m = 0)) as [->|].
  - assert (a = 0) as -> by nia. change (ratio _) with (0, 1). cbv beta iota. lia.
  - assert (0 < m * b) as Hp by nia. rewrite <- Hx in Hp. apply Z.mul_pos_cancel_r in Hp; [|done].
    apply round_exact; try done; nia.
Qed.

Lemma ffloor_exact x m k :
  0 <= k -> (let '(a, b) := ratio x in 0 < b /\ a * 2 ^ k = m * b) -> ffloor x = m / 2 ^ k.
Proof.
  intros Hk. unfold ffloor. pose proof (Z.pow_pos_nonneg 2 k ltac:(lia) Hk).
  destruct (ratio x) as [a b]. intros [Hb Hv].
  rewrite <- (Z.div_mul_cancel_r a b (2 ^ k)), Hv by lia.
  rewrite (Z.mul_comm b), Z.div_mul_cancel_r by lia. done.
Qed.

Lemma disp_parts d :
  in_width 32 d -> Z.land d 0x0000ffff = d mod 65536 /\ Z.shiftr (Z.land d 0xffff0000) 16 = d / 65536.
Proof.
  intros Hd. split.
  - change 0x0000ffff with (Z.ones 16). by rewrite Z.land_ones by lia.
  - rewrite Z.shiftr_land. change (Z.shiftr 0xffff0000 16) with (Z.ones 16).
    rewrite Z.land_ones, Z.shiftr_div_pow2 by lia. change (2 ^ 16) with 65536.
    apply Z.mod_small. unfold in_width in Hd. split; [apply Z.div_pos; lia|].
    apply Z.div_lt_upper_bound; lia.
Qed.

Lemma fix_dispersion_eq {P : Profile} {E} d now taken :
  in_width 32 d -> taken <= now < taken + NANOS ->
  fix_dispersion (E := E) d now taken = uadd 32 (d / 65536 * 65536) (d * 65336 / 65536).
Proof.
  intros Hd Ht. pose proof Hd as Hd'. unfold in_width in Hd'.
  destruct (disp_parts d Hd) as [Hf Hs]. unfold fix_dispersion. rewrite Hf, Hs.
  unfold duration_since. rewrite bool_decide_true by lia.
  replace (as_secs (now - taken)) with 0 by (symmetry; apply Z.div_small; lia).
  pose proof (Z.div_mod d 65536 ltac:(done)). pose proof (Z.mod_pos_bound d 65536 ltac:(done)).
  assert (0 <= d / 65536 < 65536) by lia.
  assert (forall n, 0 <= n < 2 ^ 53 -> ratio (f64_of_Z n) = (n, 1)) as Hz by apply f64_of_Z_exact.
  assert (let '(a, b) := ratio (fadd (fadd (f64_of_Z (d / 65536))
      (fdiv (f64_of_Z (d mod 65536)) TWO_POW_16)) (fmul (f64_of_Z 0) PHI)) in
    0 < b /\ a * 2 ^ 16 = d * b) as Hcur.
  { pose proof (fadd_exact (f64_of_Z (d / 65536)) (fdiv (f64_of_Z (d mod 65536)) TWO_POW_16)
      (d / 65536 * 65536) (d mod 65536) 16) as Hdisp.
    replace (d / 65536 * 65536 + d mod 65536) with d in Hdisp by lia.
    pose proof (fadd_exact (fadd (f64_of_Z (d / 65536)) (fdiv (f64_of_Z (d mod 65536)) TWO_POW_16))
      (fmul (f64_of_Z 0) PHI) d 0 16) as Hcur.
    rewrite Z.add_0_r in Hcur. apply Hcur; [lia|lia| |by vm_compute]. apply Hdisp; [lia|lia| |].
    - rewrite Hz by lia. lia.
    - apply fdiv_exact; try done; try lia. apply Hz. lia. }
  rewrite (ffloor_exact _ d 16) by (exact Hcur || lia).
  rewrite (ffloor_exact _ (d * 65336) 16); [|lia|apply fmul_int_exact; try done; try lia].
  change (2 ^ 16) with 65536. unfold as_u32. rewrite Z.shiftl_mul_pow2 by lia.
  change (2 ^ 16) with 65536.
  assert (0 <= d * 65336 / 65536 < 2 ^ 32) by div_lia.
  rewrite !Z.max_r, !Z.min_r, wrap_id by (unfold in_width; lia). done.
Qed.

(** The root dispersion the server announces within a second of its last
    refresh.  The code adds the whole dispersion, scaled by 65336, to its whole
    seconds, so that the result is never the stored dispersion unless that is
    zero: below one second it is too small (and a positive dispersion can become
    zero), from one second on it is about twice as large, and from 2^31 on the sum
    overflows. *)
Lemma fix_dispersion_fresh {P : Profile} d now taken :
  in_width 32 d -> taken <= now < taken + NANOS ->
  fix_dispersion (E := io_error) d now taken = uadd 32 (d / 65536 * 65536) (d * 65336 / 65536) /\
  (fix_dispersion (E := io_error) d now taken = Ok d <-> d = 0) /\
  (overflow_checks = true -> 2 ^ 31 + 2 ^ 24 <= d ->
   fix_dispersion (E := io_error) d now taken = Panic ArithOverflow).
Proof.
  intros Hd Ht. rewrite fix_dispersion_eq by done. pose proof Hd as Hd'. unfold in_width in Hd'.
  split_and!; [done| |].
  - unfold uadd, fit. split.
    + case_bool_decide as Hw; [|destruct overflow_checks; [done|]]; intros H%Ok_inj;
        unfold wrap, in_width in *; div_lia.
    + intros ->. by vm_compute.
  - intros Ho Hbig. unfold uadd, fit. rewrite bool_decide_false by (unfold in_width; div_lia).
    by rewrite Ho.
Qed.

Lemma fix_dispersion_fresh_witness :
  fix_dispersion (P := Release) (E := io_error) 65535 5 3 = Ok 65335 /\
  fix_dispersion (P := Debug) (E := io_error) 0x90000000 5 3 = Panic ArithOverflow.
Proof.
  split.
  - destruct (fix_dispersion_fresh (P := Release) 65535 5 3) as [-> _]; by vm_compute.
  - destruct (fix_dispersion_fresh (P := Debug) 0x90000000 5 3) as (_ & _ & H); [by vm_compute..|].
    by apply H; vm_compute.
Defined.
