(* ===== verification/NtpServer.v ===== *)
(** * src/ntp/server/server.rs: the NTP server

    The handler of one datagram ([response] and what it calls), one round of the
    receive loop, one round of the thread that follows an upstream server, and
    the state the server starts with.  Sockets, the clock, the [config] crate and
    the channels to the measurement threads are the outside: what a round sees of
    them is an argument. *)

From stdpp Require Import prelude list numbers strings pretty gmap.
From Stdlib Require Import Strings.Byte.
From S2P Require Import Prelude Words Crypto Time NtpProtocol Cookie KeyRotator ServerClock.

Open Scope Z_scope.

Definition BUF_SIZE : Z := 1280.

Record ServerState := mkServerState {
  ss_leap : LeapState;
  ss_stratum : Z;
  ss_version : Z;
  ss_poll : Z;
  ss_precision : Z;
  ss_root_delay : Z;
  ss_root_dispersion : Z;
  ss_refid : Z;
  ss_refstamp : Z;
  ss_taken : SystemTime;
}.

Inductive Counter :=
  | QUERY_COUNTER | NTS_COUNTER | KOD_COUNTER | MALFORMED_COOKIE_COUNTER
  | MANGLED_PACKET_COUNTER | MISSING_KEY_COUNTER | UNDECRYPTABLE_COOKIE_COUNTER
  | UPSTREAM_QUERY_COUNTER | UPSTREAM_FAILURE_COUNTER.
#[export] Instance Counter_eq_dec : EqDecision Counter.
Proof. solve_decision. Defined.

(** Control messages of a received datagram; packet information is opaque. *)
Inductive ControlMessage :=
  | ScmTimestamp (tv_sec tv_usec : Z)
  | Ipv4PacketInfo (inf : bytes)
  | Ipv6PacketInfo (inf : bytes)
  | OtherMessage.

(** A datagram, its sender in text form if it has one, its control messages. *)
Record RecvMsg := mkRecv {
  datagram : bytes;
  address : option string;
  cmsgs : list ControlMessage;
}.

Record SendMsg := mkSend { data : bytes; control : list ControlMessage; dest : string }.

(** What one datagram's handling sees of the outside: [tests/experiment.yaml]
    (absent, or present with or without the key [meas_client_ip]), the measured
    durations, the clock, whether the measurement channels are set up, and what
    [sendmsg] says of a message ([None] when it takes it). *)
Record Env := mkEnv {
  experiment : option (option string);
  ntp_elapsed : Z;
  nts_elapsed : Z;
  transmit_time : SystemTime;
  reply_time : SystemTime;
  ntp_channel : bool;
  nts_channel : bool;
  sendmsg : SendMsg -> option io_error;
}.

(** [str::contains]. *)
Fixpoint str_contains (needle hay : string) : bool :=
  String.prefix needle hay ||
  match hay with EmptyString => false | String _ hay => str_contains needle hay end.

Section Server.
Context {P : Profile} {A : Aead} {R : Type} {G : Rng R}.

(** The state the server's threads share: the two locks, the globals, the
    random generator, and what was sent. *)
Record Srv := mkSrv {
  keys : RwLock KeyRotator;
  servstate : RwLock ServerState;
  counters : Counter -> Z;
  client_addr : string;
  ntp_meas : list string;
  nts_meas : list string;
  rng : R;
  sent : list SendMsg;
  upstream_sent : list bytes;
}.

Definition set_counters f s :=
  mkSrv (keys s) (servstate s) (f (counters s)) (client_addr s) (ntp_meas s) (nts_meas s)
    (rng s) (sent s) (upstream_sent s).
Definition set_client_addr a s :=
  mkSrv (keys s) (servstate s) (counters s) a (ntp_meas s) (nts_meas s)
    (rng s) (sent s) (upstream_sent s).
Definition add_ntp_meas m s :=
  mkSrv (keys s) (servstate s) (counters s) (client_addr s) (ntp_meas s ++ [m]) (nts_meas s)
    (rng s) (sent s) (upstream_sent s).
Definition add_nts_meas m s :=
  mkSrv (keys s) (servstate s) (counters s) (client_addr s) (ntp_meas s) (nts_meas s ++ [m])
    (rng s) (sent s) (upstream_sent s).
Definition set_rng r s :=
  mkSrv (keys s) (servstate s) (counters s) (client_addr s) (ntp_meas s) (nts_meas s)
    r (sent s) (upstream_sent s).
Definition add_sent m s :=
  mkSrv (keys s) (servstate s) (counters s) (client_addr s) (ntp_meas s) (nts_meas s)
    (rng s) (sent s ++ [m]) (upstream_sent s).
Definition set_servstate l s :=
  mkSrv (keys s) l (counters s) (client_addr s) (ntp_meas s) (nts_meas s)
    (rng s) (sent s) (upstream_sent s).
Definition add_upstream_sent b s :=
  mkSrv (keys s) (servstate s) (counters s) (client_addr s) (ntp_meas s) (nts_meas s)
    (rng s) (sent s) (upstream_sent s ++ [b]).

Abbreviation MS := (M Srv io_error).

Definition inc (c : Counter) : MS unit :=
  modify (set_counters (fun f c' => if decide (c' = c) then f c' + 1 else f c')).
Definition on_rng {B} (m : M R io_error B) : MS B := fun s =>
  let '(o, r) := m (rng s) in (o, set_rng r s).
Definition read_keys : MS KeyRotator := s ← get_state; lift (read_lock (keys s)).

Definition create_header (query_packet : NtpPacket) (received transmit : SystemTime)
    (servstate : RwLock ServerState) : io_result NtpPacketHeader :=
  servstate ← read_lock servstate;
  receive_timestamp ← ntp_timestamp received;
  transmit_timestamp ← ntp_timestamp transmit;
  root_dispersion ← fix_dispersion (ss_root_dispersion servstate) transmit (ss_taken servstate);
  Ok {|
    leap_indicator := ss_leap servstate;
    version := ss_version servstate;
    mode := Server;
    poll := ss_poll servstate;
    precision := ss_precision servstate;
    stratum := ss_stratum servstate;
    root_delay := ss_root_delay servstate;
    root_dispersion := root_dispersion;
    reference_id := ss_refid servstate;
    reference_timestamp := ss_refstamp servstate;
    origin_timestamp := NtpProtocol.transmit_timestamp (header query_packet);
    receive_timestamp := receive_timestamp;
    transmit_timestamp := transmit_timestamp;
  |}.

Definition kod_header (origin : Z) : NtpPacketHeader := {|
  leap_indicator := LeapUnknown; version := 4; mode := Server; poll := 0; precision := 0;
  stratum := 0; root_delay := 0; root_dispersion := 0; reference_id := 0x4e54534e;
  reference_timestamp := 0; origin_timestamp := origin; receive_timestamp := 0;
  transmit_timestamp := 0;
|}.

Definition kiss_of_death (query_packet : NtpPacket) : MS NtpPacket :=
  _ ← inc KOD_COUNTER;
  let kod_header := kod_header (NtpProtocol.transmit_timestamp (header query_packet)) in
  if has_extension query_packet UniqueIdentifier then
    ext ← lift (unwrap (extract_extension query_packet UniqueIdentifier));
    mret (mkNtp kod_header [ext])
  else mret (mkNtp kod_header []).

Definition send_kiss_of_death (query_packet : NtpPacket) : MS bytes :=
  resp ← kiss_of_death query_packet;
  lift (serialize_ntp_packet resp).

(** A cookie under the latest key. *)
Definition new_cookie (k : NTSKeys) : MS NtpExtension :=
  keymaker ← read_keys;
  '(key_id, curr_key) ← lift (latest_key_value keymaker);
  cookie ← on_rng (make_cookie k curr_key key_id);
  mret (mkExt NTSCookie cookie).

(** [for ext in query.auth_exts]. *)
Fixpoint nts_response_loop (k : NTSKeys) (query_exts : list NtpExtension)
    (resp_packet : NtsPacket) : MS NtsPacket :=
  match query_exts with
  | [] => mret resp_packet
  | ext :: query_exts =>
    match ext_type ext with
    | UniqueIdentifier =>
      nts_response_loop k query_exts
        (mkNts (nts_header resp_packet) (auth_exts resp_packet ++ [ext]) (auth_enc_exts resp_packet))
    | NTSCookiePlaceholder =>
      if bool_decide (COOKIE_SIZE <= zlen (contents ext)) then
        cookie ← new_cookie k;
        nts_response_loop k query_exts
          (mkNts (nts_header resp_packet) (auth_exts resp_packet) (auth_enc_exts resp_packet ++ [cookie]))
      else nts_response_loop k query_exts resp_packet
    | _ => nts_response_loop k query_exts resp_packet
    end
  end.

Definition set_transmit (t : Z) (h : NtpPacketHeader) : NtpPacketHeader :=
  mkHeader (leap_indicator h) (version h) (mode h) (stratum h) (poll h) (precision h)
    (root_delay h) (root_dispersion h) (reference_id h) (reference_timestamp h)
    (origin_timestamp h) (receive_timestamp h) t.

Definition nts_response (env : Env) (query : NtsPacket) (header : NtpPacketHeader) (k : NTSKeys) :
    MS NtsPacket :=
  resp_packet ← nts_response_loop k (auth_exts query) (mkNts header [] []);
  cookie ← new_cookie k;
  t ← lift (ntp_timestamp (reply_time env));
  mret (mkNts (set_transmit t (nts_header resp_packet)) (auth_exts resp_packet)
          (auth_enc_exts resp_packet ++ [cookie])).

Definition process_nts (env : Env) (resp_header : NtpPacketHeader) (k : NTSKeys)
    (query_raw : bytes) : MS bytes :=
  match parse_nts_packet query_raw (c2s k) with
  | Ok packet =>
    resp ← nts_response env packet resp_header k;
    on_rng (serialize_nts_packet resp (s2c k))
  | Err _ =>
    query_packet ← lift (unwrap_res (parse_ntp_packet query_raw));
    send_kiss_of_death query_packet
  | Panic p => lift (Panic p)
  end.

(** The measurement is sent when the sender is the measurement client. *)
Definition measure (meas_client_ip : string) (channel : bool) (elapsed : Z)
    (add : string -> Srv -> Srv) : MS unit :=
  s ← get_state;
  if str_contains meas_client_ip (client_addr s) then
    if channel then modify (add (pretty elapsed)) else lift (Panic UnwrapFailed)
  else mret tt.

Definition response (env : Env) (query : bytes) (r_time t_time : SystemTime) : MS bytes :=
  query_packet ← lift (parse_ntp_packet query);
  s ← get_state;
  resp_header ← lift (create_header query_packet r_time t_time (servstate s));
  _ ← inc QUERY_COUNTER;
  if bool_decide (mode (header query_packet) ≠ Client) then
    lift (Err (IoError InvalidData "not client mode"))
  else
    experiment_config ← lift (unwrap (experiment env));
    meas_client_ip ← lift (unwrap experiment_config);
    _ ← measure meas_client_ip (ntp_channel env) (ntp_elapsed env) add_ntp_meas;
    if is_nts_packet query_packet then
      _ ← inc NTS_COUNTER;
      cookie ← lift (unwrap (extract_extension query_packet NTSCookie));
      match get_keyid (contents cookie) with
      | Some keyid =>
        point ← read_keys;
        match get point keyid with
        | Some key =>
          nts_keys ← lift (eat_cookie (contents cookie) key);
          match nts_keys with
          | Some nts_dir_keys =>
            res ← process_nts env resp_header nts_dir_keys query;
            _ ← measure meas_client_ip (nts_channel env) (nts_elapsed env) add_nts_meas;
            mret res
          | None =>
            _ ← inc UNDECRYPTABLE_COOKIE_COUNTER;
            send_kiss_of_death query_packet
          end
        | None =>
          _ ← inc MISSING_KEY_COUNTER;
          send_kiss_of_death query_packet
        end
      | None =>
        _ ← inc MALFORMED_COOKIE_COUNTER;
        send_kiss_of_death query_packet
      end
    else mret (serialize_header resp_header).

(** ** The receive loop *)

(** The timestamp and the packet information among the control messages. *)
Fixpoint scan_cmsgs (ipv4 : bool) (ms : list ControlMessage) (r_time : Z * Z)
    (msgs : list ControlMessage) : (Z * Z) * list ControlMessage :=
  match ms with
  | [] => (r_time, msgs)
  | msg :: ms =>
    match msg with
    | ScmTimestamp sec usec => scan_cmsgs ipv4 ms (sec, usec) msgs
    | Ipv4PacketInfo _ => scan_cmsgs ipv4 ms r_time (if ipv4 then msgs ++ [msg] else msgs)
    | Ipv6PacketInfo _ => scan_cmsgs ipv4 ms r_time (if ipv4 then msgs else msgs ++ [msg])
    | OtherMessage => scan_cmsgs ipv4 ms r_time msgs
    end
  end.

(** [SystemTime::UNIX_EPOCH + Duration::new(tv_sec as u64, tv_usec as u32 * 1000)]. *)
Definition receive_system (tv : Z * Z) : io_result SystemTime :=
  nanos ← umul 32 (wrap 32 tv.2) 1000;
  let d := wrap 64 tv.1 * NANOS + nanos in
  if bool_decide (as_secs d < 2 ^ 64) then unwrap (systime_checked_add UNIX_EPOCH d)
  else Panic ArithOverflow.

(** One round of [run_server]; [None] is a failed [recvmsg].  A failed [sendmsg] is
    only logged. *)
Definition run_server_round (ipv4 : bool) (env : Env) (r : option RecvMsg) : MS unit :=
  match r with
  | None => mret tt
  | Some r =>
    match address r with
    | None => mret tt
    | Some src =>
      _ ← modify (set_client_addr src);
      let '(r_time, msgs) := scan_cmsgs ipv4 (cmsgs r) (0, 0) [] in
      r_system ← lift (receive_system r_time);
      let t_system := transmit_time env in
      on_result (response env (take (Z.to_nat BUF_SIZE) (datagram r)) r_system t_system)
        (fun data =>
           match sendmsg env (mkSend data msgs src) with
           | None => modify (add_sent (mkSend data msgs src))
           | Some _ => mret tt
           end)
        (fun _ => inc MANGLED_PACKET_COUNTER)
    end
  end.

Fixpoint run_server (ipv4 : bool) (events : list (Env * option RecvMsg)) : MS unit :=
  match events with
  | [] => mret tt
  | (env, r) :: events => _ ← run_server_round ipv4 env r; run_server ipv4 events
  end.

(** ** The upstream server *)
Definition upstream_query : NtpPacket := mkNtp {|
  leap_indicator := LeapUnknown; version := 4; mode := Client; poll := 0; precision := 0;
  stratum := 0; root_delay := 0; root_dispersion := 0; reference_id := 0;
  reference_timestamp := 0; origin_timestamp := 0; receive_timestamp := 0;
  transmit_timestamp := 0;
|} [].

(** What one round sees of the socket: whether [connect] and [send] succeed,
    and the datagram received, if any, before the timeout; and the clock. *)
Record Upstream := mkUpstream {
  up_connect : bool;
  up_send : bool;
  up_recv : option bytes;
  up_now : SystemTime;
}.

Definition taken_from (h : NtpPacketHeader) (now : SystemTime) : ServerState :=
  mkServerState (leap_indicator h) (stratum h) 4 (poll h) (precision h) (root_delay h)
    (root_dispersion h) (reference_id h) (reference_timestamp h) now.

Definition refresh_servstate_round (u : Upstream) : MS unit :=
  _ ← lift (if up_connect u then Ok tt else Panic UnwrapFailed);
  query ← lift (serialize_ntp_packet upstream_query);
  _ ← lift (if up_send u then Ok tt else Panic UnwrapFailed);
  _ ← modify (add_upstream_sent query);
  _ ← inc UPSTREAM_QUERY_COUNTER;
  match up_recv u with
  | Some d =>
    match parse_ntp_packet (take 2048 d) with
    | Ok packet =>
      s ← get_state;
      _ ← lift (read_lock (servstate s));
      modify (set_servstate (mkLock false (taken_from (header packet) (up_now u))))
    | Err _ => inc UPSTREAM_FAILURE_COUNTER
    | Panic p => lift (Panic p)
    end
  | None => inc UPSTREAM_FAILURE_COUNTER
  end.

(** ** Start *)
Definition initial_servstate (now : SystemTime) (upstream_addr : option string) : ServerState :=
  let st := mkServerState LeapUnknown 16 VERSION 7 (-18) 10 10 0 0 now in
  match upstream_addr with
  | Some _ => st
  | None =>
    mkServerState NoLeap 1 (ss_version st) (ss_poll st) (ss_precision st) (ss_root_delay st)
      (ss_root_dispersion st) (ss_refid st) (ss_refstamp st) (ss_taken st)
  end.
End Server.
Arguments Srv : clear implicits.
