(* ===== verification/ServerProgs.v ===== *)
(** * The NTP server's handlers, one access at a time

    [NtpServer] runs the handling of a datagram in one go.  Here the same handlers of
    [ntp/server/server.rs] are programs whose calls are the single accesses to what
    the server's threads share: the two locks, the counters, the static
    [CLIENT_ADDR], the channels, the socket.  The random generator is the thread's
    own.  [program_of] relates a program to the code of [NtpServer]: run alone it has
    the same outcome and effect. *)

From stdpp Require Import prelude list numbers strings pretty.
From Stdlib Require Import Strings.Byte.
From S2P Require Import Prelude Words Threads Crypto Time NtpProtocol Cookie KeyRotator ServerClock NtpServer.

Open Scope Z_scope.

(** ** Accesses *)
Inductive Access :=
  | AcquireKeys | ReleaseKeys
  | ReadState
  | Inc (c : Counter)
  | SetAddr (a : string) | ReadAddr
  | SendNtp (m : string) | SendNts (m : string)
  | Sendmsg (m : SendMsg).

Definition Answer (o : Access) : Type :=
  match o with
  | AcquireKeys => io_result KeyRotator
  | ReadState => RwLock ServerState
  | ReadAddr => string
  | _ => unit
  end.

Section Programs.
Context {P : Profile} {A : Aead} {R : Type} {G : Rng R}.

(** A thread's code: it carries its own generator. *)
Abbreviation T := (Code Answer R io_error).

(** [let guard = cookie_keys.read().unwrap(); ...]: the guard is dropped when its
    scope ends, whatever the outcome. *)
Definition with_guard {X} (f : KeyRotator -> T X) : T X := fun r =>
  Call AcquireKeys (fun a : io_result KeyRotator =>
    match a with
    | Ok keys => pbind (f keys r) (fun y => Call ReleaseKeys (fun _ => Done y))
    | Err e => Done (Err e, r)
    | Panic p => Done (Panic p, r)
    end).

(** ** The handlers *)
Definition inc_t (c : Counter) : T unit := access (Inc c).

Definition kiss_of_death_t (query_packet : NtpPacket) : T NtpPacket :=
  _ ← inc_t KOD_COUNTER;
  let kod_header := kod_header (NtpProtocol.transmit_timestamp (header query_packet)) in
  if has_extension query_packet UniqueIdentifier then
    ext ← lift_t (unwrap (extract_extension query_packet UniqueIdentifier));
    mret (mkNtp kod_header [ext])
  else mret (mkNtp kod_header []).

Definition send_kiss_of_death_t (query_packet : NtpPacket) : T bytes :=
  resp ← kiss_of_death_t query_packet;
  lift_t (serialize_ntp_packet resp).

Definition make_cookie_t (k : NTSKeys) (keymaker : KeyRotator) : T NtpExtension :=
  '(key_id, curr_key) ← lift_t (latest_key_value keymaker);
  cookie ← on_rng_t (make_cookie k curr_key key_id);
  mret (mkExt NTSCookie cookie).

Fixpoint nts_response_loop_t (k : NTSKeys) (query_exts : list NtpExtension)
    (resp_packet : NtsPacket) : T NtsPacket :=
  match query_exts with
  | [] => mret resp_packet
  | ext :: query_exts =>
    match ext_type ext with
    | UniqueIdentifier =>
      nts_response_loop_t k query_exts
        (mkNts (nts_header resp_packet) (auth_exts resp_packet ++ [ext]) (auth_enc_exts resp_packet))
    | NTSCookiePlaceholder =>
      if bool_decide (COOKIE_SIZE <= zlen (contents ext)) then
        cookie ← with_guard (make_cookie_t k);
        nts_response_loop_t k query_exts
          (mkNts (nts_header resp_packet) (auth_exts resp_packet) (auth_enc_exts resp_packet ++ [cookie]))
      else nts_response_loop_t k query_exts resp_packet
    | _ => nts_response_loop_t k query_exts resp_packet
    end
  end.

(** The last guard lives to the end of the function. *)
Definition nts_response_t (env : Env) (query : NtsPacket) (header : NtpPacketHeader) (k : NTSKeys) :
    T NtsPacket :=
  resp_packet ← nts_response_loop_t k (auth_exts query) (mkNts header [] []);
  with_guard (fun keymaker =>
    cookie ← make_cookie_t k keymaker;
    t ← lift_t (ntp_timestamp (reply_time env));
    mret (mkNts (set_transmit t (nts_header resp_packet)) (auth_exts resp_packet)
            (auth_enc_exts resp_packet ++ [cookie]))).

Definition process_nts_t (env : Env) (resp_header : NtpPacketHeader) (k : NTSKeys)
    (query_raw : bytes) : T bytes :=
  match parse_nts_packet query_raw (c2s k) with
  | Ok packet =>
    resp ← nts_response_t env packet resp_header k;
    on_rng_t (serialize_nts_packet resp (s2c k))
  | Err _ =>
    query_packet ← lift_t (unwrap_res (parse_ntp_packet query_raw));
    send_kiss_of_death_t query_packet
  | Panic p => lift_t (Panic p)
  end.

(** [CLIENT_ADDR] is read where the measurement is taken. *)
Definition measure_t (meas_client_ip : string) (channel : bool) (elapsed : Z)
    (send : string -> T unit) : T unit :=
  client_addr ← access ReadAddr;
  if str_contains meas_client_ip client_addr then
    if channel then send (pretty elapsed) else lift_t (Panic UnwrapFailed)
  else mret tt.

Definition response_t (env : Env) (query : bytes) (r_time t_time : SystemTime) : T bytes :=
  query_packet ← lift_t (parse_ntp_packet query);
  servstate ← access ReadState;
  resp_header ← lift_t (create_header query_packet r_time t_time servstate);
  _ ← inc_t QUERY_COUNTER;
  if bool_decide (mode (header query_packet) ≠ Client) then
    lift_t (Err (IoError InvalidData "not client mode"))
  else
    experiment_config ← lift_t (unwrap (experiment env));
    meas_client_ip ← lift_t (unwrap experiment_config);
    _ ← measure_t meas_client_ip (ntp_channel env) (ntp_elapsed env) (fun m => access (SendNtp m));
    if is_nts_packet query_packet then
      _ ← inc_t NTS_COUNTER;
      cookie ← lift_t (unwrap (extract_extension query_packet NTSCookie));
      match get_keyid (contents cookie) with
      | Some keyid =>
        with_guard (fun point =>
          match get point keyid with
          | Some key =>
            nts_keys ← lift_t (eat_cookie (contents cookie) key);
            match nts_keys with
            | Some nts_dir_keys =>
              res ← process_nts_t env resp_header nts_dir_keys query;
              _ ← measure_t meas_client_ip (nts_channel env) (nts_elapsed env) (fun m => access (SendNts m));
              mret res
            | None =>
              _ ← inc_t UNDECRYPTABLE_COOKIE_COUNTER;
              send_kiss_of_death_t query_packet
            end
          | None =>
            _ ← inc_t MISSING_KEY_COUNTER;
            send_kiss_of_death_t query_packet
          end)
      | None =>
        _ ← inc_t MALFORMED_COOKIE_COUNTER;
        send_kiss_of_death_t query_packet
      end
    else mret (serialize_header resp_header).

Definition run_server_round_t (ipv4 : bool) (env : Env) (r : option RecvMsg) : T unit :=
  match r with
  | None => mret tt
  | Some r =>
    match address r with
    | None => mret tt
    | Some src =>
      _ ← access (SetAddr src);
      let '(r_time, msgs) := scan_cmsgs ipv4 (cmsgs r) (0, 0) [] in
      r_system ← lift_t (receive_system r_time);
      let t_system := transmit_time env in
      on_result_t (response_t env (take (Z.to_nat BUF_SIZE) (datagram r)) r_system t_system)
        (fun data =>
           match sendmsg env (mkSend data msgs src) with
           | None => access (Sendmsg (mkSend data msgs src))
           | Some _ => mret tt
           end)
        (fun _ => inc_t MANGLED_PACKET_COUNTER)
    end
  end.

Fixpoint run_server_t (ipv4 : bool) (events : list (Env * option RecvMsg)) : T unit :=
  match events with
  | [] => mret tt
  | (env, r) :: events => _ ← run_server_round_t ipv4 env r; run_server_t ipv4 events
  end.

(** ** What an access does to the state of [NtpServer] *)
Definition act (o : Access) (s : Srv R) : Answer o * Srv R :=
  match o return Answer o * Srv R with
  | AcquireKeys => (read_lock (keys s), s)
  | ReleaseKeys => (tt, s)
  | ReadState => (servstate s, s)
  | Inc c => (tt, set_counters (fun f c' => if decide (c' = c) then f c' + 1 else f c') s)
  | SetAddr a => (tt, set_client_addr a s)
  | ReadAddr => (client_addr s, s)
  | SendNtp m => (tt, add_ntp_meas m s)
  | SendNts m => (tt, add_nts_meas m s)
  | Sendmsg m => (tt, add_sent m s)
  end.

(** [program_of t m]: alone, with the generator of the state, [t] does what [m] does. *)
Abbreviation program_of := (Threads.program_of (h := act) (own := rng) (set_own := set_rng)).

Lemma program_rng {X} (m : M R io_error X) : program_of (on_rng_t m) (on_rng m).
Proof. intros s r0. unfold on_rng, on_rng_t. by destruct (m (rng s)). Qed.
Lemma program_inc c : program_of (inc_t c) (inc c).
Proof. done. Qed.
Lemma program_guard {X} (f : KeyRotator -> T X) (k : KeyRotator -> M (Srv R) io_error X) :
  (forall x, program_of (f x) (k x)) -> program_of (with_guard f) (x ← read_keys; k x).
Proof.
  intros Hf s r0. unfold read_keys. rewrite M_bind_eq, bind_get_state. cbn.
  destruct (read_lock (keys s)) as [x|e|p]; cbn; [|done..]. specialize (Hf x s r0).
  rewrite exec_bind. destruct (k x s) as [o s']. by rewrite Hf.
Qed.

Lemma program_read_state {X} (f : RwLock ServerState -> T X) (k : RwLock ServerState -> M (Srv R) io_error X) :
  (forall v, program_of (f v) (k v)) -> program_of (access ReadState ≫= f) (s ← get_state; k (servstate s)).
Proof.
  intros Hf. apply (program_ext _ (v ← (s ← get_state; mret (servstate s)); k v)); [done|].
  apply program_bind; [done|apply Hf].
Qed.

Create HintDb srv_program.
#[local] Hint Resolve program_ret program_lift program_rng program_inc : srv_program.
#[local] Hint Extern 2 (program_of (_ ≫= _) (_ ≫= _)) => apply program_bind : srv_program.
#[local] Hint Extern 3 (program_of (match ?x with _ => _ end) _) => destruct x : srv_program.
#[local] Hint Extern 1 (forall _, program_of _ _) => intros : srv_program.

Lemma program_kod q : program_of (send_kiss_of_death_t q) (send_kiss_of_death q).
Proof. unfold send_kiss_of_death_t, send_kiss_of_death, kiss_of_death_t, kiss_of_death. auto 10 with srv_program. Qed.

(** The part of [new_cookie] after the read. *)
Definition mint (k : NTSKeys) (keymaker : KeyRotator) : M (Srv R) io_error NtpExtension :=
  '(key_id, curr_key) ← lift (latest_key_value keymaker);
  cookie ← on_rng (make_cookie k curr_key key_id);
  mret (mkExt NTSCookie cookie).
Lemma program_mint k keymaker : program_of (make_cookie_t k keymaker) (mint k keymaker).
Proof. unfold make_cookie_t, mint. auto 10 with srv_program. Qed.
Lemma program_new_cookie k : program_of (with_guard (make_cookie_t k)) (new_cookie k).
Proof. apply (program_guard _ (mint k)). intros x. apply program_mint. Qed.

Lemma program_loop k exts resp : program_of (nts_response_loop_t k exts resp) (nts_response_loop k exts resp).
Proof.
  revert resp. induction exts as [|ext exts IH]; intros resp; [apply program_ret|].
  cbn [nts_response_loop_t nts_response_loop]. destruct (ext_type ext); try apply IH.
  case_bool_decide; [|apply IH]. apply program_bind; [apply program_new_cookie|intros; apply IH].
Qed.

Lemma program_nts_response env q h k : program_of (nts_response_t env q h k) (nts_response env q h k).
Proof.
  unfold nts_response_t, nts_response. apply program_bind; [apply program_loop|intros resp].
  set (rest cookie := t ← lift (ntp_timestamp (reply_time env)); mret (mkNts (set_transmit t (nts_header resp))
    (auth_exts resp) (auth_enc_exts resp ++ [cookie])) : M (Srv R) io_error NtsPacket).
  apply (program_ext _ (keymaker ← read_keys; cookie ← mint k keymaker; rest cookie)).
  { intros s. change (new_cookie k) with (keymaker ← read_keys; mint k keymaker).
    rewrite !(M_bind_eq _ _ s). by destruct (read_keys s) as [[] ?]. }
  apply program_guard. intros keymaker. apply program_bind; [apply program_mint|intros cookie].
  apply program_bind; [apply program_lift|intros t; apply program_ret].
Qed.

Lemma program_process_nts env h k q : program_of (process_nts_t env h k q) (process_nts env h k q).
Proof.
  unfold process_nts_t, process_nts. destruct (parse_nts_packet q (c2s k)) as [packet| |]; [| |apply program_lift].
  - apply program_bind; [apply program_nts_response|intros; apply program_rng].
  - apply program_bind; [apply program_lift|intros; apply program_kod].
Qed.

Lemma program_measure ip channel elapsed send add :
  (forall m, program_of (send m) (modify (add m))) ->
  program_of (measure_t ip channel elapsed send) (measure ip channel elapsed add).
Proof.
  intros Hs. apply (program_ext _ (a ← (s ← get_state; mret (client_addr s));
    if str_contains ip a then if channel then modify (add (pretty elapsed)) else lift (Panic UnwrapFailed) else mret tt)).
  { done. }
  apply program_bind; [done|intros a]. destruct (str_contains ip a); [|apply program_ret].
  destruct channel; [apply Hs|apply program_lift].
Qed.

Lemma program_response env q r_time t_time :
  program_of (response_t env q r_time t_time) (response env q r_time t_time).
Proof.
  unfold response_t, response. apply program_bind; [apply program_lift|intros packet].
  refine (program_read_state _ (fun v => resp_header ← lift (create_header packet r_time t_time v); _) _). intros v.
  apply program_bind; [apply program_lift|intros h]. apply program_bind; [apply program_inc|intros _].
  case_bool_decide; [apply program_lift|]. apply program_bind; [apply program_lift|intros cfg].
  apply program_bind; [apply program_lift|intros ip].
  apply program_bind; [by apply program_measure|intros _].
  destruct (is_nts_packet packet); [|apply program_ret].
  apply program_bind; [apply program_inc|intros _]. apply program_bind; [apply program_lift|intros cookie].
  destruct (get_keyid (contents cookie)) as [keyid|]; [|auto using program_bind, program_inc, program_kod].
  apply program_guard. intros point. destruct (get point keyid) as [key|]; [|auto using program_bind, program_inc, program_kod].
  apply program_bind; [apply program_lift|intros [nk|]]; [|auto using program_bind, program_inc, program_kod].
  apply program_bind; [apply program_process_nts|intros res].
  apply program_bind; [by apply program_measure|intros _; apply program_ret].
Qed.

Lemma program_round ipv4 env r : program_of (run_server_round_t ipv4 env r) (run_server_round ipv4 env r).
Proof.
  unfold run_server_round_t, run_server_round. destruct r as [r|]; [|apply program_ret].
  destruct (address r) as [src|]; [|apply program_ret]. apply program_bind; [done|intros _].
  destruct (scan_cmsgs _ _ _ _) as [rt msgs]. apply program_bind; [apply program_lift|intros sys].
  apply program_on_result; [apply program_response| |intros _; apply program_inc].
  intros data. destruct (sendmsg _ _); [apply program_ret|done].
Qed.
End Programs.
