(* ===== verification/ServerReplies.v ===== *)
(** * What the NTP server replies

    The behaviour of [response] on every branch, proved with a small program
    logic for the server's state: [runs m s l Q] says that [m] started in [s]
    returns a value that satisfies [Q], increments exactly the counters [l], and
    otherwise leaves the shared state as it was. *)

From stdpp Require Import prelude list numbers strings pretty gmap.
From Stdlib Require Import Strings.Byte.
From S2P Require Import Prelude Words Crypto Time NtpProtocol NtpExtensions NtsPackets Cookie.
From S2P Require Import KeyRotator ServerClock NtpServer.

Open Scope Z_scope.

(** ** Counting *)
Definition times (c : Counter) (l : list Counter) : Z := zlen (filter (fun c' => c' = c) l).

Lemma times_app c l l' : times c (l ++ l') = times c l + times c l'.
Proof. unfold times. by rewrite filter_app, zlen_app. Qed.

Section Logic.
Context {R : Type}.
Implicit Types (s : Srv R).

Definition steps (l : list Counter) s s' : Prop :=
  keys s' = keys s /\ servstate s' = servstate s /\ client_addr s' = client_addr s /\
  sent s' = sent s /\ upstream_sent s' = upstream_sent s /\
  forall c, counters s' c = counters s c + times c l.

Lemma steps_refl s : steps [] s s.
Proof. split_and!; try done. intros c. change (times c []) with 0. lia. Qed.

Lemma steps_trans l l' s1 s2 s3 : steps l s1 s2 -> steps l' s2 s3 -> steps (l ++ l') s1 s3.
Proof.
  unfold steps. intros (-> & -> & -> & -> & -> & H1) (-> & -> & -> & -> & -> & H2).
  split_and!; try done. intros c. rewrite H2, H1, times_app. lia.
Qed.

Definition runs {B} (m : M (Srv R) io_error B) s (l : list Counter) (Q : B -> Prop) : Prop :=
  exists b s', m s = (Ok b, s') /\ steps l s s' /\ Q b.

Lemma runs_bind {B C} (m : M (Srv R) io_error B) (k : B -> M (Srv R) io_error C) s l l' Q Q' :
  runs m s l Q -> (forall b s1, steps l s s1 -> Q b -> runs (k b) s1 l' Q') ->
  runs (m ≫= k) s (l ++ l') Q'.
Proof.
  intros (b & s1 & Hm & Hs & Hq) Hk. destruct (Hk b s1 Hs Hq) as (c & s2 & Hc & Hs2 & Hq2).
  exists c, s2. split_and!; [by rewrite (M_bind_run _ _ _ _ _ Hm)|by eapply steps_trans|done].
Qed.

Lemma runs_weaken {B} (m : M (Srv R) io_error B) s l Q Q' :
  runs m s l Q -> (forall b, Q b -> Q' b) -> runs m s l Q'.
Proof. intros (b & s' & ? & ? & ?) HQ. exists b, s'. auto. Qed.

Lemma runs_lift {B} (r : io_result B) s b (Q : B -> Prop) : r = Ok b -> Q b -> runs (lift r) s [] Q.
Proof. intros -> HQ. exists b, s. split_and!; [done|apply steps_refl|done]. Qed.

Lemma runs_ret {B} s (b : B) (Q : B -> Prop) : Q b -> runs (mret b) s [] Q.
Proof. intros HQ. exists b, s. split_and!; [done|apply steps_refl|done]. Qed.

Lemma runs_get {B} (k : Srv R -> M (Srv R) io_error B) s l Q :
  runs (k s) s l Q -> runs (get_state ≫= k) s l Q.
Proof. done. Qed.

Lemma runs_inc c s : runs (inc c) s [c] (fun _ => True).
Proof.
  eexists _, _. split_and!; [done| |done]. split_and!; try done. intros c'. cbn.
  unfold times. rewrite filter_cons, filter_nil. repeat case_decide; subst; try done; zl.
Qed.

Lemma runs_on_rng {B} (m : M R io_error B) s b r (Q : B -> Prop) :
  m (rng s) = (Ok b, r) -> Q b -> runs (on_rng m) s [] Q.
Proof.
  intros Hm HQ. unfold on_rng. exists b, (set_rng r s). rewrite Hm. split_and!; [done| |done].
  split_and!; try done. intros c. change (times c []) with 0. cbn. lia.
Qed.

Lemma runs_read_keys s : poisoned (keys s) = false -> runs read_keys s [] (eq (guarded (keys s))).
Proof.
  intros Hp. unfold read_keys. apply runs_get, (runs_lift _ _ (guarded (keys s))); [|done].
  unfold read_lock. by rewrite Hp.
Qed.

Lemma runs_measure ip n add s :
  (forall m s, steps [] s (add m s)) -> runs (measure ip true n add) s [] (fun _ => True).
Proof.
  intros Hadd. unfold measure. apply runs_get. case_match; [|by apply runs_ret].
  eexists _, _. split_and!; [done|apply Hadd|done].
Qed.
End Logic.

Lemma steps_add_meas {R} m (s : Srv R) : steps [] s (add_ntp_meas m s) /\ steps [] s (add_nts_meas m s).
Proof.
  split; split_and!; try done; intros c; change (times c []) with 0; cbn; lia.
Qed.

(** ** Cookies in replies *)
Definition uids (l : list NtpExtension) : list NtpExtension :=
  filter (fun e => ext_type e = UniqueIdentifier) l.
(** The placeholders large enough to be exchanged for a cookie. *)
Definition large_placeholder (e : NtpExtension) : Prop :=
  ext_type e = NTSCookiePlaceholder /\ COOKIE_SIZE <= zlen (contents e).
#[export] Instance large_placeholder_dec e : Decision (large_placeholder e).
Proof. unfold large_placeholder. apply _. Defined.
Definition placeholders (l : list NtpExtension) : Z := zlen (filter large_placeholder l).

Section Replies.
Context {P : Profile} {A : Aead} {R : Type} {G : Rng R} {L : AeadLaws A} {GL : RngLaws G}.
Implicit Types (s : Srv R).

(** A cookie extension that a server with these keys turns back into [k]. *)
Definition good_cookie (kr : KeyRotator) (k : NTSKeys) (e : NtpExtension) : Prop :=
  ext_type e = NTSCookie /\ usable_cookie kr k (contents e).

Lemma new_cookie_runs k s :
  keys_wf k -> keys_ready (keys s) ->
  runs (new_cookie k) s [] (good_cookie (guarded (keys s)) k).
Proof.
  intros Hk (Hp & Hid & [key Hkey]). unfold new_cookie.
  eapply (runs_bind _ _ _ [] []); [by apply runs_read_keys|]. intros kr s1 Hs <-.
  eapply (runs_bind _ _ _ [] []).
  { eapply (runs_lift _ _ _ (eq (latest_key_id (guarded (keys s)), key))); [|done].
    by apply latest_key_value_eq. }
  intros [id v] s2 Hs2 [= <- <-].
  destruct (make_cookie_usable (E := io_error) (guarded (keys s)) k key (rng s2)) as (c & r' & Hc & Hgood);
    try done.
  eapply (runs_bind _ _ _ [] []); [by apply (runs_on_rng _ _ _ _ (eq c) Hc)|].
  intros ? s3 _ <-. by apply runs_ret.
Qed.

Lemma steps_keys l s s' : steps l s s' -> keys s' = keys s.
Proof. by intros [? _]. Qed.

Lemma nts_response_loop_runs k qs p s :
  keys_wf k -> keys_ready (keys s) ->
  runs (nts_response_loop k qs p) s [] (fun p' =>
    nts_header p' = nts_header p /\ auth_exts p' = auth_exts p ++ uids qs /\
    exists cs, auth_enc_exts p' = auth_enc_exts p ++ cs /\ zlen cs = placeholders qs /\
      Forall (good_cookie (guarded (keys s)) k) cs).
Proof.
  intros Hk. revert p s. induction qs as [|e qs IH]; intros p s Hs.
  - apply runs_ret. split_and!; [done|by rewrite app_nil_r|]. exists [].
    rewrite app_nil_r. by split_and!.
  - cbn [nts_response_loop]. unfold uids, placeholders in *. rewrite !filter_cons.
    destruct (ext_type e) eqn:Ht;
      try (rewrite (decide_False (P := large_placeholder e)) by (intros [? _]; congruence));
      try (rewrite (decide_False (P := _ = UniqueIdentifier)) by done).
    + rewrite decide_True by done.
      eapply runs_weaken; [by apply IH|]. cbn. intros p' (-> & -> & ?). by rewrite <- app_assoc.
    + eapply runs_weaken; [by apply IH|]. done.
    + case_bool_decide as Hsz.
      * rewrite decide_True by done. eapply (runs_bind _ _ _ [] []); [by apply new_cookie_runs|].
        intros c s1 Hs1 Hc. rewrite <- (steps_keys _ _ _ Hs1) in *.
        eapply runs_weaken; [by apply IH|]. cbn. intros p' (-> & -> & cs & -> & Hn & Hall).
        split_and!; try done. exists (c :: cs). rewrite <- app_assoc, !zlen_cons. cbn.
        split_and!; [done|lia|by constructor].
      * rewrite decide_False by (unfold large_placeholder; naive_solver). by apply IH.
    + by apply IH.
    + by apply IH.
Qed.

(** An instant the server can turn into a timestamp. *)
Definition clock_ok (t : SystemTime) : Prop := 0 <= t /\ UNIX_OFFSET + as_secs t < 2 ^ 64.
Definition stamp (t : SystemTime) : Z :=
  (UNIX_OFFSET + as_secs t) mod 2 ^ 32 * 2 ^ 32 + nearest_frac (subsec_nanos t).

Lemma ntp_timestamp_ok t : clock_ok t -> ntp_timestamp (E := io_error) t = Ok (stamp t).
Proof. intros []. by apply ntp_timestamp_eq. Qed.

Lemma stamp_width t : in_width 64 (stamp t).
Proof.
  unfold stamp. pose proof (nearest_frac_range _ (subsec_nanos_range t)).
  pose proof (Z.mod_pos_bound (UNIX_OFFSET + as_secs t) (2 ^ 32) ltac:(done)).
  unfold in_width. lia.
Qed.

Lemma nts_response_runs env p h k s :
  keys_wf k -> keys_ready (keys s) -> clock_ok (reply_time env) ->
  runs (nts_response env p h k) s [] (fun resp => exists cs,
    resp = mkNts (set_transmit (stamp (reply_time env)) h) (uids (auth_exts p)) cs /\
    zlen cs = 1 + placeholders (auth_exts p) /\ Forall (good_cookie (guarded (keys s)) k) cs).
Proof.
  intros Hk Hs Hc. unfold nts_response.
  eapply (runs_bind _ _ _ [] []); [by apply nts_response_loop_runs|]. cbn.
  intros p' s1 Hs1 (Hh & Ha & cs & He & Hn & Hall). rewrite <- (steps_keys _ _ _ Hs1) in *.
  eapply (runs_bind _ _ _ [] []); [by apply new_cookie_runs|]. intros c s2 Hs2 Hgood.
  eapply (runs_bind _ _ _ [] []).
  { eapply (runs_lift _ _ _ (eq (stamp (reply_time env)))); [by apply ntp_timestamp_ok|done]. }
  intros t s3 _ <-. apply runs_ret. exists (cs ++ [c]). rewrite Hh, Ha, He.
  split_and!; [done|zl|]. apply Forall_app. split; [done|by apply Forall_singleton].
Qed.

(** ** The extensions of an accepted query *)
Lemma fields_stream fb es tail exts :
  fields fb es -> ext_stream (fb ++ tail) exts -> exists exts', exts = es ++ exts'.
Proof.
  intros Hf. revert exts. induction Hf as [|w len c rest es Hw Hl H4 Hc Ht _ IH]; intros exts Hs.
  { by exists exts. }
  rewrite <- !app_assoc in Hs.
  apply ext_stream_inv in Hs as [[Hbad _]|(w' & len' & r & E & Hw' & Hl' & _ & _ & Hcase)].
  { by apply ext_header_long in Hbad. }
  apply ext_header_inj in E as (<- & <- & <-); try done.
  destruct Hcase as [(c' & rest' & exts' & Hr & Hc' & -> & Hs')|[Hbad _]].
  - apply app_inj_1 in Hr as [<- <-]; [|unfold zlen in *; lia].
    destruct (IH _ Hs') as [exts'' ->]. by exists exts''.
  - exfalso. autorewrite with zlen in Hbad. pose proof (zlen_nonneg (rest ++ tail)).
    autorewrite with zlen in *. lia.
Qed.

Lemma accepted_query query key q p :
  zlen query < 65532 -> parse_ntp_packet query = Ok q -> parse_nts_packet query key = Ok p ->
  Forall ext_wf (auth_exts p) /\ (exists more, exts q = auth_exts p ++ more) /\
  nts_header p = header q /\ exts_size (auth_exts p) + 52 <= zlen query.
Proof.
  intros Hlen (b1 & rest & Hq & Hb1 & Hh & Hs)%parse_ntp_packet_inv
    (b1' & fb & len & body & enc & Hq' & Hb1' & Hh' & Hf & _)%parse_nts_Ok_inv; [|done].
  rewrite Hq' in Hq. rewrite <- app_assoc in Hq.
  apply app_inj_1 in Hq as [<- <-]; [|unfold zlen in *; lia].
  destruct (fields_stream _ _ _ _ Hf Hs) as [more Hmore]. split_and!.
  - apply ext_stream_wf in Hs. rewrite Hmore in Hs. by apply Forall_app in Hs as [? _].
  - eauto.
  - congruence.
  - rewrite Hq', !zlen_app, Hb1', (fields_size _ _ Hf). unfold auth_field. zl.
    pose proof (zlen_nonneg body). lia.
Qed.

Lemma placeholders_size l : 104 * placeholders l <= exts_size l.
Proof.
  induction l as [|e l IH]; [done|]. unfold placeholders in *. rewrite filter_cons.
  cbn [exts_size foldr]. fold (exts_size l). pose proof (zlen_nonneg (contents e)).
  case_decide as Hd; [|lia]. destruct Hd as [_ Hd]. rewrite zlen_cons. unfold COOKIE_SIZE in Hd. lia.
Qed.

(** Identifiers, large placeholders and a cookie are disjoint parts of a query. *)
Lemma reply_exts_size l c :
  c ∈ l -> ext_type c = NTSCookie ->
  exts_size (uids l) + 104 * placeholders l + 4 + zlen (contents c) <= exts_size l.
Proof.
  intros Hc Ht. assert (forall l, exts_size (uids l) + 104 * placeholders l <= exts_size l) as Hall.
  { clear. induction l as [|e l IH]; [done|]. revert IH. unfold uids, placeholders. rewrite !filter_cons.
    pose proof (zlen_nonneg (contents e)).
    repeat case_decide; rewrite ?zlen_cons; cbn [exts_size foldr];
      repeat change (foldr _ 0 ?x) with (exts_size x);
      repeat match goal with Hx : large_placeholder _ |- _ => destruct Hx as [? Hx]; unfold COOKIE_SIZE in Hx end;
      try congruence; lia. }
  induction Hc as [c l|c e l Hc IH]; unfold uids, placeholders in *; rewrite !filter_cons.
  - specialize (Hall l).
    rewrite decide_False by congruence. rewrite decide_False by (intros [? _]; congruence).
    cbn [exts_size foldr]. change (foldr _ 0 l) with (exts_size l). lia.
  - specialize (IH Ht). pose proof (zlen_nonneg (contents e)).
    repeat case_decide; rewrite ?zlen_cons; cbn [exts_size foldr];
      repeat change (foldr _ 0 ?x) with (exts_size x);
      repeat match goal with Hx : large_placeholder _ |- _ => destruct Hx as [? Hx]; unfold COOKIE_SIZE in Hx end;
      try congruence; lia.
Qed.

Lemma good_cookies_wf kr k cs :
  Forall (good_cookie kr k) cs -> Forall ext_wf cs /\ exts_size cs = 104 * zlen cs.
Proof.
  induction 1 as [|[ty c] cs [Ht [Hz _]] _ [IH1 IH2]]; [done|]. cbn in Ht, Hz. subst ty. split.
  - constructor; [|done]. split_and!; cbn [ext_type contents]; rewrite ?Hz; done.
  - rewrite zlen_cons. cbn [exts_size foldr]. fold (exts_size cs). rewrite IH2. cbn [contents].
    rewrite Hz. unfold COOKIE_SIZE. lia.
Qed.

(** The bytes [b] are an answer to the accepted query [p] under the session keys
    [k]: the client opens them and finds header [h], its unique identifiers, and
    one cookie more than it sent placeholders, all of them good. *)
Definition nts_reply (kr : KeyRotator) (k : NTSKeys) (h : NtpPacketHeader) (p : NtsPacket)
    (b : bytes) : Prop :=
  exists cs, parse_nts_packet b (s2c k) = Ok (mkNts h (uids (auth_exts p)) cs) /\
    zlen cs = 1 + placeholders (auth_exts p) /\ Forall (good_cookie kr k) cs /\
    zlen b = 88 + exts_size (uids (auth_exts p)) + 104 * zlen cs.

Lemma process_nts_runs env h k query q p s :
  keys_wf k -> keys_ready (keys s) -> clock_ok (reply_time env) ->
  header_wf h -> version h < 8 -> zlen query <= BUF_SIZE ->
  parse_ntp_packet query = Ok q -> parse_nts_packet query (c2s k) = Ok p ->
  runs (process_nts env h k query) s []
    (nts_reply (guarded (keys s)) k (set_transmit (stamp (reply_time env)) h) p).
Proof.
  intros Hk Hs Hc Hh Hv Hlen Hq Hp. unfold BUF_SIZE in Hlen.
  assert (zlen query < 65532) as Hl by lia.
  destruct (accepted_query _ _ _ _ Hl Hq Hp) as (Hwf & _ & _ & Hsz).
  unfold process_nts. rewrite Hp. eapply (runs_bind _ _ _ [] []); [by apply nts_response_runs|].
  intros resp s1 Hs1 (cs & -> & Hn & Hgood).
  destruct (good_cookies_wf _ _ _ Hgood) as [Hcwf Hcsz].
  pose proof (placeholders_size (auth_exts p)). pose proof (exts_size_nonneg (uids (auth_exts p))).
  destruct (nts_serialize_parse (E := io_error) (mkNts (set_transmit (stamp (reply_time env)) h)
    (uids (auth_exts p)) cs) (s2c k) (rng s1)) as (b & r' & c & Hser & Hpar & _ & Hbl);
    cbn [nts_header auth_exts auth_enc_exts] in *.
  - destruct Hh as (? & ? & ? & ? & ? & ? & ? & ? & ? & ? & ?).
    split_and!; try done. apply stamp_width.
  - done.
  - apply Forall_forall. intros e [_ He]%list_elem_of_filter.
    rewrite Forall_forall in Hwf. by apply Hwf.
  - apply Forall_forall. intros e [He _]%list_elem_of_filter. by rewrite He.
  - done.
  - rewrite Hcsz. lia.
  - eapply runs_on_rng; [done|]. exists cs. rewrite Hcsz in Hbl. by split_and!.
Qed.

(** ** The kiss of death *)
Lemma has_extension_spec q ty :
  has_extension q ty = true <-> exists e, extract_extension q ty = Some e /\ ext_type e = ty /\ e ∈ exts q.
Proof.
  unfold has_extension, extract_extension. induction (exts q) as [|e l IH]; cbn; [naive_solver|].
  case_bool_decide as He; cbn.
  - split; [|done]. intros _. exists e. split_and!; [done..|]. apply elem_of_cons. by left.
  - rewrite IH. split; intros (e' & ? & ? & Hin); exists e'; split_and!; try done.
    + apply elem_of_cons. by right.
    + apply elem_of_cons in Hin as [->|?]; done.
Qed.

Definition kod_packet (q : NtpPacket) : NtpPacket :=
  mkNtp (kod_header (NtpProtocol.transmit_timestamp (header q)))
    (match extract_extension q UniqueIdentifier with Some e => [e] | None => [] end).

(** A reply that is, byte for byte, the kiss of death for [q], and reads back as it. *)
Definition kod_reply (q : NtpPacket) (b : bytes) : Prop :=
  serialize_ntp_packet (E := io_error) (kod_packet q) = Ok b /\
  parse_ntp_packet b = Ok (kod_packet q) /\ zlen b = 48 + exts_size (exts (kod_packet q)).

Lemma parse_serialize_ntp h l :
  header_wf h -> version h < 8 -> Forall ext_wf l ->
  exists b, serialize_ntp_packet (E := io_error) (mkNtp h l) = Ok b /\
    parse_ntp_packet b = Ok (mkNtp h l) /\ zlen b = 48 + exts_size l.
Proof.
  intros Hh Hv Hl.
  destruct (serialize_extensions_ok (E := io_error) _ (exts_wf_aligned _ Hl)) as (eb & Heb & Hsz).
  unfold serialize_ntp_packet. cbn [header exts]. rewrite Heb. res_step. eexists. split_and!; [done| |].
  - unfold parse_ntp_packet. rewrite parse_serialize_header, set_version_id by done. res_step.
    rewrite slice_from_ok by (zl; pose proof (zlen_nonneg eb); lia). res_step.
    rewrite drop_app_length' by by rewrite serialize_header_length.
    rewrite (proj2 (parse_extensions_Ok eb l)); [done|].
    rewrite <- (app_nil_r eb). by apply (serialize_extensions_stream (E := io_error)).
  - zl.
Qed.

Lemma kod_packet_wf query q :
  parse_ntp_packet query = Ok q ->
  header_wf (header (kod_packet q)) /\ Forall ext_wf (exts (kod_packet q)).
Proof.
  intros (b1 & rest & _ & _ & Hh & Hs)%parse_ntp_packet_inv.
  apply parse_packet_header_wf in Hh as (Hh & _). unfold kod_packet. cbn [header exts]. split.
  - destruct Hh as (_ & _ & _ & _ & _ & _ & _ & _ & _ & _ & ?). by split_and!.
  - apply ext_stream_wf in Hs. destruct (extract_extension q UniqueIdentifier) eqn:He; [|done].
    apply Forall_singleton. rewrite Forall_forall in Hs. apply Hs.
    unfold extract_extension in He. apply List.find_some in He as [He _]. by apply list_elem_of_In.
Qed.

Lemma send_kiss_of_death_runs query q s :
  parse_ntp_packet query = Ok q -> runs (send_kiss_of_death q) s [KOD_COUNTER] (kod_reply q).
Proof.
  intros Hq. destruct (kod_packet_wf _ _ Hq) as [Hh Hwf]. unfold send_kiss_of_death.
  apply (runs_bind _ _ _ [KOD_COUNTER] [] (eq (kod_packet q))).
  - unfold kiss_of_death. apply (runs_bind _ _ _ [KOD_COUNTER] [] (fun _ => True)); [apply runs_inc|].
    intros _ s1 _ _. unfold kod_packet. destruct (has_extension q UniqueIdentifier) eqn:Hx.
    + apply has_extension_spec in Hx as (e & He & _). rewrite He.
      by apply (runs_bind _ _ _ [] [] (eq e)); [by apply (runs_lift _ _ e)|intros ? ? _ <-; apply runs_ret].
    + destruct (extract_extension q UniqueIdentifier) as [e|] eqn:He; [|by apply runs_ret].
      exfalso. assert (has_extension q UniqueIdentifier = true) as Hy; [|by rewrite Hx in Hy].
      unfold extract_extension in He. apply List.find_some in He as [Hin He].
      unfold has_extension. apply List.existsb_exists. eauto.
  - intros ? s1 _ <-. destruct (kod_packet q) as [h l] eqn:Hk.
    destruct (parse_serialize_ntp h l) as (b & Hb & Hp & Hl); cbn in Hh, Hwf; [done| |done|].
    + unfold kod_packet in Hk. by injection Hk as <- <-.
    + apply (runs_lift _ _ b); [done|]. unfold kod_reply. by rewrite Hk.
Qed.

(** ** The reply header *)
Definition servstate_wf (st : ServerState) : Prop :=
  in_width 8 (ss_version st) /\ ss_version st < 8 /\ in_width 8 (ss_stratum st) /\
  in_swidth 8 (ss_poll st) /\ in_swidth 8 (ss_precision st) /\ in_width 32 (ss_root_delay st) /\
  in_width 32 (ss_refid st) /\ in_width 64 (ss_refstamp st).

Definition reply_header (st : ServerState) (q : NtpPacket) (rt tt : SystemTime) (d : Z) :
    NtpPacketHeader :=
  mkHeader (ss_leap st) (ss_version st) Server (ss_stratum st) (ss_poll st) (ss_precision st)
    (ss_root_delay st) d (ss_refid st) (ss_refstamp st)
    (NtpProtocol.transmit_timestamp (header q)) (stamp rt) (stamp tt).

(** Nothing around the server is broken: both locks are readable, the latest
    key is there, the clock is after 1970, the dispersion [d] can be computed,
    and the measurement set-up is in place. *)
Definition ready (env : Env) s (rt tt : SystemTime) (d : Z) : Prop :=
  let st := guarded (servstate s) in
  keys_ready (keys s) /\ poisoned (servstate s) = false /\ servstate_wf st /\
  fix_dispersion (E := io_error) (ss_root_dispersion st) tt (ss_taken st) = Ok d /\ in_width 32 d /\
  clock_ok rt /\ clock_ok tt /\ clock_ok (reply_time env) /\
  (exists ip, experiment env = Some (Some ip)) /\
  ntp_channel env = true /\ nts_channel env = true.

Lemma parsed_header_wf query q :
  parse_ntp_packet query = Ok q -> header_wf (header q).
Proof.
  intros (b1 & rest & _ & _ & Hh & _)%parse_ntp_packet_inv.
  by apply parse_packet_header_wf in Hh as (? & _).
Qed.

Lemma reply_header_wf st q rt tt d :
  servstate_wf st -> in_width 32 d -> header_wf (header q) -> header_wf (reply_header st q rt tt d).
Proof.
  intros (? & ? & ? & ? & ? & ? & ? & ?) ? (_ & _ & _ & _ & _ & _ & _ & _ & _ & _ & ?).
  split_and!; try done; apply stamp_width.
Qed.

Lemma create_header_ok env s q rt tt d :
  ready env s rt tt d ->
  create_header q rt tt (servstate s) = Ok (reply_header (guarded (servstate s)) q rt tt d).
Proof.
  intros (_ & Hp & _ & Hd & _ & Hr & Ht & _). unfold create_header, read_lock. rewrite Hp. res_step.
  rewrite !ntp_timestamp_ok by done. res_step. rewrite Hd. done.
Qed.

(** [response] on an NTS query with the cookie [cookie], and after the part
    that all client queries share. *)
Definition cookie_tail (env : Env) (query : bytes) (q : NtpPacket) (resp_header : NtpPacketHeader)
    (ip : string) (cookie : NtpExtension) : M (Srv R) io_error bytes :=
  match get_keyid (contents cookie) with
  | Some keyid =>
    point ← read_keys;
    match get point keyid with
    | Some key =>
      nts_keys ← lift (eat_cookie (contents cookie) key);
      match nts_keys with
      | Some nts_dir_keys =>
        res ← process_nts env resp_header nts_dir_keys query;
        _ ← measure ip (nts_channel env) (nts_elapsed env) add_nts_meas;
        mret res
      | None => _ ← inc UNDECRYPTABLE_COOKIE_COUNTER; send_kiss_of_death q
      end
    | None => _ ← inc MISSING_KEY_COUNTER; send_kiss_of_death q
    end
  | None => _ ← inc MALFORMED_COOKIE_COUNTER; send_kiss_of_death q
  end.

Definition response_tail (env : Env) (query : bytes) (q : NtpPacket) (resp_header : NtpPacketHeader)
    (ip : string) : M (Srv R) io_error bytes :=
  if is_nts_packet q then
    _ ← inc NTS_COUNTER;
    cookie ← lift (unwrap (extract_extension q NTSCookie));
    cookie_tail env query q resp_header ip cookie
  else mret (serialize_header resp_header).

Lemma response_client env query q s rt tt d :
  ready env s rt tt d -> parse_ntp_packet query = Ok q -> mode (header q) = Client ->
  exists ip s1, steps [QUERY_COUNTER] s s1 /\
    response env query rt tt s =
    response_tail env query q (reply_header (guarded (servstate s)) q rt tt d) ip s1.
Proof.
  intros Hrd Hq Hm. pose proof (create_header_ok env s q rt tt d Hrd) as Hh.
  destruct Hrd as (_ & _ & _ & _ & _ & _ & _ & _ & (ip & Hip) & Hch & _).
  unfold response. rewrite bind_lift, Hq, bind_get_state, bind_lift, Hh.
  destruct (runs_inc QUERY_COUNTER s) as ([] & s1 & Hr1 & Hs1 & _).
  rewrite (M_bind_run _ _ _ _ _ Hr1), bool_decide_false by (intros Hx; by apply Hx).
  rewrite bind_lift, Hip. cbn [unwrap]. rewrite bind_lift. cbn [unwrap]. rewrite Hch.
  destruct (runs_measure ip (ntp_elapsed env) add_ntp_meas s1) as ([] & s2 & Hr2 & Hs2 & _).
  { intros. apply steps_add_meas. }
  rewrite (M_bind_run _ _ _ _ _ Hr2). exists ip, s2. split; [|done].
  apply (steps_trans [QUERY_COUNTER] [] _ _ _ Hs1 Hs2).
Qed.

(** From the tail back to the whole. *)
Lemma response_runs env query q s rt tt d l Q :
  ready env s rt tt d -> parse_ntp_packet query = Ok q -> mode (header q) = Client ->
  (forall ip s1, keys s1 = keys s ->
     runs (response_tail env query q (reply_header (guarded (servstate s)) q rt tt d) ip) s1 l Q) ->
  runs (response env query rt tt) s (QUERY_COUNTER :: l) Q.
Proof.
  intros Hrd Hq Hm Htail.
  destruct (response_client _ _ _ _ _ _ _ Hrd Hq Hm) as (ip & s1 & Hs1 & Hr).
  destruct (Htail ip s1 (steps_keys _ _ _ Hs1)) as (b & s2 & Hb & Hs2 & HQ).
  exists b, s2. rewrite Hr. split_and!; [done| |done].
  apply (steps_trans [QUERY_COUNTER] l _ _ _ Hs1 Hs2).
Qed.

Lemma nts_has_cookie q :
  is_nts_packet q = true -> exists c, extract_extension q NTSCookie = Some c.
Proof.
  unfold is_nts_packet. intros [[Hc _]%andb_true_iff _]%andb_true_iff.
  apply has_extension_spec in Hc as (c & ? & _). eauto.
Qed.

(** The first steps of an NTS query, up to the cookie's fate. *)
Lemma tail_cookie env query q h ip s c l Q :
  is_nts_packet q = true -> extract_extension q NTSCookie = Some c ->
  (forall s1, keys s1 = keys s -> runs (cookie_tail env query q h ip c) s1 l Q) ->
  runs (response_tail env query q h ip) s (NTS_COUNTER :: l) Q.
Proof.
  intros Hn Hc Htail. unfold response_tail. rewrite Hn.
  eapply (runs_bind _ _ _ [NTS_COUNTER] l); [apply runs_inc|]. intros _ s1 Hs1 _.
  eapply (runs_bind _ _ _ [] l); [eapply (runs_lift _ _ c (eq c)); [by rewrite Hc|done]|].
  intros ? s2 Hs2 <-. apply Htail. by rewrite (steps_keys _ _ _ Hs2), (steps_keys _ _ _ Hs1).
Qed.

(** Why a query that looks like NTS is refused, and what is counted for it. *)
Inductive refused (kr : KeyRotator) (query cookie : bytes) : list Counter -> Prop :=
  | refused_malformed :
      get_keyid cookie = None -> refused kr query cookie [MALFORMED_COOKIE_COUNTER]
  | refused_missing id :
      get_keyid cookie = Some id -> get kr id = None ->
      refused kr query cookie [MISSING_KEY_COUNTER]
  | refused_undecryptable id key :
      get_keyid cookie = Some id -> get kr id = Some key ->
      eat_cookie (E := io_error) cookie key = Ok None ->
      refused kr query cookie [UNDECRYPTABLE_COOKIE_COUNTER]
  | refused_authenticator id key k e :
      get_keyid cookie = Some id -> get kr id = Some key ->
      eat_cookie (E := io_error) cookie key = Ok (Some k) ->
      parse_nts_packet query (c2s k) = Err e -> refused kr query cookie [].

(** Session keys that the server finds in a cookie. *)
Definition opened (kr : KeyRotator) (cookie : bytes) (k : NTSKeys) : Prop :=
  exists id key, get_keyid cookie = Some id /\ get kr id = Some key /\
    eat_cookie (E := io_error) cookie key = Ok (Some k).

Lemma opened_wf kr cookie k : opened kr cookie k -> keys_wf k.
Proof. intros (id & key & _ & _ & H). by apply eat_cookie_Some in H as (? & _). Qed.

Lemma cookie_tail_opened env query q h ip c k s l Q :
  keys_ready (keys s) -> nts_channel env = true -> opened (guarded (keys s)) (contents c) k ->
  (forall s1, keys s1 = keys s -> runs (process_nts env h k query) s1 l Q) ->
  runs (cookie_tail env query q h ip c) s l Q.
Proof.
  intros (Hp & _) Hch (id & key & Hid & Hkey & Heat) Hproc. unfold cookie_tail. rewrite Hid.
  eapply (runs_bind _ _ _ [] l); [by apply runs_read_keys|]. intros ? s1 Hs1 <-. rewrite Hkey.
  eapply (runs_bind _ _ _ [] l); [by eapply (runs_lift _ _ _ (eq (Some k)))|]. intros ? s2 Hs2 <-.
  rewrite <- (app_nil_r l). eapply (runs_bind _ _ _ l []); [apply Hproc|].
  { by rewrite (steps_keys _ _ _ Hs2), (steps_keys _ _ _ Hs1). }
  intros b s3 _ HQ. rewrite Hch. eapply (runs_bind _ _ _ [] []); [apply runs_measure|].
  { intros. apply steps_add_meas. }
  intros _ s4 _ _. by apply runs_ret.
Qed.

Lemma counted_kod_runs query q cnt s :
  parse_ntp_packet query = Ok q ->
  runs (_ ← inc cnt; send_kiss_of_death q) s [cnt; KOD_COUNTER] (kod_reply q).
Proof.
  intros Hq. apply (runs_bind _ _ _ [cnt] [KOD_COUNTER] (fun _ => True)); [apply runs_inc|].
  intros. by eapply send_kiss_of_death_runs.
Qed.

Lemma cookie_tail_refused env query q h ip c s l :
  keys_ready (keys s) -> nts_channel env = true -> parse_ntp_packet query = Ok q ->
  refused (guarded (keys s)) query (contents c) l ->
  runs (cookie_tail env query q h ip c) s (l ++ [KOD_COUNTER]) (kod_reply q).
Proof.
  intros Hk Hch Hq Href. pose proof (proj1 Hk) as Hp.
  destruct Href as [Hid|id Hid Hkey|id key Hid Hkey Heat|id key k e Hid Hkey Heat He].
  - unfold cookie_tail. rewrite Hid.
    by eapply counted_kod_runs.
  - unfold cookie_tail. rewrite Hid. eapply (runs_bind _ _ _ [] _); [by apply runs_read_keys|].
    intros ? s1 Hs1 <-. rewrite Hkey.
    by eapply counted_kod_runs.
  - unfold cookie_tail. rewrite Hid. eapply (runs_bind _ _ _ [] _); [by apply runs_read_keys|].
    intros ? s1 Hs1 <-. rewrite Hkey.
    eapply (runs_bind _ _ _ [] _); [by eapply (runs_lift _ _ _ (eq None))|]. intros ? s2 Hs2 <-.
    by eapply counted_kod_runs.
  - eapply cookie_tail_opened; [done|done|by exists id, key|]. intros s1 _.
    unfold process_nts. rewrite He. eapply (runs_bind _ _ _ [] [KOD_COUNTER]).
    { eapply (runs_lift _ _ q (eq q)); [by rewrite Hq|done]. }
    intros ? s2 _ <-. by eapply send_kiss_of_death_runs.
Qed.

Lemma response_accepted env query q c k p s rt tt d :
  ready env s rt tt d -> zlen query <= BUF_SIZE -> parse_ntp_packet query = Ok q ->
  mode (header q) = Client -> is_nts_packet q = true ->
  extract_extension q NTSCookie = Some c -> opened (guarded (keys s)) (contents c) k ->
  parse_nts_packet query (c2s k) = Ok p ->
  runs (response env query rt tt) s [QUERY_COUNTER; NTS_COUNTER]
    (nts_reply (guarded (keys s)) k
      (set_transmit (stamp (reply_time env)) (reply_header (guarded (servstate s)) q rt tt d)) p).
Proof.
  intros Hrd Hlen Hq Hm Hn Hc Hk Hp.
  eapply (response_runs _ _ _ _ _ _ _ [NTS_COUNTER]); try done. intros ip s1 Hs1.
  eapply (tail_cookie _ _ _ _ _ _ _ []); try done. intros s2 Hs2.
  assert (keys s2 = keys s) as Hks by congruence. rewrite <- Hks in *.
  destruct Hrd as (Hkr & _ & Hst & _ & Hd & _ & _ & Hcl & _ & _ & Hch). rewrite <- Hks in *.
  eapply cookie_tail_opened; try done. intros s3 Hs3. rewrite <- Hs3 in *.
  eapply process_nts_runs; try done; [by eapply opened_wf| |by destruct Hst as (_ & ? & _)].
  apply reply_header_wf; try done. by eapply parsed_header_wf.
Qed.

Lemma response_refused env query q c s rt tt d l :
  ready env s rt tt d -> parse_ntp_packet query = Ok q -> mode (header q) = Client ->
  is_nts_packet q = true -> extract_extension q NTSCookie = Some c ->
  refused (guarded (keys s)) query (contents c) l ->
  runs (response env query rt tt) s (QUERY_COUNTER :: NTS_COUNTER :: l ++ [KOD_COUNTER]) (kod_reply q).
Proof.
  intros Hrd Hq Hm Hn Hc Href. eapply response_runs; try done. intros ip s1 Hs1.
  eapply tail_cookie; try done. intros s2 Hs2.
  assert (keys s2 = keys s) as Hks by congruence. rewrite <- Hks in *.
  destruct Hrd as (Hkr & _ & _ & _ & _ & _ & _ & _ & _ & _ & Hch). rewrite <- Hks in *.
  by eapply cookie_tail_refused.
Qed.

Lemma runs_no_panic {B} (m : M (Srv R) io_error B) s l Q : runs m s l Q -> is_panic (m s).1 = false.
Proof. by intros (b & s' & -> & _). Qed.

(** What becomes of a cookie. *)
Lemma cookie_cases kr query q c :
  parse_ntp_packet query = Ok q ->
  (exists l, refused kr query c l) \/
  (exists k, opened kr c k /\
    ((exists p, parse_nts_packet query (c2s k) = Ok p) \/ auth_overruns query)).
Proof.
  intros Hq. destruct (get_keyid c) as [id|] eqn:Hid; [|left; eexists; by constructor].
  destruct (get kr id) as [key|] eqn:Hkey; [|left; eexists; by eapply refused_missing].
  destruct (eat_cookie_total (E := io_error) c key) as [[k|] Heat];
    [|left; eexists; by eapply refused_undecryptable].
  destruct (parse_nts_packet query (c2s k)) as [p|e|pn] eqn:Hp.
  - right. exists k. split; [by exists id, key|]. left. eauto.
  - left. eexists. by eapply refused_authenticator.
  - right. exists k. split; [by exists id, key|]. right.
    destruct (parse_nts_no_panic query (c2s k) q Hq) as [Hn|?]; [by rewrite Hp in Hn|done].
Qed.

Lemma response_overrun env query q c k s rt tt d :
  ready env s rt tt d -> parse_ntp_packet query = Ok q -> mode (header q) = Client ->
  is_nts_packet q = true -> extract_extension q NTSCookie = Some c ->
  opened (guarded (keys s)) (contents c) k -> auth_overruns query ->
  is_panic (response env query rt tt s).1 = true.
Proof.
  intros Hrd Hq Hm Hn Hc (id & key & Hid & Hkey & Heat) Hover.
  destruct (response_client _ _ _ _ _ _ _ Hrd Hq Hm) as (ip & s1 & Hs1 & ->).
  unfold response_tail. rewrite Hn.
  destruct (runs_inc NTS_COUNTER s1) as ([] & s2 & Hr2 & Hs2 & _).
  rewrite (M_bind_run _ _ _ _ _ Hr2), bind_lift, Hc. cbn [unwrap].
  unfold cookie_tail. rewrite Hid.
  destruct (runs_read_keys s2) as (kr & s3 & Hr3 & Hs3 & <-).
  { rewrite (steps_keys _ _ _ Hs2), (steps_keys _ _ _ Hs1). apply Hrd. }
  rewrite (M_bind_run _ _ _ _ _ Hr3), (steps_keys _ _ _ Hs2), (steps_keys _ _ _ Hs1), Hkey.
  rewrite bind_lift, Heat. unfold process_nts.
  destruct Hover as (b1 & fb & es & len & body & -> & ? & ? & ? & ?).
  by erewrite nts_overrun.
Qed.

Lemma parse_ntp_packet_no_panic b : is_panic (parse_ntp_packet b) = false.
Proof.
  unfold parse_ntp_packet. apply bind_is_panic; [apply parse_packet_header_no_panic|].
  intros h (_ & _ & Hl)%parse_packet_header_wf. rewrite slice_from_ok by lia. res_step.
  apply bind_is_panic; [apply parse_extensions_no_panic|done].
Qed.

(** A client query that looks like NTS, with a cookie that opens, and an
    authenticator that reaches back beyond the start of the packet. *)
Definition crashes (kr : KeyRotator) (query : bytes) : Prop :=
  exists q c k, parse_ntp_packet query = Ok q /\ mode (header q) = Client /\
    is_nts_packet q = true /\ extract_extension q NTSCookie = Some c /\
    opened kr (contents c) k /\ auth_overruns query.

Lemma response_panic_spec env query s rt tt d :
  ready env s rt tt d -> zlen query <= BUF_SIZE ->
  (is_panic (response env query rt tt s).1 = true <-> crashes (guarded (keys s)) query).
Proof.
  intros Hrd Hlen. split.
  - destruct (parse_ntp_packet query) as [q|e|pn] eqn:Hq.
    + destruct (decide (mode (header q) = Client)) as [Hm|Hm].
      2: { unfold response. rewrite bind_lift, Hq, bind_get_state, bind_lift.
           rewrite (create_header_ok env s q rt tt d Hrd). unfold inc. rewrite bind_modify.
           by rewrite bool_decide_true. }
      destruct (is_nts_packet q) eqn:Hn.
      2: { destruct (response_client _ _ _ _ _ _ _ Hrd Hq Hm) as (ip & s1 & _ & ->).
           unfold response_tail. by rewrite Hn. }
      destruct (nts_has_cookie q Hn) as [c Hc].
      destruct (cookie_cases (guarded (keys s)) query q (contents c) Hq)
        as [[l Href]|(k & Hk & [[p Hp]|Hover])].
      * by rewrite (runs_no_panic _ _ _ _ (response_refused _ _ _ _ _ _ _ _ _ Hrd Hq Hm Hn Hc Href)).
      * by rewrite (runs_no_panic _ _ _ _
          (response_accepted _ _ _ _ _ _ _ _ _ _ Hrd Hlen Hq Hm Hn Hc Hk Hp)).
      * intros _. by exists q, c, k.
    + unfold response. by rewrite bind_lift, Hq.
    + pose proof (parse_ntp_packet_no_panic query) as Hnp. by rewrite Hq in Hnp.
  - intros (q & c & k & Hq & Hm & Hn & Hc & Hk & Hover). by eapply response_overrun.
Qed.
End Replies.

(** ** The theorems *)
Section Theorems.
Context {P : Profile} {A : Aead} {R : Type} {G : Rng R}.
Implicit Types (s : Srv R).

(** C25: plain NTP.  A client-mode query that is not NTS is answered with exactly
    48 bytes, which read back as the server's state, the query's transmit
    timestamp as origin, and the two timestamps; one query is counted. *)
Theorem plain_reply_correct (L : AeadLaws A) (GL : RngLaws G) env query q s rt tt d :
  ready env s rt tt d -> parse_ntp_packet query = Ok q -> mode (header q) = Client ->
  is_nts_packet q = false ->
  runs (response env query rt tt) s [QUERY_COUNTER] (fun b =>
    zlen b = 48 /\
    parse_ntp_packet b = Ok (mkNtp (reply_header (guarded (servstate s)) q rt tt d) [])).
Proof.
  intros Hrd Hq Hm Hn. eapply response_runs; try done. intros ip s1 _.
  unfold response_tail. rewrite Hn. apply runs_ret.
  destruct Hrd as (_ & _ & Hst & _ & Hd & _).
  destruct (parse_serialize_ntp (reply_header (guarded (servstate s)) q rt tt d) [])
    as (b & Hb & Hpar & Hl).
  - apply reply_header_wf; try done. by eapply parsed_header_wf.
  - by destruct Hst as (_ & ? & _).
  - done.
  - unfold serialize_ntp_packet in Hb. cbn [exts serialize_extensions] in Hb. apply Ok_inj in Hb.
    rewrite app_nil_r in Hb. cbn [header] in Hb. by rewrite Hb.
Qed.

(** C4: NTS.  When the first cookie of a client query opens to session keys [k]
    under one of the server's keys and the query is authentic under [k], the
    reply opens under the server-to-client key and carries the server's header
    with the time of sending, the query's authenticated unique identifiers, and,
    encrypted, one new cookie plus one per placeholder of at least
    [COOKIE_SIZE] bytes; every one of them opens to the same [k] under the
    server's latest key.  A query and an NTS query are counted. *)
Theorem nts_reply_correct (L : AeadLaws A) (GL : RngLaws G) env query q c k p s rt tt d :
  ready env s rt tt d -> zlen query <= BUF_SIZE -> parse_ntp_packet query = Ok q ->
  mode (header q) = Client -> is_nts_packet q = true ->
  extract_extension q NTSCookie = Some c -> opened (guarded (keys s)) (contents c) k ->
  parse_nts_packet query (c2s k) = Ok p ->
  runs (response env query rt tt) s [QUERY_COUNTER; NTS_COUNTER]
    (nts_reply (guarded (keys s)) k
      (set_transmit (stamp (reply_time env)) (reply_header (guarded (servstate s)) q rt tt d)) p).
Proof. apply response_accepted. Qed.

(** C5: the kiss of death.  A client query that looks like NTS but whose cookie
    is malformed, names no known key, does not open, or opens to keys under
    which the query is not authentic, is answered with a packet that reads back
    as the kiss of death: stratum 0, code NTSN, the query's transmit timestamp as
    origin, and its first unique identifier.  What is counted besides the query
    and the kiss of death, [l], depends on the reason: a malformed cookie, an
    unknown key and a cookie that does not open have a counter each; a failed
    authenticator has none. *)
Theorem kod_correct (L : AeadLaws A) (GL : RngLaws G) env query q c s rt tt d l :
  ready env s rt tt d -> parse_ntp_packet query = Ok q -> mode (header q) = Client ->
  is_nts_packet q = true -> extract_extension q NTSCookie = Some c ->
  refused (guarded (keys s)) query (contents c) l ->
  runs (response env query rt tt) s (QUERY_COUNTER :: NTS_COUNTER :: l ++ [KOD_COUNTER]) (kod_reply q).
Proof. apply response_refused. Qed.

(** C9: what crashes a server thread.  With the server's surroundings in order,
    handling a datagram panics exactly when it is a client query that looks like
    NTS, its first cookie opens, and the declared length of its authenticator
    reaches back beyond the start of the packet; every other datagram is answered
    or dropped. *)
Theorem response_panics_iff (L : AeadLaws A) (GL : RngLaws G) env query s rt tt d :
  ready env s rt tt d -> zlen query <= BUF_SIZE ->
  (is_panic (response env query rt tt s).1 = true <-> crashes (guarded (keys s)) query).
Proof. apply response_panic_spec. Qed.

(** Replies to authentic queries are not an amplifier.  When the cookie is
    among the authenticated extensions, the reply is at most 36 bytes longer
    than the query, and no longer than it when the query's authenticator field
    takes the 40 bytes that this code's own authenticators take at least. *)
Lemma nts_reply_bounded (L : AeadLaws A) (GL : RngLaws G) env query q c k p s rt tt d :
  ready env s rt tt d -> zlen query <= BUF_SIZE -> parse_ntp_packet query = Ok q ->
  mode (header q) = Client -> is_nts_packet q = true ->
  extract_extension q NTSCookie = Some c -> opened (guarded (keys s)) (contents c) k ->
  parse_nts_packet query (c2s k) = Ok p -> c ∈ auth_exts p ->
  runs (response env query rt tt) s [QUERY_COUNTER; NTS_COUNTER] (fun b =>
    zlen b <= zlen query + 36 /\
    (exts_size (auth_exts p) + 88 <= zlen query -> zlen b <= zlen query)).
Proof.
  intros Hrd Hlen Hq Hm Hn Hc Hop Hp Hin.
  assert (ext_type c = NTSCookie) as Ht.
  { destruct (has_extension_spec q NTSCookie) as [Hx _].
    destruct Hx as (c' & Hc' & Ht & _); [|congruence].
    unfold is_nts_packet in Hn. by apply andb_true_iff in Hn as [[? _]%andb_true_iff _]. }
  assert (zlen (contents c) = 100) as Hz
    by (destruct Hop as (id & key & _ & _ & (_ & H & _)%eat_cookie_Some); exact H).
  eapply runs_weaken; [by eapply response_accepted|]. intros b (cs & _ & Hcs & _ & Hb).
  unfold BUF_SIZE in Hlen. assert (zlen query < 65532) as Hl by lia.
  destruct (accepted_query _ _ _ _ Hl Hq Hp) as (_ & _ & _ & Hsz).
  pose proof (reply_exts_size (auth_exts p) c Hin Ht) as Hr. lia.
Qed.
End Theorems.

(** ** A small query with a large answer *)

(** A header and three extension fields without contents, the last of which is a
    unique identifier that declares [len] bytes. *)
Definition tiny_query (h : NtpPacketHeader) (len : Z) : bytes :=
  serialize_header h ++
  (be_bytes 2 EXT_TYPE_NTS_COOKIE ++ be_bytes 2 4) ++
  (be_bytes 2 EXT_TYPE_NTS_AUTHENTICATOR ++ be_bytes 2 4) ++
  (be_bytes 2 EXT_TYPE_UNIQUE_IDENTIFIER ++ be_bytes 2 len).

Lemma tiny_query_parses {P : Profile} h len :
  header_wf h -> version h < 8 -> in_width 16 len -> len mod 4 = 0 -> 4 < len ->
  parse_ntp_packet (tiny_query h len) =
  Ok (mkNtp h [mkExt NTSCookie []; mkExt NTSAuthenticator [];
               mkExt UniqueIdentifier (replicate (Z.to_nat (len - 4)) x00)]).
Proof.
  intros Hh Hv Hl Hm H4. unfold parse_ntp_packet, tiny_query.
  rewrite parse_serialize_header, set_version_id by done. res_step.
  rewrite slice_from_ok by (zl; lia). res_step.
  rewrite drop_app_length' by by rewrite serialize_header_length.
  erewrite (proj2 (parse_extensions_Ok _ _)); [done|]. rewrite <- !app_assoc.
  apply (stream_ext EXT_TYPE_NTS_COOKIE 4 [] _); try done.
  apply (stream_ext EXT_TYPE_NTS_AUTHENTICATOR 4 [] _); try done.
  pose proof (stream_cut EXT_TYPE_UNIQUE_IDENTIFIER len []) as Hcut.
  rewrite app_nil_r in Hcut. cbn [app length] in Hcut. rewrite Nat.sub_0_r in Hcut.
  apply Hcut; try done. rewrite zlen_nil. lia.
Qed.

(** The kiss of death for such a query, and its bytes. *)
Lemma kod_of_tiny h len :
  kod_packet (mkNtp h [mkExt NTSCookie []; mkExt NTSAuthenticator [];
    mkExt UniqueIdentifier (replicate (Z.to_nat (len - 4)) x00)]) =
  mkNtp (kod_header (NtpProtocol.transmit_timestamp h))
    [mkExt UniqueIdentifier (replicate (Z.to_nat (len - 4)) x00)].
Proof.
  unfold kod_packet, extract_extension. cbn [header exts List.find ext_type].
  repeat (rewrite bool_decide_false by done). by rewrite bool_decide_true.
Qed.

Lemma kod_bytes h len :
  in_width 16 len -> len mod 4 = 0 -> 4 < len ->
  serialize_ntp_packet (E := io_error)
    (mkNtp h [mkExt UniqueIdentifier (replicate (Z.to_nat (len - 4)) x00)]) =
  Ok (serialize_header h ++ be_bytes 2 EXT_TYPE_UNIQUE_IDENTIFIER ++ be_bytes 2 len ++
      replicate (Z.to_nat (len - 4)) x00).
Proof.
  intros Hl Hm H4. unfold serialize_ntp_packet. cbn [header exts serialize_extensions contents ext_type].
  rewrite zlen_replicate, Z2Nat.id by lia.
  rewrite bool_decide_false by (intros H; apply H; rewrite Zminus_mod, Hm; done).
  replace (len - 4 + 4) with len by lia.
  rewrite wrap_id by done. res_step. by rewrite app_nil_r.
Qed.

(** C40: the kiss of death amplifies.  A 60-byte client query whose last extension
    is a unique identifier cut off after its length field is answered, without any
    valid cookie, with [48 + len] bytes, where [len] is the declared length: the
    parser fills the missing bytes with zeros, and the answer is the header of the
    kiss of death followed by a unique identifier of [len - 4] zero bytes. *)
Theorem kod_amplifies {P : Profile} {A : Aead} {R} {G : Rng R} (L : AeadLaws A) (GL : RngLaws G)
    env (s : Srv R) rt tt d h len :
  ready env s rt tt d -> header_wf h -> version h < 8 -> mode h = Client ->
  in_width 16 len -> len mod 4 = 0 -> 4 < len ->
  zlen (tiny_query h len) = 60 /\
  runs (response env (tiny_query h len) rt tt) s
    [QUERY_COUNTER; NTS_COUNTER; MALFORMED_COOKIE_COUNTER; KOD_COUNTER]
    (fun b => zlen b = 48 + len /\
       b = serialize_header (kod_header (NtpProtocol.transmit_timestamp h)) ++
           be_bytes 2 EXT_TYPE_UNIQUE_IDENTIFIER ++ be_bytes 2 len ++
           replicate (Z.to_nat (len - 4)) x00).
Proof.
  intros Hrd Hh Hv Hm Hl Hmod H4. split; [unfold tiny_query; zl|].
  pose proof (tiny_query_parses h len Hh Hv Hl Hmod H4) as Hq.
  eapply runs_weaken.
  - eapply (response_refused _ _ _ (mkExt NTSCookie []) _ _ _ _ [MALFORMED_COOKIE_COUNTER]);
      try done. by apply refused_malformed.
  - intros b (Hb & _ & ->). rewrite (kod_of_tiny h len) in Hb. split.
    + cbn [kod_packet exts extract_extension List.find ext_type].
      repeat (rewrite bool_decide_false by done). rewrite bool_decide_true by done.
      cbn [exts_size foldr contents]. rewrite zlen_replicate. lia.
    + by rewrite (kod_bytes _ _ Hl Hmod H4) in Hb; apply Ok_inj in Hb.
Qed.

(** ** Witnesses *)
Module ServerExample.
Import Toy.
Definition noon : SystemTime := 1700000000 * NANOS + 123456789.
Definition rotator_key : bytes := replicate 32 x07.
Definition kr : KeyRotator :=
  mkRotator "memcache://localhost" "/nts/nts-keys" 3600 2 24 [x01] 360000 {[360000 := rotator_key]}.
Definition srv : Srv Z :=
  mkSrv (mkLock false kr) (mkLock false (initial_servstate noon None)) (fun _ => 0)
    "127.0.0.1:4123" [] [] 5 [] [].
Definition env : Env := mkEnv (Some (Some "10.0.0.1")) 100 200 noon noon true true (fun _ => None).
Definition session : NTSKeys := mkKeys (replicate 32 x0a) (replicate 32 x09).
Definition hdr : NtpPacketHeader := mkHeader NoLeap 4 Client 0 0 0 0 0 0 0 0 0 77.
Definition uid : NtpExtension := mkExt UniqueIdentifier (replicate 32 x11).
Definition cookie : NtpExtension :=
  mkExt NTSCookie (cookie_bytes 360000 (replicate 16 x05) rotator_key session).
Definition placeholder : NtpExtension := mkExt NTSCookiePlaceholder (replicate 100 x00).
Definition packet : NtsPacket := mkNts hdr [uid; cookie; placeholder] [].
Definition bytes_of (key : bytes) : bytes :=
  match (serialize_nts_packet (E := io_error) packet key 3).1 with Ok b => b | _ => [] end.
(** The query, the same query sealed under a wrong key, and a plain one. *)
Definition query : bytes := bytes_of (c2s session).
Definition forged : bytes := bytes_of (s2c session).
Definition plain : bytes := serialize_header hdr.
(** The query with the declared length of its authenticator replaced. *)
Definition overrun : bytes := take 294 query ++ be_bytes 2 4096 ++ drop 296 query.
Definition parsed (b : bytes) : NtpPacket :=
  match parse_ntp_packet (P := Debug) b with Ok q => q | _ => mkNtp hdr [] end.

Lemma srv_ready : ready (P := Debug) env srv noon noon 9.
Proof.
  split_and!; try by vm_compute.
  - split_and!; [done|by vm_compute|by exists rotator_key].
  - by eexists.
Qed.
Lemma cookie_opened : opened (A := toy_aead) kr (contents cookie) session.
Proof. exists 360000, rotator_key. split_and!; by vm_compute. Qed.
End ServerExample.

Section Witnesses.
Import Toy ServerExample.

Lemma plain_reply_correct_witness :
  runs (response (P := Debug) (A := toy_aead) env plain noon noon) srv [QUERY_COUNTER] (fun b =>
    zlen b = 48 /\
    parse_ntp_packet (P := Debug) b =
      Ok (mkNtp (reply_header (guarded (servstate srv)) (parsed plain) noon noon 9) [])).
Proof.
  apply (plain_reply_correct (P := Debug) toy_aead_laws toy_rng_laws env plain (parsed plain) srv noon noon 9);
    [exact srv_ready|by vm_compute..].
Defined.

Lemma nts_reply_correct_witness :
  runs (response (P := Debug) (A := toy_aead) env query noon noon) srv [QUERY_COUNTER; NTS_COUNTER]
    (nts_reply (P := Debug) (A := toy_aead) kr session
      (set_transmit (stamp noon) (reply_header (guarded (servstate srv)) (parsed query) noon noon 9)) packet).
Proof.
  apply (nts_reply_correct (P := Debug) toy_aead_laws toy_rng_laws env query (parsed query) cookie
    session packet srv noon noon 9); [exact srv_ready|by vm_compute..|exact cookie_opened|by vm_compute].
Defined.

(** A cookie cut short, and a query sealed under the wrong key. *)
Lemma kod_correct_witness :
  runs (response (P := Debug) (A := toy_aead) env (tiny_query hdr 8) noon noon) srv
    [QUERY_COUNTER; NTS_COUNTER; MALFORMED_COOKIE_COUNTER; KOD_COUNTER]
    (kod_reply (P := Debug) (parsed (tiny_query hdr 8))) /\
  runs (response (P := Debug) (A := toy_aead) env forged noon noon) srv
    [QUERY_COUNTER; NTS_COUNTER; KOD_COUNTER] (kod_reply (P := Debug) (parsed forged)).
Proof.
  split.
  { apply (kod_correct (P := Debug) toy_aead_laws toy_rng_laws env (tiny_query hdr 8)
      (parsed (tiny_query hdr 8)) (mkExt NTSCookie []) srv noon noon 9 [MALFORMED_COOKIE_COUNTER]);
      [exact srv_ready|by vm_compute..|].
    by apply refused_malformed. }
  apply (kod_correct (P := Debug) toy_aead_laws toy_rng_laws env forged (parsed forged) cookie srv
    noon noon 9 []); [exact srv_ready|by vm_compute..|].
  apply (refused_authenticator _ _ _ 360000 rotator_key session
    (IoError InvalidInput "authentication failed")); by vm_compute.
Defined.

Lemma response_panics_iff_witness :
  is_panic (response (P := Debug) (A := toy_aead) env overrun noon noon srv).1 = true.
Proof.
  apply (response_panics_iff (P := Debug) toy_aead_laws toy_rng_laws env overrun srv noon noon 9);
    [exact srv_ready|by vm_compute|].
  exists (parsed overrun), cookie, session. split_and!; [by vm_compute..|exact cookie_opened|].
  exists (take 48 query), (take 244 (drop 48 query)), [uid; cookie; placeholder], 4096, (drop 296 query).
  split_and!; [by vm_compute|by vm_compute| |by vm_compute..].
  apply (serialize_extensions_fields (E := io_error)); [apply (bool_decide_unpack _); by vm_compute..|].
  by vm_compute.
Defined.

Lemma nts_reply_bounded_witness :
  runs (response (P := Debug) (A := toy_aead) env query noon noon) srv [QUERY_COUNTER; NTS_COUNTER]
    (fun b => zlen b <= zlen query + 36 /\
      (exts_size (auth_exts packet) + 88 <= zlen query -> zlen b <= zlen query)).
Proof.
  apply (nts_reply_bounded (P := Debug) toy_aead_laws toy_rng_laws env query (parsed query) cookie
    session packet srv noon noon 9);
    [exact srv_ready|by vm_compute..|exact cookie_opened|by vm_compute|].
  apply elem_of_cons. right. apply elem_of_cons. by left.
Defined.

Lemma kod_amplifies_witness :
  zlen (tiny_query hdr 65456) = 60 /\
  runs (response (P := Debug) (A := toy_aead) env (tiny_query hdr 65456) noon noon) srv
    [QUERY_COUNTER; NTS_COUNTER; MALFORMED_COOKIE_COUNTER; KOD_COUNTER]
    (fun b => zlen b = 48 + 65456 /\
       b = serialize_header (kod_header 77) ++
           be_bytes 2 EXT_TYPE_UNIQUE_IDENTIFIER ++ be_bytes 2 65456 ++
           replicate (Z.to_nat (65456 - 4)) x00).
Proof.
  apply (kod_amplifies (P := Debug) toy_aead_laws toy_rng_laws env srv noon noon 9 hdr 65456);
    [exact srv_ready|by vm_compute..].
Defined.
End Witnesses.
