(* ===== verification/ServerLoop.v ===== *)
(** * The NTP server's threads

    Around [response]: the receive loop of [run_server], the thread of
    [refresh_servstate] that follows an upstream server, and the interleaving of
    both with the rotation of the keys.  [quiet m] says that [m], whatever its
    outcome, touches neither of the two locks, nothing that is sent, and not the
    count of mangled packets. *)

From stdpp Require Import prelude list numbers strings pretty gmap relations.
From Stdlib Require Import Strings.Byte.
From S2P Require Import Prelude Words Crypto Time NtpProtocol NtpExtensions NtsPackets Cookie KeyRotator.
From S2P Require Import ServerClock NtpServer ServerReplies.

Open Scope Z_scope.

Section Quiet.
Context {P : Profile} {A : Aead} {R : Type} {G : Rng R}.
Implicit Types (s : Srv R).

Definition unmoved s s' : Prop :=
  keys s' = keys s /\ servstate s' = servstate s /\ client_addr s' = client_addr s /\
  sent s' = sent s /\ upstream_sent s' = upstream_sent s /\
  counters s' MANGLED_PACKET_COUNTER = counters s MANGLED_PACKET_COUNTER /\
  forall c, counters s c <= counters s' c.

#[local] Instance unmoved_preorder : PreOrder unmoved.
Proof.
  split; [by intros s; split_and!|].
  intros s1 s2 s3 (? & ? & ? & ? & ? & ? & L1) (? & ? & ? & ? & ? & ? & L2).
  split_and!; try congruence. intros c. specialize (L1 c). specialize (L2 c). lia.
Qed.

Definition quiet {B} (m : M (Srv R) io_error B) : Prop := forall s, unmoved s (m s).2.

Lemma quiet_bind {B C} (m : M (Srv R) io_error B) (k : B -> M (Srv R) io_error C) :
  quiet m -> (forall b, quiet (k b)) -> quiet (m ≫= k).
Proof.
  intros Hm Hk s. rewrite M_bind_eq. specialize (Hm s).
  destruct (m s) as [[b| |] s1]; cbn in *; try done. etrans; [exact Hm|apply Hk].
Qed.
Lemma quiet_lift {B} (r : io_result B) : quiet (lift r).
Proof. intros s. cbn. reflexivity. Qed.
Lemma quiet_ret {B} (b : B) : quiet (mret b).
Proof. intros s. cbn. reflexivity. Qed.
Lemma quiet_get : quiet get_state.
Proof. intros s. cbn. reflexivity. Qed.
Lemma quiet_on_rng {B} (m : M R io_error B) : quiet (on_rng m).
Proof. intros s. unfold on_rng. destruct (m (rng s)). by split_and!. Qed.
Lemma quiet_inc c : c ≠ MANGLED_PACKET_COUNTER -> quiet (inc c).
Proof.
  intros Hc s. split_and!; try done; cbn; [by rewrite decide_False by done|].
  intros c'. case_decide; lia.
Qed.
Lemma quiet_ntp_meas x : quiet (modify (add_ntp_meas x)).
Proof. intros s. by split_and!. Qed.
Lemma quiet_nts_meas x : quiet (modify (add_nts_meas x)).
Proof. intros s. by split_and!. Qed.

Create HintDb quiet.
#[local] Hint Resolve quiet_lift quiet_ret quiet_get quiet_on_rng quiet_inc quiet_ntp_meas quiet_nts_meas : quiet.
Ltac go := repeat first
  [ progress intros | progress (auto with quiet) | discriminate
  | apply quiet_bind | case_bool_decide | case_match ].

Lemma quiet_read_keys : quiet read_keys.
Proof. unfold read_keys. go. Qed.
#[local] Hint Resolve quiet_read_keys : quiet.
Lemma quiet_measure ip ch n : quiet (measure ip ch n add_ntp_meas) /\ quiet (measure ip ch n add_nts_meas).
Proof. unfold measure. split; go. Qed.
Lemma quiet_kod q : quiet (send_kiss_of_death q).
Proof. unfold send_kiss_of_death, kiss_of_death. go. Qed.
Lemma quiet_new_cookie k : quiet (new_cookie k).
Proof. unfold new_cookie. go. Qed.
#[local] Hint Resolve quiet_kod quiet_new_cookie : quiet.
Lemma quiet_nts_response_loop k es p : quiet (nts_response_loop k es p).
Proof. revert p. induction es as [|e es IH]; intros p; cbn [nts_response_loop]; go. Qed.
#[local] Hint Resolve quiet_nts_response_loop : quiet.
Lemma quiet_process_nts env h k query : quiet (process_nts env h k query).
Proof. unfold process_nts, nts_response. go. Qed.
#[local] Hint Resolve quiet_process_nts : quiet.

Lemma quiet_response env query rt tt : quiet (response env query rt tt).
Proof. unfold response. go; apply quiet_measure. Qed.
End Quiet.

(** ** The receive loop *)
Section Loop.
Context {P : Profile} {A : Aead} {R : Type} {G : Rng R}.
Implicit Types (s : Srv R).

(** The packet information of the socket's family. *)
Definition pktinfo (ipv4 : bool) (m : ControlMessage) : bool :=
  match m with Ipv4PacketInfo _ => ipv4 | Ipv6PacketInfo _ => negb ipv4 | _ => false end.

Lemma scan_cmsgs_msgs ipv4 ms t acc :
  (scan_cmsgs ipv4 ms t acc).2 = acc ++ List.filter (pktinfo ipv4) ms.
Proof.
  revert t acc. induction ms as [|m ms IH]; intros t acc; cbn; [by rewrite app_nil_r|].
  destruct m, ipv4; cbn; rewrite IH, <- ?app_assoc; done.
Qed.

Lemma receive_system_no_err tv e : receive_system tv ≠ Err e.
Proof.
  unfold receive_system. destruct (umul 32 (wrap 32 tv.2) 1000) as [n|e'|p] eqn:E; cbn; [|exfalso|done].
  - case_bool_decide; [|done]. by destruct (systime_checked_add _ _).
  - unfold umul, fit in E. case_bool_decide; [done|]. by destruct overflow_checks.
Qed.

(** The datagrams that came with an address to answer to. *)
Definition with_sender (e : Env * option RecvMsg) : option RecvMsg :=
  r ← e.2; _ ← address r; Some r.

(** The reply [m] goes to the sender of [r], through the interface [r] came in. *)
Definition replies_to (ipv4 : bool) (r : RecvMsg) (m : SendMsg) : Prop :=
  address r = Some (dest m) /\ control m = List.filter (pktinfo ipv4) (cmsgs r).

Definition mangled s : Z := counters s MANGLED_PACKET_COUNTER.

(** What becomes of a datagram: it is answered, its answer could not be sent, or it
    is counted as mangled. *)
Inductive Fate := Answered (m : SendMsg) | Unsent (m : SendMsg) | Mangled.
Definition fate_ok (ipv4 : bool) (a : Env * RecvMsg) (f : Fate) : Prop :=
  match f with
  | Answered m => replies_to ipv4 a.2 m /\ sendmsg a.1 m = None
  | Unsent m => replies_to ipv4 a.2 m /\ is_Some (sendmsg a.1 m)
  | Mangled => True
  end.
Definition answer_of (f : Fate) : option SendMsg := match f with Answered m => Some m | _ => None end.
Definition mangled_of (f : Fate) : option unit := match f with Mangled => Some tt | _ => None end.
Definition answerable (e : Env * option RecvMsg) : option (Env * RecvMsg) := r ← with_sender e; Some (e.1, r).

(** One round: what it leaves alone, and its one effect. *)
Lemma round_spec ipv4 env r s :
  let '(o, s') := run_server_round ipv4 env r s in
  keys s' = keys s /\ servstate s' = servstate s /\ upstream_sent s' = upstream_sent s /\
  match o with
  | Ok _ =>
    match answerable (env, r) with
    | None => sent s' = sent s /\ mangled s' = mangled s
    | Some a => exists f, fate_ok ipv4 a f /\
        sent s' = sent s ++ omap answer_of [f] /\ mangled s' = mangled s + zlen (omap mangled_of [f])
    end
  | Err _ => False
  | Panic _ => sent s' = sent s /\ mangled s' = mangled s
  end.
Proof.
  unfold run_server_round, answerable, with_sender. destruct r as [r|]; [|by split_and!].
  cbn [fst snd mbind option_bind]. destruct (address r) as [src|] eqn:Ha; [|by split_and!].
  pose proof (scan_cmsgs_msgs ipv4 (cmsgs r) (0, 0) []) as Hm.
  destruct (scan_cmsgs _ _ _ _) as [rt msgs]. cbn in Hm. subst msgs.
  rewrite bind_modify, bind_lift.
  destruct (receive_system rt) as [t|e|p] eqn:Hrt; [|exfalso|by split_and!].
  2: { by apply receive_system_no_err in Hrt. }
  unfold on_result. pose proof (quiet_response env (take (Z.to_nat BUF_SIZE) (datagram r)) t
    (transmit_time env) (set_client_addr src s)) as Hq.
  destruct (response _ _ _ _ _) as [[b|e|p] s1]; destruct Hq as (? & ? & ? & Hsent & ? & Hmg & _); cbn [snd] in *.
  - set (m := mkSend b (List.filter (pktinfo ipv4) (cmsgs r)) src).
    assert (replies_to ipv4 r m) as Hre by by split.
    destruct (sendmsg env m) as [e|] eqn:Hm; (split_and!; [done..|]).
    + exists (Unsent m). split; [by split; [|eexists]|]. cbn. rewrite app_nil_r. unfold mangled. rewrite Hmg. split; [done|]. rewrite zlen_nil. cbn. lia.
    + exists (Answered m). split; [by split|]. cbn. rewrite Hsent. split; [done|]. unfold mangled. cbn. rewrite Hmg, zlen_nil. cbn. lia.
  - split_and!; [done..|]. exists Mangled. split; [done|]. cbn. rewrite app_nil_r. split; [done|].
    unfold mangled. cbn. rewrite Hmg. done.
  - split_and!; done.
Qed.

(** C22: the receive loop, whatever arrives.  For any datagrams and any answers of
    the outside, the loop changes neither the keys nor the server's state and never
    returns an error.  The datagrams with a sender are handled in order, all of them
    unless a handler panics, and each has one fate: it is answered once, to the
    address it came from and through the same interface; it has such an answer, but
    [sendmsg] refused it, which nothing counts; or it is counted as mangled.  Nothing
    else is sent or counted as mangled. *)
Theorem run_server_accounts ipv4 events s :
  let '(o, s') := run_server ipv4 events s in
  keys s' = keys s /\ servstate s' = servstate s /\
  exists handled fates, Forall2 (fate_ok ipv4) handled fates /\
    sent s' = sent s ++ omap answer_of fates /\
    mangled s' = mangled s + zlen (omap mangled_of fates) /\
    match o with
    | Ok _ => handled = omap answerable events
    | Err _ => False
    | Panic _ => handled `prefix_of` omap answerable events
    end.
Proof.
  revert s. induction events as [|[env r] events IH]; intros s.
  { cbn [run_server mret M_ret]. split_and!; [done..|]. exists [], []. rewrite app_nil_r.
    split_and!; [constructor|done| |done]. cbn. rewrite zlen_nil. lia. }
  cbn [run_server]. rewrite M_bind_eq. pose proof (round_spec ipv4 env r s) as Hr.
  destruct (run_server_round ipv4 env r s) as [[[]|e|pn] s1]; [|by destruct Hr as (_ & _ & _ & [])|].
  2: { destruct Hr as (? & ? & _ & Hs & Hm). split_and!; [done..|]. exists [], []. rewrite app_nil_r.
       split_and!; [constructor|done|cbn; rewrite zlen_nil; lia|apply prefix_nil]. }
  destruct Hr as (Hk & Hst & _ & Hr). specialize (IH s1).
  destruct (run_server ipv4 events s1) as [o s2].
  destruct IH as (Hk2 & Hst2 & handled & fates & Hf & Hsent & Hm & Ho).
  split_and!; [congruence..|].
  assert (omap answerable ((env, r) :: events) = match answerable (env, r) with
    | Some a => a :: omap answerable events | None => omap answerable events end) as -> by done.
  destruct (answerable (env, r)) as [a|]; cycle 1.
  { destruct Hr as [Hs1 Hm1]. exists handled, fates. rewrite Hsent, Hm, Hs1, Hm1. by split_and!. }
  destruct Hr as (f & Hfa & Hs1 & Hm1). exists (a :: handled), (f :: fates).
  assert (forall B (g : Fate -> option B), omap g (f :: fates) = omap g [f] ++ omap g fates) as Happ
    by (intros B g; cbn; by destruct (g f)).
  rewrite !Happ, Hsent, Hm, Hs1, Hm1, <- app_assoc. split_and!; [by constructor|done|zl|].
  destruct o; [by rewrite Ho|done|by apply prefix_cons].
Qed.

(** ** Survival *)

(** A datagram that the server, with its surroundings in order, handles without
    a panic. *)
Definition benign (ipv4 : bool) s (e : Env * option RecvMsg) : Prop :=
  forall r, with_sender e = Some r ->
    exists rt d, receive_system (scan_cmsgs ipv4 (cmsgs r) (0, 0) []).1 = Ok rt /\
      ready e.1 s rt (transmit_time e.1) d /\
      ~ crashes (guarded (keys s)) (take (Z.to_nat BUF_SIZE) (datagram r)).

Lemma ready_ext env s s' rt tt d :
  keys s' = keys s -> servstate s' = servstate s -> ready env s rt tt d -> ready env s' rt tt d.
Proof. unfold ready. by intros -> ->. Qed.

Lemma benign_ext ipv4 s s' e : keys s' = keys s -> servstate s' = servstate s -> benign ipv4 s e -> benign ipv4 s' e.
Proof.
  intros Hk Hs Hb r Hr. destruct (Hb r Hr) as (rt & d & ? & ? & ?). exists rt, d. rewrite Hk.
  split_and!; [done| |done]. by eapply ready_ext.
Qed.

Lemma round_survives (L : AeadLaws A) (GL : RngLaws G) ipv4 env r s :
  benign ipv4 s (env, r) -> exists s', run_server_round ipv4 env r s = (Ok tt, s').
Proof.
  intros Hb. unfold run_server_round. destruct r as [r|]; [|by eexists].
  destruct (address r) as [src|] eqn:Ha; [|by eexists].
  destruct (Hb r) as (rt & d & Hrt & Hrd & Hc).
  { unfold with_sender. cbn. by rewrite Ha. }
  destruct (scan_cmsgs _ _ _ _) as [t msgs]. cbn in Hrt.
  rewrite bind_modify, bind_lift, Hrt. cbn [fst] in Hrd.
  assert (ready env (set_client_addr src s) rt (transmit_time env) d) as Hrd' by exact Hrd.
  pose proof (response_panic_spec env (take (Z.to_nat BUF_SIZE) (datagram r)) _ _ _ _ Hrd') as Hp.
  unfold on_result. destruct (response _ _ _ _ _) as [[b|e|pn] s1];
    [destruct (sendmsg env _); by eexists|by eexists|].
  exfalso. apply Hc, Hp; [|done]. unfold zlen. rewrite length_take. unfold BUF_SIZE. lia.
Qed.

(** The receive loop survives.  With the server's surroundings in order, the
    loop handles any sequence of datagrams to its end, whatever they hold, as long
    as none of them is of the one kind that crashes [response]. *)
Lemma run_server_survives (L : AeadLaws A) (GL : RngLaws G) ipv4 events s :
  Forall (benign ipv4 s) events -> exists s', run_server ipv4 events s = (Ok tt, s').
Proof.
  intros Hb. revert s Hb. induction events as [|[env r] events IH]; intros s Hb; [by eexists|].
  apply Forall_cons in Hb as [He Hb]. destruct (round_survives L GL ipv4 env r s He) as [s1 H1].
  cbn [run_server]. rewrite (M_bind_run _ _ _ _ _ H1). apply IH.
  pose proof (round_spec ipv4 env r s) as Hr. rewrite H1 in Hr. destruct Hr as (Hk & Hst & _).
  eapply Forall_impl; [exact Hb|]. intros e. by apply benign_ext.
Qed.

(** ** The upstream server *)
Lemma taken_from_wf h now : header_wf h -> servstate_wf (taken_from h now).
Proof. intros (? & ? & ? & ? & ? & ? & ? & ? & _). by split_and!. Qed.

Lemma parsed_wf b q : parse_ntp_packet b = Ok q -> header_wf (header q).
Proof.
  intros (b1 & rest & _ & _ & Hh & _)%parse_ntp_packet_inv. by apply parse_packet_header_wf in Hh as (? & _).
Qed.

(** What a round reads from the upstream server. *)
Definition upstream_packet (u : Upstream) : option NtpPacket :=
  d ← up_recv u; match parse_ntp_packet (take 2048 d) with Ok p => Some p | _ => None end.

(** C31: following the upstream server.  One round sends a 48-byte query that reads
    back as the intended client packet; a reply that parses, whatever it claims,
    becomes the server's state, which is then in the range of its types; any other
    outcome leaves the state alone and counts a failure.  Nothing else changes,
    and the round does not panic unless the socket's connect or send fails. *)
Theorem refresh_correct u s :
  poisoned (servstate s) = false -> up_connect u = true -> up_send u = true ->
  exists s' b, refresh_servstate_round u s = (Ok tt, s') /\
    upstream_sent s' = upstream_sent s ++ [b] /\ zlen b = 48 /\ parse_ntp_packet b = Ok upstream_query /\
    keys s' = keys s /\ sent s' = sent s /\ client_addr s' = client_addr s /\
    match upstream_packet u with
    | Some p =>
      servstate s' = mkLock false (taken_from (header p) (up_now u)) /\
      servstate_wf (taken_from (header p) (up_now u)) /\
      counters s' UPSTREAM_FAILURE_COUNTER = counters s UPSTREAM_FAILURE_COUNTER
    | None =>
      servstate s' = servstate s /\
      counters s' UPSTREAM_FAILURE_COUNTER = counters s UPSTREAM_FAILURE_COUNTER + 1
    end.
Proof.
  intros Hp Hc Hs. unfold refresh_servstate_round, upstream_packet. rewrite bind_lift, Hc, bind_lift.
  destruct (parse_serialize_ntp (header upstream_query) []) as (b & Hb & Hpar & Hl);
    [apply (bool_decide_unpack _); reflexivity|reflexivity|constructor|].
  change (mkNtp (header upstream_query) []) with upstream_query in *.
  rewrite Hb, bind_lift, Hs. unfold inc. rewrite !bind_modify.
  assert (zlen b = 48) as Hl' by (rewrite Hl; done).
  destruct (up_recv u) as [d|]; cbn [mbind option_bind].
  2: { eexists _, b. split_and!; try reflexivity; done. }
  pose proof (parse_ntp_packet_no_panic (take 2048 d)) as Hnp.
  destruct (parse_ntp_packet (take 2048 d)) as [q|e|pn] eqn:Hq; [| |done].
  - rewrite bind_get_state, bind_lift. cbn [servstate set_counters add_upstream_sent].
    unfold read_lock. rewrite Hp. eexists _, b. split_and!; try reflexivity; try done.
    apply taken_from_wf. by eapply parsed_wf.
  - eexists _, b. split_and!; try reflexivity; done.
Qed.
End Loop.

(** ** All threads together *)
Section System.
Context {P : Profile} {A : Aead} {H : Hmac} {R ME : Type} {G : Rng R}.

(** The server process: its shared state and the rotation counters. *)
Record Process := mkProcess { srv : Srv R; proc_rotations : Z; proc_failures : Z }.

Definition set_keys (l : RwLock KeyRotator) (s : Srv R) : Srv R :=
  mkSrv l (servstate s) (counters s) (client_addr s) (ntp_meas s) (nts_meas s)
    (rng s) (sent s) (upstream_sent s).

(** [inner] of the rotation thread on the keys the server threads read. *)
Definition rotate_keys (w : World ME) (y : Process) : res (RotateError ME) unit * Process :=
  let l := keys (srv y) in
  let '(o, l') := inner w (mkLock (poisoned l) (mkState (guarded l) (proc_rotations y) (proc_failures y))) in
  (o, mkProcess (set_keys (mkLock (poisoned l') (rot (guarded l'))) (srv y))
        (rotations (guarded l')) (failures (guarded l'))).

(** One step of one of the threads, in any order.  A server thread or the
    upstream thread may also end its step by panicking. *)
Inductive thread_step : Process -> Process -> Prop :=
  | step_serve y ipv4 env r :
      thread_step y (mkProcess (run_server_round ipv4 env r (srv y)).2 (proc_rotations y) (proc_failures y))
  | step_refresh y u :
      thread_step y (mkProcess (refresh_servstate_round u (srv y)).2 (proc_rotations y) (proc_failures y))
  | step_rotate y w :
      sane w (guarded (keys (srv y))) -> thread_step y (rotate_keys w y).2.

(** Both locks are usable, the state announced to clients is in range, and the
    rotator has the configuration of [r0]. *)
Definition healthy (r0 : KeyRotator) (y : Process) : Prop :=
  poisoned (keys (srv y)) = false /\ poisoned (servstate (srv y)) = false /\
  servstate_wf (guarded (servstate (srv y))) /\ same_config r0 (guarded (keys (srv y))).

Lemma refresh_healthy u (s : Srv R) :
  poisoned (servstate s) = false -> servstate_wf (guarded (servstate s)) ->
  let s' := (refresh_servstate_round u s).2 in
  keys s' = keys s /\ poisoned (servstate s') = false /\ servstate_wf (guarded (servstate s')).
Proof.
  intros Hp Hw. unfold refresh_servstate_round. rewrite bind_lift.
  destruct (up_connect u); [|done]. rewrite bind_lift.
  destruct (serialize_ntp_packet upstream_query); [|done..]. rewrite bind_lift.
  destruct (up_send u); [|done]. unfold inc. rewrite !bind_modify.
  destruct (up_recv u) as [d|]; [|done].
  destruct (parse_ntp_packet (take 2048 d)) as [q|e|pn] eqn:Hq; [|done..].
  rewrite bind_get_state, bind_lift. cbn [servstate set_counters add_upstream_sent].
  unfold read_lock. rewrite Hp. split_and!; [done|done|].
  apply taken_from_wf. by eapply parsed_wf.
Qed.

Lemma healthy_step r0 y y' : thread_step y y' -> healthy r0 y -> healthy r0 y'.
Proof.
  intros Hst (Hk & Hs & Hw & Hc). destruct Hst as [y ipv4 env r|y u|y w Hsane].
  - pose proof (round_spec ipv4 env r (srv y)) as Hr. unfold healthy. cbn [srv].
    destruct (run_server_round _ _ _ _) as [o s']. destruct Hr as (Hk' & Hs' & _).
    cbn [snd]. rewrite Hk', Hs'. done.
  - destruct (refresh_healthy u (srv y) Hs Hw) as (Hk' & ? & ?).
    unfold healthy. cbn [srv]. rewrite Hk'. done.
  - unfold rotate_keys. rewrite Hk, inner_sane by done. split_and!; [done|done|done|].
    cbn [srv set_keys keys guarded]. eapply same_config_trans; [done|].
    by apply (rotate_config w (mkState (guarded (keys (srv y))) (proc_rotations y) (proc_failures y))).
Qed.

Lemma healthy_reachable r0 y y' : healthy r0 y -> rtc thread_step y y' -> healthy r0 y'.
Proof. intros Hh. induction 1 as [|y1 y2 y3 Hst _ IH]; [done|]. by apply IH, (healthy_step _ _ _ Hst). Qed.

(** No thread takes the others down.  From the state in which the NTP server
    starts, through any interleaving of datagrams, upstream replies and key
    rotations, including handlers that panic, no lock is ever poisoned, the
    announced state stays in range and the rotator keeps its configuration. *)
Lemma threads_healthy kr upstream now (y y' : Process) :
  keys (srv y) = mkLock false kr -> servstate (srv y) = mkLock false (initial_servstate now upstream) ->
  rtc thread_step y y' -> healthy kr y'.
Proof.
  intros Hk Hs. apply healthy_reachable. unfold healthy. rewrite Hk, Hs.
  split_and!; [done|done| |apply same_config_refl]. by destruct upstream.
Qed.
End System.
Arguments Process : clear implicits.

(** ** Witnesses *)
Section Witnesses.
Import Toy ServerExample.

(** A plain, a forged and an empty datagram, and one without a sender. *)
Definition received (b : bytes) : option RecvMsg :=
  Some (mkRecv b (Some "10.0.0.9:5000") [ScmTimestamp 1700000000 123456; Ipv4PacketInfo [x01]]).
Definition arrivals : list (Env * option RecvMsg) :=
  [(env, received plain); (env, received query); (env, received forged); (env, received []);
   (env, Some (mkRecv plain None []))].

Lemma run_server_survives_witness :
  exists s', run_server (P := Debug) (A := toy_aead) true arrivals srv = (Ok tt, s').
Proof.
  apply (run_server_survives (P := Debug) toy_aead_laws toy_rng_laws true arrivals srv).
  assert (forall b, is_panic (response (P := Debug) (A := toy_aead) env (take (Z.to_nat BUF_SIZE) b) noon noon srv).1 = false ->
    benign (P := Debug) (A := toy_aead) true srv (env, received b)) as Hb.
  { intros b Hb r Hr. injection Hr as <-. exists (1700000000 * NANOS + 123456000), 9.
    split_and!; [reflexivity| |].
    - destruct srv_ready as (? & ? & ? & ? & ? & ? & ? & ? & ? & ? & ?).
      split_and!; try assumption; by vm_compute.
    - intros Hc. eapply (response_panic_spec (P := Debug) (A := toy_aead) env _ srv noon noon 9) in Hc;
        [cbn [datagram] in Hc; rewrite Hb in Hc; discriminate Hc|exact srv_ready|]. cbn [datagram]. unfold zlen. rewrite length_take. unfold BUF_SIZE. lia. }
  repeat (apply Forall_cons; split; [apply Hb; vm_compute; reflexivity|]).
  apply Forall_cons. split; [by intros r Hr|]. by apply Forall_nil_2.
Defined.

Definition upstream_reply : Upstream := mkUpstream true true (Some plain) noon.

Lemma refresh_correct_witness :
  exists s' b, refresh_servstate_round (P := Debug) upstream_reply srv = (Ok tt, s') /\
    upstream_sent s' = [b] /\ zlen b = 48 /\
    servstate s' = mkLock false (taken_from hdr noon) /\ servstate_wf (taken_from hdr noon).
Proof.
  destruct (refresh_correct (P := Debug) upstream_reply srv) as (s' & b & Hr & Hu & Hl & _ & _ & _ & _ & Hm);
    [reflexivity..|].
  exists s', b. split_and!; [exact Hr|exact Hu|exact Hl| |].
  - assert (parse_ntp_packet (P := Debug) plain = Ok (mkNtp hdr [])) as Hp by (vm_compute; reflexivity).
    unfold upstream_packet in Hm. cbn [up_recv upstream_reply mbind option_bind] in Hm.
    change (take 2048 plain) with plain in Hm. rewrite Hp in Hm. apply Hm.
  - apply taken_from_wf. apply (bool_decide_unpack _). by vm_compute.
Defined.

Definition process0 : Process Z := mkProcess srv 0 0.

Lemma threads_healthy_witness :
  exists y', rtc (thread_step (P := Debug) (A := toy_aead) (ME := unit)) process0 y' /\
    counters (ServerLoop.srv y') QUERY_COUNTER = 2 /\ proc_rotations y' = 1 /\ healthy kr y'.
Proof.
  set (y1 := mkProcess (run_server_round (P := Debug) (A := toy_aead) true env (received plain) srv).2 0 0).
  set (y2 := (rotate_keys (P := Debug) (RotatorExample.down 101) y1).2).
  set (y3 := mkProcess (run_server_round (P := Debug) (A := toy_aead) true env (received overrun) (ServerLoop.srv y2)).2
    (proc_rotations y2) (proc_failures y2)).
  assert (rtc (thread_step (P := Debug) (A := toy_aead) (ME := unit)) process0 y3) as Hst.
  { eapply rtc_l; [apply (step_serve process0 true env (received plain))|].
    eapply rtc_l; [apply (step_rotate y1 (RotatorExample.down 101)); vm_compute; split_and!; done|].
    eapply rtc_l; [apply (step_serve y2 true env (received overrun))|]. apply rtc_refl. }
  exists y3. split_and!; [exact Hst|vm_compute; reflexivity|vm_compute; reflexivity|].
  exact (threads_healthy (P := Debug) (A := toy_aead) kr None noon process0 y3 eq_refl eq_refl Hst).
Defined.
End Witnesses.
