(* ===== verification/Portability.v ===== *)
(** * Cookies across processes and hours

    The key exchange server that makes a cookie and the NTP server that opens it
    are different processes, each with its own [KeyRotator]; all they share is the
    operator's master key and the secrets in memcached.  This file follows one
    cookie from the rotator that made it to the rotator of another process, through
    any number of later rotations there. *)

From stdpp Require Import prelude list numbers strings pretty gmap.
From Stdlib Require Import Strings.Byte.
From S2P Require Import Prelude Words Crypto Time NtpProtocol Cookie KeyRotator NtpServer ServerReplies.

Open Scope Z_scope.

Section Portability.
Context {P : Profile} {H : Hmac} {ME : Type}.
Implicit Types (r : KeyRotator) (s : State) (w : World ME).

(** The cache holds the key that the secret [v] gives for period [q]. *)
Definition holds r (q : Z) (v : bytes) : Prop :=
  get r (keyid_of r q) = Some (sign (master_key r) v).

(** Memcached, seen through [w], has no other secret than [v] for [q]. *)
Definition agrees w r (q : Z) (v : bytes) : Prop :=
  forall v', secret w r q = Some v' -> v' = v.

(** [q] is among the periods that a rotator keeps while the clock is in the
    period of [w]. *)
Definition current w r (q : Z) : Prop :=
  0 < q /\ period_of w r <= q + number_of_backward_periods r /\
  q <= period_of w r + number_of_forward_periods r.

Lemma fetch_holds w r q v ps c :
  (forall q', q' ∈ ps -> keyid_of r q' = keyid_of r q -> q' = q) -> agrees w r q v ->
  c !! keyid_of r q = Some (sign (master_key r) v) ->
  (fetch w r ps c).2 !! keyid_of r q = Some (sign (master_key r) v).
Proof.
  intros Hinj Hag. revert c. induction ps as [|p ps IH]; intros c Hc; cbn; [done|].
  destruct (memc_get w (memcached_key (prefix r) (p * duration r))) as [|[u|]] eqn:Hp; try done.
  apply IH; [intros ? ?; apply Hinj, elem_of_cons; by right|].
  destruct (decide (keyid_of r p = keyid_of r q)) as [E|E]; [|by rewrite lookup_insert_ne].
  assert (p = q) as -> by (apply Hinj; [apply elem_of_cons; by left|done]).
  rewrite (Hag u) by (unfold secret; by rewrite Hp). apply lookup_insert_eq.
Qed.

Lemma current_window_inj w r q q' :
  sane w r -> current w r q -> q' ∈ window r (period_of w r) -> keyid_of r q' = keyid_of r q -> q' = q.
Proof.
  intros (? & ? & ? & ? & _) (? & ? & ?) Hq'%elem_of_window. apply keyid_inj; [done|].
  unfold saturating_sub in *. nia.
Qed.

Lemma current_not_removed w r q : sane w r -> current w r q -> keyid_of r q ≠ keyid_of r (removed_of w r).
Proof.
  intros Hs (? & ? & ?) E. destruct (period_bounds w r Hs). destruct Hs as (Hd & ? & ? & Hwin & _).
  unfold removed_of, first_of, saturating_sub in E. apply keyid_inj in E; [lia|done|nia].
Qed.

(** A rotation, successful or not, keeps the keys of the current window. *)
Lemma rotate_holds w s q v :
  sane w (rot s) -> current w (rot s) q -> agrees w (rot s) q v ->
  holds (rot s) q v -> holds (rot (rotate w s).2) q v.
Proof.
  intros Hs Hc Hag Hh. rewrite rotate_eq by done. unfold rotate_spec, holds, get in *.
  assert (delete (keyid_of (rot s) (removed_of w (rot s))) (cache (rot s)) !! keyid_of (rot s) q =
    Some (sign (master_key (rot s)) v)) as H0.
  { rewrite lookup_delete_ne; [done|]. apply not_eq_sym. by apply current_not_removed. }
  destruct (memc_connect w _); [done|].
  pose proof (fetch_holds w (rot s) q v (window (rot s) (period_of w (rot s))) _
    (fun q' => current_window_inj w (rot s) q q' Hs Hc) Hag H0) as Hf.
  by destruct (fetch _ _ _ _) as [[] c].
Qed.

Lemma holds_config r r' q v : same_config r r' ->
  get r' (keyid_of r q) = Some (sign (master_key r) v) <-> holds r' q v.
Proof. unfold holds. intros Hc. rewrite (keyid_config _ _ _ Hc). by destruct Hc as (_ & _ & _ & _ & _ & ->). Qed.

Lemma sane_current_config w r r' q v :
  same_config r r' -> sane w r /\ current w r q /\ agrees w r q v ->
  sane w r' /\ current w r' q /\ agrees w r' q v.
Proof.
  intros Hc (Hs & Hcur & Hag). split; [by eapply sane_config|]. unfold current, agrees, secret in *.
  rewrite (period_config _ _ _ Hc). destruct Hc as (_ & -> & -> & -> & -> & _). done.
Qed.

Lemma periodic_rotate_holds ws s q v sleeps :
  Forall (fun w => sane w (rot s) /\ current w (rot s) q /\ agrees w (rot s) q v) ws ->
  holds (rot s) q v ->
  exists s', (periodic_rotate ws (mkLock false s) sleeps).2 = mkLock false s' /\ same_config (rot s) (rot s') /\
    holds (rot s') q v.
Proof.
  revert s sleeps. induction ws as [|w ws IH]; intros s sleeps Hws Hh.
  - exists s. split_and!; [done|apply same_config_refl|done].
  - apply Forall_cons in Hws as [(Hs & Hc & Ha) Hws]. cbn [periodic_rotate].
    rewrite inner_sane by done. unfold read_sleep, read_lock. cbn [poisoned guarded]. res_step.
    pose proof (rotate_holds w s q v Hs Hc Ha Hh) as Hh1. pose proof (rotate_config w s Hs) as Hcfg.
    destruct (IH (rotate w s).2 (sleeps ++ [duration (rot (rotate w s).2)])) as (s' & ? & ? & ?).
    + eapply Forall_impl; [done|]. intros w'. by apply sane_current_config.
    + done.
    + exists s'. split_and!; [done|by eapply same_config_trans|done].
Qed.

(** A successful rotation holds the key of every period of its window. *)
Lemma rotate_Ok_holds w s u s' q v :
  sane w (rot s) -> rotate w s = (Ok u, s') -> q ∈ window (rot s) (period_of w (rot s)) ->
  secret w (rot s) q = Some v -> holds (rot s') q v.
Proof.
  intros Hs Hr Hq Hv. pose proof (rotate_config_of _ _ _ _ Hs Hr) as Hc.
  apply (holds_config _ _ _ _ Hc). apply rotate_Ok_inv in Hr as (_ & Hf & ->); [|done].
  unfold get. cbn. apply (fetch_lookup _ _ _ _ _ _ v Hf Hq); [|done].
  destruct (period_bounds w _ Hs). intros. by eapply window_inj.
Qed.
End Portability.

Section Theorem_portable.
Context {P : Profile} {H : Hmac} {ME : Type} {A : Aead}.

(** The latest key of a rotator that has just rotated is in the cache of another
    process, however the other's later rotations end. *)
Lemma latest_key_elsewhere (w1 w2 : World ME) (ws : list (World ME)) s1 s1' s2 s2' u1 u2 :
  sane w1 (rot s1) -> rotate w1 s1 = (Ok u1, s1') ->
  sane w2 (rot s2) -> rotate w2 s2 = (Ok u2, s2') ->
  prefix (rot s2) = prefix (rot s1) -> duration (rot s2) = duration (rot s1) ->
  master_key (rot s2) = master_key (rot s1) ->
  let q := period_of w1 (rot s1) in
  q ∈ window (rot s2) (period_of w2 (rot s2)) -> secret w2 (rot s2) q = secret w1 (rot s1) q ->
  Forall (fun w => sane w (rot s2) /\ current w (rot s2) q /\
    (forall v, secret w (rot s2) q = Some v -> secret w1 (rot s1) q = Some v)) ws ->
  exists s3, (periodic_rotate ws (mkLock false s2') []).2 = mkLock false s3 /\
    get (rot s3) (latest_key_id (rot s1')) = get (rot s1') (latest_key_id (rot s1')).
Proof.
  intros Hs1 Hr1 Hs2 Hr2 Hpre Hdur Hmk q Hq Hsec Hws.
  destruct (rotate_Ok_latest _ _ _ _ Hs1 Hr1) as [Hlat _].
  destruct (rotate_Ok_inv _ _ _ _ Hs1 Hr1) as (_ & Hf & _).
  destruct (fetch_Ok _ _ _ _ _ Hf q (current_in_window w1 _ Hs1)) as [v Hv].
  pose proof (rotate_Ok_holds w1 s1 u1 s1' q v Hs1 Hr1 (current_in_window w1 _ Hs1) Hv) as H1.
  pose proof (rotate_config_of _ _ _ _ Hs1 Hr1) as Hc1. apply (holds_config _ _ _ _ Hc1) in H1.
  pose proof (rotate_config_of _ _ _ _ Hs2 Hr2) as Hc2.
  destruct (periodic_rotate_holds ws s2' q v []) as (s3 & Hs3 & Hc3 & Hh3).
  - eapply Forall_impl; [done|]. intros w (Hs & Hc & Ha). apply (sane_current_config w (rot s2)); [done|].
    split_and!; [done|done|]. intros v' Hv'%Ha. congruence.
  - apply (rotate_Ok_holds w2 s2 u2 s2' q v Hs2 Hr2 Hq). by rewrite Hsec.
  - exists s3. split; [done|]. rewrite Hlat. fold q. rewrite H1, <- Hmk.
    apply (holds_config _ _ _ _ (same_config_trans _ _ _ Hc2 Hc3)) in Hh3.
    rewrite <- Hh3. unfold keyid_of. by rewrite Hdur.
Qed.

Lemma usable_elsewhere (r r' : KeyRotator) k c :
  usable_cookie r k c -> get r' (latest_key_id r) = get r (latest_key_id r) -> opened r' c k.
Proof. intros (_ & Hid & key & Hkey & Heat) Heq. exists (latest_key_id r), key. by rewrite Heq. Qed.

(** C7: cookies are portable and last.  A key exchange server rotates
    successfully in the hour [w1] and makes a cookie; an NTP server with the same
    prefix, period length and master key rotates successfully in an hour [w2]
    whose window contains the first one, and goes on rotating, with or without
    success, in the hours [ws], never more than its backward periods after the
    cookie's.  If memcached gives no two answers for the secret of the cookie's
    period, the NTP server still opens the cookie to the keys it was made for. *)
Theorem cookie_portable (w1 w2 : World ME) (ws : list (World ME)) s1 s1' s2 s2' u1 u2 k c :
  sane w1 (rot s1) -> rotate w1 s1 = (Ok u1, s1') ->
  sane w2 (rot s2) -> rotate w2 s2 = (Ok u2, s2') ->
  prefix (rot s2) = prefix (rot s1) -> duration (rot s2) = duration (rot s1) ->
  master_key (rot s2) = master_key (rot s1) ->
  let q := period_of w1 (rot s1) in
  q ∈ window (rot s2) (period_of w2 (rot s2)) -> secret w2 (rot s2) q = secret w1 (rot s1) q ->
  Forall (fun w => sane w (rot s2) /\ current w (rot s2) q /\
    (forall v, secret w (rot s2) q = Some v -> secret w1 (rot s1) q = Some v)) ws ->
  usable_cookie (rot s1') k c ->
  exists s3, (periodic_rotate ws (mkLock false s2') []).2 = mkLock false s3 /\ opened (rot s3) c k.
Proof.
  intros Hs1 Hr1 Hs2 Hr2 Hpre Hdur Hmk q Hq Hsec Hws Hus.
  destruct (latest_key_elsewhere w1 w2 ws s1 s1' s2 s2' u1 u2) as (s3 & Hs3 & Hkey); [done..|].
  exists s3. split; [done|]. by eapply usable_elsewhere.
Qed.
End Theorem_portable.

Section Witness.
Import Toy RotatorExample.

Definition minted : bytes :=
  match (make_cookie (A := toy_aead) (E := io_error) (mkKeys (replicate 32 x0a) (replicate 32 x09))
    (default [] (get (rot (step (up 100) fresh)) 360000)) 360000 7).1 with Ok c => c | _ => [] end.

(** Made at hour 100, and opened after an outage until hour 124 by a server that
    last reached memcached at hour 98. *)
Lemma cookie_portable_witness :
  exists s3, (periodic_rotate (P := Debug) [down 100; up 110; down 124] (mkLock false (step (up 98) fresh)) []).2 =
      mkLock false s3 /\
    opened (A := toy_aead) (rot s3) minted (mkKeys (replicate 32 x0a) (replicate 32 x09)).
Proof.
  apply (cookie_portable (P := Debug) (up 100) (up 98) [down 100; up 110; down 124] fresh
    (step (up 100) fresh) fresh (step (up 98) fresh) tt tt (mkKeys (replicate 32 x0a) (replicate 32 x09)) minted).
  - vm_compute; split_and!; done.
  - apply rotated. by vm_compute.
  - vm_compute; split_and!; done.
  - apply rotated. by vm_compute.
  - done.
  - done.
  - done.
  - apply elem_of_window. by vm_compute.
  - done.
  - repeat (apply Forall_cons; split; [split_and!; [vm_compute; split_and!; done|vm_compute; split_and!; done|by vm_compute]|]).
    by apply Forall_nil_2.
  - split_and!; [by vm_compute|by vm_compute|]. eexists. split; [by vm_compute|by vm_compute].
Defined.
End Witness.
