(* ===== verification/KeRecords.v ===== *)
(** * src/nts_ke/records/*: NTS-KE records

    The eight record types behind the trait [KeRecordTrait], their wire format,
    the keys derived from the TLS session, and the state a party builds from the
    records it receives.  Rust strings are their bytes.  The text forms of IP
    addresses and the TLS exporter are parameters. *)

From stdpp Require Import prelude list numbers strings.
From Stdlib Require Import Strings.Byte.
From S2P Require Import Prelude Words Crypto NtpProtocol Cookie.

Open Scope Z_scope.

Definition KE_HEADER_SIZE : Z := 4.

Inductive Party := PartyClient | PartyServer.
#[export] Instance Party_eq_dec : EqDecision Party.
Proof. solve_decision. Defined.

(** [KeRecordTrait]; [len] can panic. *)
Class KeRecordTrait (T : Type) := {
  critical : T -> bool;
  record_type : Z;
  len {E} : T -> res E Z;
  into_bytes : T -> bytes;
  from_bytes : Party -> bytes -> res string T;
}.
Arguments record_type T {_}.

(** [u16::try_from(n)]. *)
Definition try_u16 (n : Z) : option Z := if bool_decide (in_width 16 n) then Some n else None.
(** [u16::checked_mul]. *)
Definition checked_mul16 (a b : Z) : option Z := try_u16 (a * b).
(** [u16::from_be_bytes([a, b])]. *)
Definition u16_of (a b : byte) : Z := be_val [a; b].

(** ** end_of_message.rs *)
Inductive EndOfMessageRecord := mkEndOfMessage.
#[export] Instance EndOfMessage_record : KeRecordTrait EndOfMessageRecord := {
  critical _ := true;
  record_type := 0;
  len E _ := Ok 0;
  into_bytes _ := [];
  from_bytes _ bytes :=
    if bool_decide (zlen bytes ≠ 0) then Err "the body length of End Of Message must be zero."%string
    else Ok mkEndOfMessage;
}.

(** ** next_protocol.rs *)
Inductive KnownNextProtocol := Ntpv4.
Definition as_protocol_id (p : KnownNextProtocol) : Z := match p with Ntpv4 => 0 end.
Record NextProtocolRecord := mkNextProtocol { protocols : list KnownNextProtocol }.

(** The words of [bytes.chunks_exact(2)], all of which must be the code of the
    only known item. *)
Fixpoint known_words {I} (item : I) (code : Z) (unknown : string) (bytes : bytes) : res string (list I) :=
  match bytes with
  | a :: b :: bytes =>
    if bool_decide (code = u16_of a b) then rest ← known_words item code unknown bytes; Ok (item :: rest)
    else Err unknown
  | _ => Ok []
  end.

#[export] Instance NextProtocol_record : KeRecordTrait NextProtocolRecord := {
  critical _ := true;
  record_type := 1;
  len E r := unwrap (l ← try_u16 (zlen (protocols r)); checked_mul16 l 2);
  into_bytes r := concat (map (fun p => be_bytes 2 (as_protocol_id p)) (protocols r));
  from_bytes _ bytes :=
    if bool_decide (zlen bytes mod 2 ≠ 0)
    then Err "the body length of Next Protocol Negotiation
                                     must be even."%string
    else mkNextProtocol <$> known_words Ntpv4 (as_protocol_id Ntpv4) "unknown Next Protocol id" bytes;
}.

(** ** error.rs *)
Inductive KeErrorKind := UnrecognizedCriticalRecord | BadRequest.
Definition error_code (k : KeErrorKind) : Z :=
  match k with UnrecognizedCriticalRecord => 0 | BadRequest => 1 end.
Record ErrorRecord := mkError { error_kind : KeErrorKind }.

#[export] Instance Error_record : KeRecordTrait ErrorRecord := {
  critical _ := true;
  record_type := 2;
  len E _ := Ok 2;
  into_bytes r := be_bytes 2 (error_code (error_kind r));
  from_bytes _ bytes :=
    if bool_decide (zlen bytes ≠ 2) then Err "the body length of Error must be two."%string
    else
      a ← index bytes 0; b ← index bytes 1;
      let code := u16_of a b in
      if bool_decide (error_code UnrecognizedCriticalRecord = code)
      then Ok (mkError UnrecognizedCriticalRecord)
      else if bool_decide (error_code BadRequest = code) then Ok (mkError BadRequest)
      else Err "unknown error code"%string;
}.

(** ** warning.rs *)
Inductive WarningKind := Dummy.
Definition warning_code (k : WarningKind) : Z := match k with Dummy => 2 ^ 16 - 1 end.
Record WarningRecord := mkWarning { warning_kind : WarningKind }.

#[export] Instance Warning_record : KeRecordTrait WarningRecord := {
  critical _ := true;
  record_type := 3;
  len E _ := Ok 2;
  into_bytes r := be_bytes 2 (warning_code (warning_kind r));
  from_bytes _ bytes :=
    if bool_decide (zlen bytes ≠ 2) then Err "the body length of Warning must be two."%string
    else
      a ← index bytes 0; b ← index bytes 1;
      if bool_decide (warning_code Dummy = u16_of a b) then Ok (mkWarning Dummy)
      else Err "unknown warning code"%string;
}.

(** ** aead_algorithm.rs *)
Inductive KnownAeadAlgorithm := AeadAesSivCmac256.
Definition as_algorithm_id (a : KnownAeadAlgorithm) : Z := match a with AeadAesSivCmac256 => 15 end.
Record AeadAlgorithmRecord := mkAeadAlgorithm { algorithms : list KnownAeadAlgorithm }.

#[export] Instance AeadAlgorithm_record : KeRecordTrait AeadAlgorithmRecord := {
  critical _ := true;
  record_type := 4;
  len E r := unwrap (l ← try_u16 (zlen (algorithms r)); checked_mul16 l 2);
  into_bytes r := concat (map (fun a => be_bytes 2 (as_algorithm_id a)) (algorithms r));
  from_bytes _ bytes :=
    if bool_decide (zlen bytes mod 2 ≠ 0)
    then Err "the body length of AEAD Algorithm Negotiation
                                     must be even."%string
    else mkAeadAlgorithm <$>
      known_words AeadAesSivCmac256 (as_algorithm_id AeadAesSivCmac256) "unknown AEAD algorithm id" bytes;
}.

(** ** new_cookie.rs *)
Record NewCookieRecord := mkNewCookie { cookie_data : bytes }.
#[export] Instance NewCookie_record : KeRecordTrait NewCookieRecord := {
  critical _ := false;
  record_type := 5;
  len E r := unwrap (try_u16 (zlen (cookie_data r)));
  into_bytes r := cookie_data r;
  from_bytes _ bytes := Ok (mkNewCookie bytes);
}.

(** ** server.rs *)

(** The text forms of [std::net::Ipv4Addr] and [Ipv6Addr]; an address is its
    32-bit or 128-bit value. *)
Class IpText := {
  ipv4_from_str : bytes -> option Z;
  ipv4_to_string : Z -> bytes;
  ipv6_from_str : bytes -> option Z;
  ipv6_to_string : Z -> bytes;
}.
Definition is_ascii (b : bytes) : bool := forallb (fun x => bool_decide (byte_val x < 128)) b.

Inductive Address := Hostname (name : bytes) | Ipv4Address (addr : Z) | Ipv6Address (addr : Z).
Record ServerRecord := mkServer { server_sender : Party; server_address : Address }.

Definition into_string {I : IpText} (r : ServerRecord) : bytes :=
  match server_address r with
  | Hostname name => name
  | Ipv4Address addr => ipv4_to_string addr
  | Ipv6Address addr => ipv6_to_string addr
  end.

Definition sender_critical (p : Party) : bool :=
  match p with PartyClient => false | PartyServer => true end.

(** A byte string that is not ASCII is refused with the same message whether or
    not it is UTF-8. *)
#[export] Instance Server_record {I : IpText} : KeRecordTrait ServerRecord := {
  critical r := sender_critical (server_sender r);
  record_type := 6;
  len E r :=
    match server_address r with
    | Hostname name => unwrap (try_u16 (zlen name))
    | Ipv4Address addr => Ok (wrap 16 (zlen (ipv4_to_string addr)))
    | Ipv6Address addr => Ok (wrap 16 (zlen (ipv6_to_string addr)))
    end;
  into_bytes r := into_string r;
  from_bytes sender bytes :=
    if negb (is_ascii bytes) then Err "the body is an invalid ascii string"%string
    else
      Ok (mkServer sender
        (match ipv4_from_str bytes with
         | Some address => Ipv4Address address
         | None =>
           match ipv6_from_str bytes with
           | Some address => Ipv6Address address
           | None => Hostname bytes
           end
         end));
}.

(** ** port.rs *)
Record PortRecord := mkPort { port_sender : Party; port : Z }.
#[export] Instance Port_record : KeRecordTrait PortRecord := {
  critical r := sender_critical (port_sender r);
  record_type := 7;
  len E _ := Ok 2;
  into_bytes r := be_bytes 2 (port r);
  from_bytes sender bytes :=
    if bool_decide (zlen bytes ≠ 2) then Err "the body length of Port must be two."%string
    else a ← index bytes 0; b ← index bytes 1; Ok (mkPort sender (u16_of a b));
}.

(** ** mod.rs *)
Inductive KeRecord :=
  | EndOfMessage (r : EndOfMessageRecord)
  | NextProtocol (r : NextProtocolRecord)
  | Error (r : ErrorRecord)
  | Warning (r : WarningRecord)
  | AeadAlgorithm (r : AeadAlgorithmRecord)
  | NewCookie (r : NewCookieRecord)
  | ServerNegotiation (r : ServerRecord)
  | Port (r : PortRecord).

Definition serialize {P : Profile} {E} `{KeRecordTrait T} (record : T) : res E bytes :=
  first_word ← uadd 16 (wrap 16 (Z.shiftl (Z.b2z (critical record)) 15)) (record_type T);
  l ← len record;
  Ok (be_bytes 2 first_word ++ be_bytes 2 l ++ into_bytes record).

Inductive DeserializeError :=
  | Parsing (e : string)
  | UnknownCriticalRecord
  | UnknownNotCriticalRecord.

(** One arm of the macro [deserialize_body!]. *)
Definition try_record {T} `{KeRecordTrait T} (variant : T -> KeRecord) (sender : Party) (body : bytes) :
    res DeserializeError KeRecord :=
  r ← map_err Parsing (from_bytes sender body); Ok (variant r).

Definition deserialize {I : IpText} (sender : Party) (bytes : bytes) : res DeserializeError KeRecord :=
  b0 ← index bytes 0;
  let critical := bool_decide (Z.shiftr (byte_val b0) 7 = 1) in
  b1 ← index bytes 1;
  let rtype := u16_of (to_byte (Z.land (byte_val b0) 0x7)) b1 in
  b2 ← index bytes 2;
  b3 ← index bytes 3;
  let length := u16_of b2 b3 in
  body ← slice bytes 4 (4 + length);
  if bool_decide (rtype = record_type EndOfMessageRecord) then try_record EndOfMessage sender body
  else if bool_decide (rtype = record_type NextProtocolRecord) then try_record NextProtocol sender body
  else if bool_decide (rtype = record_type ErrorRecord) then try_record Error sender body
  else if bool_decide (rtype = record_type WarningRecord) then try_record Warning sender body
  else if bool_decide (rtype = record_type AeadAlgorithmRecord) then try_record AeadAlgorithm sender body
  else if bool_decide (rtype = record_type NewCookieRecord) then try_record NewCookie sender body
  else if bool_decide (rtype = record_type ServerRecord) then try_record ServerNegotiation sender body
  else if bool_decide (rtype = record_type PortRecord) then try_record Port sender body
  else if critical then Err UnknownCriticalRecord
  else Err UnknownNotCriticalRecord.

(** [rustls::Session::export_keying_material] into a 32-byte buffer. *)
Class Exporter (TLSError : Type) := export_keying_material : bytes -> option bytes -> res TLSError bytes.
Class ExporterLaws {T} (X : Exporter T) : Prop := {
  export_length label ctx b : export_keying_material label ctx = Ok b -> length b = 32%nat;
}.

(** "EXPORTER-network-time-security" *)
Definition exporter_label : bytes :=
  [x45; x58; x50; x4f; x52; x54; x45; x52; x2d; x6e; x65; x74; x77; x6f; x72; x6b; x2d;
   x74; x69; x6d; x65; x2d; x73; x65; x63; x75; x72; x69; x74; x79].

Definition gen_key {T} {X : Exporter T} : res T NTSKeys :=
  let c2s_con := [x00; x00; x00; x0f; x00] in
  let s2c_con := [x00; x00; x00; x0f; x01] in
  c2s ← export_keying_material exporter_label (Some c2s_con);
  s2c ← export_keying_material exporter_label (Some s2c_con);
  Ok (mkKeys c2s s2c).

Record ReceivedNtsKeRecordState := mkReceived {
  finished : bool;
  next_protocols : list Z;
  aead_scheme : list Z;
  cookies : list bytes;
  next_server : option bytes;
  next_port : option Z;
}.

Inductive NtsKeParseError := RecordAfterEnd | ErrorRecordReceived | NoIpv4AddrFound | NoIpv6AddrFound.

Definition process_record {I : IpText} (record : KeRecord) :
    M ReceivedNtsKeRecordState NtsKeParseError unit :=
  state ← get_state;
  if finished state then lift (Err RecordAfterEnd)
  else
    match record with
    | EndOfMessage _ =>
      modify (fun s => mkReceived true (next_protocols s) (aead_scheme s) (cookies s) (next_server s) (next_port s))
    | NextProtocol record =>
      modify (fun s => mkReceived (finished s) (map as_protocol_id (protocols record)) (aead_scheme s)
                         (cookies s) (next_server s) (next_port s))
    | Error _ => lift (Err ErrorRecordReceived)
    | Warning _ => mret tt
    | AeadAlgorithm record =>
      modify (fun s => mkReceived (finished s) (next_protocols s) (map as_algorithm_id (algorithms record))
                         (cookies s) (next_server s) (next_port s))
    | NewCookie record =>
      modify (fun s => mkReceived (finished s) (next_protocols s) (aead_scheme s)
                         (cookies s ++ [into_bytes record]) (next_server s) (next_port s))
    | ServerNegotiation record =>
      modify (fun s => mkReceived (finished s) (next_protocols s) (aead_scheme s) (cookies s)
                         (Some (into_string record)) (next_port s))
    | Port record =>
      modify (fun s => mkReceived (finished s) (next_protocols s) (aead_scheme s) (cookies s)
                         (next_server s) (Some (port record)))
    end.

(** ** Facts about the wire format *)

(** The choice [deserialize] makes once the header is read. *)
Definition dispatch {I : IpText} (critical : bool) (rtype : Z) (sender : Party) (body : bytes) :
    res DeserializeError KeRecord :=
  if bool_decide (rtype = 0) then try_record EndOfMessage sender body
  else if bool_decide (rtype = 1) then try_record NextProtocol sender body
  else if bool_decide (rtype = 2) then try_record Error sender body
  else if bool_decide (rtype = 3) then try_record Warning sender body
  else if bool_decide (rtype = 4) then try_record AeadAlgorithm sender body
  else if bool_decide (rtype = 5) then try_record NewCookie sender body
  else if bool_decide (rtype = 6) then try_record ServerNegotiation sender body
  else if bool_decide (rtype = 7) then try_record Port sender body
  else if critical then Err UnknownCriticalRecord
  else Err UnknownNotCriticalRecord.

(** What a record type promises to [serialize] and [deserialize]: its type number
    and variant, a length that is that of its body, and a body that reads back;
    [record_ok s r] says that [r] can be sent by [s]. *)
Class RecordLaws {I : IpText} (T : Type) {K : KeRecordTrait T} := {
  record_ok : Party -> T -> Prop;
  variant : T -> KeRecord;
  type_small : 0 <= record_type T < 8;
  type_dispatch crit s body : dispatch crit (record_type T) s body = try_record variant s body;
  len_into {E} s r : record_ok s r ->
    len (E := E) r = Ok (zlen (into_bytes r)) /\ zlen (into_bytes r) < 2 ^ 16;
  from_into s r : record_ok s r -> from_bytes s (into_bytes r) = Ok r;
}.

Lemma known_words_concat {I} (item : I) code unknown (l : list I) :
  in_width 16 code -> (forall i, i = item) ->
  known_words item code unknown (concat (map (fun _ => be_bytes 2 code) l)) = Ok l.
Proof.
  intros Hc Hall. induction l as [|i l IH]; [done|]. cbn [map concat].
  destruct (be_bytes 2 code) as [|a [|b [|? ?]]] eqn:Hb; try done.
  cbn [app known_words]. rewrite bool_decide_true.
  - rewrite IH. res_step. by rewrite (Hall i).
  - unfold u16_of. rewrite <- Hb. symmetry. by apply (be_val_roundtrip 2).
Qed.

Lemma zlen_words {I} code (l : list I) :
  zlen (concat (map (fun _ => be_bytes 2 code) l)) = 2 * zlen l.
Proof. induction l as [|i l IH]; [done|]. cbn [map concat]. zl. Qed.

Lemma words_len {E} {I} (l : list I) :
  2 * zlen l < 2 ^ 16 ->
  unwrap (E := E) (l ← try_u16 (zlen l); checked_mul16 l 2) = Ok (2 * zlen l).
Proof.
  intros Hl. pose proof (zlen_nonneg l). unfold try_u16, checked_mul16.
  rewrite bool_decide_true by (unfold in_width; lia). cbn.
  unfold try_u16. rewrite bool_decide_true by (unfold in_width; lia). cbn. f_equal. lia.
Qed.

(** A body of two bytes. *)
Lemma u16_body {E A} z (k : Z -> res E A) :
  in_width 16 z ->
  (a ← index (be_bytes 2 z) 0; b ← index (be_bytes 2 z) 1; k (u16_of a b)) = k z.
Proof.
  intros Hz. destruct (be_bytes 2 z) as [|a [|b [|? ?]]] eqn:Hb; try done.
  change (k (be_val [a; b]) = k z). rewrite <- Hb. by rewrite (be_val_roundtrip 2).
Qed.

#[export] Instance EndOfMessage_laws {I : IpText} : RecordLaws EndOfMessageRecord.
Proof.
  refine {| record_ok _ _ := True; variant := EndOfMessage |}; try done.
  by intros ? [] _.
Defined.

#[export] Instance NextProtocol_laws {I : IpText} : RecordLaws NextProtocolRecord.
Proof.
  refine {| record_ok _ r := 2 * zlen (protocols r) < 2 ^ 16; variant := NextProtocol |}; try done.
  - intros E s r Hr. cbn [len into_bytes NextProtocol_record].
    rewrite (map_ext _ (fun _ => be_bytes 2 0)) by by intros []. rewrite zlen_words.
    by rewrite words_len.
  - intros s [l] Hr. cbn [from_bytes into_bytes NextProtocol_record protocols] in *.
    rewrite (map_ext _ (fun _ => be_bytes 2 0)) by by intros [].
    rewrite bool_decide_false by (rewrite zlen_words, Z.mul_comm, Z.mod_mul by done; naive_solver).
    rewrite known_words_concat; [done|done|by intros []].
Defined.

#[export] Instance AeadAlgorithm_laws {I : IpText} : RecordLaws AeadAlgorithmRecord.
Proof.
  refine {| record_ok _ r := 2 * zlen (algorithms r) < 2 ^ 16; variant := AeadAlgorithm |}; try done.
  - intros E s r Hr. cbn [len into_bytes AeadAlgorithm_record].
    rewrite (map_ext _ (fun _ => be_bytes 2 15)) by by intros []. rewrite zlen_words.
    by rewrite words_len.
  - intros s [l] Hr. cbn [from_bytes into_bytes AeadAlgorithm_record algorithms] in *.
    rewrite (map_ext _ (fun _ => be_bytes 2 15)) by by intros [].
    rewrite bool_decide_false by (rewrite zlen_words, Z.mul_comm, Z.mod_mul by done; naive_solver).
    rewrite known_words_concat; [done|done|by intros []].
Defined.

#[export] Instance Error_laws {I : IpText} : RecordLaws ErrorRecord.
Proof.
  refine {| record_ok _ _ := True; variant := Error |}; try done.
  by intros s [[]] _.
Defined.

#[export] Instance Warning_laws {I : IpText} : RecordLaws WarningRecord.
Proof.
  refine {| record_ok _ _ := True; variant := Warning |}; try done.
  by intros s [[]] _.
Defined.

#[export] Instance NewCookie_laws {I : IpText} : RecordLaws NewCookieRecord.
Proof.
  refine {| record_ok _ r := zlen (cookie_data r) < 2 ^ 16; variant := NewCookie |}; try done.
  - intros E s r Hr. cbn [len into_bytes NewCookie_record]. unfold try_u16.
    rewrite bool_decide_true; [done|]. pose proof (zlen_nonneg (cookie_data r)). unfold in_width. lia.
  - by intros s [].
Defined.

#[export] Instance Port_laws {I : IpText} : RecordLaws PortRecord.
Proof.
  refine {| record_ok s r := s = port_sender r /\ in_width 16 (port r); variant := Port |}; try done.
  intros s [s' p] [-> Hp]. cbn [from_bytes into_bytes Port_record port port_sender] in *.
  rewrite bool_decide_false by (zl; done). exact (u16_body p (fun z => Ok (mkPort s' z)) Hp).
Defined.

(** A server name that is not taken for an address, and an address whose text is
    taken for it, are the ones that survive. *)
Definition address_ok {I : IpText} (a : Address) : Prop :=
  match a with
  | Hostname n => ipv4_from_str n = None /\ ipv6_from_str n = None
  | Ipv4Address a => ipv4_from_str (ipv4_to_string a) = Some a
  | Ipv6Address a => ipv4_from_str (ipv6_to_string a) = None /\ ipv6_from_str (ipv6_to_string a) = Some a
  end.

#[export] Instance Server_laws {I : IpText} : RecordLaws ServerRecord.
Proof.
  refine {| record_ok s r := s = server_sender r /\ is_ascii (into_string r) = true /\
              zlen (into_string r) < 2 ^ 16 /\ address_ok (server_address r);
            variant := ServerNegotiation |}; try done.
  - intros E s [s' a] (_ & _ & Hl & _). cbn [len into_bytes Server_record server_address] in *.
    unfold into_string in *. cbn [server_address] in *.
    destruct a as [n|a|a];
      [pose proof (zlen_nonneg n); unfold try_u16; rewrite bool_decide_true by (unfold in_width; lia); done
      |pose proof (zlen_nonneg (ipv4_to_string a))|pose proof (zlen_nonneg (ipv6_to_string a))];
      rewrite wrap_id by (unfold in_width; lia); done.
  - intros s [s' a] (-> & Ha & _ & Hok). cbn [from_bytes into_bytes Server_record] in *.
    rewrite Ha. cbn [negb]. unfold into_string in *. cbn [server_address server_sender] in *.
    destruct a; cbn in Hok; [destruct Hok as [-> ->]|rewrite Hok|destruct Hok as [-> ->]]; done.
Defined.

Section Wire.
Context {P : Profile} {I : IpText}.

(** The two bytes of the first word. *)
Lemma first_word_bytes crit ty :
  0 <= ty < 8 -> exists b0 b1, be_bytes 2 (Z.b2z crit * 2 ^ 15 + ty) = [b0; b1] /\
    bool_decide (Z.shiftr (byte_val b0) 7 = 1) = crit /\
    u16_of (to_byte (Z.land (byte_val b0) 0x7)) b1 = ty.
Proof.
  intros Hty. destruct (be_bytes 2 (Z.b2z crit * 2 ^ 15 + ty)) as [|b0 [|b1 [|? ?]]] eqn:E; try done.
  exists b0, b1. split; [done|].
  assert (ty = 0 \/ ty = 1 \/ ty = 2 \/ ty = 3 \/ ty = 4 \/ ty = 5 \/ ty = 6 \/ ty = 7) as Hc by lia.
  destruct crit; destruct_or! Hc; subst ty; vm_compute in E; injection E as <- <-; by vm_compute.
Qed.

Lemma deserialize_bytes sender b0 b1 body tail :
  zlen body < 2 ^ 16 ->
  deserialize sender ([b0; b1] ++ be_bytes 2 (zlen body) ++ body ++ tail) =
  dispatch (bool_decide (Z.shiftr (byte_val b0) 7 = 1))
    (u16_of (to_byte (Z.land (byte_val b0) 0x7)) b1) sender body.
Proof.
  intros Hl. pose proof (zlen_nonneg body).
  destruct (be_bytes 2 (zlen body)) as [|b2 [|b3 [|? ?]]] eqn:Hb; try done.
  unfold deserialize. set (bs := [b0; b1] ++ [b2; b3] ++ body ++ tail).
  change (index bs 0) with (Ok (E := DeserializeError) b0). res_step.
  change (index bs 1) with (Ok (E := DeserializeError) b1). res_step.
  change (index bs 2) with (Ok (E := DeserializeError) b2). res_step.
  change (index bs 3) with (Ok (E := DeserializeError) b3). res_step.
  replace (u16_of b2 b3) with (zlen body)
    by (unfold u16_of; rewrite <- Hb; symmetry; apply (be_val_roundtrip 2); unfold in_width; lia).
  replace bs with ([b0; b1; b2; b3] ++ body ++ tail) by done.
  change 4 with (zlen [b0; b1; b2; b3]) at 1 2. rewrite slice_app_mid. res_step. done.
Qed.

Lemma serialize_ok {E} {T} {K : KeRecordTrait T} {L : RecordLaws T} s (r : T) :
  record_ok s r ->
  serialize (E := E) r =
  Ok (be_bytes 2 (Z.b2z (critical r) * 2 ^ 15 + record_type T) ++
      be_bytes 2 (zlen (into_bytes r)) ++ into_bytes r).
Proof.
  intros Hr. destruct (len_into (E := E) s r Hr) as [Hlen _]. pose proof type_small.
  unfold serialize. rewrite Z.shiftl_mul_pow2 by lia.
  assert (0 <= Z.b2z (critical r) <= 1) by (destruct (critical r); cbn; lia).
  rewrite wrap_id by (unfold in_width; lia). unfold uadd. rewrite fit_ok by (unfold in_width; lia).
  res_step. rewrite Hlen. done.
Qed.

Lemma record_roundtrip_tail {E} {T} {K : KeRecordTrait T} {L : RecordLaws T} s (r : T) :
  record_ok s r ->
  exists b, serialize (E := E) r = Ok b /\ zlen b = 4 + zlen (into_bytes r) /\
    be_val (take 2 (drop 2 b)) = zlen (into_bytes r) /\
    forall tail, deserialize s (b ++ tail) = Ok (variant r).
Proof.
  intros Hr. destruct (len_into (E := E) s r Hr) as [_ Hl]. pose proof (zlen_nonneg (into_bytes r)).
  rewrite (serialize_ok s) by done. eexists. split_and!; [done|zl| |].
  - rewrite drop_app_length' by by rewrite be_bytes_length.
    rewrite take_app_length' by by rewrite be_bytes_length.
    apply (be_val_roundtrip 2). unfold in_width. lia.
  - intros tail.
    destruct (first_word_bytes (critical r) (record_type T) type_small) as (b0 & b1 & -> & Hc & Ht).
    rewrite <- !app_assoc, deserialize_bytes by done. rewrite Hc, Ht, type_dispatch.
    unfold try_record. rewrite from_into by done. done.
Qed.

(** The same with the bytes spelled out. *)
Lemma record_wire {E} {T} {K : KeRecordTrait T} {L : RecordLaws T} s (r : T) tail :
  record_ok s r ->
  let b := be_bytes 2 (Z.b2z (critical r) * 2 ^ 15 + record_type T) ++
           be_bytes 2 (zlen (into_bytes r)) ++ into_bytes r in
  serialize (E := E) r = Ok b /\ zlen (into_bytes r) < 2 ^ 16 /\ deserialize s (b ++ tail) = Ok (variant r).
Proof.
  intros Hr b. destruct (record_roundtrip_tail (E := E) s r Hr) as (b' & Hb & _ & _ & Hd).
  destruct (len_into (E := E) s r Hr) as [_ Hl]. rewrite (serialize_ok s) in Hb by done.
  apply Ok_inj in Hb as Hb'. subst b'. rewrite (serialize_ok s) by done. by split_and!.
Qed.
End Wire.

(** ** Totality of [deserialize] *)
Lemma known_words_no_panic {I} (item : I) code unknown b : is_panic (known_words item code unknown b) = false.
Proof.
  revert b. fix IH 1. intros [|x [|y b]]; [done|done|]. cbn [known_words].
  case_bool_decide; [|done]. apply bind_is_panic; [apply IH|done].
Qed.

Lemma two_byte_body {E} (b : bytes) :
  zlen b = 2 -> exists x y, index b 0 = Ok (E := E) x /\ index b 1 = Ok (E := E) y.
Proof.
  destruct b as [|x [|y [|z b]]]; intros Hb; [done|done|by exists x, y|].
  rewrite !zlen_cons in Hb. pose proof (zlen_nonneg b). lia.
Qed.

Lemma dispatch_no_panic {I : IpText} crit ty s body : is_panic (dispatch crit ty s body) = false.
Proof.
  unfold dispatch, try_record.
  repeat case_bool_decide; try (by destruct crit); (apply bind_is_panic; [|done]);
    cbn [from_bytes EndOfMessage_record NextProtocol_record Error_record Warning_record
      AeadAlgorithm_record NewCookie_record Server_record Port_record].
  - by case_bool_decide.
  - case_bool_decide; [done|].
    pose proof (known_words_no_panic Ntpv4 (as_protocol_id Ntpv4) "unknown Next Protocol id" body) as Hk.
    by destruct (known_words _ _ _ _).
  - case_bool_decide as Hb; [done|].
    destruct (two_byte_body (E := string) body Hb) as (x & y & -> & ->). res_step.
    by repeat case_bool_decide.
  - case_bool_decide as Hb; [done|].
    destruct (two_byte_body (E := string) body Hb) as (x & y & -> & ->). res_step.
    by repeat case_bool_decide.
  - case_bool_decide; [done|].
    pose proof (known_words_no_panic AeadAesSivCmac256 (as_algorithm_id AeadAesSivCmac256)
      "unknown AEAD algorithm id" body) as Hk.
    by destruct (known_words _ _ _ _).
  - by destruct (is_ascii body).
  - case_bool_decide as Hb; [done|].
    by destruct (two_byte_body (E := string) body Hb) as (x & y & -> & ->).
Qed.

(** The declared length of the body. *)
Definition body_length (b : bytes) : Z := be_val (take 2 (drop 2 b)).

Lemma deserialize_cases {I : IpText} s b :
  if bool_decide (4 <= zlen b) && bool_decide (4 + body_length b <= zlen b)
  then exists b0 b1, take 2 b = [b0; b1] /\
    deserialize s b = dispatch (bool_decide (Z.shiftr (byte_val b0) 7 = 1))
      (u16_of (to_byte (Z.land (byte_val b0) 0x7)) b1) s
      (take (Z.to_nat (body_length b)) (drop 4 b))
  else is_panic (deserialize s b) = true.
Proof.
  destruct b as [|b0 [|b1 [|b2 [|b3 b]]]]; try done.
  unfold deserialize, body_length. set (bs := b0 :: b1 :: b2 :: b3 :: b).
  change (index bs 0) with (Ok (E := DeserializeError) b0).
  change (index bs 1) with (Ok (E := DeserializeError) b1).
  change (index bs 2) with (Ok (E := DeserializeError) b2).
  change (index bs 3) with (Ok (E := DeserializeError) b3). res_step.
  change (be_val (take 2 (drop 2 bs))) with (u16_of b2 b3).
  assert (0 <= u16_of b2 b3) by apply be_val_range.
  assert (4 <= zlen bs) as H4 by (unfold bs; zl; pose proof (zlen_nonneg b); lia).
  rewrite bool_decide_true by done. cbn [andb]. case_bool_decide as Hfit.
  - exists b0, b1. split; [done|]. rewrite slice_ok by lia. res_step.
    replace (4 + u16_of b2 b3 - 4) with (u16_of b2 b3) by lia. done.
  - unfold slice. by rewrite (bool_decide_false (_ <= zlen bs)), andb_false_r by done.
Qed.

(** [deserialize] panics exactly when its slice is shorter than the four-byte
    header or than the length declared in it; on every other input, whatever the
    body, it returns a record or an error. *)
Lemma deserialize_panics_iff {I : IpText} s b :
  is_panic (deserialize s b) = true <-> zlen b < 4 \/ zlen b < 4 + body_length b.
Proof.
  pose proof (deserialize_cases s b) as H.
  destruct (bool_decide (4 <= zlen b)) eqn:H1; [destruct (bool_decide (4 + body_length b <= zlen b)) eqn:H2|].
  - apply bool_decide_eq_true in H1, H2. destruct H as (b0 & b1 & _ & ->).
    rewrite dispatch_no_panic. split; [done|lia].
  - apply bool_decide_eq_false in H2. split; [lia|done].
  - apply bool_decide_eq_false in H1. split; [lia|done].
Qed.

(** ** The mask on the record type *)
Lemma masked_byte x y :
  Z.land (byte_val x) 0x87 = Z.land (byte_val y) 0x87 ->
  Z.shiftr (byte_val x) 7 = Z.shiftr (byte_val y) 7 /\ Z.land (byte_val x) 0x7 = Z.land (byte_val y) 0x7.
Proof.
  intros E.
  assert (forall b : byte, Z.shiftr (byte_val b) 7 = Z.shiftr (Z.land (byte_val b) 0x87) 7) as H7
    by (intros []; reflexivity).
  assert (forall b : byte, Z.land (byte_val b) 0x7 = Z.land (Z.land (byte_val b) 0x87) 0x7) as H3
    by (intros []; reflexivity).
  by rewrite H7, E, <- H7, H3, E, <- H3.
Qed.

(** Only 11 of the 15 bits of the record type are looked at.  The mask on the
    first byte is 0x7, not 0x7f, so two records that differ in bits 11 to 14 of
    their type are the same to [deserialize]; in particular the unassigned critical
    type 0x0800 is taken for End of Message instead of being refused as unknown. *)
Lemma record_type_aliases {I : IpText} s :
  (forall x y rest, Z.land (byte_val x) 0x87 = Z.land (byte_val y) 0x87 ->
     deserialize s (x :: rest) = deserialize s (y :: rest)) /\
  deserialize s [x88; x00; x00; x00] = Ok (EndOfMessage mkEndOfMessage).
Proof.
  split; [|done]. intros x y rest (E1 & E2)%masked_byte.
  assert (forall n, 0 < n ->
    index (E := DeserializeError) (x :: rest) n = index (y :: rest) n) as Hi.
  { intros n Hn. unfold index. rewrite !bool_decide_true by lia.
    replace (Z.to_nat n) with (S (Z.to_nat (n - 1))) by lia. done. }
  assert (forall n, slice (E := DeserializeError) (x :: rest) 4 n = slice (y :: rest) 4 n) as Hs.
  { intros n. unfold slice. rewrite !zlen_cons. done. }
  unfold deserialize. change (index (x :: rest) 0) with (Ok (E := DeserializeError) x).
  change (index (y :: rest) 0) with (Ok (E := DeserializeError) y). res_step. cbv zeta.
  rewrite (Hi 1), (Hi 2), (Hi 3), E1, E2 by done.
  destruct (index (y :: rest) 1); [|done..]. destruct (index (y :: rest) 2); [|done..].
  destruct (index (y :: rest) 3); [|done..]. res_step. by rewrite Hs.
Qed.

(** An instance that takes every server name for a host name. *)
Definition host_names : IpText :=
  {| ipv4_from_str _ := None; ipv4_to_string _ := []; ipv6_from_str _ := None; ipv6_to_string _ := [] |}.
