(* ===== verification/IpAddr.v ===== *)
(** * IP addresses as text

    [std::net]'s parser and printer of [Ipv4Addr], [Ipv6Addr], [IpAddr] and
    [SocketAddr], as the program uses them: the server record of the key exchange
    ([nts_ke/records/server.rs]) and both configuration readers.  The parser is the
    one of the standard library since Rust 1.53, which refuses octets with a
    leading zero; a parser takes the bytes left and, when it fails, leaves them
    alone.  Addresses are unsigned integers of 32 and 128 bits.  The section at the
    end gives [KeRecords.IpText] this instance and shows that every address can be
    carried by a server record. *)

From stdpp Require Import prelude list numbers strings.
From Stdlib Require Import Strings.Byte.
From S2P Require Import Prelude Words KeRecords.

Open Scope Z_scope.

(** ** Fixed-size words of an integer *)
Fixpoint words (w : Z) (n : nat) (a : Z) : list Z :=
  match n with
  | O => []
  | S m => wrap w (Z.shiftr a (w * Z.of_nat m)) :: words w m a
  end.
Fixpoint of_words (w : Z) (l : list Z) : Z :=
  match l with
  | [] => 0
  | d :: l => d * 2 ^ (w * zlen l) + of_words w l
  end.

(** ** Digits *)
Definition digit_of (radix : Z) (c : byte) : option Z :=
  let v := byte_val c in
  let d := if bool_decide (48 <= v <= 57) then Some (v - 48)
           else if bool_decide (97 <= v <= 122) then Some (v - 87)
           else if bool_decide (65 <= v <= 90) then Some (v - 55)
           else None in
  d ← d; if bool_decide (d < radix) then Some d else None.

Definition digit_char (d : Z) : byte := to_byte (if bool_decide (d < 10) then 48 + d else 87 + d).

(** The digits of a number of at most [n] digits. *)
Fixpoint digits (n : nat) (radix z : Z) : list Z :=
  match n with
  | O => []
  | S m => if bool_decide (z < radix) then [z] else digits m radix (z / radix) ++ [z mod radix]
  end.

(** [{}] of a [u8], a [u16] and a [u32], and [{:x}] of a [u16]. *)
Definition show_dec (z : Z) : bytes := map digit_char (digits 10 10 z).
Definition show_hex (z : Z) : bytes := map digit_char (digits 4 16 z).

(** ** The parser *)
Definition Parser (A : Type) : Type := bytes -> option (A * bytes).

Definition read_given_char (c : byte) : Parser unit := fun s =>
  match s with
  | b :: s => if bool_decide (b = c) then Some (tt, s) else None
  | [] => None
  end.

(** The loop of [read_number]: value, number of digits and what is left. *)
Fixpoint read_digits (w radix : Z) (max_digits : option Z) (acc n : Z) (s : bytes) :
    option (Z * Z * bytes) :=
  match s with
  | [] => Some (acc, n, [])
  | b :: s' =>
    match digit_of radix b with
    | None => Some (acc, n, s)
    | Some d =>
      r ← checked w (acc * radix);
      r ← checked w (r + d);
      if match max_digits with Some m => bool_decide (m < n + 1) | None => false end then None
      else read_digits w radix max_digits r (n + 1) s'
    end
  end.

Definition read_number (w radix : Z) (max_digits : option Z) (allow_zero_prefix : bool) : Parser Z :=
  fun s =>
    let has_leading_zero := match s with b :: _ => bool_decide (b = x30) | [] => false end in
    '(v, n, s') ← read_digits w radix max_digits 0 0 s;
    if bool_decide (n = 0) then None
    else if negb allow_zero_prefix && has_leading_zero && bool_decide (1 < n) then None
    else Some (v, s').

Definition read_separator {A} (sep : byte) (i : Z) (p : Parser A) : Parser A := fun s =>
  if bool_decide (0 < i) then '(_, s) ← read_given_char sep s; p s else p s.

Definition read_octet (i : Z) : Parser Z := read_separator x2e i (read_number 8 10 (Some 3) false).

Definition read_ipv4_addr : Parser Z := fun s =>
  '(a, s) ← read_octet 0 s;
  '(b, s) ← read_octet 1 s;
  '(c, s) ← read_octet 2 s;
  '(d, s) ← read_octet 3 s;
  Some (of_words 8 [a; b; c; d], s).

(** [read_groups] on a slice with room for [k] groups of which [i] lie behind: the
    groups read, whether they end in an embedded IPv4 address, what is left. *)
Fixpoint read_groups (k : nat) (i : Z) (s : bytes) : list Z * bool * bytes :=
  match k with
  | O => ([], false, s)
  | S k' =>
    match (if bool_decide (0 < k')%nat then read_separator x3a i read_ipv4_addr s else None) with
    | Some (v4, s') => (words 16 2 v4, true, s')
    | None =>
      match read_separator x3a i (read_number 16 16 (Some 4) true) s with
      | None => ([], false, s)
      | Some (g, s') => let '(gs, v4, s'') := read_groups k' (i + 1) s' in (g :: gs, v4, s'')
      end
    end
  end.

Definition read_ipv6_addr : Parser Z := fun s =>
  let '(head, head_ipv4, s) := read_groups 8 0 s in
  if bool_decide (length head = 8%nat) then Some (of_words 16 head, s)
  else if head_ipv4 then None
  else
    '(_, s) ← read_given_char x3a s;
    '(_, s) ← read_given_char x3a s;
    let '(tail, _, s) := read_groups (8 - (length head + 1)) 0 s in
    Some (of_words 16 (head ++ replicate (8 - length tail - length head) 0 ++ tail), s).

Inductive IpAddr := V4 (addr : Z) | V6 (addr : Z).
Record SocketAddr := mkSock { sock_ip : IpAddr; sock_port : Z; scope_id : Z }.
#[export] Instance IpAddr_eq_dec : EqDecision IpAddr.
Proof. solve_decision. Defined.
#[export] Instance SocketAddr_eq_dec : EqDecision SocketAddr.
Proof. solve_decision. Defined.

Definition read_ip_addr : Parser IpAddr := fun s =>
  match read_ipv4_addr s with
  | Some (a, s) => Some (V4 a, s)
  | None => '(a, s) ← read_ipv6_addr s; Some (V6 a, s)
  end.

Definition read_port : Parser Z := fun s =>
  '(_, s) ← read_given_char x3a s; read_number 16 10 None true s.
Definition read_scope_id : Parser Z := fun s =>
  '(_, s) ← read_given_char x25 s; read_number 32 10 None true s.

Definition read_socket_addr_v4 : Parser SocketAddr := fun s =>
  '(ip, s) ← read_ipv4_addr s; '(port, s) ← read_port s; Some (mkSock (V4 ip) port 0, s).
Definition read_socket_addr_v6 : Parser SocketAddr := fun s =>
  '(_, s) ← read_given_char x5b s;
  '(ip, s) ← read_ipv6_addr s;
  let '(scope, s) := match read_scope_id s with Some r => r | None => (0, s) end in
  '(_, s) ← read_given_char x5d s;
  '(port, s) ← read_port s; Some (mkSock (V6 ip) port scope, s).
Definition read_socket_addr : Parser SocketAddr := fun s =>
  match read_socket_addr_v4 s with Some r => Some r | None => read_socket_addr_v6 s end.

(** The whole input must be read. *)
Definition parse_with {A} (p : Parser A) (s : bytes) : option A :=
  '(a, s) ← p s; match s with [] => Some a | _ => None end.

Definition IpAddr_from_str : bytes -> option IpAddr := parse_with read_ip_addr.
Definition SocketAddr_from_str : bytes -> option SocketAddr := parse_with read_socket_addr.

(** ** The printer *)
Fixpoint join (sep : byte) (l : list bytes) : bytes :=
  match l with
  | [] => []
  | [x] => x
  | x :: l => x ++ sep :: join sep l
  end.

Definition show_ipv4 (a : Z) : bytes := join x2e (map show_dec (words 8 4 a)).
Definition fmt_subslice (l : list Z) : bytes := join x3a (map show_hex l).

(** The longest run of zero segments, the first of them: the scan keeps the run it
    is in and the longest one so far, both as start and length. *)
Fixpoint scan_zeros (l : list Z) (i : nat) (current longest : nat * nat) : nat * nat :=
  match l with
  | [] => longest
  | g :: l =>
    if bool_decide (g = 0) then
      let current := if bool_decide (current.2 = 0%nat) then (i, 1%nat) else (current.1, S current.2) in
      scan_zeros l (S i) current (if bool_decide (longest.2 < current.2)%nat then current else longest)
    else scan_zeros l (S i) (0, 0)%nat longest
  end.

Definition is_ipv4_mapped (segments : list Z) : bool :=
  bool_decide (take 6 segments = [0; 0; 0; 0; 0; 0xffff]).

Definition show_ipv6 (a : Z) : bytes :=
  let segments := words 16 8 a in
  if is_ipv4_mapped segments then
    [x3a; x3a] ++ show_hex 0xffff ++ [x3a] ++ show_ipv4 (wrap 32 a)
  else
    let '(start, len) := scan_zeros segments 0 (0, 0)%nat (0, 0)%nat in
    if bool_decide (1 < len)%nat then
      fmt_subslice (take start segments) ++ [x3a; x3a] ++ fmt_subslice (drop (start + len) segments)
    else fmt_subslice segments.

Definition show_ip (ip : IpAddr) : bytes :=
  match ip with V4 a => show_ipv4 a | V6 a => show_ipv6 a end.

Definition show_sock (a : SocketAddr) : bytes :=
  match sock_ip a with
  | V4 ip => show_ipv4 ip ++ [x3a] ++ show_dec (sock_port a)
  | V6 ip =>
    [x5b] ++ show_ipv6 ip ++
    (if bool_decide (scope_id a = 0) then [] else [x25] ++ show_dec (scope_id a)) ++
    [x5d; x3a] ++ show_dec (sock_port a)
  end.

(** The addresses there are: an IPv4 address has no scope. *)
Definition ip_ok (ip : IpAddr) : Prop :=
  match ip with V4 a => in_width 32 a | V6 a => in_width 128 a end.
Definition sock_ok (a : SocketAddr) : Prop :=
  ip_ok (sock_ip a) /\ in_width 16 (sock_port a) /\
  match sock_ip a with V4 _ => scope_id a = 0 | V6 _ => in_width 32 (scope_id a) end.

#[export] Instance std_ip_text : IpText := {|
  ipv4_from_str := parse_with read_ipv4_addr;
  ipv4_to_string := show_ipv4;
  ipv6_from_str := parse_with read_ipv6_addr;
  ipv6_to_string := show_ipv6;
|}.

(** ** Words *)
Lemma words_length w n a : length (words w n a) = n.
Proof. induction n; cbn; auto. Qed.
Lemma words_range w n a : 0 <= w -> Forall (in_width w) (words w n a).
Proof. intros. induction n; cbn; constructor; [by apply wrap_range|done]. Qed.

Lemma of_words_words w n a : 0 < w -> of_words w (words w n a) = a mod 2 ^ (w * Z.of_nat n).
Proof.
  intros Hw. induction n as [|n IH]; cbn [words of_words].
  - by rewrite Z.mul_0_r, Z.mod_1_r.
  - rewrite IH. unfold zlen, wrap. rewrite words_length, Z.shiftr_div_pow2 by lia.
    replace (w * Z.of_nat (S n)) with (w * Z.of_nat n + w) by lia.
    rewrite Z.pow_add_r, Z.rem_mul_r by (try apply Z.pow_pos_nonneg; lia). lia.
Qed.

Lemma of_words_range w l : 0 <= w -> Forall (in_width w) l -> 0 <= of_words w l < 2 ^ (w * zlen l).
Proof.
  intros Hw. induction 1 as [|d l Hd Hl IH]; cbn [of_words]; [by rewrite Z.mul_0_r|].
  rewrite zlen_cons, Z.mul_add_distr_l, Z.mul_1_r, Z.pow_add_r by (pose proof (zlen_nonneg l); nia).
  unfold in_width in Hd. nia.
Qed.

Lemma words_skip w n d a : 0 < w -> words w n (d * 2 ^ (w * Z.of_nat n) + a) = words w n a.
Proof.
  intros Hw. cut (forall m, (m <= n)%nat -> words w m (d * 2 ^ (w * Z.of_nat n) + a) = words w m a); [auto|].
  induction m as [|m IH]; intros Hm; [done|]. cbn [words]. f_equal; [|apply IH; lia].
  unfold wrap. rewrite !Z.shiftr_div_pow2 by lia.
  replace (w * Z.of_nat n) with (w * (Z.of_nat n - Z.of_nat m - 1) + w + w * Z.of_nat m) by lia.
  rewrite !Z.pow_add_r by nia. rewrite !Z.mul_assoc, Z.div_add_l by (apply Z.pow_nonzero; lia).
  by rewrite Z.add_comm, Z_mod_plus_full.
Qed.

Lemma words_of_words w l : 0 < w -> Forall (in_width w) l -> words w (length l) (of_words w l) = l.
Proof.
  intros Hw. induction 1 as [|d l Hd Hl IH]; [done|]. cbn [of_words length words].
  unfold zlen. rewrite words_skip, IH by done. f_equal.
  pose proof (of_words_range w l ltac:(lia) Hl) as Hr. unfold zlen in Hr.
  assert (0 <= w * Z.of_nat (length l)) by lia.
  rewrite Z.shiftr_div_pow2, Z.div_add_l, Z.div_small, Z.add_0_r by lia. by apply wrap_id.
Qed.

(** ** Digits *)
Lemma digit_of_char radix d : 0 <= d < radix -> radix <= 16 -> digit_of radix (digit_char d) = Some d.
Proof.
  intros. unfold digit_of, digit_char. rewrite byte_val_to_byte. cbv zeta.
  destruct (decide (d < 10)).
  - rewrite (bool_decide_true (d < 10)), Z.mod_small by lia.
    rewrite bool_decide_true by lia. cbn. rewrite bool_decide_true by lia. f_equal. lia.
  - rewrite (bool_decide_false (d < 10)), Z.mod_small by lia.
    rewrite bool_decide_false, bool_decide_true by lia. cbn. rewrite bool_decide_true by lia. f_equal. lia.
Qed.

Definition value (radix : Z) (l : list Z) : Z := fold_left (fun acc d => acc * radix + d) l 0.

Lemma digits_value n radix z : 1 < radix -> 0 <= z < radix ^ Z.of_nat n -> value radix (digits n radix z) = z.
Proof.
  intros Hr. revert z. induction n as [|n IH]; intros z Hz; cbn [digits]; [cbn in *; lia|].
  case_bool_decide; [unfold value; cbn; lia|].
  unfold value. rewrite fold_left_app. fold (value radix (digits n radix (z / radix))). rewrite IH.
  - cbn. pose proof (Z.div_mod z radix). lia.
  - rewrite Nat2Z.inj_succ, Z.pow_succ_r in Hz by lia.
    split; [apply Z.div_pos; lia|apply Z.div_lt_upper_bound; lia].
Qed.

Lemma digits_range n radix z : 0 < radix -> 0 <= z -> Forall (fun d => 0 <= d < radix) (digits n radix z).
Proof.
  intros Hr. revert z. induction n as [|n IH]; intros z Hz; cbn [digits]; [done|].
  case_bool_decide; [by repeat constructor|].
  apply Forall_app. split; [apply IH, Z.div_pos; lia|].
  repeat constructor; pose proof (Z.mod_pos_bound z radix); lia.
Qed.

(** Enough digits for [z] are not all needed, and only zero starts with a zero. *)
Lemma digits_length n radix z m :
  1 < radix -> 0 <= z < radix ^ Z.of_nat m -> (0 < m)%nat -> (length (digits n radix z) <= m)%nat.
Proof.
  intros Hr. revert z m. induction n as [|n IH]; intros z m Hz Hm; cbn [digits]; [cbn; lia|].
  case_bool_decide; [cbn; lia|]. rewrite length_app. cbn [length].
  destruct m as [|[|m]]; [lia|cbn in Hz; lia|].
  enough (length (digits n radix (z / radix)) <= S m)%nat by lia. apply IH; [|lia].
  rewrite Nat2Z.inj_succ, Z.pow_succ_r in Hz by lia.
  split; [apply Z.div_pos; lia|apply Z.div_lt_upper_bound; lia].
Qed.

Lemma digits_head n radix z :
  1 < radix -> 0 <= z < radix ^ Z.of_nat n -> (0 < n)%nat ->
  exists d l, digits n radix z = d :: l /\ (d = 0 -> l = []).
Proof.
  intros Hr. revert z. induction n as [|n IH]; intros z Hz Hn; [lia|]. cbn [digits].
  case_bool_decide; [eauto|].
  rewrite Nat2Z.inj_succ, Z.pow_succ_r in Hz by lia.
  assert (0 < z / radix) by (apply Z.div_str_pos; lia).
  assert (z / radix < radix ^ Z.of_nat n) by (apply Z.div_lt_upper_bound; lia).
  destruct n as [|n]; [cbn in *; lia|].
  destruct (IH (z / radix)) as (d & l & Hd & Hz0); [lia..|]. rewrite Hd. eexists d, _. split; [done|].
  intros ->. rewrite Hz0 in Hd by done.
  pose proof (digits_value (S n) radix (z / radix) Hr ltac:(lia)) as Hv. rewrite Hd in Hv. cbn in Hv. lia.
Qed.

(** ** Reading back a number *)
Definition stops (radix : Z) (rest : bytes) : Prop :=
  match rest with [] => True | b :: _ => digit_of radix b = None end.

Lemma value_mono radix l acc :
  1 < radix -> 0 <= acc -> Forall (fun d => 0 <= d < radix) l ->
  acc <= fold_left (fun acc d => acc * radix + d) l acc.
Proof.
  intros Hr Ha Hl. revert acc Ha. induction Hl as [|d l Hd Hl IH]; intros acc Ha; cbn; [lia|].
  etransitivity; [|apply IH]; nia.
Qed.

Lemma read_digits_map w radix max l rest acc n :
  1 < radix <= 16 -> 0 <= acc -> Forall (fun d => 0 <= d < radix) l -> stops radix rest ->
  fold_left (fun acc d => acc * radix + d) l acc < 2 ^ w ->
  match max with Some m => n + zlen l <= m | None => True end ->
  read_digits w radix max acc n (map digit_char l ++ rest) =
  Some (fold_left (fun acc d => acc * radix + d) l acc, n + zlen l, rest).
Proof.
  intros Hr Ha Hl Hs. revert acc n Ha. induction Hl as [|d l Hd Hl IH]; intros acc n Ha Hv Hm.
  - cbn [map app fold_left]. rewrite zlen_nil, Z.add_0_r.
    destruct rest as [|b rest]; [done|]. cbn in Hs |- *. by rewrite Hs.
  - cbn [map app read_digits fold_left] in *. rewrite digit_of_char by lia.
    pose proof (value_mono radix l (acc * radix + d) ltac:(lia) ltac:(nia) Hl). rewrite zlen_cons in *.
    pose proof (zlen_nonneg l).
    unfold checked. rewrite (bool_decide_true (in_width w (acc * radix))) by (unfold in_width; nia).
    cbn [mbind option_bind].
    rewrite (bool_decide_true (in_width w (acc * radix + d))) by (unfold in_width; nia). cbn [mbind option_bind].
    replace (match max with Some m => bool_decide (m < n + 1) | None => false end) with false
      by (destruct max; [rewrite bool_decide_false by lia|]; done).
    rewrite IH; [by rewrite Z.add_assoc|nia|lia|]. destruct max; [lia|done].
Qed.

Lemma digit_char_zero d : 0 <= d < 16 -> digit_char d = x30 -> d = 0.
Proof.
  intros Hd Hc. pose proof (digit_of_char 16 d Hd ltac:(lia)) as Hi. rewrite Hc in Hi. by injection Hi.
Qed.

Lemma read_number_digits w radix max zp k z rest :
  1 < radix <= 16 -> (0 < k)%nat -> 0 <= z < radix ^ Z.of_nat k -> z < 2 ^ w ->
  match max with Some m => 0 < m /\ z < radix ^ m | None => True end -> stops radix rest ->
  read_number w radix max zp (map digit_char (digits k radix z) ++ rest) = Some (z, rest).
Proof.
  intros Hr Hk Hz Hw Hm Hs. pose proof (digits_range k radix z ltac:(lia) ltac:(lia)) as Hrange.
  unfold read_number. rewrite read_digits_map; [|lia|lia|done|done| |].
  - change (fold_left _ (digits k radix z) 0) with (value radix (digits k radix z)).
    rewrite digits_value by lia. cbn [mbind option_bind].
    destruct (digits_head k radix z) as (d & l & Hdl & Hd0); [lia..|]. rewrite Hdl in *.
    apply Forall_cons in Hrange as [Hd _].
    rewrite zlen_cons, bool_decide_false by (pose proof (zlen_nonneg l); lia). cbn [map app].
    case_bool_decide as Hc; [|by rewrite andb_false_r].
    apply digit_char_zero in Hc; [|lia]. rewrite (Hd0 Hc). by rewrite andb_false_r.
  - change (value radix (digits k radix z) < 2 ^ w). by rewrite digits_value by lia.
  - destruct max as [m|]; [|done]. destruct Hm as [Hm0 Hm]. unfold zlen.
    pose proof (digits_length k radix z (Z.to_nat m) ltac:(lia)) as Hlen.
    rewrite Z2Nat.id in Hlen by lia. lia.
Qed.

Lemma read_dec_octet a rest :
  in_width 8 a -> stops 10 rest -> read_number 8 10 (Some 3) false (show_dec a ++ rest) = Some (a, rest).
Proof. unfold in_width. intros. apply read_number_digits; [lia..| |done]. lia. Qed.

Lemma read_octet_first a rest :
  in_width 8 a -> stops 10 rest -> read_octet 0 (show_dec a ++ rest) = Some (a, rest).
Proof. apply read_dec_octet. Qed.
Lemma read_octet_next i a rest :
  0 < i -> in_width 8 a -> stops 10 rest -> read_octet i (x2e :: show_dec a ++ rest) = Some (a, rest).
Proof.
  intros Hi Ha Hs. unfold read_octet, read_separator. rewrite bool_decide_true by done.
  cbn [read_given_char]. rewrite bool_decide_true by done. by apply read_dec_octet.
Qed.

Lemma read_ipv4_show a rest :
  in_width 32 a -> stops 10 rest -> read_ipv4_addr (show_ipv4 a ++ rest) = Some (a, rest).
Proof.
  intros Ha Hs. unfold read_ipv4_addr, show_ipv4.
  pose proof (words_range 8 4 a ltac:(lia)) as Hw.
  pose proof (of_words_words 8 4 a ltac:(lia)) as Ho.
  rewrite Z.mod_small in Ho by exact Ha.
  set (l := words 8 4 a) in *. pose proof (words_length 8 4 a) as Hl. fold l in Hl.
  destruct l as [|o1 [|o2 [|o3 [|o4 [|? ?]]]]]; try done.
  rewrite !Forall_cons in Hw. destruct Hw as (H1 & H2 & H3 & H4 & _).
  cbn [map join]. rewrite <- !app_assoc. cbn [app]. rewrite <- !app_assoc. cbn [app].
  rewrite <- !app_assoc. cbn [app].
  rewrite read_octet_first by done. cbn [mbind option_bind].
  rewrite read_octet_next by done. cbn [mbind option_bind].
  rewrite read_octet_next by done. cbn [mbind option_bind].
  rewrite read_octet_next by done. cbn [mbind option_bind].
  by rewrite Ho.
Qed.

(** ** Reading back an IPv6 address

    [group_end rest] holds of what follows a hexadecimal group in the text of an
    IPv6 address: nothing that the group, or a dotted address, could go on with. *)
Definition group_end (rest : bytes) : Prop :=
  match rest with [] => True | b :: _ => digit_of 16 b = None /\ b <> x2e end.
Definition hex_char (c : byte) : Prop := digit_of 16 c <> None.

Lemma show_hex_chars g : 0 <= g -> Forall hex_char (show_hex g).
Proof.
  intros Hg. apply Forall_map. eapply Forall_impl; [by apply (digits_range 4 16)|].
  intros d Hd. cbn beta in Hd. unfold hex_char. by rewrite digit_of_char by lia.
Qed.

Lemma digit_of_16 c d : digit_of 10 c = Some d -> digit_of 16 c <> None.
Proof.
  unfold digit_of. cbv zeta. intros H.
  destruct (if bool_decide _ then _ else _) as [v|]; cbn in *; [|done].
  destruct (decide (v < 10)); [by rewrite bool_decide_true by lia|by rewrite bool_decide_false in H].
Qed.

Lemma read_digits_no_dot w max acc n hs rest v m s :
  Forall hex_char hs -> group_end rest -> read_digits w 10 max acc n (hs ++ rest) = Some (v, m, s) ->
  head s <> Some x2e.
Proof.
  intros Hh Hr. revert acc n. induction Hh as [|c hs Hc Hh IH]; intros acc n; cbn [app].
  - destruct rest as [|b rest]; cbn [read_digits]; [by intros [= <- <- <-]|]. destruct Hr as [Hb Hd].
    destruct (digit_of 10 b) as [d|] eqn:Hdig; [by destruct (digit_of_16 b d)|].
    intros [= <- <- <-]. cbn. congruence.
  - cbn [read_digits]. destruct (digit_of 10 c) as [d|] eqn:Hdig.
    + destruct (checked w (acc * 10)); [|done]. cbn [mbind option_bind].
      destruct (checked w _); [|done]. cbn [mbind option_bind].
      destruct max; [case_bool_decide; [done|]|]; apply IH.
    + intros [= <- <- <-]. cbn. intros [= ->]. by apply Hc.
Qed.

Lemma read_octet_no_dot i s : 0 < i -> head s <> Some x2e -> read_octet i s = None.
Proof.
  intros Hi Hs. unfold read_octet, read_separator. rewrite bool_decide_true by done.
  destruct s as [|b s]; [done|]. cbn [read_given_char]. by rewrite bool_decide_false by (intros ->; done).
Qed.

Lemma read_ipv4_group hs rest :
  Forall hex_char hs -> group_end rest -> read_ipv4_addr (hs ++ rest) = None.
Proof.
  intros Hh Hr. unfold read_ipv4_addr. change (read_octet 0) with (read_number 8 10 (Some 3) false).
  unfold read_number. cbv zeta.
  destruct (read_digits 8 10 (Some 3) 0 0 (hs ++ rest)) as [[[v n] s]|] eqn:Hd; [|done].
  apply read_digits_no_dot in Hd; [|done..]. cbn [mbind option_bind].
  case_bool_decide; [done|]. destruct (_ && _ && _); [done|]. cbn [mbind option_bind].
  by rewrite read_octet_no_dot.
Qed.

Lemma read_hex_group g rest :
  in_width 16 g -> stops 16 rest -> read_number 16 16 (Some 4) true (show_hex g ++ rest) = Some (g, rest).
Proof. unfold in_width. intros. apply read_number_digits; [lia..| |done]. lia. Qed.

(** Groups as they stand in the text, behind [i] other groups. *)
Fixpoint fmt_groups (i : Z) (gs : list Z) : bytes :=
  match gs with
  | [] => []
  | g :: gs => (if bool_decide (0 < i) then [x3a] else []) ++ show_hex g ++ fmt_groups (i + 1) gs
  end.

Lemma fmt_groups_next i gs : 0 < i -> gs <> [] -> fmt_groups i gs = x3a :: fmt_subslice gs.
Proof.
  revert i. induction gs as [|g [|h gs] IH]; intros i Hi Hgs; [done| |];
    cbn [fmt_groups]; rewrite (bool_decide_true (0 < i)) by done; cbn [app]; f_equal.
  - cbn. by rewrite app_nil_r.
  - change (fmt_subslice (g :: h :: gs)) with (show_hex g ++ x3a :: fmt_subslice (h :: gs)). f_equal.
    rewrite <- (IH (i + 1)) by (done || lia). done.
Qed.
Lemma fmt_groups_first gs : fmt_groups 0 gs = fmt_subslice gs.
Proof.
  destruct gs as [|g [|h gs]]; [done| |]; cbn [fmt_groups]; rewrite bool_decide_false by lia; cbn [app].
  - cbn. by rewrite app_nil_r.
  - change (fmt_subslice (g :: h :: gs)) with (show_hex g ++ x3a :: fmt_subslice (h :: gs)). f_equal.
    by rewrite <- (fmt_groups_next (0 + 1)).
Qed.

Lemma fmt_groups_end i gs rest : 0 < i -> group_end rest -> group_end (fmt_groups i gs ++ rest).
Proof.
  intros Hi Hr. destruct gs as [|g gs]; [done|]. cbn [fmt_groups]. by rewrite bool_decide_true by done.
Qed.

Lemma group_end_stops rest : group_end rest -> stops 16 rest.
Proof. destruct rest; cbn; tauto. Qed.

(** A separator, when one is due, and then [p]. *)
Lemma read_separator_due {A} i (p : Parser A) s :
  read_separator x3a i p ((if bool_decide (0 < i) then [x3a] else []) ++ s) = p s.
Proof.
  unfold read_separator. case_bool_decide; [|done]. cbn [app read_given_char].
  by rewrite bool_decide_true by done.
Qed.

(** No further group starts at [rest]. *)
Definition no_group (i : Z) (rest : bytes) : Prop :=
  read_separator x3a i read_ipv4_addr rest = None /\
  read_separator x3a i (read_number 16 16 (Some 4) true) rest = None.

Lemma read_groups_fmt k i gs rest :
  Forall (in_width 16) gs -> (length gs <= k)%nat -> 0 <= i -> group_end rest ->
  ((length gs < k)%nat -> no_group (i + zlen gs) rest) ->
  read_groups k i (fmt_groups i gs ++ rest) = (gs, false, rest).
Proof.
  intros Hgs. revert k i. induction Hgs as [|g gs Hg Hgs IH]; intros k i Hk Hi Hr Hn.
  - cbn [fmt_groups app]. destruct k as [|k]; [done|]. cbn [read_groups].
    destruct Hn as [H4 H6]; [cbn; lia|]. rewrite Z.add_0_r in *.
    rewrite H4, H6. by case_bool_decide.
  - destruct k as [|k]; cbn [length] in *; [lia|]. cbn [fmt_groups]. rewrite <- !app_assoc.
    assert (group_end (fmt_groups (i + 1) gs ++ rest)) by (apply fmt_groups_end; [lia|done]).
    cbn [read_groups]. rewrite !read_separator_due, read_hex_group by auto using group_end_stops.
    rewrite read_ipv4_group by (try apply show_hex_chars; unfold in_width in *; done || lia).
    rewrite IH; [by case_bool_decide|lia|lia|done|]. intros Hlt. rewrite zlen_cons in Hn.
    replace (i + 1 + zlen gs) with (i + (1 + zlen gs)) by lia. apply Hn. lia.
Qed.

(** What may follow an address. *)
Definition addr_end (rest : bytes) : Prop := group_end rest /\ head rest <> Some x3a.

Lemma read_number_stops rest w radix max zp : stops radix rest -> read_number w radix max zp rest = None.
Proof. destruct rest as [|b rest]; [done|]. intros Hb. unfold read_number. cbn. by rewrite Hb. Qed.

Lemma read_separator_none {A} i (p : Parser A) s :
  p s = None -> (forall t, s = x3a :: t -> p t = None) -> read_separator x3a i p s = None.
Proof.
  intros Hp Ht. unfold read_separator. case_bool_decide; [|done].
  destruct s as [|b s]; [done|]. cbn [read_given_char]. case_bool_decide; [subst b|done]. by apply Ht.
Qed.

Lemma no_group_end i rest : group_end rest -> (forall t, rest = x3a :: t -> group_end t) -> no_group i rest.
Proof.
  intros Hr Ht. split; apply read_separator_none.
  - by apply (read_ipv4_group []).
  - intros t ->. by apply (read_ipv4_group []), Ht.
  - by apply read_number_stops, group_end_stops.
  - intros t ->. by apply read_number_stops, group_end_stops, Ht.
Qed.

Lemma addr_end_no_group i rest : addr_end rest -> no_group i rest.
Proof. intros [Hr Hc]. apply no_group_end; [done|]. by intros t ->. Qed.
Lemma double_colon_no_group i s : no_group i (x3a :: x3a :: s).
Proof. apply no_group_end; [done|]. by intros t [= <-]. Qed.

(** ** Zero runs *)
Definition zero_run (l : list Z) (r : nat * nat) : Prop :=
  l = take r.1 l ++ replicate r.2 0 ++ drop (r.1 + r.2) l /\ (r.1 + r.2 <= length l)%nat.

Lemma zero_run_nil l s : (s <= length l)%nat -> zero_run l (s, 0%nat).
Proof. split; cbn; [by rewrite Nat.add_0_r, take_drop|lia]. Qed.

Lemma zero_run_snoc l s n :
  zero_run l (s, n) -> l !! (s + n)%nat = Some 0 -> zero_run l (s, S n).
Proof.
  intros [Hl Hn] H0. cbn [fst snd] in *. split; cbn [fst snd].
  - rewrite (drop_S l 0 (s + n)) in Hl by done. etransitivity; [exact Hl|]. f_equal.
    rewrite Nat.add_succ_r. by rewrite cons_middle, app_assoc, <- replicate_cons_app.
  - apply lookup_lt_Some in H0. lia.
Qed.

Lemma scan_zeros_run all pre l current longest :
  all = pre ++ l ->
  zero_run all longest -> zero_run all current -> (current.2 = 0 \/ current.1 + current.2 = length pre)%nat ->
  zero_run all (scan_zeros l (length pre) current longest).
Proof.
  revert pre current longest. induction l as [|g l IH]; intros pre [s n] longest Hall Hl Hc Hcur; cbn [scan_zeros]; [done|].
  assert (all = (pre ++ [g]) ++ l) as Hall' by by rewrite <- app_assoc.
  replace (S (length pre)) with (length (pre ++ [g])) by (rewrite length_app; cbn; lia).
  assert (zero_run all (0, 0)%nat) by (apply zero_run_nil; lia).
  case_bool_decide as Hg; [|apply IH; auto].
  cbn [fst snd] in *.
  set (cur := if bool_decide (n = 0%nat) then (length pre, 1%nat) else (s, S n)).
  assert (all !! length pre = Some 0) as Hat by (rewrite Hall, list_lookup_middle by done; by subst g).
  assert (zero_run all cur /\ cur.1 + cur.2 = length (pre ++ [g]))%nat as [Hcz He].
  { unfold cur. rewrite length_app. cbn [length]. case_bool_decide; cbn [fst snd].
    - split; [|done]. apply zero_run_snoc; [|by rewrite Nat.add_0_r].
      apply zero_run_nil. apply lookup_lt_Some in Hat. lia.
    - split; [|lia]. apply zero_run_snoc; [done|]. by replace (s + n)%nat with (length pre) by lia. }
  apply IH; [done| |done|by right]. by case_bool_decide.
Qed.

(** ** Addresses read back *)
Lemma read_ipv6_full gs rest :
  length gs = 8%nat -> Forall (in_width 16) gs -> group_end rest ->
  read_ipv6_addr (fmt_subslice gs ++ rest) = Some (of_words 16 gs, rest).
Proof.
  intros Hl Hgs Hr. unfold read_ipv6_addr. rewrite <- fmt_groups_first.
  rewrite read_groups_fmt by (done || lia). by rewrite bool_decide_true.
Qed.

(** Read [hd::tl], where the second part may end in a dotted address. *)
Lemma read_ipv6_compressed hd n tl v4 text rest :
  (0 < n)%nat -> (length hd + n + length tl = 8)%nat -> Forall (in_width 16) hd ->
  read_groups (n + length tl - 1) 0 text = (tl, v4, rest) ->
  read_ipv6_addr (fmt_subslice hd ++ [x3a; x3a] ++ text) =
  Some (of_words 16 (hd ++ replicate n 0 ++ tl), rest).
Proof.
  intros Hn Hl Hhd Ht. unfold read_ipv6_addr. rewrite <- fmt_groups_first, read_groups_fmt.
  - rewrite bool_decide_false by lia. cbn [app read_given_char].
    rewrite (bool_decide_true (x3a = x3a)) by done. cbn [mbind option_bind read_given_char].
    rewrite (bool_decide_true (x3a = x3a)) by done. cbn [mbind option_bind].
    replace (8 - (length hd + 1))%nat with (n + length tl - 1)%nat by lia. rewrite Ht.
    by replace (8 - length tl - length hd)%nat with n by lia.
  - done.
  - lia.
  - lia.
  - done.
  - intros _. apply double_colon_no_group.
Qed.

Lemma mapped_words a :
  in_width 128 a -> is_ipv4_mapped (words 16 8 a) = true ->
  words 16 8 a = replicate 5 0 ++ 0xffff :: words 16 2 (wrap 32 a).
Proof.
  unfold is_ipv4_mapped. intros Ha H%bool_decide_eq_true.
  rewrite <- (take_drop 6 (words 16 8 a)), H. change (replicate 5 0 ++ ?x :: ?t) with ([0; 0; 0; 0; 0; x] ++ t).
  f_equal. cbn [words drop Z.of_nat Z.mul Pos.mul Pos.of_succ_nat Pos.succ]. unfold wrap.
  rewrite !Z.shiftr_div_pow2 by lia. f_equal; [|f_equal]; div_lia.
Qed.

Lemma show_ipv6_hex a :
  in_width 128 a -> is_ipv4_mapped (words 16 8 a) = false ->
  show_ipv6 a = fmt_subslice (words 16 8 a) \/
  exists hd n tl, (1 < n)%nat /\ words 16 8 a = hd ++ replicate n 0 ++ tl /\
    show_ipv6 a = fmt_subslice hd ++ [x3a; x3a] ++ fmt_subslice tl.
Proof.
  intros Ha Hm. unfold show_ipv6. rewrite Hm.
  pose proof (scan_zeros_run (words 16 8 a) [] (words 16 8 a) (0, 0)%nat (0, 0)%nat eq_refl) as Hz.
  cbn [length] in Hz. destruct (scan_zeros _ 0 _ _) as [s n].
  destruct Hz as [Hz _]; [by apply zero_run_nil; lia..|by left|]. cbn [fst snd] in Hz.
  case_bool_decide; [right|by left]. eauto 7.
Qed.

Lemma read_mapped_tail o rest :
  in_width 32 o -> stops 10 rest ->
  read_groups 7 0 (show_hex 0xffff ++ [x3a] ++ show_ipv4 o ++ rest) = (0xffff :: words 16 2 o, true, rest).
Proof.
  intros Ho Hr. cbn [read_groups]. rewrite bool_decide_true by lia.
  change (read_separator x3a 0 read_ipv4_addr) with read_ipv4_addr.
  change (read_separator x3a 0 (read_number 16 16 (Some 4) true)) with (read_number 16 16 (Some 4) true).
  rewrite read_ipv4_group, read_hex_group by (done || by apply show_hex_chars).
  rewrite bool_decide_true by lia.
  change ([x3a] ++ show_ipv4 o ++ rest) with ((if bool_decide (0 < 0 + 1) then [x3a] else []) ++ show_ipv4 o ++ rest).
  by rewrite read_separator_due, read_ipv4_show.
Qed.

Lemma read_ipv6_show a rest :
  in_width 128 a -> addr_end rest -> read_ipv6_addr (show_ipv6 a ++ rest) = Some (a, rest).
Proof.
  intros Ha Hr. pose proof (words_range 16 8 a ltac:(lia)) as Hw. pose proof (words_length 16 8 a) as Hl.
  assert (of_words 16 (words 16 8 a) = a) as Ho by (rewrite of_words_words by lia; by apply Z.mod_small).
  destruct (is_ipv4_mapped (words 16 8 a)) eqn:Hm.
  - unfold show_ipv6. rewrite Hm, <- !app_assoc. rewrite (mapped_words a Ha Hm) in Ho.
    rewrite <- (app_nil_l ([x3a; x3a] ++ _)). change [] with (fmt_subslice []).
    rewrite (read_ipv6_compressed [] 5 (0xffff :: words 16 2 (wrap 32 a)) true _ rest);
      [by rewrite app_nil_l, Ho|lia|done|done|].
    apply read_mapped_tail; [by apply wrap_range|]. destruct Hr as [Hr _].
    destruct rest as [|b rest]; [done|]. cbn. destruct (digit_of 10 b) eqn:Hb; [|done].
    by apply digit_of_16 in Hb as []; apply Hr.
  - destruct (show_ipv6_hex a Ha Hm) as [->|(hd & n & tl & Hn & Hs & ->)].
    + rewrite read_ipv6_full by (done || apply Hr). by rewrite Ho.
    + rewrite Hs in *. rewrite !length_app, length_replicate in Hl. rewrite !Forall_app in Hw.
      destruct Hw as (Hhd & _ & Htl). rewrite <- !app_assoc.
      rewrite (read_ipv6_compressed hd n tl false _ rest); [by rewrite Ho|lia..|done|].
      rewrite <- fmt_groups_first. apply read_groups_fmt; [done|lia|lia|apply Hr|].
      intros _. by apply addr_end_no_group.
Qed.

Lemma read_ipv4_groups gs rest :
  Forall (in_width 16) gs -> group_end rest -> read_ipv4_addr (fmt_subslice gs ++ rest) = None.
Proof.
  intros Hgs Hr. destruct Hgs as [|g gs Hg Hgs]; [by apply (read_ipv4_group [])|].
  rewrite <- fmt_groups_first. cbn [fmt_groups]. rewrite bool_decide_false by lia. cbn [app].
  rewrite <- app_assoc. apply read_ipv4_group; [apply show_hex_chars; unfold in_width in *; lia|].
  apply fmt_groups_end; [lia|done].
Qed.

Lemma read_ipv4_show_ipv6 a rest :
  in_width 128 a -> group_end rest -> read_ipv4_addr (show_ipv6 a ++ rest) = None.
Proof.
  intros Ha Hr. pose proof (words_range 16 8 a ltac:(lia)) as Hw.
  destruct (is_ipv4_mapped (words 16 8 a)) eqn:Hm.
  - unfold show_ipv6. rewrite Hm, <- app_assoc. by apply (read_ipv4_group []).
  - destruct (show_ipv6_hex a Ha Hm) as [->|(hd & n & tl & Hn & Hs & ->)]; [by apply read_ipv4_groups|].
    rewrite <- !app_assoc. rewrite Hs, Forall_app in Hw. by apply read_ipv4_groups; [apply Hw|].
Qed.

Lemma read_port_show p : in_width 16 p -> read_port (x3a :: show_dec p) = Some (p, []).
Proof.
  intros Hp. unfold read_port. cbn [read_given_char]. rewrite bool_decide_true by done. cbn [mbind option_bind].
  rewrite <- (app_nil_r (show_dec p)). unfold in_width in Hp. apply read_number_digits; [lia..|done|done].
Qed.

Lemma read_scope_show z rest :
  in_width 32 z -> stops 10 rest -> read_scope_id (x25 :: show_dec z ++ rest) = Some (z, rest).
Proof.
  intros Hp Hs. unfold read_scope_id. cbn [read_given_char]. rewrite bool_decide_true by done.
  cbn [mbind option_bind]. unfold in_width in Hp. apply read_number_digits; [lia..|done|done].
Qed.

Lemma ip_text_roundtrip ip : ip_ok ip -> IpAddr_from_str (show_ip ip) = Some ip.
Proof.
  intros Hip. unfold IpAddr_from_str, parse_with, read_ip_addr.
  rewrite <- (app_nil_r (show_ip ip)). destruct ip as [a|a]; cbn [show_ip ip_ok] in *.
  - by rewrite read_ipv4_show.
  - by rewrite read_ipv4_show_ipv6, read_ipv6_show.
Qed.

Lemma sock_v6_roundtrip ip port scope :
  in_width 128 ip -> in_width 16 port -> in_width 32 scope ->
  read_socket_addr_v6 (show_sock (mkSock (V6 ip) port scope)) = Some (mkSock (V6 ip) port scope, []).
Proof.
  intros Hip Hp Hs. unfold read_socket_addr_v6. cbn [show_sock sock_ip sock_port scope_id app read_given_char].
  rewrite bool_decide_true by done. cbn [mbind option_bind].
  rewrite read_ipv6_show by (done || by case_bool_decide). cbn [mbind option_bind].
  assert (match read_scope_id ((if bool_decide (scope = 0) then [] else [x25] ++ show_dec scope) ++
            x5d :: x3a :: show_dec port) with Some r => r | None => (0, _) end
          = (scope, x5d :: x3a :: show_dec port)) as ->.
  { case_bool_decide; [by subst|]. cbn [app]. by rewrite read_scope_show. }
  cbn [read_given_char]. rewrite bool_decide_true by done. cbn [mbind option_bind].
  by rewrite read_port_show.
Qed.

Lemma sock_text_roundtrip a : sock_ok a -> SocketAddr_from_str (show_sock a) = Some a.
Proof.
  destruct a as [ip port scope]. intros (Hip & Hp & Hs). unfold SocketAddr_from_str, parse_with, read_socket_addr.
  destruct ip as [ip|ip]; cbn [sock_ip sock_port scope_id ip_ok] in *.
  - subst scope. unfold read_socket_addr_v4. cbn [show_sock sock_ip sock_port].
    rewrite read_ipv4_show by done. cbn [mbind option_bind app]. by rewrite read_port_show.
  - rewrite sock_v6_roundtrip by done.
    assert (forall t, read_ipv4_addr (x5b :: t) = None) as Hno by (intros t; by apply (read_ipv4_group [])).
    unfold read_socket_addr_v4. cbn [show_sock sock_ip app]. by rewrite Hno.
Qed.

(** ** What is read is an address *)
Lemma read_digits_range w radix max acc n s v m s' :
  in_width w acc -> read_digits w radix max acc n s = Some (v, m, s') -> in_width w v.
Proof.
  revert acc n. induction s as [|b s IH]; intros acc n Ha; cbn [read_digits]; [naive_solver|].
  destruct (digit_of radix b) as [d|]; [|naive_solver]. unfold checked.
  case_bool_decide; [|done]. cbn [mbind option_bind]. case_bool_decide as Hd; [|done]. cbn [mbind option_bind].
  destruct max; [case_bool_decide; [done|]|]; by apply IH.
Qed.

Lemma read_number_range w radix max zp s v s' :
  0 <= w -> read_number w radix max zp s = Some (v, s') -> in_width w v.
Proof.
  unfold read_number. cbv zeta. intros Hw.
  destruct (read_digits w radix max 0 0 s) as [[[u n] t]|] eqn:Hd; [|done]. cbn [mbind option_bind].
  apply read_digits_range in Hd; [|split; [lia|apply Z.pow_pos_nonneg; lia]].
  case_bool_decide; [done|]. destruct (_ && _ && _); [done|]. by intros [= <- <-].
Qed.

Lemma read_separator_Some {A} sep i (p : Parser A) s r :
  read_separator sep i p s = Some r -> exists t, p t = Some r.
Proof.
  unfold read_separator. case_bool_decide; [|eauto].
  destruct (read_given_char sep s) as [[? t]|]; [|done]. cbn. eauto.
Qed.

Lemma read_octet_range i s v s' : read_octet i s = Some (v, s') -> in_width 8 v.
Proof. intros (t & H)%read_separator_Some. by eapply read_number_range. Qed.

Lemma read_ipv4_range s a s' : read_ipv4_addr s = Some (a, s') -> in_width 32 a.
Proof.
  unfold read_ipv4_addr. intros H.
  repeat match type of H with (read_octet ?i ?s ≫= _) = _ =>
    let Ho := fresh "Ho" in
    destruct (read_octet i s) as [[? ?]|] eqn:Ho; [apply read_octet_range in Ho|done]; cbn [mbind option_bind] in H
  end. injection H as <- <-. apply (of_words_range 8 [_; _; _; _]); [lia|].
  by repeat (apply Forall_cons_2; [done|]).
Qed.

Lemma read_groups_range k i s gs v4 s' :
  read_groups k i s = (gs, v4, s') -> Forall (in_width 16) gs /\ (length gs <= k)%nat.
Proof.
  revert i s gs v4 s'. induction k as [|k IH]; intros i s gs v4 s'; cbn [read_groups]; [by intros [= <- <- <-]|].
  destruct (if bool_decide _ then _ else None) as [[a t]|] eqn:H4.
  - intros [= <- <- <-]. case_bool_decide; [|done].
    change (Forall (in_width 16) (words 16 2 a) /\ (length (words 16 2 a) <= S k)%nat). rewrite words_length. split; [by apply words_range|lia].
  - destruct (read_separator x3a i (read_number 16 16 (Some 4) true) s) as [[g t]|] eqn:Hg.
    + destruct (read_groups k (i + 1) t) as [[gs' v'] t'] eqn:Hr. intros [= <- <- <-].
      apply IH in Hr as [Hr Hl]. apply read_separator_Some in Hg as (u & Hg).
      apply read_number_range in Hg; [|lia]. cbn [length]. split; [by constructor|lia].
    + intros [= <- <- <-]. cbn [length]. split; [constructor|lia].
Qed.

Lemma of_words_128 l : length l = 8%nat -> Forall (in_width 16) l -> in_width 128 (of_words 16 l).
Proof. intros Hl Hf. pose proof (of_words_range 16 l ltac:(lia) Hf) as H. unfold zlen in H. by rewrite Hl in H. Qed.

Lemma read_ipv6_range s a s' : read_ipv6_addr s = Some (a, s') -> in_width 128 a.
Proof.
  unfold read_ipv6_addr. destruct (read_groups 8 0 s) as [[hd h4] s1] eqn:Hhd.
  apply read_groups_range in Hhd as [Hhd Hl]. case_bool_decide.
  { intros [= <- <-]. by apply of_words_128. }
  destruct h4; [done|]. destruct (read_given_char x3a s1) as [[? s2]|]; [|done]. cbn [mbind option_bind].
  destruct (read_given_char x3a s2) as [[? s3]|]; [|done]. cbn [mbind option_bind].
  destruct (read_groups _ 0 s3) as [[tl t4] s4] eqn:Htl. apply read_groups_range in Htl as [Htl Htn].
  intros [= <- <-]. apply of_words_128; [rewrite !length_app, length_replicate; lia|].
  rewrite !Forall_app. split_and!; [done| |done]. apply Forall_replicate. by split.
Qed.

Lemma read_ip_range s ip s' : read_ip_addr s = Some (ip, s') -> ip_ok ip.
Proof.
  unfold read_ip_addr. destruct (read_ipv4_addr s) as [[a t]|] eqn:H4.
  - intros [= <- <-]. by eapply read_ipv4_range.
  - destruct (read_ipv6_addr s) as [[a t]|] eqn:H6; [|done]. intros [= <- <-]. by eapply read_ipv6_range.
Qed.

Lemma read_port_range s p s' : read_port s = Some (p, s') -> in_width 16 p.
Proof.
  unfold read_port. destruct (read_given_char x3a s) as [[? t]|]; [|done]. by apply read_number_range.
Qed.

Lemma read_sock_range s a s' : read_socket_addr s = Some (a, s') -> sock_ok a.
Proof.
  unfold read_socket_addr. destruct (read_socket_addr_v4 s) as [[b t]|] eqn:H4.
  - intros [= <- <-]. unfold read_socket_addr_v4 in H4.
    destruct (read_ipv4_addr s) as [[ip u]|] eqn:Hip; [|done]. cbn [mbind option_bind] in H4.
    destruct (read_port u) as [[p v]|] eqn:Hp; [|done]. injection H4 as <- <-.
    split_and!; [by eapply read_ipv4_range|by eapply read_port_range|done].
  - unfold read_socket_addr_v6. destruct (read_given_char x5b s) as [[? s1]|]; [|done]. cbn [mbind option_bind].
    destruct (read_ipv6_addr s1) as [[ip s2]|] eqn:Hip; [|done]. cbn [mbind option_bind].
    destruct (match read_scope_id s2 with Some r => r | None => (0, s2) end) as [scope s3] eqn:Hs.
    assert (in_width 32 scope).
    { unfold read_scope_id in Hs. destruct (read_given_char x25 s2) as [[? s4]|]; cbn [mbind option_bind] in Hs.
      - destruct (read_number 32 10 None true s4) as [[v w]|] eqn:Hn; injection Hs as <- <-; [|done].
        by apply read_number_range in Hn.
      - by injection Hs as <- <-. }
    destruct (read_given_char x5d s3) as [[? s5]|]; [|done]. cbn [mbind option_bind].
    destruct (read_port s5) as [[p s6]|] eqn:Hp; [|done]. intros [= <- <-].
    split_and!; [by eapply read_ipv6_range|by eapply read_port_range|done].
Qed.

Lemma parse_with_Some {A} (p : Parser A) s a : parse_with p s = Some a -> p s = Some (a, []).
Proof. unfold parse_with. destruct (p s) as [[? [|]]|]; cbn; naive_solver. Qed.

Lemma SocketAddr_from_str_ok s a : SocketAddr_from_str s = Some a -> sock_ok a.
Proof. intros ?%parse_with_Some. by eapply read_sock_range. Qed.
Lemma IpAddr_from_str_ok s a : IpAddr_from_str s = Some a -> ip_ok a.
Proof. intros ?%parse_with_Some. by eapply read_ip_range. Qed.

(** ** The text of an address fits a server record *)
Definition short_ascii (n : Z) (b : bytes) : Prop := is_ascii b = true /\ zlen b <= n.

Lemma short_ascii_app n m a b : short_ascii n a -> short_ascii m b -> short_ascii (n + m) (a ++ b).
Proof. unfold short_ascii, is_ascii. rewrite forallb_app, zlen_app. intros [-> ?] [-> ?]. split; [done|lia]. Qed.
Lemma short_ascii_le n m b : n <= m -> short_ascii n b -> short_ascii m b.
Proof. intros ? [? ?]. split; [done|lia]. Qed.

Lemma show_digits_short k radix z m :
  1 < radix <= 16 -> 0 <= z < radix ^ Z.of_nat m -> (0 < m)%nat ->
  short_ascii (Z.of_nat m) (map digit_char (digits k radix z)).
Proof.
  intros Hr Hz Hm. split.
  - apply forallb_forall. intros c Hc%list_elem_of_In. apply list_elem_of_fmap in Hc as (d & -> & Hd).
    pose proof (digits_range k radix z ltac:(lia) ltac:(lia)) as Hrange.
    rewrite Forall_forall in Hrange. specialize (Hrange d Hd). apply bool_decide_eq_true.
    unfold digit_char. rewrite byte_val_to_byte. case_bool_decide; rewrite Z.mod_small; lia.
  - unfold zlen. rewrite length_map. pose proof (digits_length k radix z m). lia.
Qed.

Lemma join_short sep n l :
  short_ascii 1 [sep] -> Forall (short_ascii n) l -> 0 <= n -> short_ascii ((n + 1) * zlen l) (join sep l).
Proof.
  intros Hsep Hl Hn. induction Hl as [|x [|y l] Hx Hl IH]; [split; [done|zl]|..].
  - apply (short_ascii_le n); [|done]. rewrite zlen_cons. pose proof (zlen_nonneg (A := bytes) []). nia.
  - rewrite zlen_cons. apply (short_ascii_le (n + (1 + (n + 1) * zlen (y :: l)))); [lia|].
    change (join sep (x :: y :: l)) with (x ++ [sep] ++ join sep (y :: l)). auto using short_ascii_app.
Qed.

Lemma show_ipv4_short a : short_ascii 16 (show_ipv4 a).
Proof.
  apply (join_short x2e 3); [by split| |lia]. apply Forall_map.
  eapply Forall_impl; [by apply words_range|]. intros o Ho. unfold in_width in Ho.
  apply (show_digits_short 10 10 o 3); lia.
Qed.

Lemma fmt_subslice_short gs : Forall (in_width 16) gs -> short_ascii (5 * zlen gs) (fmt_subslice gs).
Proof.
  intros Hgs. pose proof (join_short x3a 4 (map show_hex gs)) as Hj.
  unfold zlen in *. rewrite length_map in Hj. apply Hj; [by split| |lia]. apply Forall_map.
  eapply Forall_impl; [exact Hgs|]. intros g Hg. unfold in_width in Hg.
  apply (show_digits_short 4 16 g 4); lia.
Qed.

Lemma show_ipv6_short a : in_width 128 a -> short_ascii 42 (show_ipv6 a).
Proof.
  intros Ha. pose proof (words_range 16 8 a ltac:(lia)) as Hw. pose proof (words_length 16 8 a) as Hl.
  destruct (is_ipv4_mapped (words 16 8 a)) eqn:Hm.
  - unfold show_ipv6. rewrite Hm. rewrite !app_assoc.
    apply (short_ascii_le (7 + 16)); [lia|]. apply short_ascii_app; [by split|]. apply show_ipv4_short.
  - destruct (show_ipv6_hex a Ha Hm) as [->|(hd & n & tl & Hn & Hs & ->)].
    + eapply short_ascii_le; [|by apply fmt_subslice_short]. unfold zlen. lia.
    + rewrite Hs in *. rewrite !length_app, length_replicate in Hl. rewrite !Forall_app in Hw.
      apply (short_ascii_le (5 * zlen hd + (2 + 5 * zlen tl))); [unfold zlen; lia|].
      repeat apply short_ascii_app; [apply fmt_subslice_short, Hw|by split|apply fmt_subslice_short, Hw].
Qed.

(** What a server can name: any IP address, or a host name that does not read as one. *)
Definition nameable (a : Address) : Prop :=
  match a with
  | Hostname name => is_ascii name = true /\ zlen name < 2 ^ 16 /\ ipv4_from_str name = None /\ ipv6_from_str name = None
  | Ipv4Address a => in_width 32 a
  | Ipv6Address a => in_width 128 a
  end.

Lemma nameable_ok a : nameable a -> address_ok a.
Proof.
  unfold address_ok. destruct a as [name|a|a]; cbn [nameable]; [tauto|..]; intros Ha;
    cbn [ipv4_from_str ipv4_to_string ipv6_from_str ipv6_to_string std_ip_text]; unfold parse_with.
  - rewrite <- (app_nil_r (show_ipv4 a)). by rewrite read_ipv4_show.
  - rewrite <- (app_nil_r (show_ipv6 a)). by rewrite read_ipv4_show_ipv6, read_ipv6_show.
Qed.

Lemma nameable_short a s : nameable a -> is_ascii (into_string (mkServer s a)) = true /\ zlen (into_string (mkServer s a)) < 2 ^ 16.
Proof.
  unfold into_string. destruct a as [name|a|a]; cbn [nameable server_address]; [tauto|..]; intros Ha.
  - destruct (show_ipv4_short a). split; [done|]. cbn [ipv4_to_string std_ip_text]. lia.
  - destruct (show_ipv6_short a Ha). split; [done|]. cbn [ipv6_to_string std_ip_text]. lia.
Qed.

(** ** The records on the wire

    What each of the eight records is on the wire (RFC 8915, section 4.1): the
    critical bit, the type number, and the body. *)
Definition wire_form (r : KeRecord) : bool * Z * bytes :=
  match r with
  | EndOfMessage _ => (true, 0, [])
  | NextProtocol r => (true, 1, concat (map (fun '(Ntpv4) => [x00; x00]) (protocols r)))
  | Error r => (true, 2, match error_kind r with
                         | UnrecognizedCriticalRecord => [x00; x00]
                         | BadRequest => [x00; x01]
                         end)
  | Warning _ => (true, 3, [xff; xff])
  | AeadAlgorithm r => (true, 4, concat (map (fun '(AeadAesSivCmac256) => [x00; x0f]) (algorithms r)))
  | NewCookie r => (false, 5, cookie_data r)
  | ServerNegotiation r =>
    (match server_sender r with PartyClient => false | PartyServer => true end, 6,
     match server_address r with
     | Hostname name => name
     | Ipv4Address a => show_ipv4 a
     | Ipv6Address a => show_ipv6 a
     end)
  | Port r =>
    (match port_sender r with PartyClient => false | PartyServer => true end, 7, be_bytes 2 (port r))
  end.

(** The records that [s] can send. *)
Definition sendable (s : Party) (r : KeRecord) : Prop :=
  match r with
  | EndOfMessage _ | Error _ | Warning _ => True
  | NextProtocol r => zlen (protocols r) < 2 ^ 15
  | AeadAlgorithm r => zlen (algorithms r) < 2 ^ 15
  | NewCookie r => zlen (cookie_data r) < 2 ^ 16
  | ServerNegotiation r => s = server_sender r /\ nameable (server_address r)
  | Port r => s = port_sender r /\ in_width 16 (port r)
  end.

(** [serialize] at the type of the record. *)
Definition serialize_any {P : Profile} {E} (r : KeRecord) : res E bytes :=
  match r with
  | EndOfMessage r => serialize r
  | NextProtocol r => serialize r
  | Error r => serialize r
  | Warning r => serialize r
  | AeadAlgorithm r => serialize r
  | NewCookie r => serialize r
  | ServerNegotiation r => serialize r
  | Port r => serialize r
  end.

(** C36: every NTS-KE record round-trips.  A record of any of the eight types whose
    body fits in 65535 bytes (at most 32767 protocols or algorithms; a cookie or a
    host name of that size, the host name ASCII and not itself the text of an
    address; any IP address and port, the record made for the party that sends it)
    serializes without overflow or panic to its critical bit and type number, the
    length of its body and the body, and [deserialize], with any bytes behind it,
    returns that record. *)
Theorem record_roundtrip {P : Profile} (s : Party) (r : KeRecord) (tail : bytes) :
  sendable s r ->
  let '(crit, ty, body) := wire_form r in
  let b := be_bytes 2 (Z.b2z crit * 2 ^ 15 + ty) ++ be_bytes 2 (zlen body) ++ body in
  serialize_any (E := DeserializeError) r = Ok b /\ zlen body < 2 ^ 16 /\
  deserialize s (b ++ tail) = Ok r.
Proof.
  destruct r as [[]|[l]|[k]|[[]]|[l]|[c]|[s' a]|[s' p]]; cbn [sendable wire_form serialize_any];
    unfold server_sender, server_address, port_sender, port; intros Hr.
  - exact (record_wire s mkEndOfMessage tail I).
  - rewrite (map_ext _ (fun p => be_bytes 2 (as_protocol_id p))) by by intros [].
    assert (record_ok s (mkNextProtocol l)) as Hok by (cbn in *; lia).
    exact (record_wire s (mkNextProtocol l) tail Hok).
  - destruct k; [exact (record_wire s (mkError UnrecognizedCriticalRecord) tail I)
                |exact (record_wire s (mkError BadRequest) tail I)].
  - exact (record_wire s (mkWarning Dummy) tail I).
  - rewrite (map_ext _ (fun p => be_bytes 2 (as_algorithm_id p))) by by intros [].
    assert (record_ok s (mkAeadAlgorithm l)) as Hok by (cbn in *; lia).
    exact (record_wire s (mkAeadAlgorithm l) tail Hok).
  - exact (record_wire s (mkNewCookie c) tail Hr).
  - destruct Hr as [-> Ha]. destruct (nameable_short a s' Ha).
    assert (record_ok s' (mkServer s' a)) as Hok by (cbn; auto using nameable_ok).
    destruct s', a; exact (record_wire _ (mkServer _ _) tail Hok).
  - destruct Hr as [-> Hp]. assert (record_ok s' (mkPort s' p)) as Hok by done.
    destruct s'; exact (record_wire _ (mkPort _ p) tail Hok).
Qed.

(** A server's port, the algorithms it offers, and an IPv6 address it names. *)
Lemma record_roundtrip_witness :
  let encode crit ty body := be_bytes 2 (Z.b2z crit * 2 ^ 15 + ty) ++ be_bytes 2 (zlen body) ++ body in
  let eom := [x80; x00; x00; x00] in
  let port := Port (mkPort PartyServer 4123) in
  let algorithm := AeadAlgorithm (mkAeadAlgorithm [AeadAesSivCmac256]) in
  let server := ServerNegotiation (mkServer PartyServer (Ipv6Address 0x20010db8000000000000000000000001)) in
  deserialize PartyServer (encode true 7 [x10; x1b] ++ eom) = Ok port /\
  deserialize PartyServer (encode true 4 [x00; x0f] ++ eom) = Ok algorithm /\
  deserialize PartyServer (encode true 6 (String.list_byte_of_string "2001:db8::1") ++ eom) = Ok server.
Proof.
  intros encode eom port algorithm server. split_and!.
  - apply (record_roundtrip (P := Debug) PartyServer port eom). by vm_compute.
  - apply (record_roundtrip (P := Debug) PartyServer algorithm eom). by vm_compute.
  - apply (record_roundtrip (P := Debug) PartyServer server eom). by vm_compute.
Defined.
