(* ===== verification/KeStream.v ===== *)
(** * The stream of NTS-KE records

    Both the server connection and the client cut the TLS plaintext into records
    and process them until End of Message.  [ke_parse] is the specification of
    that loop, independent of how the plaintext arrives. *)

From stdpp Require Import prelude list numbers strings.
From Stdlib Require Import Strings.Byte.
From S2P Require Import Prelude Words Crypto NtpProtocol Cookie KeRecords.

Open Scope Z_scope.

Inductive outcome :=
  | Incomplete (st : ReceivedNtsKeRecordState) (rest : bytes)
  | Finished (st : ReceivedNtsKeRecordState) (rest : bytes)
  | Rejected (st : ReceivedNtsKeRecordState).

Section Stream.
Context {I : IpText}.
Implicit Types (st : ReceivedNtsKeRecordState) (party : Party).

(** One complete record: the new state, or [None] when it ends the exchange. *)
Definition record_step party st (rec : bytes) : option ReceivedNtsKeRecordState :=
  match deserialize party rec with
  | Ok r => match process_record r st with (Ok _, st') => Some st' | _ => None end
  | Err UnknownNotCriticalRecord => Some st
  | _ => None
  end.

(** The bytes hold no complete record yet. *)
Definition short (b : bytes) : Prop := zlen b < 4 \/ zlen b < 4 + body_length b.
(** The bytes are exactly one record. *)
Definition whole (rec : bytes) : Prop := 4 <= zlen rec /\ zlen rec = 4 + body_length rec.

Inductive ke_parse party : ReceivedNtsKeRecordState -> bytes -> outcome -> Prop :=
  | parse_finished st b : finished st = true -> ke_parse party st b (Finished st b)
  | parse_short st b : finished st = false -> short b -> ke_parse party st b (Incomplete st b)
  | parse_step st rec rest st' o :
      finished st = false -> whole rec -> record_step party st rec = Some st' ->
      ke_parse party st' rest o -> ke_parse party st (rec ++ rest) o
  | parse_reject st rec rest :
      finished st = false -> whole rec -> record_step party st rec = None ->
      ke_parse party st (rec ++ rest) (Rejected st).

Lemma body_length_app a b : 4 <= zlen a -> body_length (a ++ b) = body_length a.
Proof.
  intros Ha. unfold body_length, zlen in *. rewrite drop_app_le by lia.
  by rewrite take_app_le by (rewrite length_drop; lia).
Qed.

Lemma deserialize_panics_whole party rec : whole rec -> is_panic (deserialize party rec) = false.
Proof.
  intros [H4 Hl]. pose proof (deserialize_cases party rec) as H.
  rewrite !bool_decide_true in H by lia. destruct H as (b0 & b1 & _ & ->). apply dispatch_no_panic.
Qed.

Lemma whole_not_short rec rest : whole rec -> ~ short (rec ++ rest).
Proof.
  intros [H4 Hl] [Hs|Hs]; rewrite ?body_length_app in Hs by done; zl;
    pose proof (zlen_nonneg rest); lia.
Qed.

Lemma whole_prefix rec rest rec' rest' :
  whole rec -> whole rec' -> rec ++ rest = rec' ++ rest' -> rec = rec' /\ rest = rest'.
Proof.
  intros [H4 Hl] [H4' Hl'] E. apply app_inj_1; [|done].
  assert (body_length rec = body_length rec') as Hb.
  { rewrite <- (body_length_app rec rest), <- (body_length_app rec' rest') by done. by rewrite E. }
  unfold zlen in *. lia.
Qed.

(** The specification is a total function of the state and the bytes. *)
Lemma ke_parse_functional party st b o o' : ke_parse party st b o -> ke_parse party st b o' -> o = o'.
Proof.
  intros H. revert o'. induction H as [st b Hf|st b Hf Hs|st rec rest st' o Hf Hw Hr _ IH|st rec rest Hf Hw Hr];
    intros o' H'.
  - inversion H'; subst; congruence.
  - inversion H'; subst; try congruence; exfalso; by eapply whole_not_short.
  - remember (rec ++ rest) as b eqn:Eb. destruct H' as [? ? ?|? ? ? ?|? rec' rest' st'' o'' ? Hw' Hr' H'|? rec' rest' ? Hw' Hr'].
    + congruence.
    + subst b. exfalso. by eapply whole_not_short.
    + apply whole_prefix in Eb as [-> ->]; try done. rewrite Hr in Hr'. injection Hr' as <-. by apply IH.
    + apply whole_prefix in Eb as [-> ->]; try done. congruence.
  - remember (rec ++ rest) as b eqn:Eb. destruct H' as [? ? ?|? ? ? ?|? rec' rest' st'' o'' ? Hw' Hr' H'|? rec' rest' ? Hw' Hr'].
    + congruence.
    + subst b. exfalso. by eapply whole_not_short.
    + apply whole_prefix in Eb as [-> ->]; try done. congruence.
    + done.
Qed.

(** How much of a stream is decided by a prefix of it. *)
Lemma ke_parse_app party st b1 b2 o :
  ke_parse party st b1 o ->
  match o with
  | Incomplete st' rest => forall o', ke_parse party st' (rest ++ b2) o' -> ke_parse party st (b1 ++ b2) o'
  | Finished st' rest => ke_parse party st (b1 ++ b2) (Finished st' (rest ++ b2))
  | Rejected st' => ke_parse party st (b1 ++ b2) (Rejected st')
  end.
Proof.
  induction 1 as [st b Hf|st b Hf Hs|st rec rest st' o Hf Hw Hr _ IH|st rec rest Hf Hw Hr].
  - by constructor.
  - done.
  - rewrite <- app_assoc. destruct o; [intros o' Ho'|..]; eapply parse_step; eauto.
  - rewrite <- app_assoc. by apply parse_reject.
Qed.

(** What is left of an incomplete stream is still incomplete. *)
Lemma ke_parse_Incomplete party st b st' rest :
  ke_parse party st b (Incomplete st' rest) -> finished st' = false /\ short rest.
Proof. intros H. remember (Incomplete st' rest) as o. induction H; naive_solver. Qed.
Lemma ke_parse_Finished party st b st' rest :
  ke_parse party st b (Finished st' rest) -> finished st' = true.
Proof. intros H. remember (Finished st' rest) as o. induction H; naive_solver. Qed.

Lemma ke_parse_total party st b : exists o, ke_parse party st b o.
Proof.
  remember (length b) as n eqn:Hn. revert st b Hn. induction (lt_wf n) as [n _ IH]; intros st b Hn.
  destruct (finished st) eqn:Hf; [eexists; by constructor|].
  destruct (decide (zlen b < 4 \/ zlen b < 4 + body_length b)) as [Hs|Hs].
  { eexists. by apply parse_short. }
  set (k := Z.to_nat (4 + body_length b)).
  assert (0 <= body_length b) by apply be_val_range.
  assert (k <= length b)%nat by (unfold zlen in *; lia).
  assert (whole (take k b)) as Hw.
  { unfold whole. assert (zlen (take k b) = 4 + body_length b) as E
      by (unfold zlen; rewrite length_take; lia).
    rewrite <- (body_length_app (take k b) (drop k b)), take_drop by lia. lia. }
  rewrite <- (take_drop k b).
  destruct (record_step party st (take k b)) as [st'|] eqn:Hr.
  - destruct (IH (length (drop k b))) with (st := st') (b := drop k b) as [o Ho];
      [rewrite length_drop; lia|done|].
    exists o. by eapply parse_step.
  - eexists. by apply parse_reject.
Qed.

(** A prefix [b] of a stream that takes the state from [st] to [st']. *)
Definition steps_to party st (b : bytes) st' : Prop :=
  forall rest o, ke_parse party st' rest o -> ke_parse party st (b ++ rest) o.

Lemma steps_to_nil party st : steps_to party st [] st.
Proof. by intros rest o. Qed.
Lemma steps_to_app party st b st' b' st'' :
  steps_to party st b st' -> steps_to party st' b' st'' -> steps_to party st (b ++ b') st''.
Proof. intros H1 H2 rest o Ho. rewrite <- app_assoc. auto. Qed.

Lemma steps_to_Finished party st b st' :
  steps_to party st b st' -> finished st' = true -> ke_parse party st b (Finished st' []).
Proof. intros H Hf. rewrite <- (app_nil_r b). apply H. by constructor. Qed.

(** A serialized record is one step for the party that reads it. *)
Lemma serialized_step {P : Profile} {E} {T} {K : KeRecordTrait T} {L : RecordLaws T}
    s party (r r' : T) st st' :
  record_ok s r -> from_bytes party (into_bytes r) = Ok r' -> finished st = false ->
  process_record (variant r') st = (Ok tt, st') ->
  exists b, serialize (E := E) r = Ok b /\ steps_to party st b st'.
Proof.
  intros Hr Hfrom Hf Hp. destruct (len_into (E := E) s r Hr) as [_ Hl].
  pose proof (zlen_nonneg (into_bytes r)). rewrite (serialize_ok s) by done. eexists. split; [done|].
  destruct (first_word_bytes (critical r) (record_type T) type_small) as (b0 & b1 & -> & Hc & Ht).
  assert (body_length ([b0; b1] ++ be_bytes 2 (zlen (into_bytes r)) ++ into_bytes r) =
    zlen (into_bytes r)) as Hbody.
  { unfold body_length. rewrite (drop_app_length' [b0; b1]) by done.
    rewrite take_app_length' by by rewrite be_bytes_length.
    apply (be_val_roundtrip 2). unfold in_width. lia. }
  intros rest o Ho. eapply parse_step; [done| | |done].
  - unfold whole. rewrite Hbody. zl.
  - unfold record_step. rewrite <- (app_nil_r (into_bytes r)) at 2.
    rewrite deserialize_bytes, Hc, Ht, type_dispatch by done.
    unfold try_record. rewrite Hfrom. cbn. by rewrite Hp.
Qed.
End Stream.
