(* ===== verification/KeConnection.v ===== *)
(** * src/nts_ke/server/connection.rs: one NTS-KE server connection

    The handlers of a connection's readiness events, the reassembly of records
    from the TLS plaintext, and the response.  mio and rustls are the outside:
    what they return to one handler call is a [ConnEnv]. *)

From stdpp Require Import prelude list numbers strings pretty gmap.
From Stdlib Require Import Strings.Byte.
From S2P Require Import Prelude Words Crypto NtpProtocol Cookie KeyRotator NtpServer KeRecords.

Open Scope Z_scope.

Inductive KeServerConnState := Connected | TlsHandshaking | Opened | ResponseSent | Closed.
#[export] Instance KeServerConnState_eq_dec : EqDecision KeServerConnState.
Proof. solve_decision. Defined.

Definition ntske_init : ReceivedNtsKeRecordState := mkReceived false [] [] [] None None.

(** The connection, without its socket, session and logger. *)
Record KeServerConn := mkConn {
  token : Z;
  conn_state : KeServerConnState;
  ntske_state : ReceivedNtsKeRecordState;
  ntske_buffer : bytes;
}.

(** Answers of the outside during one handler call: the plaintext that the TLS
    session delivers, its exporter, and the outcome of every fallible call. *)
Record ConnEnv := mkConnEnv {
  read_tls : io_error + Z;
  process_new_packets : bool;
  read_to_end : io_error + bytes;
  exporter : Exporter unit;
  write_all : bool;
  write_tls : bool;
  tcp_shutdown : Z -> bool;
  poll_reregister : bool;
  ke_experiment : option (option string);
  ke_elapsed : Z;
  ke_channel : bool;
  (** What the TLS session waits for at the end of the call. *)
  wants_read : bool;
  wants_write : bool;
}.

(** [mio::Ready]. *)
Record Ready := mkReady { readable : bool; writable : bool }.
Definition ready_empty : Ready := mkReady false false.
Definition ready_or (a b : Ready) : Ready := mkReady (readable a || readable b) (writable a || writable b).

Definition interest (env : ConnEnv) : Ready :=
  let ready := ready_empty in
  let ready := if wants_read env then ready_or ready (mkReady true false) else ready in
  let ready := if wants_write env then ready_or ready (mkReady false true) else ready in
  ready.

Section Connection.
Context {P : Profile} {A : Aead} {R : Type} {G : Rng R} {I : IpText}.

(** The connection with what it shares: the rotator's lock, the configured port,
    the globals, the generator; the plaintext written to the session, how often the
    socket was shut down, and the interest it is registered with at the poll. *)
Record KeSt := mkKe {
  conn : KeServerConn;
  rotator : RwLock KeyRotator;
  next_port_config : Z;
  ke_client_addr : string;
  ke_meas : list string;
  ke_rng : R;
  written : list bytes;
  shutdowns : Z;
  registered : option Ready;
}.

Definition on_conn (f : KeServerConn -> KeServerConn) (s : KeSt) : KeSt :=
  mkKe (f (conn s)) (rotator s) (next_port_config s) (ke_client_addr s) (ke_meas s) (ke_rng s)
    (written s) (shutdowns s) (registered s).
Definition set_conn_state (st : KeServerConnState) (c : KeServerConn) : KeServerConn :=
  mkConn (token c) st (ntske_state c) (ntske_buffer c).
Definition set_ntske_state (st : ReceivedNtsKeRecordState) (c : KeServerConn) : KeServerConn :=
  mkConn (token c) (conn_state c) st (ntske_buffer c).
Definition set_ntske_buffer (b : bytes) (c : KeServerConn) : KeServerConn :=
  mkConn (token c) (conn_state c) (ntske_state c) b.

Abbreviation MK := (M KeSt unit).

Definition ke_on_rng {B} (m : M R unit B) : MK B := fun s =>
  let '(o, r) := m (ke_rng s) in
  (o, mkKe (conn s) (rotator s) (next_port_config s) (ke_client_addr s) (ke_meas s) r
        (written s) (shutdowns s) (registered s)).
Definition ke_add_meas (m : string) (s : KeSt) : KeSt :=
  mkKe (conn s) (rotator s) (next_port_config s) (ke_client_addr s) (ke_meas s ++ [m]) (ke_rng s)
    (written s) (shutdowns s) (registered s).
Definition ke_add_written (b : bytes) (s : KeSt) : KeSt :=
  mkKe (conn s) (rotator s) (next_port_config s) (ke_client_addr s) (ke_meas s) (ke_rng s)
    (written s ++ [b]) (shutdowns s) (registered s).
Definition ke_count_shutdown (s : KeSt) : KeSt :=
  mkKe (conn s) (rotator s) (next_port_config s) (ke_client_addr s) (ke_meas s) (ke_rng s)
    (written s) (shutdowns s + 1) (registered s).

Definition ke_set_registered (i : Ready) (s : KeSt) : KeSt :=
  mkKe (conn s) (rotator s) (next_port_config s) (ke_client_addr s) (ke_meas s) (ke_rng s)
    (written s) (shutdowns s) (Some i).

(** [KeServerConn::register] and [reregister], whose errors the callers unwrap. *)
Definition register (works : bool) (env : ConnEnv) : MK unit :=
  if works then modify (ke_set_registered (interest env)) else lift (Err tt).
Definition reregister (env : ConnEnv) : MK unit :=
  if poll_reregister env then modify (ke_set_registered (interest env)) else lift (Err tt).

(** [for _ in 0..8]. *)
Fixpoint cookie_records (n : nat) (k : NTSKeys) (actual_key : bytes) (key_id : KeyId)
    (response : bytes) : MK bytes :=
  match n with
  | O => mret response
  | S n =>
    cookie ← ke_on_rng (make_cookie k actual_key key_id);
    b ← lift (serialize (mkNewCookie cookie));
    cookie_records n k actual_key key_id (response ++ b)
  end.

Definition ke_response (env : ConnEnv) (k : NTSKeys) (port : Z) : MK bytes :=
  b1 ← lift (serialize (mkNextProtocol [Ntpv4]));
  b2 ← lift (serialize (mkAeadAlgorithm [AeadAesSivCmac256]));
  s ← get_state;
  rotor ← lift (read_lock (rotator s));
  '(key_id, actual_key) ← lift (latest_key_value rotor);
  response ← cookie_records 8 k actual_key key_id (b1 ++ b2);
  b3 ← lift (serialize (mkPort PartyServer port));
  b4 ← lift (serialize mkEndOfMessage);
  experiment_config ← lift (unwrap (ke_experiment env));
  meas_client_ip ← lift (unwrap experiment_config);
  s ← get_state;
  _ ← (if str_contains meas_client_ip (ke_client_addr s) then
         if ke_channel env then modify (ke_add_meas (pretty (ke_elapsed env)))
         else lift (Panic UnwrapFailed)
       else mret tt);
  mret (response ++ b3 ++ b4).

(** [KeServerConn::new]; the peer's address goes to the global. *)
Definition new_conn (tok : Z) : KeServerConn := mkConn tok Connected ntske_init [].

Definition shutdown (env : ConnEnv) : MK unit :=
  s ← get_state;
  _ ← lift (if tcp_shutdown env (shutdowns s) then Ok tt else Panic UnwrapFailed);
  _ ← modify ke_count_shutdown;
  modify (on_conn (set_conn_state Closed)).

Definition on_ntske {B E} (m : M ReceivedNtsKeRecordState E B) : M KeSt E B := fun s =>
  let '(o, st) := m (ntske_state (conn s)) in (o, on_conn (set_ntske_state st) s).

(** [while !self.ntske_state.finished]; [false] is an early return of the
    handler.  A round takes at least four bytes off the reader. *)
Fixpoint read_loop (fuel : nat) (env : ConnEnv) (reader : bytes) : MK bool :=
  match fuel with
  | O => lift (Panic OutOfFuel)
  | S fuel =>
    s ← get_state;
    if finished (ntske_state (conn s)) then mret true
    else if bool_decide (zlen reader < KE_HEADER_SIZE) then
      _ ← modify (on_conn (set_ntske_buffer reader)); mret false
    else
      b2 ← lift (index reader 2);
      b3 ← lift (index reader 3);
      let body_length := u16_of b2 b3 in
      if bool_decide (zlen reader < KE_HEADER_SIZE + body_length) then
        _ ← modify (on_conn (set_ntske_buffer reader)); mret false
      else
        record_bytes ← lift (slice reader 0 (KE_HEADER_SIZE + body_length));
        reader ← lift (slice_from reader (KE_HEADER_SIZE + body_length));
        match deserialize PartyServer record_bytes with
        | Ok record =>
          on_result (on_ntske (process_record record))
            (fun _ => read_loop fuel env reader)
            (fun _ => _ ← shutdown env; mret false)
        | Err UnknownNotCriticalRecord => read_loop fuel env reader
        | Err UnknownCriticalRecord => _ ← shutdown env; mret false
        | Err (Parsing _) => _ ← shutdown env; mret false
        | Panic p => lift (Panic p)
        end
  end.

Definition read_ready (env : ConnEnv) : MK unit :=
  _ ← modify (on_conn (fun c =>
        if decide (conn_state c = Connected) then set_conn_state TlsHandshaking c else c));
  match read_tls env with
  | inl error => if decide (kind error = WouldBlock) then mret tt else shutdown env
  | inr read_count =>
    if bool_decide (read_count = 0) then shutdown env
    else
      _ ← (if process_new_packets env then mret tt else shutdown env);
      match read_to_end env with
      | inl _ => shutdown env
      | inr buf =>
        match buf with
        | [] => mret tt
        | _ =>
          _ ← modify (on_conn (fun c => set_ntske_buffer (ntske_buffer c ++ buf) c));
          s ← get_state;
          let reader := ntske_buffer (conn s) in
          _ ← modify (on_conn (fun c =>
                if decide (conn_state c = TlsHandshaking) then set_conn_state Opened c else c));
          k ← lift (unwrap_res (gen_key (X := exporter env)));
          complete ← read_loop (S (length reader)) env reader;
          s ← get_state;
          if complete && bool_decide (conn_state (conn s) = Opened) then
            resp ← ke_response env k (next_port_config s);
            _ ← lift (if write_all env then Ok tt else Panic UnwrapFailed);
            _ ← modify (ke_add_written resp);
            modify (on_conn (set_conn_state ResponseSent))
          else mret tt
        end
      end
  end.

Definition write_ready (env : ConnEnv) : MK unit :=
  if write_tls env then mret tt else shutdown env.

Definition ready (env : ConnEnv) (is_readable is_writable : bool) : MK unit :=
  _ ← (if is_readable then read_ready env else mret tt);
  _ ← (if is_writable then write_ready env else mret tt);
  s ← get_state;
  if decide (conn_state (conn s) ≠ Closed)
  then on_result (reregister env) (fun _ => mret tt) (fun _ => lift (Panic UnwrapFailed))
  else mret tt.
End Connection.
Arguments KeSt : clear implicits.
