(* ===== verification/KeServing.v ===== *)
(** * What a server connection does

    The read loop implements [ke_parse]; a connection fed with any chunks of a
    stream ends in the state that the stream alone determines and answers at most
    once; the answer gives a client everything it needs. *)

From stdpp Require Import prelude list numbers strings pretty gmap.
From Stdlib Require Import Strings.Byte.
From S2P Require Import Prelude Words Crypto NtpProtocol Cookie KeyRotator NtpServer.
From S2P Require Import KeRecords KeStream KeConnection.

Open Scope Z_scope.

(** ** The read loop *)
Section Loop.
Context {P : Profile} {A : Aead} {R : Type} {G : Rng R} {I : IpText}.
Implicit Types (s : KeSt R) (env : ConnEnv).

Definition closed s : KeSt R := on_conn (set_conn_state Closed) (ke_count_shutdown s).

Lemma shutdown_run env s :
  tcp_shutdown env (shutdowns s) = true -> shutdown env s = (Ok tt, closed s).
Proof. intros H. unfold shutdown. by rewrite bind_get_state, bind_lift, H, bind_modify. Qed.

Lemma process_record_result r st :
  finished st = false ->
  (exists st', process_record r st = (Ok tt, st')) \/ (exists e, process_record r st = (Err e, st)).
Proof.
  intros Hf. unfold process_record. rewrite bind_get_state, Hf.
  destruct r; try (left; by eexists); right; by eexists.
Qed.

(** The state of the loop after an outcome. *)
Definition after_loop (o : outcome) s : res unit bool * KeSt R :=
  match o with
  | Incomplete st rest => (Ok false, on_conn (fun c => set_ntske_buffer rest (set_ntske_state st c)) s)
  | Finished st _ => (Ok true, on_conn (set_ntske_state st) s)
  | Rejected st => (Ok false, closed (on_conn (set_ntske_state st) s))
  end.

Lemma on_conn_id s : on_conn (set_ntske_state (ntske_state (conn s))) s = s.
Proof. by destruct s as [[] ? ? ? ? ? ? ?]. Qed.

Lemma after_loop_step o st s : after_loop o (on_conn (set_ntske_state st) s) = after_loop o s.
Proof. by destruct o. Qed.

Lemma reader_header (reader : bytes) :
  4 <= zlen reader -> exists b2 b3, index reader 2 = Ok (E := unit) b2 /\
    index reader 3 = Ok (E := unit) b3 /\ u16_of b2 b3 = body_length reader.
Proof.
  intros H. destruct reader as [|b0 [|b1 [|b2 [|b3 r]]]]; try (unfold zlen in H; cbn in H; lia).
  by exists b2, b3.
Qed.

Lemma read_loop_spec fuel env reader s :
  (length reader < fuel)%nat -> tcp_shutdown env (shutdowns s) = true ->
  exists o, ke_parse PartyServer (ntske_state (conn s)) reader o /\
    read_loop fuel env reader s = after_loop o s.
Proof.
  revert reader s. induction fuel as [|fuel IH]; intros reader s Hfuel Hsh; [lia|].
  cbn [read_loop]. rewrite bind_get_state. destruct (finished (ntske_state (conn s))) eqn:Hf.
  { eexists. split; [by constructor|]. cbn [after_loop]. by rewrite on_conn_id. }
  unfold KE_HEADER_SIZE. case_bool_decide as H4.
  { eexists. split; [apply parse_short; [done|by left]|]. cbn [after_loop].
    rewrite bind_modify. by destruct s as [[] ? ? ? ? ? ? ?]. }
  destruct (reader_header reader ltac:(lia)) as (b2 & b3 & Hb2 & Hb3 & Hlen).
  rewrite bind_lift, Hb2, bind_lift, Hb3, Hlen. case_bool_decide as Hbody.
  { eexists. split; [apply parse_short; [done|by right]|]. cbn [after_loop].
    rewrite bind_modify. by destruct s as [[] ? ? ? ? ? ? ?]. }
  assert (0 <= body_length reader) by apply be_val_range.
  rewrite bind_lift, slice_ok by lia. rewrite bind_lift, slice_from_ok by lia.
  rewrite drop_0, Z.sub_0_r. set (k := Z.to_nat (4 + body_length reader)).
  assert (k <= length reader)%nat by (unfold zlen in *; lia).
  assert (whole (take k reader)) as Hw.
  { assert (zlen (take k reader) = 4 + body_length reader) as E
      by (unfold zlen; rewrite length_take; lia).
    unfold whole. rewrite <- (body_length_app (take k reader) (drop k reader)), take_drop by lia. lia. }
  assert (length (drop k reader) < fuel)%nat by (rewrite length_drop; lia).
  assert (reader = take k reader ++ drop k reader) as Hsplit by by rewrite take_drop.
  destruct (deserialize PartyServer (take k reader)) as [r|e|pn] eqn:Hd.
  - unfold on_result, on_ntske.
    destruct (process_record_result r (ntske_state (conn s)) Hf) as [[st' Hp]|[e Hp]]; rewrite Hp.
    + destruct (IH (drop k reader) (on_conn (set_ntske_state st') s)) as (o & Ho & ->); try done.
      exists o. rewrite after_loop_step. split; [|done].
      rewrite Hsplit. eapply parse_step; try done. unfold record_step. by rewrite Hd, Hp.
    + eexists. split; [rewrite Hsplit; apply parse_reject; try done; unfold record_step; by rewrite Hd, Hp|].
      by rewrite (M_bind_run _ _ _ _ _ (shutdown_run env (on_conn _ s) Hsh)).
  - destruct e as [msg| |].
    + eexists. split; [rewrite Hsplit; apply parse_reject; try done; unfold record_step; by rewrite Hd|].
      rewrite (M_bind_run _ _ _ _ _ (shutdown_run env s Hsh)). cbn [after_loop].
      by rewrite on_conn_id.
    + eexists. split; [rewrite Hsplit; apply parse_reject; try done; unfold record_step; by rewrite Hd|].
      rewrite (M_bind_run _ _ _ _ _ (shutdown_run env s Hsh)). cbn [after_loop].
      by rewrite on_conn_id.
    + destruct (IH (drop k reader) s) as (o & Ho & ->); try done. exists o. split; [|done].
      rewrite Hsplit. eapply parse_step; try done. unfold record_step. by rewrite Hd.
  - exfalso. pose proof (deserialize_panics_whole PartyServer _ Hw) as Hnp. by rewrite Hd in Hnp.
Qed.
End Loop.

(** ** The response *)
Section Response.
Context {P : Profile} {A : Aead} {R : Type} {G : Rng R} {I : IpText} {L : AeadLaws A} {GL : RngLaws G}.
Implicit Types (s : KeSt R) (env : ConnEnv).

(** [s'] is [s] up to the generator and the measurements. *)
Definition same_conn s s' : Prop :=
  conn s' = conn s /\ rotator s' = rotator s /\ next_port_config s' = next_port_config s /\
  ke_client_addr s' = ke_client_addr s /\ written s' = written s /\ shutdowns s' = shutdowns s.

Definition add_cookies (cs : list bytes) (st : ReceivedNtsKeRecordState) : ReceivedNtsKeRecordState :=
  mkReceived (finished st) (next_protocols st) (aead_scheme st) (cookies st ++ cs)
    (next_server st) (next_port st).

Lemma cookie_records_run n k key kr resp s :
  keys_wf k -> in_width 32 (latest_key_id kr) -> get kr (latest_key_id kr) = Some key ->
  exists b cs s', cookie_records n k key (latest_key_id kr) resp s = (Ok (resp ++ b), s') /\
    same_conn s s' /\ length cs = n /\ Forall (usable_cookie kr k) cs /\
    forall party st, finished st = false -> steps_to party st b (add_cookies cs st).
Proof.
  intros Hk Hid Hkey. revert resp s. induction n as [|n IH]; intros resp s.
  - exists [], [], s. rewrite app_nil_r. split_and!; try done. intros party st _.
    destruct st. unfold add_cookies. cbn. rewrite app_nil_r. apply steps_to_nil.
  - cbn [cookie_records].
    destruct (make_cookie_usable (E := unit) kr k key (ke_rng s)) as (c & r' & Hc & Hgood); try done.
    unfold ke_on_rng at 1. unfold mbind at 1, M_bind at 1. rewrite Hc.
    assert (record_ok PartyServer (mkNewCookie c)) as Hok
      by (cbn; destruct Hgood as [-> _]; done).
    rewrite bind_lift, (serialize_ok PartyServer) by done.
    set (b := be_bytes 2 _ ++ be_bytes 2 _ ++ _).
    destruct (IH (resp ++ b) (mkKe (conn s) (rotator s) (next_port_config s) (ke_client_addr s)
      (ke_meas s) r' (written s) (shutdowns s) (registered s))) as (b' & cs & s' & -> & Hsame & Hn & Hcs & Hst).
    exists (b ++ b'), (c :: cs), s'. rewrite <- app_assoc. split_and!; try done.
    + cbn. by rewrite Hn.
    + by constructor.
    + intros party st Hf.
      destruct (serialized_step (E := unit) PartyServer party (mkNewCookie c) (mkNewCookie c) st
        (add_cookies [c] st)) as (b1 & Hb1 & Hs1); try done.
      { unfold process_record. by rewrite bind_get_state, Hf. }
      rewrite (serialize_ok PartyServer) in Hb1 by done. apply Ok_inj in Hb1 as <-.
      eapply steps_to_app; [done|].
      replace (add_cookies (c :: cs) st) with (add_cookies cs (add_cookies [c] st)); [by apply Hst|].
      unfold add_cookies. cbn. by rewrite <- app_assoc.
Qed.

(** What a client makes of a response [b]. *)
Definition good_response (kr : KeyRotator) (k : NTSKeys) (p : Z) (b : bytes) : Prop :=
  exists cs, length cs = 8%nat /\ Forall (usable_cookie kr k) cs /\
    ke_parse PartyClient ntske_init b
      (Finished (mkReceived true [0] [15] cs None (Some p)) []).

Definition response_env env : Prop :=
  (exists ip, ke_experiment env = Some (Some ip)) /\ ke_channel env = true.

Lemma ke_response_run env k p s :
  keys_wf k -> keys_ready (rotator s) -> in_width 16 p -> response_env env ->
  exists b s', ke_response env k p s = (Ok b, s') /\ same_conn s s' /\
    good_response (guarded (rotator s)) k p b.
Proof.
  intros Hk (Hp & Hid & [key Hkey]) Hport ([ip Hip] & Hch). unfold ke_response.
  destruct (serialized_step (E := unit) PartyServer PartyClient (mkNextProtocol [Ntpv4])
    (mkNextProtocol [Ntpv4]) ntske_init (mkReceived false [0] [] [] None None)) as (b1 & Hb1 & Hs1); try done.
  rewrite bind_lift, Hb1.
  destruct (serialized_step (E := unit) PartyServer PartyClient (mkAeadAlgorithm [AeadAesSivCmac256])
    (mkAeadAlgorithm [AeadAesSivCmac256]) (mkReceived false [0] [] [] None None)
    (mkReceived false [0] [15] [] None None)) as (b2 & Hb2 & Hs2); try done.
  rewrite bind_lift, Hb2, bind_get_state, bind_lift. unfold read_lock. rewrite Hp.
  rewrite bind_lift, (latest_key_value_eq _ _ Hkey).
  destruct (cookie_records_run 8 k key (guarded (rotator s)) (b1 ++ b2) s)
    as (b3 & cs & s1 & Hb3 & Hsame & Hn & Hcs & Hs3); try done.
  rewrite (M_bind_run _ _ _ _ _ Hb3).
  destruct (serialized_step (E := unit) PartyServer PartyClient (mkPort PartyServer p)
    (mkPort PartyClient p) (mkReceived false [0] [15] cs None None)
    (mkReceived false [0] [15] cs None (Some p))) as (b4 & Hb4 & Hs4); try done.
  { cbn [from_bytes into_bytes Port_record port]. rewrite bool_decide_false by (zl; done).
    exact (u16_body p (fun z => Ok (mkPort PartyClient z)) Hport). }
  rewrite bind_lift, Hb4.
  destruct (serialized_step (E := unit) PartyServer PartyClient mkEndOfMessage mkEndOfMessage
    (mkReceived false [0] [15] cs None (Some p)) (mkReceived true [0] [15] cs None (Some p)))
    as (b5 & Hb5 & Hs5); try done.
  rewrite bind_lift, Hb5, bind_lift, Hip. cbn [unwrap]. rewrite bind_lift, bind_get_state. cbn [unwrap].
  assert (exists s2, (if str_contains ip (ke_client_addr s1) then
    if ke_channel env then modify (ke_add_meas (pretty (ke_elapsed env))) else lift (Panic UnwrapFailed)
    else mret tt : M (KeSt R) unit unit) s1 = (Ok tt, s2) /\ same_conn s s2) as (s2 & Hm & Hsame2).
  { rewrite Hch. case_match; by eexists. }
  rewrite (M_bind_run _ _ _ _ _ Hm). eexists _, s2. split_and!; [done|done|].
  exists cs. split_and!; try done. apply steps_to_Finished; [|done].
  rewrite <- !app_assoc. eapply steps_to_app; [done|]. eapply steps_to_app; [done|].
  eapply steps_to_app; [by apply Hs3|]. by eapply steps_to_app.
Qed.
End Response.

(** ** A connection fed with chunks *)
Section Chunks.
Context {P : Profile} {A : Aead} {R : Type} {G : Rng R} {I : IpText} {L : AeadLaws A} {GL : RngLaws G}.
Implicit Types (s : KeSt R) (env : ConnEnv).

(** The TLS session delivers [chunk], its exporter yields the session keys [k],
    and nothing else fails. *)
Definition delivers (k : NTSKeys) env (chunk : bytes) : Prop :=
  (exists n, read_tls env = inr n /\ n ≠ 0) /\ process_new_packets env = true /\
  read_to_end env = inr chunk /\ gen_key (X := exporter env) = Ok k /\ response_env env /\
  write_all env = true /\ (forall n, tcp_shutdown env n = true).

(** The listener calls the handler of a connection until it is closed. *)
Fixpoint feed (envs : list ConnEnv) : M (KeSt R) unit unit :=
  match envs with
  | [] => mret tt
  | env :: envs =>
    s ← get_state;
    if decide (conn_state (conn s) = Closed) then mret tt
    else _ ← read_ready env; feed envs
  end.

(** The connection [s] has received exactly [stream] since it was [s0]. *)
Definition tracks (k : NTSKeys) s0 (stream : bytes) s : Prop :=
  rotator s = rotator s0 /\ next_port_config s = next_port_config s0 /\
  exists o, ke_parse PartyServer ntske_init stream o /\
    match o with
    | Incomplete st rest =>
      conn_state (conn s) = (if decide (stream = []) then Connected else Opened) /\
      ntske_state (conn s) = st /\ ntske_buffer (conn s) = rest /\ written s = written s0
    | Finished st rest =>
      conn_state (conn s) = ResponseSent /\ ntske_state (conn s) = st /\
      exists b, written s = written s0 ++ [b] /\
        good_response (guarded (rotator s0)) k (next_port_config s0) b
    | Rejected st => conn_state (conn s) = Closed /\ written s = written s0
    end.

(** [read_ready] up to the loop. *)
Lemma read_ready_delivers k env chunk s :
  delivers k env chunk -> chunk ≠ [] ->
  let c := conn s in
  let st1 := if decide (conn_state c = Connected \/ conn_state c = TlsHandshaking) then Opened
             else conn_state c in
  let reader := ntske_buffer c ++ chunk in
  read_ready env s =
  (complete ← read_loop (S (length reader)) env reader;
   s ← get_state;
   if complete && bool_decide (conn_state (conn s) = Opened) then
     resp ← ke_response env k (next_port_config s);
     _ ← lift (if write_all env then Ok tt else Panic UnwrapFailed);
     _ ← modify (ke_add_written resp);
     modify (on_conn (set_conn_state ResponseSent))
   else mret tt) (on_conn (fun c => mkConn (token c) st1 (ntske_state c) reader) s).
Proof.
  intros ((n & Hn & Hn0) & Hproc & Hread & Hgen & _) Hne. cbv zeta. unfold read_ready.
  rewrite bind_modify, Hn, bool_decide_false by done. rewrite Hproc, bind_ret, Hread.
  destruct chunk as [|x chunk]; [done|]. rewrite bind_modify, bind_get_state, bind_modify, bind_lift, Hgen.
  cbn [unwrap_res]. destruct s as [[tok st ns buf] ? ? ? ? ? ? ?]. destruct st; reflexivity.
Qed.

Lemma feed_step k env chunk s0 stream s :
  keys_wf k -> keys_ready (rotator s0) -> in_width 16 (next_port_config s0) ->
  delivers k env chunk -> chunk ≠ [] -> tracks k s0 stream s -> conn_state (conn s) ≠ Closed ->
  exists s', read_ready env s = (Ok tt, s') /\ tracks k s0 (stream ++ chunk) s'.
Proof.
  intros Hk Hkr Hport Hdel Hne (Hrot & Hpc & o & Ho & Hs) Hnc.
  pose proof (ke_parse_app _ _ _ chunk _ Ho) as Happ.
  assert (stream ++ chunk ≠ []) as Hne' by (destruct stream; [done|]; done).
  rewrite (read_ready_delivers k env chunk s Hdel Hne).
  destruct Hdel as (_ & _ & _ & _ & Henv & Hwr & Hsh).
  set (st1 := if decide _ then _ else _). set (reader := ntske_buffer (conn s) ++ chunk).
  set (s1 := on_conn _ s).
  destruct (read_loop_spec (S (length reader)) env reader s1) as (o' & Ho' & Hloop); [lia|apply Hsh|].
  change (ntske_state (conn s1)) with (ntske_state (conn s)) in Ho'.
  unfold mbind at 1, M_bind at 1. rewrite Hloop. destruct o as [st rest|st rest|st].
  - destruct Hs as (Hst & <- & <- & Hw). specialize (Happ _ Ho').
    assert (conn_state (conn s1) = Opened) as Hop.
    { change (conn_state (conn s1)) with st1. unfold st1. rewrite Hst. by destruct (decide (stream = [])). }
    destruct o' as [st' rest'|st' rest'|st']; cbn [after_loop].
    + rewrite bind_get_state. cbn [andb]. eexists. split; [done|].
      split_and!; [done|done|]. eexists. split; [done|]. rewrite decide_False by done. by split_and!.
    + rewrite bind_get_state.
      replace (conn_state (conn (on_conn (set_ntske_state st') s1))) with Opened by done.
      rewrite bool_decide_true by done. cbn [andb].
      destruct (ke_response_run env k (next_port_config s0) (on_conn (set_ntske_state st') s1))
        as (b & s2 & Hb & Hsame & Hgood); [done|cbn; by rewrite Hrot|done|done|].
      cbn [next_port_config on_conn s1] in *. rewrite Hpc.
      rewrite (M_bind_run _ _ _ _ _ Hb), bind_lift, Hwr, bind_modify. eexists. split; [done|].
      destruct Hsame as (Hc & Hr & Hn & _ & Hwr' & _).
      split_and!; [exact (eq_trans Hr Hrot)|exact (eq_trans Hn Hpc)|]. eexists. split; [done|].
      split_and!; [done|cbn; by rewrite Hc|].
      exists b. split; [cbn; by rewrite Hwr', <- Hw|]. by rewrite <- Hrot.
    + rewrite bind_get_state. cbn [andb]. eexists. split; [done|].
      split_and!; [done|done|]. eexists. split; [done|]. by split_and!.
  - destruct Hs as (Hst & <- & b & Hw & Hgood).
    assert (o' = Finished (ntske_state (conn s)) reader) as ->.
    { eapply ke_parse_functional; [done|]. constructor. by eapply ke_parse_Finished. }
    assert (st1 = ResponseSent) as Hst1 by (unfold st1; by rewrite Hst).
    cbn [after_loop]. rewrite bind_get_state. cbn [andb conn on_conn s1 set_ntske_state conn_state].
    rewrite Hst1, bool_decide_false by done. eexists. split; [done|].
    split_and!; [done|done|]. eexists. split; [done|]. cbn. split_and!; eauto.
  - by destruct Hs as [? _].
Qed.

Lemma feed_tracks k s0 envs chunks stream s :
  keys_wf k -> keys_ready (rotator s0) -> in_width 16 (next_port_config s0) ->
  Forall2 (delivers k) envs chunks -> Forall (fun c => c ≠ []) chunks -> tracks k s0 stream s ->
  exists s', feed envs s = (Ok tt, s') /\ tracks k s0 (stream ++ concat chunks) s'.
Proof.
  intros Hk Hkr Hport Hall. revert stream s.
  induction Hall as [|env chunk envs chunks Hd _ IH]; intros stream s Hne Ht.
  - exists s. by rewrite app_nil_r.
  - apply Forall_cons in Hne as [Hc Hne]. cbn [feed concat]. rewrite bind_get_state.
    case_decide as Hcl.
    + exists s. split; [done|]. destruct Ht as (? & ? & o & Ho & Hs). split_and!; [done|done|].
      destruct o as [st rest|st rest|st].
      * destruct Hs as [Hs _]. rewrite Hcl in Hs. by case_decide.
      * destruct Hs as [Hs _]. congruence.
      * exists (Rejected st). split; [|done]. by apply (ke_parse_app _ _ _ _ _ Ho).
    + destruct (feed_step k env chunk s0 stream s) as (s1 & Hr & Ht1); try done.
      rewrite (M_bind_run _ _ _ _ _ Hr).
      destruct (IH (stream ++ chunk) s1 Hne Ht1) as (s' & ? & ?). exists s'.
      by rewrite app_assoc.
Qed.

End Chunks.

(** ** The state machine of a connection, whatever the outside does *)
Section Machine.
Context {P : Profile} {A : Aead} {R : Type} {G : Rng R} {I : IpText}.
Implicit Types (s : KeSt R) (env : ConnEnv).

Definition rank (st : KeServerConnState) : Z :=
  match st with Connected => 0 | TlsHandshaking => 1 | Opened => 2 | ResponseSent => 3 | Closed => 4 end.

(** The state only moves forward, and a response is written only by moving from
    before [ResponseSent] to it or beyond. *)
Definition advances s s' : Prop :=
  token (conn s') = token (conn s) /\
  rank (conn_state (conn s)) <= rank (conn_state (conn s')) /\
  (written s' = written s \/
   exists b, written s' = written s ++ [b] /\
     rank (conn_state (conn s)) < 3 <= rank (conn_state (conn s'))).

#[local] Instance advances_preorder : PreOrder advances.
Proof.
  split.
  - intros s. split_and!; [done|lia|by left].
  - intros s1 s2 s3 (T1 & H1 & W1) (T2 & H2 & W2). split_and!; [congruence|lia|].
    destruct W1 as [E1|(b & E1 & ?)], W2 as [E2|(b' & E2 & ?)].
    + left. congruence.
    + right. exists b'. split; [congruence|lia].
    + right. exists b. split; [congruence|lia].
    + lia.
Qed.

Definition always {B} (m : M (KeSt R) unit B) : Prop := forall s, advances s (m s).2.

Lemma always_bind {B C} (m : M (KeSt R) unit B) (f : B -> M (KeSt R) unit C) :
  always m -> (forall b, always (f b)) -> always (m ≫= f).
Proof.
  intros Hm Hf s. unfold mbind, M_bind. specialize (Hm s).
  destruct (m s) as [[b| |] s1]; cbn in *; try done. etrans; [exact Hm|apply Hf].
Qed.
Lemma always_get {B} (f : KeSt R -> M (KeSt R) unit B) : (forall s, advances s (f s s).2) -> always (get_state ≫= f).
Proof. intros Hf s. rewrite bind_get_state. apply Hf. Qed.
Lemma always_lift {B} (r : res unit B) : always (lift r).
Proof. intros s. cbn. reflexivity. Qed.
Lemma always_ret {B} (b : B) : always (mret b).
Proof. intros s. cbn. reflexivity. Qed.
Lemma always_modify f : (forall s, advances s (f s)) -> always (modify f).
Proof. intros Hf s. apply Hf. Qed.

Create HintDb machine.
#[local] Hint Resolve always_bind always_lift always_ret : machine.

Lemma rank_closed st : rank st <= 4.
Proof. destruct st; cbn; lia. Qed.

Lemma always_shutdown env : always (shutdown env).
Proof.
  unfold shutdown. apply always_get. intros s.
  apply (always_bind (lift _) _); [auto with machine|]. intros _.
  apply always_bind; [|intros _]; apply always_modify; intros s1; split_and!; cbn;
    try done; try lia; try apply rank_closed; by left.
Qed.
#[local] Hint Resolve always_shutdown : machine.

Lemma always_buffer b : always (modify (on_conn (set_ntske_buffer b))).
Proof. apply always_modify. intros s. split_and!; [done|cbn; lia|by left]. Qed.
#[local] Hint Resolve always_buffer : machine.

Lemma always_read_loop fuel env reader : always (read_loop fuel env reader).
Proof.
  revert reader. induction fuel as [|fuel IH]; intros reader; cbn [read_loop]; [auto with machine|].
  apply always_get. intros s. destruct (finished _); [apply always_ret|].
  case_bool_decide; [apply always_bind; auto with machine|]. revert s.
  change (always (b2 ← lift (index reader 2); b3 ← lift (index reader 3);
    let body_length := u16_of b2 b3 in
    if bool_decide (zlen reader < KE_HEADER_SIZE + body_length) then
      _ ← modify (on_conn (set_ntske_buffer reader)); mret false
    else
      record_bytes ← lift (slice reader 0 (KE_HEADER_SIZE + body_length));
      reader ← lift (slice_from reader (KE_HEADER_SIZE + body_length));
      match deserialize PartyServer record_bytes with
      | Ok record =>
        on_result (on_ntske (process_record record))
          (fun _ => read_loop fuel env reader) (fun _ => _ ← shutdown env; mret false)
      | Err UnknownNotCriticalRecord => read_loop fuel env reader
      | Err UnknownCriticalRecord => _ ← shutdown env; mret false
      | Err (Parsing _) => _ ← shutdown env; mret false
      | Panic p => lift (Panic p)
      end)).
  apply always_bind; [auto with machine|intros b2]. apply always_bind; [auto with machine|intros b3].
  cbv zeta. case_bool_decide; [apply always_bind; auto with machine|].
  apply always_bind; [auto with machine|intros rb]. apply always_bind; [auto with machine|intros reader'].
  destruct (deserialize PartyServer rb) as [r|[]|]; auto with machine.
  intros s. unfold on_result, on_ntske.
  destruct (process_record r (ntske_state (conn s))) as [o st]. set (s1 := on_conn (set_ntske_state st) s).
  assert (advances s s1) as Hs1 by (split_and!; [done|cbn; lia|by left]).
  etrans; [exact Hs1|].
  destruct o; [apply IH|apply always_bind; auto with machine|cbn; reflexivity].
Qed.

(** Code that touches neither the connection nor what was written. *)
Definition silent {B} (m : M (KeSt R) unit B) : Prop :=
  forall s, conn (m s).2 = conn s /\ written (m s).2 = written s.
Lemma silent_bind {B C} (m : M (KeSt R) unit B) (f : B -> M (KeSt R) unit C) :
  silent m -> (forall b, silent (f b)) -> silent (m ≫= f).
Proof.
  intros Hm Hf s. unfold mbind, M_bind. specialize (Hm s).
  destruct (m s) as [[b| |] s1]; cbn in *; try done. specialize (Hf b s1). intuition congruence.
Qed.
Lemma silent_get {B} (f : KeSt R -> M (KeSt R) unit B) : (forall s, silent (f s)) -> silent (get_state ≫= f).
Proof. intros Hf s. apply Hf. Qed.
Lemma silent_lift {B} (r : res unit B) : silent (lift r).
Proof. by intros s. Qed.
Lemma silent_ret {B} (b : B) : silent (mret b).
Proof. by intros s. Qed.

Lemma silent_cookie_records n k key id resp : silent (cookie_records n k key id resp).
Proof.
  revert resp. induction n as [|n IH]; intros resp; cbn [cookie_records]; [apply silent_ret|].
  apply silent_bind.
  - intros s. unfold ke_on_rng. by destruct (make_cookie k key id (ke_rng s)).
  - intros c. apply silent_bind; [apply silent_lift|auto].
Qed.

Lemma silent_ke_response env k p : silent (ke_response env k p).
Proof.
  unfold ke_response.
  apply silent_bind; [apply silent_lift|intros b1]. apply silent_bind; [apply silent_lift|intros b2].
  apply silent_get; intros s. apply silent_bind; [apply silent_lift|intros rotor].
  apply silent_bind; [apply silent_lift|intros [id key]].
  apply silent_bind; [apply silent_cookie_records|intros resp].
  apply silent_bind; [apply silent_lift|intros b3]. apply silent_bind; [apply silent_lift|intros b4].
  apply silent_bind; [apply silent_lift|intros ex]. apply silent_bind; [apply silent_lift|intros ip].
  apply silent_get; intros s1. apply silent_bind; [|intros _; apply silent_ret].
  case_match; [case_match; [by intros ?|apply silent_lift]|apply silent_ret].
Qed.

Lemma advances_respond env k p s :
  conn_state (conn s) = Opened ->
  advances s ((resp ← ke_response env k p;
    _ ← lift (if write_all env then Ok tt else Panic UnwrapFailed);
    _ ← modify (ke_add_written resp);
    modify (on_conn (set_conn_state ResponseSent))) s).2.
Proof.
  intros Hop. destruct (silent_ke_response env k p s) as [Hc Hw].
  unfold mbind at 1, M_bind at 1. destruct (ke_response env k p s) as [[resp| |] s1]; cbn [snd] in *;
    [|split_and!; [by rewrite Hc|rewrite Hc; lia|by left]..].
  rewrite bind_lift. destruct (write_all env); [|split_and!; [cbn; by rewrite Hc|cbn; rewrite Hc; lia|by left]].
  rewrite bind_modify. split_and!; [cbn; by rewrite Hc|cbn; rewrite Hop; cbn; lia|]. right. exists resp.
  cbn. rewrite Hw, Hop. cbn. split; [done|lia].
Qed.

Lemma always_read_ready env : always (read_ready env).
Proof.
  unfold read_ready. apply always_bind.
  { apply always_modify. intros s. split_and!; [cbn; by case_decide| |by left].
    cbn. case_decide as Hc; [rewrite Hc; cbn; lia|lia]. }
  intros _. destruct (read_tls env) as [e|n].
  { case_decide; auto with machine. }
  case_bool_decide; [auto with machine|]. apply always_bind; [case_match; auto with machine|intros _].
  destruct (read_to_end env) as [|buf]; [auto with machine|]. destruct buf as [|x buf]; [auto with machine|].
  apply always_bind; [apply always_modify; intros s; split_and!; [done|cbn; lia|by left]|intros _].
  apply always_get. intros s0. set (reader := ntske_buffer (conn s0)). clearbody reader. revert s0.
  match goal with |- forall s0, advances s0 (?m s0).2 => change (always m) end.
  apply always_bind.
  { apply always_modify. intros s. split_and!; [cbn; by case_decide| |by left].
    cbn. case_decide as Hc; [rewrite Hc; cbn; lia|lia]. }
  intros _. apply always_bind; [auto with machine|intros k].
  apply always_bind; [apply always_read_loop|intros complete]. apply always_get. intros s.
  destruct (complete && bool_decide (conn_state (conn s) = Opened)) eqn:Hc; [|apply always_ret].
  apply andb_true_iff in Hc as [_ Hop%bool_decide_eq_true]. by apply advances_respond.
Qed.

Lemma always_ready env r w : always (ready env r w).
Proof.
  unfold ready. apply always_bind; [destruct r; [apply always_read_ready|auto with machine]|intros _].
  apply always_bind.
  { destruct w; [|auto with machine]. unfold write_ready. case_match; auto with machine. }
  intros _. apply always_get. intros s. case_decide; [|apply always_ret].
  unfold on_result, reregister. destruct (poll_reregister env); split_and!; [done|cbn; lia|by left|done|cbn; lia|by left].
Qed.

(** Any sequence of events on one connection; a panic ends it. *)
Fixpoint serve (events : list (ConnEnv * bool * bool)) : M (KeSt R) unit unit :=
  match events with
  | [] => mret tt
  | (env, r, w) :: events => _ ← ready env r w; serve events
  end.

Lemma always_serve events : always (serve events).
Proof.
  induction events as [|[[env r] w] events IH]; cbn [serve]; [apply always_ret|].
  apply always_bind; [apply always_ready|done].
Qed.

(** C26: a connection's life.  Whatever the peer, the TLS library and the sockets
    do, and also when a handler panics, a connection keeps its token, its state
    never goes back, and a new connection writes at most one response, which it writes only
    while leaving the state [Opened]. *)
Theorem conn_monotone events s :
  let s' := (serve events s).2 in
  token (conn s') = token (conn s) /\
  rank (conn_state (conn s)) <= rank (conn_state (conn s')) /\
  (written s' = written s \/
   exists b, written s' = written s ++ [b] /\
     rank (conn_state (conn s)) < rank ResponseSent <= rank (conn_state (conn s'))).
Proof. exact (always_serve events s). Qed.
End Machine.

(** ** What a handler leaves alone: the keys, the configuration, and, but for the
    registration at its end, the interest *)
Section Fixed.
Context {P : Profile} {A : Aead} {R : Type} {G : Rng R} {I : IpText}.

Definition conn_fixed (s : KeSt R) : RwLock KeyRotator * Z * option Ready := (rotator s, next_port_config s, registered s).

Lemma fixed_shutdown env : frames conn_fixed (shutdown env).
Proof. unfold shutdown. frame. Qed.
Lemma fixed_ke_on_rng {B} (m : M R unit B) : frames conn_fixed (ke_on_rng m).
Proof. intros s. unfold ke_on_rng. by destruct (m (ke_rng s)). Qed.
Lemma fixed_on_ntske {B E} (m : M ReceivedNtsKeRecordState E B) : frames conn_fixed (on_ntske m).
Proof. intros s. unfold on_ntske. by destruct (m (ntske_state (conn s))). Qed.
#[local] Hint Resolve fixed_shutdown fixed_ke_on_rng fixed_on_ntske : frame.

Lemma fixed_read_loop fuel env reader : frames conn_fixed (read_loop fuel env reader).
Proof.
  revert reader. induction fuel as [|fuel IH]; intros reader; cbn [read_loop]; [frame|].
  apply frames_get. intros s. destruct (finished _); [frame|]. case_bool_decide; [frame|].
  apply frames_bind; [frame|intros b2]. apply frames_bind; [frame|intros b3]. cbv zeta.
  case_bool_decide; [frame|]. apply frames_bind; [frame|intros rb]. apply frames_bind; [frame|intros rest].
  destruct (deserialize PartyServer rb) as [r|[]|]; [|frame|frame|apply IH|frame].
  apply frames_on_result; [frame|auto|frame].
Qed.

Lemma fixed_cookie_records n k key id resp : frames conn_fixed (cookie_records n k key id resp).
Proof.
  revert resp. induction n as [|n IH]; intros resp; cbn [cookie_records]; [frame|].
  apply frames_bind; [frame|intros c]. apply frames_bind; [frame|auto].
Qed.
#[local] Hint Resolve fixed_read_loop fixed_cookie_records : frame.

Lemma fixed_ke_response env k port : frames conn_fixed (ke_response env k port).
Proof. unfold ke_response. frame. Qed.
#[local] Hint Resolve fixed_ke_response : frame.

Lemma fixed_read_ready env : frames conn_fixed (read_ready env).
Proof. unfold read_ready. frame. Qed.
Lemma fixed_write_ready env : frames conn_fixed (write_ready env).
Proof. unfold write_ready. frame. Qed.

(** A connection that is still there after [ready] is registered for what its TLS
    session waits for; and one that was registered stays so, panics included. *)
Lemma ready_registers env r w s :
  let '(o, s') := ready env r w s in
  (is_Some (registered s) -> is_Some (registered s')) /\
  (o = Ok tt -> conn_state (conn s') = Closed \/ registered s' = Some (interest env)).
Proof.
  unfold ready. set (m1 := if r then _ else _). set (m2 := if w then _ else _).
  assert (frames conn_fixed m1) as F1 by (unfold m1; destruct r; [apply fixed_read_ready|frame]).
  assert (frames conn_fixed m2) as F2 by (unfold m2; destruct w; [apply fixed_write_ready|frame]). clearbody m1 m2.
  specialize (F1 s). rewrite M_bind_eq. destruct (m1 s) as [[[]| |] s1]; injection F1 as _ _ R1; cbn [snd] in R1; [|by rewrite R1; split..].
  specialize (F2 s1). rewrite M_bind_eq. destruct (m2 s1) as [[[]| |] s2]; injection F2 as _ _ R2; cbn [snd] in R2; rewrite R1 in R2;
    [|by rewrite R2; split..]. rename R2 into Hreg.
  rewrite bind_get_state. case_decide as Hc; [|split; [by rewrite Hreg|intros _; left; by destruct (decide (conn_state (conn s2) = Closed))]].
  unfold on_result, reregister. destruct (poll_reregister env); cbn; [split; [by eexists|by right]|by rewrite Hreg; split].
Qed.
End Fixed.

(** ** Witness: a request that arrives in three pieces *)
Module KeExample.
Import Toy.
Definition rotator_key : bytes := replicate 32 x07.
Definition kr : KeyRotator :=
  mkRotator "memcache://localhost" "/nts/nts-keys" 3600 2 24 [x01] 360000 {[360000 := rotator_key]}.
Definition toy_exporter : Exporter unit := fun _ ctx =>
  Ok (replicate 32 (default x00 (c ← ctx; last c))).
Definition session : NTSKeys := mkKeys (replicate 32 x00) (replicate 32 x01).
Definition env (chunk : bytes) : ConnEnv :=
  mkConnEnv (inr 1) true (inr chunk) toy_exporter true true (fun _ => true) true
    (Some (Some "10.0.0.1")) 100 true true false.
Definition start : KeSt Z :=
  mkKe (new_conn 3) (mkLock false kr) 4123 "127.0.0.1:9" [] 5 [] 0 None.
Definition pieces : list bytes :=
  [[x80; x01; x00]; [x02; x00; x00; x80; x04; x00; x02; x00]; [x0f; x80; x00; x00; x00]].
End KeExample.

