(* ===== verification/KeClient.v ===== *)
(** * src/nts_ke/client.rs: the NTS-KE client

    [run_nts_ke_client], from the configuration to the cookies and keys.  Name
    resolution, TCP and TLS are the outside; the peer's plaintext is the bytes it
    sends before the stream ends. *)

From stdpp Require Import prelude list numbers strings.
From Stdlib Require Import Strings.Byte.
From S2P Require Import Prelude Words Crypto NtpProtocol Cookie KeyRotator KeRecords KeStream.
From S2P Require Import KeConnection KeServing.

Open Scope Z_scope.

Definition DEFAULT_NTP_PORT : Z := 123.
Definition DEFAULT_KE_PORT : Z := 4460.
Definition DEFAULT_SCHEME : Z := 0.

Record NtsKeResult := mkKeResult {
  res_cookies : list bytes;
  res_next_protocols : list Z;
  res_aead_scheme : Z;
  res_next_server : bytes;
  res_next_port : Z;
  res_keys : NTSKeys;
  res_use_ipv4 : option bool;
}.

(** src/sub_command/client.rs: [ClientConfig]; of the certificate only whether
    rustls accepts it matters. *)
Record ClientConfig := mkClientConfig {
  host : bytes;
  cfg_port : option bytes;
  trusted_cert : option bool;
  use_ipv4 : option bool;
}.

(** A resolved address: its family, and the rest opaque. *)
Record SocketAddr := mkAddr { is_ipv4 : bool; addr_text : bytes }.

(** The boxed errors. *)
Inductive ClientError :=
  | BadCertificate
  | ParseInt
  | Io (e : io_error)
  | Ke (e : NtsKeParseError).

Record KeClientEnv := mkKeClientEnv {
  valid_dns_name : bytes -> bool;
  to_socket_addrs : bytes -> Z -> io_error + list SocketAddr;
  tcp_connect : SocketAddr -> option io_error;
  set_timeouts : option io_error;
  tls_write : bytes -> option io_error;
  tls_flush : option io_error;
  client_exporter : Exporter unit;
  peer_stream : bytes;
  stream_end : io_error;
  half_close : option io_error;
}.

(** [str::parse::<u16>]: decimal digits after an optional plus sign. *)
Definition digit (b : byte) : option Z :=
  let d := byte_val b - 48 in if bool_decide (0 <= d < 10) then Some d else None.
Fixpoint parse_digits (acc : Z) (b : bytes) : option Z :=
  match b with
  | [] => Some acc
  | x :: b => d ← digit x; acc ← try_u16 (acc * 10 + d); parse_digits acc b
  end.
Definition parse_u16 (b : bytes) : option Z :=
  match b with
  | [] => None
  | x :: b' => if bool_decide (byte_val x = 43)
               then match b' with [] => None | _ => parse_digits 0 b' end
               else parse_digits 0 b
  end.

Section Client.
Context {P : Profile} {I : IpText}.

Definition check {E} (e : option E) : res E unit :=
  match e with Some e => Err e | None => Ok tt end.

(** [read_exact(n)] on what is left of the stream. *)
Definition stream_read (env : KeClientEnv) (n : Z) (stream : bytes) : res ClientError (bytes * bytes) :=
  if bool_decide (zlen stream < n) then Err (Io (stream_end env))
  else Ok (take (Z.to_nat n) stream, drop (Z.to_nat n) stream).

(** [while !state.finished]: a round takes at least four bytes. *)
Fixpoint receive_loop (fuel : nat) (env : KeClientEnv) (stream : bytes)
    (state : ReceivedNtsKeRecordState) : res ClientError ReceivedNtsKeRecordState :=
  match fuel with
  | O => Panic OutOfFuel
  | S fuel =>
    if finished state then Ok state
    else
      '(header, stream) ← stream_read env KE_HEADER_SIZE stream;
      h2 ← index header 2;
      h3 ← index header 3;
      let body_length := u16_of h2 h3 in
      '(body, stream) ← stream_read env body_length stream;
      let record_bytes := header ++ body in
      match deserialize PartyClient record_bytes with
      | Ok record =>
        match process_record record state with
        | (Ok _, state) => receive_loop fuel env stream state
        | (Err e, _) => Err (Ke e)
        | (Panic p, _) => Panic p
        end
      | Err UnknownNotCriticalRecord => receive_loop fuel env stream state
      | Err UnknownCriticalRecord => Err (Io (IoError Other "unknown critical record"))
      | Err (Parsing error) => Err (Io (IoError Other error))
      | Panic p => Panic p
      end
  end.

Definition find_addr (ipv4 : bool) (addrs : list SocketAddr) : option SocketAddr :=
  List.find (fun a => Bool.eqb (is_ipv4 a) ipv4) addrs.

(** The address to use, of the family that the configuration asks for. *)
Definition choose_addr (use_ipv4 : option bool) (addrs : list SocketAddr) :
    res ClientError SocketAddr :=
  match use_ipv4 with
  | Some true =>
    match find_addr true addrs with None => Err (Ke NoIpv4AddrFound) | Some a => Ok a end
  | Some false =>
    match find_addr false addrs with None => Err (Ke NoIpv6AddrFound) | Some a => Ok a end
  | None => unwrap (head addrs)
  end.

(** The client's request. *)
Definition client_request {E} : res E bytes :=
  b1 ← serialize (mkNextProtocol [Ntpv4]);
  b2 ← serialize (mkAeadAlgorithm [AeadAesSivCmac256]);
  b3 ← serialize mkEndOfMessage;
  Ok (b1 ++ b2 ++ b3).

Definition run_nts_ke_client (env : KeClientEnv) (client_config : ClientConfig) :
    res ClientError NtsKeResult :=
  _ ← (match trusted_cert client_config with Some false => Err BadCertificate | _ => Ok tt end);
  _ ← (if valid_dns_name env (host client_config) then Ok tt else Panic UnwrapFailed);
  port ← (match cfg_port client_config with
          | Some p => match parse_u16 p with Some p => Ok p | None => Err ParseInt end
          | None => Ok DEFAULT_KE_PORT
          end);
  addrs ← (match to_socket_addrs env (host client_config) port with inl e => Err (Io e) | inr l => Ok l end);
  addr ← choose_addr (use_ipv4 client_config) addrs;
  _ ← map_err Io (check (tcp_connect env addr));
  _ ← map_err Io (check (set_timeouts env));
  clientrec ← client_request;
  _ ← map_err Io (check (tls_write env clientrec));
  _ ← map_err Io (check (tls_flush env));
  keys ← unwrap_res (gen_key (X := client_exporter env));
  state ← receive_loop (S (length (peer_stream env))) env (peer_stream env) ntske_init;
  _ ← map_err Io (check (half_close env));
  let aead_scheme := match aead_scheme state with [] => DEFAULT_SCHEME | a :: _ => a end in
  Ok {|
    res_aead_scheme := aead_scheme;
    res_cookies := cookies state;
    res_next_protocols := next_protocols state;
    res_next_server := default (host client_config) (next_server state);
    res_next_port := default DEFAULT_NTP_PORT (next_port state);
    res_keys := keys;
    res_use_ipv4 := use_ipv4 client_config;
  |}.
End Client.

(** ** The receive loop implements the stream specification *)
Section Loop.
Context {P : Profile} {I : IpText}.

Lemma stream_read_ok env n (b : bytes) :
  0 <= n -> stream_read env n b =
  if bool_decide (n <= zlen b) then Ok (take (Z.to_nat n) b, drop (Z.to_nat n) b)
  else Err (Io (stream_end env)).
Proof. intros. unfold stream_read. repeat case_bool_decide; (done || lia). Qed.

Lemma receive_loop_spec fuel env stream st :
  (length stream < fuel)%nat ->
  exists o, ke_parse PartyClient st stream o /\
    match o with
    | Finished st' _ => receive_loop fuel env stream st = Ok st'
    | Incomplete _ _ => receive_loop fuel env stream st = Err (Io (stream_end env))
    | Rejected _ => exists e, receive_loop fuel env stream st = Err e
    end.
Proof.
  revert stream st. induction fuel as [|fuel IH]; intros stream st Hfuel; [lia|].
  cbn [receive_loop]. destruct (finished st) eqn:Hf.
  { eexists. split; [by constructor|done]. }
  unfold KE_HEADER_SIZE. rewrite stream_read_ok by lia. case_bool_decide as H4.
  2: { eexists. split; [apply parse_short; [done|left; lia]|done]. }
  res_step. set (hd := take (Z.to_nat 4) stream).
  assert (4 <= zlen hd) as Hhd by (unfold hd, zlen in *; rewrite length_take; lia).
  destruct hd as [|b0 [|b1 [|b2 [|b3 [|? ?]]]]] eqn:Ehd; try (unfold zlen in Hhd; cbn in Hhd; lia).
  2: { exfalso. apply (f_equal length) in Ehd. unfold hd in Ehd. rewrite length_take in Ehd. cbn in Ehd. lia. }
  change (index [b0; b1; b2; b3] 2) with (Ok (E := ClientError) b2).
  change (index [b0; b1; b2; b3] 3) with (Ok (E := ClientError) b3). res_step.
  assert (stream = [b0; b1; b2; b3] ++ drop (Z.to_nat 4) stream) as Hst by (rewrite <- Ehd; unfold hd; by rewrite take_drop).
  set (rest := drop (Z.to_nat 4) stream) in *. clearbody rest. subst stream. clear hd Ehd Hhd H4.
  set (n := u16_of b2 b3). assert (0 <= n) by apply be_val_range.
  change (let body_length := n in ?f body_length) with (f n). cbv beta.
  rewrite stream_read_ok by done. case_bool_decide as Hb.
  2: { eexists. split; [apply parse_short; [done|right]|done].
       change (body_length ([b0; b1; b2; b3] ++ rest)) with n. zl. }
  res_step. set (body := take (Z.to_nat n) rest). set (tail := drop (Z.to_nat n) rest).
  set (rec := [b0; b1; b2; b3] ++ body).
  assert ([b0; b1; b2; b3] ++ rest = rec ++ tail) as Hsplit
    by (unfold rec, body, tail; by rewrite <- app_assoc, take_drop).
  assert (whole rec) as Hw.
  { unfold whole, rec. change (body_length _) with n.
    assert (zlen body = n) by (unfold body, zlen in *; rewrite length_take; lia). zl. }
  assert (length tail < fuel)%nat.
  { rewrite length_app in Hfuel. cbn in Hfuel. unfold tail. rewrite length_drop. lia. }
  destruct (deserialize PartyClient rec) as [r|e|pn] eqn:Hd.
  - destruct (process_record_result r st Hf) as [[st' Hp]|[e Hp]]; rewrite Hp.
    + destruct (IH tail st') as (o & Ho & Hres); [done|]. exists o. split; [|done].
      rewrite Hsplit. eapply parse_step; try done. unfold record_step. by rewrite Hd, Hp.
    + eexists. split; [rewrite Hsplit; apply parse_reject; try done; unfold record_step; by rewrite Hd, Hp|by eexists].
  - destruct e as [msg| |].
    + eexists. split; [rewrite Hsplit; apply parse_reject; try done; unfold record_step; by rewrite Hd|by eexists].
    + eexists. split; [rewrite Hsplit; apply parse_reject; try done; unfold record_step; by rewrite Hd|by eexists].
    + destruct (IH tail st) as (o & Ho & Hres); [done|]. exists o. split; [|done].
      rewrite Hsplit. eapply parse_step; try done. unfold record_step. by rewrite Hd.
  - exfalso. pose proof (deserialize_panics_whole PartyClient _ Hw) as Hnp. by rewrite Hd in Hnp.
Qed.
End Loop.

(** ** The exchange *)
Section Exchange.
Context {P : Profile} {I : IpText}.

(** Up to the peer's answer everything works, and the exporter yields [k]. *)
Definition plumbing (env : KeClientEnv) (cfg : ClientConfig) (k : NTSKeys) : Prop :=
  trusted_cert cfg ≠ Some false /\ valid_dns_name env (host cfg) = true /\
  (exists p addrs addr,
     match cfg_port cfg with Some t => parse_u16 t | None => Some DEFAULT_KE_PORT end = Some p /\
     to_socket_addrs env (host cfg) p = inr addrs /\
     choose_addr (use_ipv4 cfg) addrs = Ok addr /\ tcp_connect env addr = None) /\
  set_timeouts env = None /\ (forall b, tls_write env b = None) /\ tls_flush env = None /\
  gen_key (X := client_exporter env) = Ok k /\ half_close env = None.

Definition result_of (cfg : ClientConfig) (k : NTSKeys) (st : ReceivedNtsKeRecordState) : NtsKeResult :=
  mkKeResult (cookies st) (next_protocols st)
    (match aead_scheme st with [] => DEFAULT_SCHEME | a :: _ => a end)
    (default (host cfg) (next_server st)) (default DEFAULT_NTP_PORT (next_port st)) k (use_ipv4 cfg).

Lemma client_request_parses :
  exists b, (forall E, client_request (E := E) = Ok b) /\
    ke_parse PartyServer ntske_init b (Finished (mkReceived true [0] [15] [] None None) []).
Proof.
  destruct (serialized_step (E := unit) PartyClient PartyServer (mkNextProtocol [Ntpv4])
    (mkNextProtocol [Ntpv4]) ntske_init (mkReceived false [0] [] [] None None)) as (b1 & Hb1 & Hs1); try done.
  destruct (serialized_step (E := unit) PartyClient PartyServer (mkAeadAlgorithm [AeadAesSivCmac256])
    (mkAeadAlgorithm [AeadAesSivCmac256]) (mkReceived false [0] [] [] None None)
    (mkReceived false [0] [15] [] None None)) as (b2 & Hb2 & Hs2); try done.
  destruct (serialized_step (E := unit) PartyClient PartyServer mkEndOfMessage mkEndOfMessage
    (mkReceived false [0] [15] [] None None) (mkReceived true [0] [15] [] None None))
    as (b3 & Hb3 & Hs3); try done.
  exists (b1 ++ b2 ++ b3). split.
  - intros E. unfold client_request.
    rewrite (serialize_ok PartyClient) in Hb1 by done. rewrite (serialize_ok PartyClient) in Hb2 by done.
    rewrite (serialize_ok PartyClient) in Hb3 by done. apply Ok_inj in Hb1, Hb2, Hb3.
    rewrite (serialize_ok (T := NextProtocolRecord) PartyClient) by done. res_step.
    rewrite (serialize_ok (T := AeadAlgorithmRecord) PartyClient) by done. res_step.
    rewrite (serialize_ok (T := EndOfMessageRecord) PartyClient) by done. res_step.
    by rewrite Hb1, Hb2, Hb3.
  - apply steps_to_Finished; [|done]. eapply steps_to_app; [done|]. by eapply steps_to_app.
Qed.

Lemma run_nts_ke_client_eq env cfg k :
  plumbing env cfg k ->
  run_nts_ke_client env cfg =
  state ← receive_loop (S (length (peer_stream env))) env (peer_stream env) ntske_init;
  Ok (result_of cfg k state).
Proof.
  intros (Hcert & Hdns & (p & addrs & addr & Hp & Hres & Haddr & Hconn) & Hto & Hw & Hfl & Hk & Hh).
  destruct client_request_parses as (b & Hreq & _). unfold run_nts_ke_client.
  replace (match trusted_cert cfg with Some false => _ | _ => _ end) with (Ok (E := ClientError) tt)
    by (destruct (trusted_cert cfg) as [[]|]; done).
  res_step. rewrite Hdns. res_step.
  replace (match cfg_port cfg with Some _ => _ | None => _ end) with (Ok (E := ClientError) p)
    by (destruct (cfg_port cfg); [by rewrite Hp|by injection Hp as <-]).
  res_step. rewrite Hres. res_step. rewrite Haddr. res_step. rewrite Hconn. cbn [check map_err]. res_step.
  rewrite Hto. cbn [check map_err]. res_step. rewrite Hreq. res_step. rewrite Hw. cbn [check map_err]. res_step.
  rewrite Hfl. cbn [check map_err]. res_step. rewrite Hk. cbn [unwrap_res]. res_step.
  destruct (receive_loop _ _ _ _); [|done..]. res_step. rewrite Hh. done.
Qed.

(** C23: the client's result is exactly what the peer's stream says.  Once the
    connection stands, the client returns a result if and only if the stream
    holds complete, acceptable records up to End of Message, and then the result
    is read off them; it never panics, whatever the peer sends. *)
Theorem ke_client_spec env cfg k :
  plumbing env cfg k ->
  (forall r, run_nts_ke_client env cfg = Ok r <->
     exists st rest, ke_parse PartyClient ntske_init (peer_stream env) (Finished st rest) /\
       r = result_of cfg k st) /\
  is_panic (run_nts_ke_client env cfg) = false.
Proof.
  intros Hpl. rewrite (run_nts_ke_client_eq env cfg k Hpl).
  destruct (receive_loop_spec (S (length (peer_stream env))) env (peer_stream env) ntske_init)
    as (o & Ho & Hres); [lia|].
  destruct o as [st rest|st rest|st]; [rewrite Hres|rewrite Hres|destruct Hres as [e ->]]; res_step;
    (split; [intros r; split|done]).
  - done.
  - intros (st' & rest' & Ho' & _). by pose proof (ke_parse_functional _ _ _ _ _ Ho Ho').
  - intros <-%Ok_inj. eauto.
  - intros (st' & rest' & Ho' & ->). pose proof (ke_parse_functional _ _ _ _ _ Ho Ho') as E.
    by injection E as -> ->.
  - done.
  - intros (st' & rest' & Ho' & _). by pose proof (ke_parse_functional _ _ _ _ _ Ho Ho').
Qed.
End Exchange.

Section EndToEnd.
Context {P : Profile} {A : Aead} {R : Type} {G : Rng R} {I : IpText}.

(** A key exchange succeeds.  A server connection that receives the client's
    request, in any segmentation, writes one response; a client with the same
    exporter output that reads this response gets its session keys, the
    configured NTP port and the algorithm, and eight cookies, each of which opens
    to these session keys under the server's latest key. *)
Lemma ke_exchange (L : AeadLaws A) (GL : RngLaws G) k (s0 : KeSt R) tok envs chunks request :
  keys_wf k -> keys_ready (rotator s0) -> in_width 16 (next_port_config s0) ->
  conn s0 = new_conn tok -> Forall2 (delivers k) envs chunks -> Forall (fun c => c ≠ []) chunks ->
  client_request (E := unit) = Ok request -> concat chunks = request ->
  exists s' b, feed envs s0 = (Ok tt, s') /\ written s' = written s0 ++ [b] /\
    forall cenv cfg, plumbing cenv cfg k -> peer_stream cenv = b ->
      exists r, run_nts_ke_client cenv cfg = Ok r /\ res_keys r = k /\
        res_next_port r = next_port_config s0 /\ res_next_server r = host cfg /\
        res_aead_scheme r = 15 /\ res_next_protocols r = [0] /\ res_use_ipv4 r = use_ipv4 cfg /\
        length (res_cookies r) = 8%nat /\
        Forall (usable_cookie (guarded (rotator s0)) k) (res_cookies r).
Proof.
  intros Hk Hkr Hport Hc Hd Hne Hreq Hcat.
  destruct (feed_tracks k s0 envs chunks [] s0) as (s' & Hfeed & _ & _ & o & Ho & Hs); try done.
  { split_and!; [done|done|]. exists (Incomplete ntske_init []). rewrite Hc.
    split; [by apply parse_short; [|left]|]. by split_and!. }
  destruct client_request_parses as (b' & Hb' & Hparse).
  rewrite Hb' in Hreq. apply Ok_inj in Hreq as <-. cbn [app] in Ho. rewrite Hcat in Ho.
  pose proof (ke_parse_functional _ _ _ _ _ Ho Hparse) as ->.
  destruct Hs as (_ & _ & b & Hw & cs & Hn & Hcs & Hcl). exists s', b. split_and!; [done|done|].
  intros cenv cfg Hpl Hstream. rewrite (run_nts_ke_client_eq cenv cfg k Hpl), Hstream.
  destruct (receive_loop_spec (S (length b)) cenv b ntske_init) as (o & Ho' & Hres); [lia|].
  pose proof (ke_parse_functional _ _ _ _ _ Ho' Hcl) as ->. rewrite Hres. res_step.
  eexists. split; [done|]. by split_and!.
Qed.
End EndToEnd.

(** ** Witnesses *)
Module KeClientExample.
Import KeExample.
Definition cfg : ClientConfig := mkClientConfig [x61; x2e; x62] (Some [x34; x34; x36; x31]) None (Some true).
Definition cenv (stream : bytes) : KeClientEnv :=
  mkKeClientEnv (fun _ => true) (fun _ _ => inr [mkAddr false []; mkAddr true [x31]]) (fun _ => None) None
    (fun _ => None) None toy_exporter stream (IoError UnexpectedEof "eof") None.
Lemma cenv_plumbing stream : plumbing (cenv stream) cfg session.
Proof. split_and!; try done. by eexists 4461, _, (mkAddr true [x31]). Qed.
End KeClientExample.

Lemma ke_client_spec_witness :
  run_nts_ke_client (P := Debug) (I := host_names)
    (KeClientExample.cenv [x00; x05; x00; x01; xaa; x80; x00; x00; x00]) KeClientExample.cfg =
  Ok (mkKeResult [[xaa]] [] 0 [x61; x2e; x62] 123 KeExample.session (Some true)).
Proof.
  apply (ke_client_spec (P := Debug) (I := host_names) (KeClientExample.cenv _) KeClientExample.cfg
    KeExample.session); [apply KeClientExample.cenv_plumbing|].
  exists (mkReceived true [] [] [[xaa]] None None), []. split; [|done].
  apply (parse_step _ _ [x00; x05; x00; x01; xaa] [x80; x00; x00; x00]
    (mkReceived false [] [] [[xaa]] None None)); [done|done|done|].
  apply (parse_step _ _ [x80; x00; x00; x00] [] (mkReceived true [] [] [[xaa]] None None)); [done|done|done|].
  by constructor.
Defined.

Lemma ke_exchange_witness :
  exists s' b, feed (P := Debug) (A := Toy.toy_aead) (G := Toy.toy_rng) (I := host_names)
      (map KeExample.env KeExample.pieces) KeExample.start = (Ok tt, s') /\ written s' = [b] /\
    exists r, run_nts_ke_client (P := Debug) (I := host_names) (KeClientExample.cenv b) KeClientExample.cfg = Ok r /\
      res_next_port r = 4123 /\ length (res_cookies r) = 8%nat.
Proof.
  destruct (ke_exchange (P := Debug) (I := host_names) Toy.toy_aead_laws Toy.toy_rng_laws KeExample.session
    KeExample.start 3 (map KeExample.env KeExample.pieces) KeExample.pieces (concat KeExample.pieces))
    as (s' & b & Hf & Hw & Hc).
  - by vm_compute.
  - split_and!; [done|by vm_compute|by eexists].
  - by vm_compute.
  - reflexivity.
  - assert (forall c, delivers KeExample.session (KeExample.env c) c) as Hd.
    { intros c. split_and!; [by exists 1|done|done|done|split; [by eexists|done]|done|done]. }
    repeat constructor; apply Hd.
  - repeat constructor; done.
  - by vm_compute.
  - reflexivity.
  - exists s', b. split; [exact Hf|]. split; [exact Hw|].
    destruct (Hc (KeClientExample.cenv b) KeClientExample.cfg (KeClientExample.cenv_plumbing b) eq_refl)
      as (r & Hr & _ & Hp & _ & _ & _ & _ & Hn & _).
    exists r. split; [exact Hr|]. split; [exact Hp|exact Hn].
Defined.
