(* ===== verification/NtpClient.v ===== *)
(** * src/ntp/client.rs: the NTS-protected NTP client

    [run_nts_ntp_client] sends one authenticated query with the first cookie of a
    key exchange and computes the clock offset from the reply.  The network is a
    function from the bytes sent to the bytes received. *)

From stdpp Require Import prelude list numbers strings pretty gmap.
From Stdlib Require Import Strings.Byte.
From S2P Require Import Prelude Words Crypto Float64 Time NtpProtocol NtpExtensions NtsPackets Cookie.
From S2P Require Import KeyRotator ServerClock NtpServer ServerReplies KeRecords KeClient.

Open Scope Z_scope.

Definition BUFF_SIZE : Z := 2048.

Record NtpResult := mkNtpResult { result_stratum : Z; time_diff : f64 }.

Inductive NtpClientError :=
  | NtpNoIpv4AddrFound
  | NtpNoIpv6AddrFound
  | InvalidUid
  | NtpIo (e : io_error).

Record NtpClientEnv := mkNtpClientEnv {
  udp_resolve : bytes -> Z -> io_error + list SocketAddr;
  udp_bind : bool;
  udp_timeouts : option io_error;
  udp_connect : option io_error;
  udp_send : option io_error;
  (** What [recv_from] returns after the given datagram was sent. *)
  udp_recv : bytes -> io_error + bytes;
  time1 : SystemTime;
  time4 : SystemTime;
}.

Section Client.
Context {P : Profile} {A : Aead} {R : Type} {G : Rng R}.

Definition system_to_ntpfloat {E} (time : SystemTime) : res E f64 :=
  unix_time ← unwrap_res (duration_since time UNIX_EPOCH);
  let unix_offset := from_secs UNIX_OFFSET in
  epoch_time ← duration_add unix_offset unix_time;
  Ok (fadd (f64_of_Z (as_secs epoch_time))
        (fdiv (f64_of_Z (subsec_nanos epoch_time)) (f64_of_Z 1000000000))).

Definition timestamp_to_float {E} (time : Z) : res E f64 :=
  let ts_secs := Z.shiftr time 32 in
  ts_frac ← usub 64 time (wrap 64 (Z.shiftl ts_secs 32));
  Ok (fadd (f64_of_Z ts_secs) (fdiv (f64_of_Z ts_frac) TWO_POW_32)).

(** The address to use; the socket is bound to the wildcard of its family. *)
Definition choose_udp_addr (use_ipv4 : option bool) (addrs : list SocketAddr) :
    res NtpClientError SocketAddr :=
  match use_ipv4 with
  | Some true =>
    match find_addr true addrs with None => Err NtpNoIpv4AddrFound | Some a => Ok a end
  | Some false =>
    match find_addr false addrs with None => Err NtpNoIpv6AddrFound | Some a => Ok a end
  | None => unwrap (head addrs)
  end.

Definition client_header : NtpPacketHeader := {|
  leap_indicator := NoLeap; version := 4; mode := Client; stratum := 0; poll := 0;
  precision := 0x20; root_delay := 0; root_dispersion := 0; reference_id := 0;
  reference_timestamp := 0xdeadbeef; origin_timestamp := 0; receive_timestamp := 0;
  transmit_timestamp := 0;
|}.

Definition run_nts_ntp_client (env : NtpClientEnv) (state : NtsKeResult) :
    M R NtpClientError NtpResult :=
  addrs ← lift (match udp_resolve env (res_next_server state) (res_next_port state) with
                | inl e => Err (NtpIo e) | inr l => Ok l end);
  _ ← lift (choose_udp_addr (res_use_ipv4 state) addrs);
  _ ← lift (if udp_bind env then Ok tt else Panic UnwrapFailed);
  _ ← lift (map_err NtpIo (check (udp_timeouts env)));
  unique_id ← rng_fill 32;
  cookie ← lift (index (res_cookies state) 0);
  let packet := mkNts client_header [mkExt UniqueIdentifier unique_id; mkExt NTSCookie cookie] [] in
  _ ← lift (map_err NtpIo (check (udp_connect env)));
  wire_packet ← serialize_nts_packet packet (c2s (res_keys state));
  t1 ← lift (system_to_ntpfloat (time1 env));
  _ ← lift (map_err NtpIo (check (udp_send env)));
  buff ← lift (match udp_recv env wire_packet with inl e => Err (NtpIo e) | inr b => Ok b end);
  t4 ← lift (system_to_ntpfloat (time4 env));
  packet ← lift (map_err NtpIo
    (parse_nts_packet (take (Z.to_nat BUFF_SIZE) buff) (s2c (res_keys state))));
  resp ← lift (index (auth_exts packet) 0);
  if bool_decide (contents resp ≠ unique_id) then lift (Err InvalidUid)
  else
    rx ← lift (timestamp_to_float (receive_timestamp (nts_header packet)));
    tx ← lift (timestamp_to_float (transmit_timestamp (nts_header packet)));
    mret (mkNtpResult (stratum (nts_header packet))
            (fdiv (fadd (fsub rx t1) (fsub tx t4)) (f64_of_Z 2))).
End Client.

(** ** The exchange with the server *)
Section Facts.
Context {P : Profile} {A : Aead} {R : Type} {G : Rng R} {L : AeadLaws A} {GL : RngLaws G}.

Definition udp_works (env : NtpClientEnv) (st : NtsKeResult) : Prop :=
  (exists addrs addr, udp_resolve env (res_next_server st) (res_next_port st) = inr addrs /\
     choose_udp_addr (res_use_ipv4 st) addrs = Ok addr) /\
  udp_bind env = true /\ udp_timeouts env = None /\ udp_connect env = None /\ udp_send env = None /\
  clock_ok (time1 env) /\ clock_ok (time4 env).

Lemma system_to_ntpfloat_ok {E} t : clock_ok t -> exists x, system_to_ntpfloat (E := E) t = Ok x.
Proof.
  intros [Ht Hs]. destruct (epoch_time_parts t Ht) as [He _].
  unfold system_to_ntpfloat, duration_since. rewrite bool_decide_true by done. cbn [unwrap_res]. res_step.
  change (t - UNIX_EPOCH) with (t - 0). rewrite Z.sub_0_r. unfold duration_add.
  rewrite He, bool_decide_true by done. eauto.
Qed.

Lemma timestamp_to_float_ok {E} t : in_width 64 t -> exists x, timestamp_to_float (E := E) t = Ok x.
Proof.
  intros Ht. unfold in_width in Ht. unfold timestamp_to_float.
  rewrite Z.shiftr_div_pow2, Z.shiftl_mul_pow2 by lia.
  pose proof (Z.div_mod t (2 ^ 32) ltac:(done)). pose proof (Z.mod_pos_bound t (2 ^ 32) ltac:(done)).
  assert (0 <= t / 2 ^ 32) by (apply Z.div_pos; lia).
  rewrite wrap_id by (unfold in_width; lia). rewrite usub_ok by lia. eauto.
Qed.

(** The client's query, as the server sees it. *)
Definition client_packet (uid cookie : bytes) : NtsPacket :=
  mkNts client_header [mkExt UniqueIdentifier uid; mkExt NTSCookie cookie] [].

Lemma client_query_ok {E} uid cookie key r :
  length uid = 32%nat -> zlen cookie = COOKIE_SIZE ->
  exists b r' c, serialize_nts_packet (E := E) (client_packet uid cookie) key r = (Ok b, r') /\
    parse_nts_packet b key = Ok (client_packet uid cookie) /\
    parse_ntp_packet b = Ok (mkNtp client_header
      [mkExt UniqueIdentifier uid; mkExt NTSCookie cookie; mkExt NTSAuthenticator c]) /\
    zlen b = 228.
Proof.
  intros Hu Hc. assert (zlen uid = 32) as Hzu by (unfold zlen; by rewrite Hu).
  destruct (nts_serialize_parse (E := E) (client_packet uid cookie) key r) as (b & r' & c & Hb & Hp & Hq & Hz);
    try done.
  - repeat constructor; cbn [contents]; rewrite ?Hzu, ?Hc; done.
  - by repeat constructor.
  - exists b, r', c. split_and!; [done|done|done|]. rewrite Hz.
    cbn [client_packet auth_exts auth_enc_exts exts_size foldr contents]. rewrite Hzu, Hc. done.
Qed.

(** What happens once the query [wire] is on the network. *)
Lemma client_run env st uid cookie cs r r1 wire r2 :
  udp_works env st -> res_cookies st = cookie :: cs -> fill 32 r = (uid, r1) ->
  serialize_nts_packet (E := NtpClientError) (client_packet uid cookie) (c2s (res_keys st)) r1 = (Ok wire, r2) ->
  exists t1 t4,
  system_to_ntpfloat (E := NtpClientError) (time1 env) = Ok t1 /\
  system_to_ntpfloat (E := NtpClientError) (time4 env) = Ok t4 /\
  run_nts_ntp_client env st r =
  (buff ← lift (match udp_recv env wire with inl e => Err (NtpIo e) | inr b => Ok b end);
   packet ← lift (map_err NtpIo
     (parse_nts_packet (take (Z.to_nat BUFF_SIZE) buff) (s2c (res_keys st))));
   resp ← lift (index (auth_exts packet) 0);
   if bool_decide (contents resp ≠ uid) then lift (Err InvalidUid)
   else
     rx ← lift (timestamp_to_float (receive_timestamp (nts_header packet)));
     tx ← lift (timestamp_to_float (transmit_timestamp (nts_header packet)));
     mret (mkNtpResult (stratum (nts_header packet))
             (fdiv (fadd (fsub rx t1) (fsub tx t4)) (f64_of_Z 2)))) r2.
Proof.
  intros ((addrs & addr & Hres & Haddr) & Hb & Hto & Hc & Hs & Ht1 & Ht4) Hcs Hfill Hser.
  destruct (system_to_ntpfloat_ok (E := NtpClientError) _ Ht1) as [t1 Hf1].
  destruct (system_to_ntpfloat_ok (E := NtpClientError) _ Ht4) as [t4 Hf4]. exists t1, t4.
  split_and!; [done|done|].
  unfold run_nts_ntp_client. rewrite bind_lift, Hres, bind_lift, Haddr, bind_lift, Hb, bind_lift, Hto.
  cbn [check map_err]. unfold rng_fill at 1. unfold mbind at 1, M_bind at 1. rewrite Hfill.
  rewrite bind_lift, Hcs. change (index (cookie :: cs) 0) with (Ok (E := NtpClientError) cookie).
  cbv iota beta. rewrite bind_lift, Hc. cbn [check map_err]. unfold client_packet in Hser.
  rewrite (M_bind_run _ _ _ _ _ Hser), bind_lift, Hf1, bind_lift, Hs. cbn [check map_err].
  rewrite !bind_lift. destruct (udp_recv env wire); [done|]. by rewrite bind_lift, Hf4.
Qed.

Lemma usable_opened kr k c : usable_cookie kr k c -> opened kr c k.
Proof. intros (_ & Hid & key & Hk & He). by exists (latest_key_id kr), key. Qed.
Lemma opened_size kr k c : opened kr c k -> zlen c = COOKIE_SIZE.
Proof. intros (id & key & _ & _ & He). by apply eat_cookie_Some in He as (_ & ? & _). Qed.
End Facts.

Section EndToEnd.
Context {P : Profile} {A : Aead} {R : Type} {G : Rng R} {R' : Type} {G' : Rng R'}.

(** The exchange, with the four times the client computes its offset from. *)
Lemma exchange_run {L : AeadLaws A} {GL : RngLaws G} {GL' : RngLaws G'}
    env st cookie cs k senv (s : Srv R') rt tt d (r : R) :
  udp_works env st -> res_keys st = k -> keys_wf k -> res_cookies st = cookie :: cs ->
  ready senv s rt tt d -> opened (guarded (keys s)) cookie k ->
  (forall wire reply s', response (G := G') senv wire rt tt s = (Ok reply, s') -> udp_recv env wire = inr reply) ->
  exists t1 t4 rx tx r',
    system_to_ntpfloat (E := NtpClientError) (time1 env) = Ok t1 /\
    system_to_ntpfloat (E := NtpClientError) (time4 env) = Ok t4 /\
    timestamp_to_float (E := NtpClientError) (stamp rt) = Ok rx /\
    timestamp_to_float (E := NtpClientError) (stamp (reply_time senv)) = Ok tx /\
    run_nts_ntp_client (G := G) env st r =
    (Ok (mkNtpResult (ss_stratum (guarded (servstate s)))
           (fdiv (fadd (fsub rx t1) (fsub tx t4)) (f64_of_Z 2))), r').
Proof.
  intros Hudp Hk Hkwf Hcs Hrd Hus Hnet.
  pose proof (fill_length 32 r) as Hlen. destruct (fill 32 r) as [uid r1] eqn:Hfill. cbn [fst] in Hlen.
  destruct (client_query_ok (E := NtpClientError) uid cookie (c2s k) r1 Hlen (opened_size _ _ _ Hus))
    as (wire & r2 & c & Hser & Hp & Hq & Hz).
  destruct (client_run env st uid cookie cs r r1 wire r2 Hudp Hcs Hfill) as (t1 & t4 & Hf1 & Hf4 & ->);
    [by rewrite Hk|].
  destruct (response_accepted (G := G') senv wire (mkNtp client_header
    [mkExt UniqueIdentifier uid; mkExt NTSCookie cookie; mkExt NTSAuthenticator c]) (mkExt NTSCookie cookie) k (client_packet uid cookie)
    s rt tt d Hrd) as (reply & s' & Hresp & _ & ncs & Hpar & Hn & _ & Hrz); try done.
  { unfold BUF_SIZE. lia. }
  rewrite bind_lift, (Hnet _ _ _ Hresp), bind_lift, take_ge.
  2: { rewrite Hn in Hrz. change (placeholders _) with 0 in Hrz.
       change (uids _) with [mkExt UniqueIdentifier uid] in Hrz. cbn [exts_size foldr contents] in Hrz.
       unfold BUFF_SIZE, zlen in *. lia. }
  rewrite Hk, Hpar. cbn [map_err]. rewrite bind_lift.
  change (index (auth_exts _) 0) with (Ok (E := NtpClientError) (mkExt UniqueIdentifier uid)).
  cbv iota beta. cbn [contents]. rewrite bool_decide_false by naive_solver.
  cbn [nts_header receive_timestamp transmit_timestamp set_transmit reply_header stratum].
  destruct (timestamp_to_float_ok (E := NtpClientError) _ (stamp_width rt)) as [rx Hrx].
  destruct (timestamp_to_float_ok (E := NtpClientError) _ (stamp_width (reply_time senv))) as [tx Htx].
  rewrite bind_lift, Hrx, bind_lift, Htx. by eexists t1, t4, rx, tx, _.
Qed.

(** An NTS exchange succeeds.  A client whose first cookie is usable under
    the server's keys sends its query; if the network carries the server's reply
    back, the client accepts it (the reply is authentic and carries the client's
    unique identifier) and reports the server's stratum. *)
Lemma nts_exchange (L : AeadLaws A) (GL : RngLaws G) (GL' : RngLaws G')
    env st cookie cs k senv (s : Srv R') rt tt d (r : R) :
  udp_works env st -> res_keys st = k -> keys_wf k -> res_cookies st = cookie :: cs ->
  ready senv s rt tt d -> usable_cookie (guarded (keys s)) k cookie ->
  (forall wire reply s', response (G := G') senv wire rt tt s = (Ok reply, s') -> udp_recv env wire = inr reply) ->
  exists res r', run_nts_ntp_client (G := G) env st r = (Ok res, r') /\
    result_stratum res = ss_stratum (guarded (servstate s)).
Proof.
  intros Hudp Hk Hkwf Hcs Hrd Hus Hnet.
  destruct (exchange_run env st cookie cs k senv s rt tt d r Hudp Hk Hkwf Hcs Hrd (usable_opened _ _ _ Hus) Hnet)
    as (t1 & t4 & rx & tx & r' & _ & _ & _ & _ & ->). by eexists _, _.
Qed.

(** C24: what the client accepts.  A reply is accepted only if it is authentic
    under the server-to-client key and its first authenticated extension holds
    the 32 random bytes that the client sent; the extension's type is not
    checked.  Without cookies, or on an authentic reply without authenticated
    extensions, the client panics. *)
Theorem ntp_client_accepts (L : AeadLaws A) (GL : RngLaws G) env st (r : R) :
  udp_works env st ->
  (res_cookies st = [] -> is_panic (run_nts_ntp_client env st r).1 = true) /\
  (forall cookie cs uid r1 wire r2, res_cookies st = cookie :: cs -> fill 32 r = (uid, r1) ->
     serialize_nts_packet (E := NtpClientError) (client_packet uid cookie) (c2s (res_keys st)) r1 = (Ok wire, r2) ->
     (forall res r', run_nts_ntp_client env st r = (Ok res, r') ->
        exists reply p e es, udp_recv env wire = inr reply /\
          parse_nts_packet (take (Z.to_nat BUFF_SIZE) reply) (s2c (res_keys st)) = Ok p /\
          auth_exts p = e :: es /\ contents e = uid /\
          result_stratum res = stratum (nts_header p)) /\
     (forall reply p, udp_recv env wire = inr reply ->
        parse_nts_packet (take (Z.to_nat BUFF_SIZE) reply) (s2c (res_keys st)) = Ok p ->
        auth_exts p = [] -> is_panic (run_nts_ntp_client env st r).1 = true)).
Proof.
  intros Hudp. split.
  - intros Hcs. destruct Hudp as ((addrs & addr & Hres & Haddr) & Hb & Hto & _).
    unfold run_nts_ntp_client. rewrite bind_lift, Hres, bind_lift, Haddr, bind_lift, Hb, bind_lift, Hto.
    cbn [check map_err]. unfold rng_fill at 1. unfold mbind at 1, M_bind at 1.
    destruct (fill 32 r) as [uid r1]. by rewrite bind_lift, Hcs.
  - intros cookie cs uid r1 wire r2 Hcs Hfill Hser.
    destruct (client_run env st uid cookie cs r r1 wire r2 Hudp Hcs Hfill Hser) as (t1 & t4 & _ & _ & ->).
    rewrite bind_lift. split.
    + intros res r'. destruct (udp_recv env wire) as [|reply]; [done|]. rewrite bind_lift.
      destruct (parse_nts_packet _ _) as [p| |] eqn:Hp; cbn [map_err]; try done.
      rewrite bind_lift. destruct (auth_exts p) as [|e es] eqn:He; [done|].
      change (index (e :: es) 0) with (Ok (E := NtpClientError) e). cbv iota beta.
      case_bool_decide as Hu; [done|]. rewrite !bind_lift.
      destruct (timestamp_to_float (E := NtpClientError) (receive_timestamp (nts_header p))); try done.
      rewrite bind_lift.
      destruct (timestamp_to_float (E := NtpClientError) (transmit_timestamp (nts_header p))); try done.
      intros [= <- _]. by exists reply, p, e, es.
    + intros reply p -> Hp He. rewrite bind_lift, Hp. cbn [map_err]. by rewrite bind_lift, He.
Qed.
End EndToEnd.

(** ** Witnesses: the client against the server of [ServerExample] *)
Module NtpClientExample.
Import Toy ServerExample.
Definition cookie : bytes := contents ServerExample.cookie.
Definition st : NtsKeResult := mkKeResult [cookie] [0] 15 [x61] 4123 session None.
Definition reply (wire : bytes) : io_error + bytes :=
  match response (P := Debug) (A := toy_aead) (G := toy_rng) env wire noon noon srv with
  | (Ok b, _) => inr b
  | _ => inl (IoError WouldBlock "timeout")
  end.
Definition cenv : NtpClientEnv :=
  mkNtpClientEnv (fun _ _ => inr [mkAddr true [x31]]) true None None None reply noon (noon + 1000).
Lemma cenv_works : udp_works cenv st.
Proof. split_and!; try by vm_compute. by eexists _, _. Qed.
Definition wire : bytes :=
  match serialize_nts_packet (A := toy_aead) (G := toy_rng) (E := NtpClientError)
    (client_packet (replicate 32 x09) cookie) (c2s session) 10 with (Ok b, _) => b | _ => [] end.
End NtpClientExample.

Section Witnesses.
Import Toy ServerExample NtpClientExample.

Lemma nts_exchange_witness :
  exists res r', run_nts_ntp_client (P := Debug) (A := toy_aead) (G := toy_rng) cenv st 9 = (Ok res, r') /\
    result_stratum res = 1.
Proof.
  apply (nts_exchange (P := Debug) (G := toy_rng) (G' := toy_rng) toy_aead_laws toy_rng_laws toy_rng_laws
    cenv st NtpClientExample.cookie [] session env srv noon noon 9 9).
  - exact cenv_works.
  - reflexivity.
  - by vm_compute.
  - reflexivity.
  - exact srv_ready.
  - split_and!; [by vm_compute|by vm_compute|]. exists rotator_key. split; by vm_compute.
  - intros w reply s' H. cbn [cenv udp_recv]. unfold NtpClientExample.reply. by rewrite H.
Defined.

Definition run9 := run_nts_ntp_client (P := Debug) (A := toy_aead) (G := toy_rng) cenv st 9.

Lemma ntp_client_accepts_witness :
  exists res r' reply p e es, run9 = (Ok res, r') /\ udp_recv cenv wire = inr reply /\
    parse_nts_packet (P := Debug) (A := toy_aead) (take (Z.to_nat BUFF_SIZE) reply) (s2c session) = Ok p /\
    auth_exts p = e :: es /\ contents e = replicate 32 x09 /\ result_stratum res = stratum (nts_header p).
Proof.
  destruct (ntp_client_accepts (P := Debug) (G := toy_rng) toy_aead_laws toy_rng_laws cenv st 9 cenv_works)
    as [_ H].
  destruct (H NtpClientExample.cookie [] (replicate 32 x09) 10 wire 11) as [Hok _];
    [reflexivity|reflexivity|by vm_compute|].
  destruct run9 as [o r'] eqn:Hrun.
  assert (is_ok o = true) as Ho by (change o with (o, r').1; rewrite <- Hrun; by vm_compute).
  destruct o as [res|e|q]; [|discriminate Ho|discriminate Ho].
  exists res, r'. destruct (Hok res r' Hrun) as (reply & p & e & es & Hrest).
  exists reply, p, e, es. split; [reflexivity|exact Hrest].
Defined.
End Witnesses.
