(* ===== verification/ClockOffset.v ===== *)
(** * How accurate the client's clock offset is

    [run_nts_ntp_client] computes the offset in seconds, in double precision, from
    times since 1900: a double of that size has 21 binary places.  This file bounds
    the distance between the computed offset and the exact one. *)

From stdpp Require Import prelude list numbers strings pretty gmap.
From Stdlib Require Import Strings.Byte.
From S2P Require Import Prelude Words Crypto Float64 Time NtpProtocol Cookie KeyRotator ServerClock.
From S2P Require Import NtpServer ServerReplies KeRecords KeClient NtpClient.

Open Scope Z_scope.

(** The value of [x] is [m / 2 ^ k]. *)
Definition grid (x : f64) (m k : Z) : Prop :=
  let '(a, b) := ratio x in 0 < b /\ a * 2 ^ k = m * b.

(** ** Exact operations on a grid *)
Lemma round_pos_form n d m k :
  0 < n -> 0 < d -> 0 <= k -> n * 2 ^ k = m * d -> m < 2 ^ 53 ->
  exists j, k <= j /\ round_pos n d = F64 (m * 2 ^ (j - k)) (- j).
Proof.
  intros Hn Hd Hk Hm Hb. pose proof (exponent_spec n d Hn Hd) as He.
  unfold round_pos. rewrite bool_decide_false by lia.
  set (e := exponent n d) in *. pose proof (Z.pow_pos_nonneg 2 k ltac:(lia) Hk).
  assert (e <= - k) as Hek.
  { destruct (decide (e <= - k)) as [|Hgt]; [done|exfalso]. revert He. unfold scale.
    case_bool_decide; intros [_ [He _]].
    - assert (2 ^ k = 2 ^ (- e) * 2 ^ (k + e)) as E by (rewrite <- Z.pow_add_r by lia; f_equal; lia).
      assert (2 ^ 1 <= 2 ^ (k + e)) by (apply Z.pow_le_mono_r; lia). change (2 ^ 1) with 2 in *.
      change (2 ^ 53) with (2 * 2 ^ 52) in Hb. nia.
    - assert (2 ^ 1 <= 2 ^ e) by (apply Z.pow_le_mono_r; lia). change (2 ^ 1) with 2 in *.
      change (2 ^ 53) with (2 * 2 ^ 52) in Hb. nia. }
  exists (- e). split; [lia|]. unfold scale. rewrite bool_decide_true by lia.
  assert (2 ^ (- e) = 2 ^ k * 2 ^ (- e - k)) as E by (rewrite <- Z.pow_add_r by lia; f_equal; lia).
  replace (n * 2 ^ (- e)) with (m * 2 ^ (- e - k) * d) by (rewrite E; nia).
  rewrite rne_exact by done. f_equal. lia.
Qed.

Lemma grid_form m j k : 0 <= k <= j -> grid (F64 (m * 2 ^ (j - k)) (- j)) m k.
Proof.
  intros Hk. unfold grid. pose proof (ratio_spec (m * 2 ^ (j - k)) j ltac:(lia)) as Hr.
  destruct (ratio _) as [a b]. destruct Hr as [? Hr]. split; [done|].
  assert (2 ^ j = 2 ^ k * 2 ^ (j - k)) as E by (rewrite <- Z.pow_add_r by lia; f_equal; lia).
  pose proof (Z.pow_pos_nonneg 2 (j - k)). rewrite E in Hr. nia.
Qed.

(** A fraction on a grid, of either sign, with a 53-bit numerator is not rounded. *)
Lemma round_grid n d m k :
  0 < d -> 0 <= k -> n * 2 ^ k = m * d -> Z.abs m < 2 ^ 53 -> grid (round_f64 n d) m k.
Proof.
  intros Hd Hk E Hm. pose proof (Z.pow_pos_nonneg 2 k ltac:(lia) Hk). unfold round_f64. case_bool_decide as Hn.
  - destruct (round_pos_form (- n) d (- m) k) as (j & Hj & ->); [lia|lia|lia|nia|lia|].
    cbn [fm fe]. replace (- (- m * 2 ^ (j - k))) with (m * 2 ^ (j - k)) by lia. apply grid_form. lia.
  - destruct (decide (n = 0)) as [->|].
    + assert (m = 0) as -> by nia. change (round_pos 0 d) with (F64 0 0). unfold grid.
      change (ratio (F64 0 0)) with (0, 1). cbv beta iota. lia.
    + destruct (round_pos_form n d m k) as (j & Hj & ->); [lia|lia|lia|done|lia|]. apply grid_form. lia.
Qed.

Lemma fsub_grid x y m m' k :
  0 <= k -> Z.abs (m - m') < 2 ^ 53 -> grid x m k -> grid y m' k -> grid (fsub x y) (m - m') k.
Proof.
  unfold grid, fsub. intros Hk Hm Hx Hy. destruct (ratio x) as [a b], (ratio y) as [c d].
  destruct Hx as [? Hx], Hy as [? Hy]. apply round_grid; [nia|done|nia|done].
Qed.
Lemma fadd_grid x y m m' k :
  0 <= k -> Z.abs (m + m') < 2 ^ 53 -> grid x m k -> grid y m' k -> grid (fadd x y) (m + m') k.
Proof.
  unfold grid, fadd. intros Hk Hm Hx Hy. destruct (ratio x) as [a b], (ratio y) as [c d].
  destruct Hx as [? Hx], Hy as [? Hy]. apply round_grid; [nia|done|nia|done].
Qed.
Lemma fhalf_grid x m k :
  0 <= k -> Z.abs m < 2 ^ 53 -> grid x m k -> grid (fdiv x (f64_of_Z 2)) m (k + 1).
Proof.
  unfold grid, fdiv. intros Hk Hm Hx. rewrite f64_of_Z_exact by lia. destruct (ratio x) as [a b].
  destruct Hx as [? Hx]. apply round_grid; [lia|lia| |done]. rewrite Z.pow_add_r by lia. nia.
Qed.

(** ** Times since 1900 *)

(** A sum between [2 ^ 31] and [2 ^ 32] is rounded to the nearest multiple of
    [2 ^ -21]. *)
Lemma round_seconds n d :
  0 < d -> 2 ^ 31 * d <= n < 2 ^ 32 * d ->
  exists m, grid (round_f64 n d) m 21 /\ - d <= 2 * (d * m - n * 2 ^ 21) <= d.
Proof.
  intros Hd [Hlo Hhi]. assert (0 < n) by lia. pose proof (exponent_spec n d ltac:(lia) Hd) as He.
  rewrite round_pos_eq by lia. set (e := exponent n d) in *.
  assert (e = - 21) as ->.
  { revert He. unfold scale. case_bool_decide; intros [_ [He1 He2]].
    - assert (2 ^ (- e) < 2 ^ 22).
      { change (2 ^ 53) with (2 ^ 31 * 2 ^ 22) in He2. nia. }
      assert (2 ^ 20 < 2 ^ (- e)).
      { change (2 ^ 52) with (2 ^ 32 * 2 ^ 20) in He1. nia. }
      assert (- e < 22) by (apply (Z.pow_lt_mono_r_iff 2); lia).
      assert (20 < - e) by (apply (Z.pow_lt_mono_r_iff 2); lia). lia.
    - exfalso. pose proof (Z.pow_pos_nonneg 2 e ltac:(lia) ltac:(lia)).
      change (2 ^ 52) with (2 ^ 32 * 2 ^ 20) in He1. nia. }
  change (scale n d (- 21)) with (n * 2 ^ 21, d). cbn [fst snd].
  exists (rne (n * 2 ^ 21) d). split.
  - pose proof (grid_form (rne (n * 2 ^ 21) d) 21 21 ltac:(lia)) as Hg.
    change (2 ^ (21 - 21)) with 1 in Hg. by rewrite Z.mul_1_r in Hg.
  - pose proof (rne_spec (n * 2 ^ 21) d Hd). lia.
Qed.

(** Nanoseconds since 1900, and the first era of NTP, which ends in 2036. *)
Definition since1900 (t : SystemTime) : Z := UNIX_OFFSET * NANOS + t.
Definition first_era (t : SystemTime) : Prop := 0 <= t /\ UNIX_OFFSET + as_secs t < 2 ^ 32.

Lemma nanos_float n :
  0 <= n < NANOS ->
  let '(c, d) := ratio (fdiv (f64_of_Z n) (f64_of_Z 1000000000)) in
  0 < d /\ 0 <= c < d /\ Z.abs (NANOS * c - n * d) * 2 ^ 22 <= NANOS * d.
Proof.
  intros Hn. unfold fdiv. rewrite !f64_of_Z_exact by (unfold NANOS in *; lia).
  change (1 * 1000000000) with NANOS. rewrite Z.mul_1_r.
  destruct (decide (n = 0)) as [->|Hn0]; [change (ratio _) with (0, 1); cbv beta iota; unfold NANOS; lia|].
  destruct (round_close_at 0 n NANOS) as (m & k & Hk & Hm & Hv); [lia|lia|done|lia|].
  destruct (ratio _) as [c d]. destruct Hv as [Hd Hv].
  assert (2 ^ 53 <= 2 ^ k) as HK by (apply Z.pow_le_mono_r; lia).
  assert (0 <= m < 2 ^ k) as [Hm0 Hmk] by (unfold NANOS in *; nia).
  split; [done|]. split; [split; nia|].
  assert (2 ^ k * (NANOS * c - n * d) = d * (NANOS * m - n * 2 ^ k)) as E by nia.
  apply Z.abs_le in Hm as Hm'; clear Hm. rewrite Z.abs_mul in Hm'.
  assert (2 ^ k * (2 * Z.abs (NANOS * c - n * d)) <= NANOS * d) as Hab.
  { apply (f_equal Z.abs) in E. rewrite !Z.abs_mul, (Z.abs_eq (2 ^ k)), (Z.abs_eq d) in E by lia. nia. }
  change (2 ^ 22) with (2 ^ 21 * 2). nia.
Qed.

Lemma system_float {E} t :
  first_era t ->
  exists x m, system_to_ntpfloat (E := E) t = Ok x /\ grid x m 21 /\ 2 ^ 52 < m <= 2 ^ 53 /\
    Z.abs (NANOS * m - since1900 t * 2 ^ 21) <= NANOS.
Proof.
  intros [Ht Hs]. destruct (epoch_time_parts t Ht) as [Hes Hen].
  unfold system_to_ntpfloat, duration_since. rewrite bool_decide_true by done. cbn [unwrap_res]. res_step.
  change (t - UNIX_EPOCH) with (t - 0). rewrite Z.sub_0_r. unfold duration_add.
  rewrite Hes, bool_decide_true by lia. res_step. rewrite Hes, Hen.
  assert (0 <= as_secs t) by (unfold as_secs; apply Z.div_pos; [done|done]).
  pose proof (nanos_float (subsec_nanos t) (subsec_nanos_range t)) as Hf.
  pose proof (secs_nanos t) as Hsn. unfold since1900.
  set (n := subsec_nanos t) in *. set (s := as_secs t) in *. clearbody n s. rewrite Hsn. clear Hsn Hes Hen Ht.
  unfold fadd. rewrite f64_of_Z_exact by (unfold UNIX_OFFSET in *; lia).
  destruct (ratio (fdiv _ _)) as [c d]. destruct Hf as (Hd & Hc & Hf).
  change (UNIX_OFFSET) with 2208988800 in *.
  destruct (round_seconds ((2208988800 + s) * d + c * 1) (1 * d)) as (m & Hg & Hm); [lia|nia|].
  exists (round_f64 ((2208988800 + s) * d + c * 1) (1 * d)), m. split_and!; [done|done|nia|nia|].
  assert (d * (NANOS * m - (2208988800 * NANOS + (s * NANOS + n)) * 2 ^ 21) =
    NANOS * (1 * d * m - ((2208988800 + s) * d + c * 1) * 2 ^ 21) + 2 ^ 21 * (NANOS * c - n * d)) as E0 by nia.
  unfold NANOS in *. nia.
Qed.

Lemma timestamp_float {P : Profile} {E} ts :
  2 ^ 63 <= ts < 2 ^ 64 ->
  exists x m, timestamp_to_float (E := E) ts = Ok x /\ grid x m 21 /\ 2 ^ 52 <= m <= 2 ^ 53 /\
    Z.abs (2 ^ 32 * m - ts * 2 ^ 21) * 2 <= 2 ^ 32.
Proof.
  intros Hts. unfold timestamp_to_float. rewrite Z.shiftr_div_pow2, Z.shiftl_mul_pow2 by lia.
  pose proof (Z.div_mod ts (2 ^ 32) ltac:(done)) as Hdm. pose proof (Z.mod_pos_bound ts (2 ^ 32) ltac:(done)) as Hf.
  set (s := ts / 2 ^ 32) in *. set (f := ts mod 2 ^ 32) in *. clearbody s f.
  rewrite wrap_id by (unfold in_width; lia). rewrite usub_ok by lia. res_step.
  replace (ts - s * 2 ^ 32) with f by lia. unfold fadd.
  rewrite f64_of_Z_exact by lia.
  pose proof (fdiv_exact (f64_of_Z f) 4294967296 f 32 ltac:(lia) ltac:(lia) ltac:(lia)
    (f64_of_Z_exact f ltac:(lia)) eq_refl (f64_of_Z_exact 4294967296 ltac:(lia))) as Hfr.
  unfold TWO_POW_32. destruct (ratio (fdiv _ _)) as [c d]. destruct Hfr as [Hd Hc].
  destruct (round_seconds (s * d + c * 1) (1 * d)) as (m & Hg & Hm); [lia|nia|].
  exists (round_f64 (s * d + c * 1) (1 * d)), m. split_and!; [done|done|nia|nia|].
  assert (d * (2 ^ 32 * m - ts * 2 ^ 21) = 2 ^ 32 * (1 * d * m - (s * d + c * 1) * 2 ^ 21)) as E0 by nia.
  nia.
Qed.

Lemma stamp_close t :
  first_era t -> 2 ^ 63 <= stamp t < 2 ^ 64 /\ Z.abs (NANOS * stamp t - since1900 t * 2 ^ 32) * 2 <= NANOS.
Proof.
  intros [Ht Hs]. unfold stamp, since1900. pose proof (subsec_nanos_range t) as Hn.
  pose proof (nearest_frac_range _ Hn) as Hr. pose proof (secs_nanos t) as Hsn.
  assert (0 <= as_secs t) by (unfold as_secs; apply Z.div_pos; [done|done]).
  rewrite Z.mod_small by (unfold UNIX_OFFSET in *; lia).
  replace (UNIX_OFFSET * NANOS + t) with (UNIX_OFFSET * NANOS + (as_secs t * NANOS + subsec_nanos t)) by lia.
  unfold nearest_frac in *. pose proof (Z.div_mod (2 * subsec_nanos t * 2 ^ 32 + NANOS) (2 * NANOS) ltac:(done)) as Hd.
  pose proof (Z.mod_pos_bound (2 * subsec_nanos t * 2 ^ 32 + NANOS) (2 * NANOS) ltac:(done)).
  set (q := (2 * subsec_nanos t * 2 ^ 32 + NANOS) / (2 * NANOS)) in *. clearbody q.
  set (n := subsec_nanos t) in *. set (s := as_secs t) in *. clearbody n s. clear Hsn.
  unfold UNIX_OFFSET, NANOS in *. split; lia.
Qed.

(** ** The offset *)

(** [x] is within [2 ^ - e] of [n / d]. *)
Definition close_to (x : f64) (n d e : Z) : Prop :=
  let '(a, b) := ratio x in 0 < b /\ Z.abs (a * d - n * b) * 2 ^ e <= d * b.

Lemma stamp_float {P : Profile} {E} t :
  first_era t ->
  exists x m, timestamp_to_float (E := E) (stamp t) = Ok x /\ grid x m 21 /\ 2 ^ 52 < m <= 2 ^ 53 /\
    Z.abs (NANOS * m - since1900 t * 2 ^ 21) <= NANOS.
Proof.
  intros Ht. destruct (stamp_close t Ht) as [Hr Hc].
  destruct (timestamp_float (E := E) _ Hr) as (x & m & Hx & Hg & Hm & He). exists x, m.
  assert (Z.abs (NANOS * m - since1900 t * 2 ^ 21) <= NANOS) as Hn by (unfold NANOS in *; lia).
  split_and!; [done|done| |lia|done]. destruct Ht. unfold since1900, UNIX_OFFSET, NANOS in *. lia.
Qed.

(** From the four times, each within one unit of the 21st binary place. *)
Lemma offset_close x1 x4 xr xt m1 m4 mr mt t1 t4 tr tx :
  grid x1 m1 21 -> grid x4 m4 21 -> grid xr mr 21 -> grid xt mt 21 ->
  2 ^ 52 < m1 <= 2 ^ 53 -> 2 ^ 52 < m4 <= 2 ^ 53 -> 2 ^ 52 < mr <= 2 ^ 53 -> 2 ^ 52 < mt <= 2 ^ 53 ->
  Z.abs (NANOS * m1 - since1900 t1 * 2 ^ 21) <= NANOS -> Z.abs (NANOS * m4 - since1900 t4 * 2 ^ 21) <= NANOS ->
  Z.abs (NANOS * mr - since1900 tr * 2 ^ 21) <= NANOS -> Z.abs (NANOS * mt - since1900 tx * 2 ^ 21) <= NANOS ->
  close_to (fdiv (fadd (fsub xr x1) (fsub xt x4)) (f64_of_Z 2)) ((tr - t1) + (tx - t4)) (2 * NANOS) 20.
Proof.
  intros G1 G4 Gr Gt B1 B4 Br Bt E1 E4 Er Et.
  pose proof (fsub_grid xr x1 mr m1 21 ltac:(lia) ltac:(lia) Gr G1) as Ga.
  pose proof (fsub_grid xt x4 mt m4 21 ltac:(lia) ltac:(lia) Gt G4) as Gb.
  pose proof (fadd_grid _ _ (mr - m1) (mt - m4) 21 ltac:(lia) ltac:(lia) Ga Gb) as Gc.
  pose proof (fhalf_grid _ (mr - m1 + (mt - m4)) 21 ltac:(lia) ltac:(lia) Gc) as Gd.
  unfold grid, close_to in *. destruct (ratio (fdiv _ _)) as [a b]. destruct Gd as [Hb Hd]. split; [done|].
  set (M := mr - m1 + (mt - m4)) in *. set (n := tr - t1 + (tx - t4)).
  assert (Z.abs (M * (2 * NANOS) - n * 2 ^ 22) <= 8 * NANOS) as Hn
    by (unfold M, n, since1900, NANOS in *; lia).
  clearbody M n. clear -Hb Hd Hn. change (2 ^ (21 + 1)) with (2 ^ 22) in Hd.
  assert (2 ^ 22 * (a * (2 * NANOS) - n * b) = b * (M * (2 * NANOS) - n * 2 ^ 22)) as E by nia.
  apply (f_equal Z.abs) in E. rewrite !Z.abs_mul, (Z.abs_eq b) in E by lia.
  change (Z.abs (2 ^ 22)) with (2 ^ 22) in E. unfold NANOS in *. nia.
Qed.

Section Offset.
Context {P : Profile} {A : Aead} {R : Type} {G : Rng R} {R' : Type} {G' : Rng R'}.

(** C13: the offset the client reports.  In the exchange of a client with the
    server, in the first NTP era, the computed clock offset is within 2^-20 seconds
    (a microsecond) of the exact [((t2 - t1) + (t3 - t4)) / 2] of the four instants
    at which the packets left and arrived, although every time is rounded to a
    timestamp and to a double on the way. *)
Theorem offset_accurate (L : AeadLaws A) (GL : RngLaws G) (GL' : RngLaws G')
    env st cookie cs k senv (s : Srv R') rt tt d (r : R) :
  udp_works env st -> res_keys st = k -> keys_wf k -> res_cookies st = cookie :: cs ->
  ready senv s rt tt d -> usable_cookie (guarded (keys s)) k cookie ->
  (forall wire reply s', response (G := G') senv wire rt tt s = (Ok reply, s') -> udp_recv env wire = inr reply) ->
  first_era (time1 env) -> first_era rt -> first_era (reply_time senv) -> first_era (time4 env) ->
  exists res r', run_nts_ntp_client (G := G) env st r = (Ok res, r') /\
    close_to (time_diff res) ((rt - time1 env) + (reply_time senv - time4 env)) (2 * NANOS) 20.
Proof.
  intros Hudp Hk Hkwf Hcs Hrd Hus Hnet H1 H2 H3 H4.
  destruct (exchange_run env st cookie cs k senv s rt tt d r Hudp Hk Hkwf Hcs Hrd (usable_opened _ _ _ Hus) Hnet)
    as (t1 & t4 & rx & tx & r' & Hf1 & Hf4 & Hrx & Htx & ->). eexists _, _. split; [done|]. cbn [time_diff].
  destruct (system_float (E := NtpClientError) _ H1) as (? & m1 & E1 & ? & ? & ?).
  destruct (system_float (E := NtpClientError) _ H4) as (? & m4 & E4 & ? & ? & ?).
  destruct (stamp_float (E := NtpClientError) _ H2) as (? & mr & E2 & ? & ? & ?).
  destruct (stamp_float (E := NtpClientError) _ H3) as (? & mt & E3 & ? & ? & ?).
  rewrite Hf1 in E1. rewrite Hf4 in E4. rewrite Hrx in E2. rewrite Htx in E3.
  apply Ok_inj in E1, E2, E3, E4. subst. by eapply offset_close.
Qed.
End Offset.

Section Witness.
Import Toy ServerExample NtpClientExample.

Lemma offset_accurate_witness :
  exists res r', run_nts_ntp_client (P := Debug) (A := toy_aead) (G := toy_rng) cenv st 9 = (Ok res, r') /\
    close_to (time_diff res) ((noon - noon) + (noon - (noon + 1000))) (2 * NANOS) 20.
Proof.
  apply (offset_accurate (P := Debug) (G := toy_rng) (G' := toy_rng) toy_aead_laws toy_rng_laws toy_rng_laws
    cenv st NtpClientExample.cookie [] session env srv noon noon 9 9).
  - exact cenv_works.
  - reflexivity.
  - by vm_compute.
  - reflexivity.
  - exact srv_ready.
  - split_and!; [by vm_compute|by vm_compute|]. exists rotator_key. split; by vm_compute.
  - intros w reply s' H. cbn [cenv udp_recv]. unfold NtpClientExample.reply. by rewrite H.
  - split; by vm_compute.
  - split; by vm_compute.
  - split; by vm_compute.
  - split; by vm_compute.
Defined.
End Witness.
