(* ===== verification/KeListener.v ===== *)
(** * src/nts_ke/server/listener.rs: the listener's connections and deadlines

    The listener keeps its connections by mio token and their deadlines in a
    min-heap; every event first closes the connections whose deadline has passed.
    The heap is its elements in order. *)

From stdpp Require Import prelude list numbers strings pretty gmap sorting.
From Stdlib Require Import Strings.Byte.
From S2P Require Import Prelude Words Crypto Time NtpProtocol Cookie KeyRotator NtpServer.
From S2P Require Import KeRecords KeStream KeConnection KeServing.

Open Scope Z_scope.

Definition LISTENER_MIO_TOKEN_ID : Z := 0.
Definition CONNECTION_MIO_TOKEN_ID_MIN : Z := LISTENER_MIO_TOKEN_ID + 1.
Definition CONNECTION_MIO_TOKEN_ID_MAX : Z := (2 ^ 64 - 1) - 1.

(** Lexicographic order on deadlines, as on Rust pairs. *)
Definition deadline_le (a b : SystemTime * Z) : bool :=
  bool_decide (a.1 < b.1) || (bool_decide (a.1 = b.1) && bool_decide (a.2 <= b.2)).

(** [BinaryHeap::push] on the ordered elements; [peek] and [pop] are the head and
    the tail. *)
Fixpoint heap_push (x : SystemTime * Z) (h : list (SystemTime * Z)) : list (SystemTime * Z) :=
  match h with
  | [] => [x]
  | y :: h' => if deadline_le x y then x :: h else y :: heap_push x h'
  end.

(** One connection with what belongs to its socket. *)
Record ConnEntry := mkEntry {
  entry_conn : KeServerConn;
  entry_written : list bytes;
  entry_shutdowns : Z;
  entry_interest : option Ready;
}.

(** What one event sees of the outside.  The clock is read twice, before the
    expired connections are closed and, later, when a connection is accepted. *)
Record ListenerEnv := mkListenerEnv {
  listener_now : SystemTime;
  accept_now : SystemTime;
  tcp_accept : io_error + option string;
  tcp_rebind : option io_error;
  poll_register : option io_error;
  conn_register : bool;
  conn_env : Z -> ConnEnv;
}.

Inductive Event := ListenerEvent | ConnEvent (tok : Z) (is_readable is_writable : bool).

Section Listener.
Context {P : Profile} {A : Aead} {R : Type} {G : Rng R} {I : IpText}.

Record Listener := mkListener {
  connections : gmap Z ConnEntry;
  deadlines : list (SystemTime * Z);
  next_conn_token_id : Z;
  config_timeout : Z;
  l_rotator : RwLock KeyRotator;
  l_port : Z;
  l_client_addr : string;
  l_meas : list string;
  l_rng : R;
}.

Definition set_connections (f : gmap Z ConnEntry -> gmap Z ConnEntry) (l : Listener) : Listener :=
  mkListener (f (connections l)) (deadlines l) (next_conn_token_id l) (config_timeout l)
    (l_rotator l) (l_port l) (l_client_addr l) (l_meas l) (l_rng l).
Definition set_deadlines (f : list (SystemTime * Z) -> list (SystemTime * Z)) (l : Listener) : Listener :=
  mkListener (connections l) (f (deadlines l)) (next_conn_token_id l) (config_timeout l)
    (l_rotator l) (l_port l) (l_client_addr l) (l_meas l) (l_rng l).
Definition set_token (n : Z) (l : Listener) : Listener :=
  mkListener (connections l) (deadlines l) n (config_timeout l)
    (l_rotator l) (l_port l) (l_client_addr l) (l_meas l) (l_rng l).
Definition set_peer (a : string) (l : Listener) : Listener :=
  mkListener (connections l) (deadlines l) (next_conn_token_id l) (config_timeout l)
    (l_rotator l) (l_port l) a (l_meas l) (l_rng l).

Abbreviation ML := (M Listener io_error).

Definition increment_next_conn_token_id : ML unit :=
  _ ← modify (fun l =>
        match checked 64 (next_conn_token_id l + 1) with
        | Some value => set_token value l
        | None => set_token CONNECTION_MIO_TOKEN_ID_MIN l
        end);
  modify (fun l =>
    if bool_decide (CONNECTION_MIO_TOKEN_ID_MAX < next_conn_token_id l)
    then set_token CONNECTION_MIO_TOKEN_ID_MIN l else l).

(** A handler of the connection [e], run on the listener's shared state. *)
Definition run_conn (m : M (KeSt R) unit unit) (e : ConnEntry) (l : Listener) :
    res unit unit * ConnEntry * Listener :=
  let '(o, s) := m (mkKe (entry_conn e) (l_rotator l) (l_port l) (l_client_addr l) (l_meas l) (l_rng l)
                      (entry_written e) (entry_shutdowns e) (entry_interest e)) in
  (o, mkEntry (conn s) (written s) (shutdowns s) (registered s),
   mkListener (connections l) (deadlines l) (next_conn_token_id l) (config_timeout l)
     (rotator s) (next_port_config s) (ke_client_addr s) (ke_meas s) (ke_rng s)).

(** [connections.remove(&token)] and [connection.shutdown()]. *)
Definition force_close (env : ListenerEnv) (tok : Z) (connection : ConnEntry) : ML unit := fun l =>
  let l := set_connections (delete tok) l in
  let '(o, _, l) := run_conn (shutdown (conn_env env tok)) connection l in
  (match o with Panic p => Panic p | _ => Ok tt end, l).

(** [connection.ready(..)], and its removal once it is closed. *)
Definition conn_ready (env : ListenerEnv) (tok : Z) (r w : bool) (connection : ConnEntry) : ML unit := fun l =>
  let '(o, connection, l) := run_conn (ready (conn_env env tok) r w) connection l in
  match o with
  | Panic p => (Panic p, set_connections <[tok := connection]> l)
  | _ =>
    (Ok tt, set_connections
       (if decide (conn_state (entry_conn connection) = Closed) then delete tok
        else <[tok := connection]>) l)
  end.

(** [connection.register(&mut self.poll).unwrap()]. *)
Definition register_conn (env : ListenerEnv) (tok : Z) (connection : ConnEntry) : ML ConnEntry := fun l =>
  let '(o, connection, l) := run_conn (register (conn_register env) (conn_env env tok)) connection l in
  match o with Ok _ => (Ok connection, l) | Err _ => (Panic UnwrapFailed, l) | Panic p => (Panic p, l) end.

(** [while let Some(earliest) = self.deadlines.peek()], as long as the heap. *)
Fixpoint close_loop (fuel : nat) (env : ListenerEnv) (now : SystemTime) : ML unit :=
  match fuel with
  | O => lift (Panic OutOfFuel)
  | S fuel =>
    l ← get_state;
    match deadlines l with
    | [] => mret tt
    | (deadline, tok) :: _ =>
      if bool_decide (deadline < now) then
        _ ← (match connections l !! tok with
             | Some connection => force_close env tok connection
             | None => mret tt
             end);
        _ ← modify (set_deadlines tail);
        close_loop fuel env now
      else mret tt
    end
  end.

Definition close_expired_connections (env : ListenerEnv) : ML unit :=
  l ← get_state;
  close_loop (S (length (deadlines l))) env (listener_now env).

(** The peer's address is [None] when [peer_addr] fails. *)
Definition accept (env : ListenerEnv) : ML unit :=
  match tcp_accept env with
  | inl error =>
    if decide (kind error = WouldBlock) then mret tt
    else
      _ ← lift (match tcp_rebind env with Some e => Err e | None => Ok tt end);
      lift (match poll_register env with Some e => Err e | None => Ok tt end)
  | inr peer =>
    l ← get_state;
    let tok := next_conn_token_id l in
    _ ← increment_next_conn_token_id;
    let timeout_duration := from_secs (config_timeout l) in
    _ ← (match systime_checked_add (accept_now env) timeout_duration with
         | Some timeout_systime => modify (set_deadlines (heap_push (timeout_systime, tok)))
         | None => mret tt
         end);
    addr ← lift (unwrap peer);
    _ ← modify (set_peer addr);
    let connection := new_conn tok in
    connection ← register_conn env tok (mkEntry connection [] 0 None);
    modify (set_connections <[tok := connection]>)
  end.

(** One event of [listen]; the errors of [accept] are logged. *)
Definition handle_event (env : ListenerEnv) (event : Event) : ML unit :=
  _ ← close_expired_connections env;
  match event with
  | ListenerEvent => on_result (accept env) (fun _ => mret tt) (fun _ => mret tt)
  | ConnEvent tok r w =>
    l ← get_state;
    match connections l !! tok with
    | Some connection => conn_ready env tok r w connection
    | None => mret tt
    end
  end.

(** [KeServerListener::bind], up to the errors of the sockets. *)
Definition bind (errors : list (option io_error)) (timeout : Z) (rot : RwLock KeyRotator)
    (port : Z) (client_addr : string) (meas : list string) (rng : R) : res io_error Listener :=
  match omap id errors with
  | e :: _ => Err e
  | [] => Ok (mkListener ∅ [] CONNECTION_MIO_TOKEN_ID_MIN timeout rot port client_addr meas rng)
  end.

(** [listen], over its events. *)
Fixpoint listen (events : list (ListenerEnv * Event)) : ML unit :=
  match events with
  | [] => mret tt
  | (env, event) :: events => _ ← handle_event env event; listen events
  end.
End Listener.
Arguments Listener : clear implicits.

(** ** The heap *)
Definition before (a b : SystemTime * Z) : Prop := deadline_le a b = true.

Lemma before_time a b : before a b -> a.1 <= b.1.
Proof.
  unfold before, deadline_le. intros [H|[H _]%andb_true_iff]%orb_true_iff;
    apply bool_decide_eq_true in H; lia.
Qed.

#[export] Instance before_trans : Transitive before.
Proof.
  intros a b c. unfold before, deadline_le. repeat case_bool_decide; cbn; intros; (done || lia).
Qed.

Lemma before_total a b : before a b \/ before b a.
Proof. unfold before, deadline_le. repeat case_bool_decide; cbn; try lia; auto; lia. Qed.

Lemma heap_push_sorted x h : StronglySorted before h -> StronglySorted before (heap_push x h).
Proof.
  induction 1 as [|y h Hs IH Hy]; cbn; [by repeat constructor|].
  destruct (deadline_le x y) eqn:E.
  - constructor; [by constructor|]. constructor; [done|].
    eapply Forall_impl; [done|]. intros z Hz. by transitivity y.
  - constructor; [done|]. assert (before y x) as Hyx.
    { destruct (before_total x y) as [H|H]; [unfold before in H; congruence|done]. }
    clear -Hy Hyx. induction h as [|z h IH]; cbn; [by repeat constructor|].
    apply Forall_cons in Hy as [Hz Hh]. destruct (deadline_le x z); repeat constructor; auto.
Qed.

Lemma elem_of_heap_push x y h : y ∈ heap_push x h <-> y = x \/ y ∈ h.
Proof.
  induction h as [|z h IH]; cbn; [rewrite list_elem_of_singleton; set_solver|].
  destruct (deadline_le x z); rewrite ?elem_of_cons, ?IH; [done|]. tauto.
Qed.

Section Facts.
Context {P : Profile} {A : Aead} {R : Type} {G : Rng R} {I : IpText}.
Implicit Types (l : Listener R).

Definition token_ok (t : Z) : Prop := CONNECTION_MIO_TOKEN_ID_MIN <= t <= CONNECTION_MIO_TOKEN_ID_MAX.

(** The deadline of a connection accepted at [now] can be represented. *)
Definition timeout_fits (T : Z) (now : SystemTime) : Prop := systime_ok (now + from_secs T).

(** Tokens are neither the listener's nor mio's, connections are filed under
    their own token and registered with the poll, the heap is ordered, and every
    connection has a deadline that satisfies [D], unless [U] allows it to have none. *)
Definition invariant (T : Z) (D : SystemTime -> Prop) (U : Prop) l : Prop :=
  config_timeout l = T /\ token_ok (next_conn_token_id l) /\
  (forall t e, connections l !! t = Some e ->
     token_ok t /\ token (entry_conn e) = t /\ is_Some (entry_interest e) /\
     ((exists d, (d, t) ∈ deadlines l /\ D d) \/ U)) /\
  StronglySorted before (deadlines l).

(** The listener as it should be, when [clock] are the times at which it may have
    read the clock: a connection has no deadline only if at one of them the deadline
    could not be represented. *)
Definition listener_wf (T : Z) (clock : SystemTime -> Prop) l : Prop :=
  invariant T (fun _ => True) (exists now, clock now /\ ~ timeout_fits T now) l.

(** The loop of [close_expired_connections] on the heap and the map alone. *)
Fixpoint expire (now : SystemTime) (ds : list (SystemTime * Z)) (cs : gmap Z ConnEntry) :
    gmap Z ConnEntry * list (SystemTime * Z) :=
  match ds with
  | [] => (cs, [])
  | (d, t) :: ds' => if bool_decide (d < now) then expire now ds' (delete t cs) else (cs, ds)
  end.

Definition shutdowns_work (env : ListenerEnv) : Prop :=
  forall t n, tcp_shutdown (conn_env env t) n = true.

Definition with_heap l (p : gmap Z ConnEntry * list (SystemTime * Z)) : Listener R :=
  mkListener p.1 p.2 (next_conn_token_id l) (config_timeout l)
    (l_rotator l) (l_port l) (l_client_addr l) (l_meas l) (l_rng l).

Lemma force_close_run env tok e l :
  shutdowns_work env -> force_close env tok e l = (Ok tt, set_connections (delete tok) l).
Proof.
  intros Hs. unfold force_close, run_conn. rewrite shutdown_run by apply Hs. by destruct l.
Qed.

Lemma close_loop_run fuel env now l :
  shutdowns_work env -> (length (deadlines l) < fuel)%nat ->
  close_loop fuel env now l = (Ok tt, with_heap l (expire now (deadlines l) (connections l))).
Proof.
  intros Hs. revert l. induction fuel as [|fuel IH]; intros l Hfuel; [lia|].
  cbn [close_loop]. rewrite bind_get_state.
  destruct l as [cs ds n t ro p ca me rn]. cbn [deadlines connections] in *.
  destruct ds as [|[d tok] ds]; [done|]. cbn [expire]. case_bool_decide; [|done].
  assert (exists l1, (match cs !! tok with Some c => force_close env tok c | None => mret tt end :
    M (Listener R) io_error unit) (mkListener cs ((d, tok) :: ds) n t ro p ca me rn) = (Ok tt, l1) /\
    set_deadlines tail l1 = mkListener (delete tok cs) ds n t ro p ca me rn) as (l1 & Hl1 & Htail).
  { destruct (cs !! tok) eqn:Hc; [rewrite force_close_run by done; by eexists|].
    eexists. split; [done|]. cbn. by rewrite delete_id by done. }
  rewrite (M_bind_run _ _ _ _ _ Hl1), bind_modify, Htail, IH by (cbn in *; lia). done.
Qed.

Lemma close_expired_run env l :
  shutdowns_work env ->
  close_expired_connections env l =
  (Ok tt, with_heap l (expire (listener_now env) (deadlines l) (connections l))).
Proof. intros. unfold close_expired_connections. rewrite bind_get_state. apply close_loop_run; [done|lia]. Qed.

Lemma expire_spec now ds cs :
  StronglySorted before ds ->
  let '(cs', ds') := expire now ds cs in
  StronglySorted before ds' /\
  (forall d t, (d, t) ∈ ds' <-> (d, t) ∈ ds /\ now <= d) /\
  (forall t, (exists d, (d, t) ∈ ds /\ d < now) -> cs' !! t = None) /\
  (forall t, (forall d, (d, t) ∈ ds -> now <= d) -> cs' !! t = cs !! t).
Proof.
  intros Hs. revert cs. induction Hs as [|[d0 t0] ds Hs IH Hall]; intros cs; cbn [expire].
  - split_and!; [constructor|set_solver|intros t (d & H & _); by apply elem_of_nil in H|done].
  - case_bool_decide as Hd.
    + specialize (IH (delete t0 cs)). destruct (expire now ds (delete t0 cs)) as [cs' ds'].
      destruct IH as (IH1 & IH2 & IH3 & IH4). split_and!; [done| | |].
      * intros d t. rewrite IH2, elem_of_cons. split; [tauto|]. intros [[[= -> ->]|?] ?]; [lia|done].
      * intros t (d & Hin & Hdn). destruct (decide (Exists (fun p => p.2 = t /\ p.1 < now) ds)) as [Hx|Hx].
        -- apply Exists_exists in Hx as ([d' t'] & Hin' & [Ht' Hd']). cbn in Ht', Hd'. subst t'.
           apply IH3. eauto.
        -- rewrite IH4.
           ++ apply elem_of_cons in Hin as [[= -> ->]|Hin]; [apply lookup_delete_eq|].
              exfalso. apply Hx, Exists_exists. exists (d, t). by split.
           ++ intros d' Hin'. destruct (decide (now <= d')) as [|Hlt]; [done|exfalso].
              apply Hx, Exists_exists. exists (d', t). split; [done|]. split; [done|cbn; lia].
      * intros t Ht. rewrite IH4 by (intros d Hin; apply Ht, elem_of_cons; by right).
        apply lookup_delete_ne. intros ->. specialize (Ht d0). rewrite elem_of_cons in Ht.
        specialize (Ht (or_introl eq_refl)). lia.
    + split_and!; [by constructor| | |done].
      * intros d t. split; [|tauto]. intros Hin. split; [done|].
        apply elem_of_cons in Hin as [[= -> ->]|Hin]; [lia|].
        rewrite Forall_forall in Hall. pose proof (before_time _ _ (Hall _ Hin)) as Hb. cbn in Hb. lia.
      * intros t (d & Hin & Hlt). exfalso. apply elem_of_cons in Hin as [[= -> ->]|Hin]; [lia|].
        rewrite Forall_forall in Hall. pose proof (before_time _ _ (Hall _ Hin)) as Hb. cbn in Hb. lia.
Qed.

(** Expired connections are closed.  One call of
    [close_expired_connections] ends, leaves no deadline before now in the heap
    and none of the others out, drops every connection that had such a deadline
    and touches no other connection. *)
Lemma close_expired_correct T clock env l :
  listener_wf T clock l -> shutdowns_work env ->
  exists l', close_expired_connections env l = (Ok tt, l') /\
    (forall d t, (d, t) ∈ deadlines l' <-> (d, t) ∈ deadlines l /\ listener_now env <= d) /\
    (forall t, (exists d, (d, t) ∈ deadlines l /\ d < listener_now env) -> connections l' !! t = None) /\
    (forall t, (forall d, (d, t) ∈ deadlines l -> listener_now env <= d) ->
       connections l' !! t = connections l !! t).
Proof.
  intros (_ & _ & _ & Hs) Hw. rewrite close_expired_run by done. eexists. split; [done|].
  pose proof (expire_spec (listener_now env) (deadlines l) (connections l) Hs) as H.
  destruct (expire _ _ _) as [cs' ds']. cbn. tauto.
Qed.

(** No deadline of the heap is before [now]. *)
Definition fresh (now : SystemTime) l : Prop := forall d t, (d, t) ∈ deadlines l -> now <= d.

(** [m] keeps [J] whatever its outcome, and establishes [Q] when it succeeds. *)
Definition keeps {B} (J : Listener R -> Prop) (Q : Listener R -> Prop) (m : M (Listener R) io_error B) : Prop :=
  forall l, J l -> J (m l).2 /\ (forall b, (m l).1 = Ok b -> Q (m l).2).

Lemma keeps_run_conn T D U m e l :
  invariant T D U l -> always m ->
  let '(_, e', l') := run_conn m e l in
  connections l' = connections l /\ deadlines l' = deadlines l /\ invariant T D U l' /\
  token (entry_conn e') = token (entry_conn e).
Proof.
  intros Hl Hm. unfold run_conn. specialize (Hm (mkKe (entry_conn e) (l_rotator l) (l_port l)
    (l_client_addr l) (l_meas l) (l_rng l) (entry_written e) (entry_shutdowns e) (entry_interest e))).
  destruct (m _) as [o s]. destruct Hm as [Ht _]. by split_and!.
Qed.

Lemma invariant_delete T D U t l : invariant T D U l -> invariant T D U (set_connections (delete t) l).
Proof.
  intros (HT & Hn & Hc & Hs). split_and!; [done|done| |done]. cbn.
  intros t' e [_ H]%lookup_delete_Some. by apply Hc.
Qed.

Lemma invariant_pop T D U d t ds l :
  invariant T D U l -> deadlines l = (d, t) :: ds -> connections l !! t = None ->
  invariant T D U (set_deadlines tail l).
Proof.
  intros (HT & Hn & Hc & Hs) Hd Ht. rewrite Hd in Hs. split_and!; [done|done| |].
  - cbn. intros t' e He. destruct (Hc t' e He) as (? & ? & ? & [(d' & Hin & ?)|?]); split_and!; try done; [|by right].
    left. exists d'. split; [|done]. rewrite Hd in *. apply elem_of_cons in Hin as [[= -> ->]|]; [congruence|done].
  - cbn. rewrite Hd. cbn. by inversion Hs.
Qed.

Lemma keeps_close_loop T D U fuel env now :
  keeps (invariant T D U) (fresh now) (close_loop fuel env now).
Proof.
  induction fuel as [|fuel IH]; intros l Hl; [by split|].
  cbn [close_loop]. rewrite bind_get_state. destruct (deadlines l) as [|[d t] ds] eqn:Hd.
  - split; [done|]. intros _ _ d t. cbn. rewrite Hd. by intros ?%elem_of_nil.
  - case_bool_decide as Hdn.
    + destruct (connections l !! t) as [e|] eqn:He; cycle 1.
      { rewrite (M_bind_run _ _ _ tt l) by done. rewrite bind_modify.
        by apply IH, (invariant_pop _ _ _ d t ds). }
      pose proof (invariant_delete _ _ _ t _ Hl) as Hl1.
      rewrite !M_bind_eq. unfold force_close.
      pose proof (keeps_run_conn T D U (shutdown (conn_env env t)) e _ Hl1 (always_shutdown _)) as Hrun.
      destruct (run_conn _ _ _) as [[o e'] l2]. destruct Hrun as (Hc2 & Hd2 & Hl2 & _).
      destruct o; cbn -[close_loop]; try (apply IH, (invariant_pop _ _ _ d t ds); [done|by rewrite Hd2|]; rewrite Hc2; apply lookup_delete_eq).
      by split.
    + split; [done|]. intros _ _ d' t' Hin. cbn in Hin.
      destruct Hl as (_ & _ & _ & Hs). rewrite Hd in Hs, Hin.
      apply elem_of_cons in Hin as [[= -> ->]|Hin]; [lia|].
      inversion Hs as [|? ? _ Hall]. rewrite Forall_forall in Hall.
      pose proof (before_time _ _ (Hall _ Hin)) as Hb. cbn in Hb. lia.
Qed.

Lemma next_token_ok l :
  token_ok (next_conn_token_id l) ->
  exists n, token_ok n /\ increment_next_conn_token_id l = (Ok tt, set_token n l).
Proof.
  unfold token_ok, increment_next_conn_token_id, CONNECTION_MIO_TOKEN_ID_MIN, CONNECTION_MIO_TOKEN_ID_MAX,
    LISTENER_MIO_TOKEN_ID, checked, in_width. intros H. rewrite bind_modify, bool_decide_true by lia.
  cbn [modify]. unfold modify. cbn [next_conn_token_id set_token]. case_bool_decide.
  - exists 1. split; [lia|by destruct l].
  - eexists. split; [|done]. lia.
Qed.

Lemma run_conn_registered env t r w e l :
  let '(_, e', _) := run_conn (ready (conn_env env t) r w) e l in
  is_Some (entry_interest e) -> is_Some (entry_interest e').
Proof.
  unfold run_conn. set (s := mkKe _ _ _ _ _ _ _ _ _). pose proof (ready_registers (conn_env env t) r w s) as Hr.
  destruct (ready _ _ _ s) as [o s']. apply Hr.
Qed.

Lemma keeps_conn_ready T D U env t r w e l :
  invariant T D U l -> connections l !! t = Some e ->
  invariant T D U (conn_ready env t r w e l).2 /\
  deadlines (conn_ready env t r w e l).2 = deadlines l.
Proof.
  intros Hl He. pose proof (keeps_run_conn T D U (ready (conn_env env t) r w) e l Hl (always_ready _ _ _)) as Hrun.
  pose proof (run_conn_registered env t r w e l) as Hreg.
  unfold conn_ready. destruct (run_conn _ _ _) as [[o e'] l1]. destruct Hrun as (Hc & Hd & Hl1 & Ht).
  assert (invariant T D U (set_connections <[t:=e']> l1)) as Hins.
  { destruct Hl1 as (? & ? & Hcs & ?). split_and!; [done|done| |done]. cbn.
    intros t' e0 [[<- <-]|[_ He0]]%lookup_insert_Some; [|by apply Hcs].
    rewrite Hc in Hcs. destruct (Hcs t e He) as (? & ? & Hi & ?). split_and!; [done|congruence|by apply Hreg|done]. }
  destruct o; [| |done]; (case_decide; [|done]); (split; [by apply invariant_delete|done]).
Qed.

(** A deadline pushed by [accept] must satisfy [D]; if there is none, [U] must hold. *)
Lemma keeps_accept T D U env l :
  (timeout_fits T (accept_now env) -> D (accept_now env + from_secs T)) ->
  (~ timeout_fits T (accept_now env) -> U) ->
  invariant T D U l -> invariant T D U (accept env l).2.
Proof.
  intros HD HU Hl. unfold accept. destruct (tcp_accept env) as [err|peer].
  { case_decide; [done|]. rewrite bind_lift. by destruct (tcp_rebind env), (poll_register env). }
  destruct Hl as (Ht & Hn & Hc & Hs). destruct (next_token_ok l Hn) as (n & Hn' & Hrun).
  rewrite bind_get_state, (M_bind_run _ _ _ _ _ Hrun), Ht.
  set (tok := next_conn_token_id l) in *.
  assert (exists l1, (match systime_checked_add (accept_now env) (from_secs T) with
      | Some timeout_systime => modify (set_deadlines (heap_push (timeout_systime, tok)))
      | None => mret tt end : M (Listener R) io_error unit) (set_token n l) = (Ok tt, l1) /\
    invariant T D U l1 /\ ((exists d, (d, tok) ∈ deadlines l1 /\ D d) \/ U)) as (l1 & Hl1 & Hinv & Htok).
  { unfold systime_checked_add. case_bool_decide as Hfit; (eexists; split; [done|]); cycle 1.
    { split; [by split_and!|right; by apply HU]. }
    split; [|left; eexists; cbn; rewrite elem_of_heap_push; split; [by left|by apply HD]].
    split_and!; [done|done| |by apply heap_push_sorted]. cbn. intros t e He.
    destruct (Hc t e He) as (? & ? & ? & [(d & ? & ?)|?]); split_and!; try done; [|by right].
    left. exists d. rewrite elem_of_heap_push. auto. }
  rewrite (M_bind_run _ _ _ _ _ Hl1), bind_lift. destruct peer as [addr|]; [|done]. cbn [unwrap].
  rewrite bind_modify, M_bind_eq.
  unfold register_conn, run_conn, register. destruct (conn_register env); [|done].
  destruct Hinv as (? & ? & Hc1 & ?). split_and!; [done|done| |done]. cbn.
  intros t e [[<- <-]|[_ He]]%lookup_insert_Some; [|by apply Hc1]. by split_and!.
Qed.

Lemma increment_token l : exists n, increment_next_conn_token_id l = (Ok tt, set_token n l).
Proof.
  unfold increment_next_conn_token_id. rewrite bind_modify. unfold modify.
  destruct (checked 64 _); case_bool_decide; by eexists.
Qed.

(** What [accept] does to the heap. *)
Lemma accept_deadlines env l d t :
  (d, t) ∈ deadlines (accept env l).2 ->
  (d, t) ∈ deadlines l \/
  d = accept_now env + from_secs (config_timeout l) /\ timeout_fits (config_timeout l) (accept_now env).
Proof.
  unfold accept. destruct (tcp_accept env) as [err|peer].
  { case_decide; [auto|]. rewrite bind_lift. by destruct (tcp_rebind env), (poll_register env); auto. }
  destruct (increment_token l) as [n Hrun]. rewrite bind_get_state, (M_bind_run _ _ _ _ _ Hrun).
  assert (forall l1, (d, t) ∈ deadlines
    ((addr ← lift (unwrap peer); _ ← modify (set_peer addr);
      connection ← register_conn env (next_conn_token_id l) (mkEntry (new_conn (next_conn_token_id l)) [] 0 None);
      modify (set_connections <[next_conn_token_id l := connection]>) : M (Listener R) io_error unit) l1).2 ->
    (d, t) ∈ deadlines l1) as Hrest.
  { intros l1. rewrite bind_lift. destruct peer as [addr|]; [|done]. cbn [unwrap].
    rewrite bind_modify, M_bind_eq. unfold register_conn, run_conn, register. by destruct (conn_register env). }
  unfold systime_checked_add. case_bool_decide as Hfit.
  - rewrite bind_modify. intros Hin%Hrest. cbn in Hin. rewrite elem_of_heap_push in Hin.
    destruct Hin as [[= -> _]|?]; auto.
  - rewrite (M_bind_run _ _ _ tt (set_token n l)) by done. intros Hin%Hrest. auto.
Qed.

Lemma keeps_handle_event T D U env event l :
  (timeout_fits T (accept_now env) -> D (accept_now env + from_secs T)) ->
  (~ timeout_fits T (accept_now env) -> U) ->
  invariant T D U l -> invariant T D U (handle_event env event l).2.
Proof.
  intros HD HU Hl. unfold handle_event. rewrite !M_bind_eq.
  pose proof (keeps_close_loop T D U (S (length (deadlines l))) env (listener_now env) l Hl) as [Hl1 _].
  change (close_loop _ _ _ l) with (close_expired_connections env l) in Hl1.
  destruct (close_expired_connections env l) as [[[]|err|p] l1]; cbn [fst snd] in *; [|done..].
  destruct event as [|t r w].
  - pose proof (keeps_accept T D U env l1 HD HU Hl1) as Hl2. unfold on_result.
    by destruct (accept env l1) as [[| |] l2].
  - destruct (connections l1 !! t) as [e|] eqn:He; rewrite bind_get_state, He; [|done].
    by destruct (keeps_conn_ready T _ _ env t r w e l1 Hl1 He).
Qed.

(** After an event that is handled no deadline is past. *)
Lemma handle_event_fresh T D U env event l :
  0 <= T -> listener_now env <= accept_now env -> invariant T D U l ->
  (handle_event env event l).1 = Ok tt -> fresh (listener_now env) (handle_event env event l).2.
Proof.
  intros HT Hle Hl. unfold handle_event. rewrite !M_bind_eq.
  pose proof (keeps_close_loop T D U (S (length (deadlines l))) env (listener_now env) l Hl) as [Hl1 Hf].
  change (close_loop _ _ _ l) with (close_expired_connections env l) in Hl1, Hf.
  destruct (close_expired_connections env l) as [[[]|err|p] l1]; cbn [fst snd] in *; [|done..].
  specialize (Hf tt eq_refl). destruct event as [|t r w].
  - pose proof (accept_deadlines env l1) as Ha. destruct Hl1 as [HT1 _]. rewrite HT1 in Ha.
    assert (fresh (listener_now env) (accept env l1).2) as Hf2.
    { intros d t [Hin|[-> _]]%Ha; [by apply (Hf d t)|]. unfold from_secs, NANOS. lia. }
    unfold on_result. by destruct (accept env l1) as [[| |] l2].
  - destruct (connections l1 !! t) as [e|] eqn:He; rewrite bind_get_state, He; [|done].
    destruct (keeps_conn_ready T _ _ env t r w e l1 Hl1 He) as [_ Hd2].
    intros _ d t'. rewrite Hd2. apply Hf.
Qed.

(** The heap stays empty when no deadline can be represented. *)
Lemma handle_event_untimed env event l :
  ~ timeout_fits (config_timeout l) (accept_now env) -> deadlines l = [] ->
  deadlines (handle_event env event l).2 = [].
Proof.
  intros Hfit Hd. unfold handle_event, close_expired_connections. rewrite M_bind_eq, bind_get_state, Hd.
  cbn [length close_loop]. rewrite bind_get_state, Hd. cbn [mret M_ret].
  destruct event as [|t r w].
  - pose proof (accept_deadlines env l) as Ha.
    assert (deadlines (accept env l).2 = []) as Hn.
    { destruct (deadlines (accept env l).2) as [|[d t] ds]; [done|].
      destruct (Ha d t) as [Hin|[_ ?]]; [by left|rewrite Hd in Hin; by apply elem_of_nil in Hin|done]. }
    unfold on_result. by destruct (accept env l) as [[| |] l2].
  - rewrite bind_get_state. destruct (connections l !! t) as [e|]; [|done].
    unfold conn_ready, run_conn. destruct (ready _ _ _ _) as [[| |] s]; cbn; done.
Qed.

Lemma invariant_weaken T (D D' : SystemTime -> Prop) (U U' : Prop) l :
  (forall d, D d -> D' d) -> (U -> U') -> invariant T D U l -> invariant T D' U' l.
Proof.
  intros HD HU (? & ? & Hc & ?). split_and!; [done|done| |done]. intros t e He.
  destruct (Hc t e He) as (? & ? & ? & [(d & ? & ?)|?]); split_and!; try done; [left; exists d; auto|auto].
Qed.

(** Every live connection has a deadline, not before [closed] and not later than
    the timeout after [accepted]. *)
Definition all_timed (closed accepted : SystemTime) l : Prop :=
  forall t e, connections l !! t = Some e ->
    exists d, (d, t) ∈ deadlines l /\ closed <= d <= accepted + from_secs (config_timeout l).

(** The readings of the clock, in order. *)
Definition readings (events : list (ListenerEnv * Event)) : list SystemTime :=
  flat_map (fun ev => [listener_now ev.1; accept_now ev.1]) events.

Lemma listen_snoc events env ev l :
  listen (events ++ [(env, ev)]) l =
  match listen events l with (Ok _, l1) => handle_event env ev l1 | (Err e, l1) => (Err e, l1) | (Panic p, l1) => (Panic p, l1) end.
Proof.
  revert l. induction events as [|[env0 ev0] events IH]; intros l; cbn [listen app].
  - rewrite M_bind_eq. unfold mret, M_ret.
    by destruct (handle_event env ev l) as [[[]| |] l1].
  - rewrite !M_bind_eq. destruct (handle_event env0 ev0 l) as [[[]| |] l1]; [apply IH|done|done].
Qed.

Lemma sorted_snoc_le (ns : list Z) (a b : Z) :
  Sorted Z.le (ns ++ [a; b]) -> Sorted Z.le ns /\ a <= b /\ Forall (fun c => c <= a) ns.
Proof.
  intros Hs%(Sorted_StronglySorted Z.le). apply StronglySorted_app in Hs as (Hx & Hl & Hab).
  split_and!; [by apply StronglySorted_Sorted| |].
  - inversion Hab as [|? ? _ Hf]; subst. by inversion Hf.
  - rewrite Forall_forall. intros c Hc. apply Hx; [done|by left].
Qed.

(** A bound later than the last reading's deadline. *)
Lemma listen_timed T events l :
  0 <= T -> Sorted Z.le (readings events) -> Forall (fun ev => timeout_fits T (accept_now ev.1)) events ->
  deadlines l = [] -> connections l = ∅ -> invariant T (fun _ => True) False l ->
  invariant T (fun d => Forall (fun now => d <= now + from_secs T) (match last events with Some ev => [accept_now ev.1] | None => [] end))
    False (listen events l).2.
Proof.
  intros HT Hsort Hfit Hd Hcs Hl. induction events as [|[env ev] events IH] using rev_ind.
  { revert Hl. by apply invariant_weaken. }
  unfold readings in Hsort. rewrite flat_map_app in Hsort. cbn [flat_map app fst] in Hsort.
  apply sorted_snoc_le in Hsort as (Hsort & Hle & Hall). apply Forall_app in Hfit as [Hfit [Hf _]%Forall_cons].
  specialize (IH Hsort Hfit). rewrite last_snoc. cbn [fst] in *.
  assert (invariant T (fun d => Forall (fun now => d <= now + from_secs T) [accept_now env]) False (listen events l).2) as Hl1.
  { destruct (last events) as [[env0 ev0]|] eqn:Hlast.
    - revert IH. apply invariant_weaken; [|done]. intros d [Hd0 _]%Forall_cons. apply Forall_singleton.
      apply last_Some in Hlast as [evs ->]. rewrite flat_map_app, Forall_app in Hall.
      destruct Hall as [_ Hx]. cbn in Hx. rewrite !Forall_cons in Hx. cbn in *. lia.
    - apply last_None in Hlast as ->. cbn [listen]. destruct Hl as (? & ? & _ & ?). split_and!; [done|done| |done].
      intros t e He. cbn in He. rewrite Hcs in He. by rewrite lookup_empty in He. }
  rewrite listen_snoc. destruct (listen events l) as [[u| |] l1]; cbn [snd] in *; [|done..].
  apply keeps_handle_event; [|done|done]. intros _. apply Forall_singleton. lia.
Qed.

(** A listener without connections. *)
Definition idle T l : Prop :=
  deadlines l = [] /\ connections l = ∅ /\ forall U, invariant T (fun _ => True) U l.

Lemma listen_wf T events l :
  idle T l -> listener_wf T (fun now => exists ev, ev ∈ events /\ now = accept_now ev.1) (listen events l).2.
Proof.
  intros (_ & _ & Hl). induction events as [|[env ev] events IH] using rev_ind; [apply Hl|].
  assert (listener_wf T (fun now => exists ev0, ev0 ∈ events ++ [(env, ev)] /\ now = accept_now ev0.1)
    (listen events l).2) as Hl1.
  { revert IH. apply invariant_weaken; [done|]. intros (now & (ev0 & Hin & ->) & Hn). exists (accept_now ev0.1).
    split; [|done]. exists ev0. set_solver. }
  rewrite listen_snoc. destruct (listen events l) as [[u| |] l1]; cbn [snd] in *; [|done..].
  apply keeps_handle_event; [done| |done]. intros Hn. exists (accept_now env). split; [|done].
  exists (env, ev). set_solver.
Qed.

Lemma listen_all_timed T events env ev l l' :
  0 <= T -> idle T l -> Sorted Z.le (readings (events ++ [(env, ev)])) ->
  Forall (fun ev => timeout_fits T (accept_now ev.1)) (events ++ [(env, ev)]) ->
  listen (events ++ [(env, ev)]) l = (Ok tt, l') -> all_timed (listener_now env) (accept_now env) l'.
Proof.
  intros HT Hidle Hsort Hfit Hrun.
  pose proof (listen_timed T _ l HT Hsort Hfit (proj1 Hidle) (proj1 (proj2 Hidle)) (proj2 (proj2 Hidle) _)) as Hi.
  rewrite Hrun, last_snoc in Hi. cbn [fst snd] in Hi. destruct Hidle as (Hd & Hc & Hl).
  assert (fresh (listener_now env) l') as Hfr.
  { rewrite listen_snoc in Hrun. unfold readings in Hsort. rewrite flat_map_app in Hsort.
    cbn [flat_map app fst] in Hsort. apply sorted_snoc_le in Hsort as (Hsort & Hle & _).
    apply Forall_app in Hfit as [Hfit _].
    pose proof (listen_timed T events l HT Hsort Hfit Hd Hc (Hl _)) as Hi1.
    destruct (listen events l) as [[u| |] l1]; [|done..].
    pose proof (handle_event_fresh T _ _ env ev l1 HT Hle Hi1) as Hf. rewrite Hrun in Hf. by apply Hf. }
  destruct Hi as (HT' & _ & Hcs & _). intros t e He.
  destruct (Hcs t e He) as (_ & _ & _ & [(d & Hin & Hdd)|[]]). exists d. rewrite HT'.
  split; [done|]. split; [by apply (Hfr d t)|]. apply Forall_cons in Hdd as [Hdd _]. exact Hdd.
Qed.

Lemma listen_untimed T events l :
  idle T l -> Forall (fun ev => ~ timeout_fits T (accept_now ev.1)) events -> deadlines (listen events l).2 = [].
Proof.
  intros (Hd & _ & Hl) Hfit.
  assert (deadlines (listen events l).2 = [] /\ invariant T (fun _ => True) True (listen events l).2) as [? _]; [|done].
  induction events as [|[env ev] events IH] using rev_ind; [done|].
  apply Forall_app in Hfit as [Hfit [Hn _]%Forall_cons]. destruct (IH Hfit) as [IH1 IH2]. rewrite listen_snoc.
  destruct (listen events l) as [[u| |] l1]; cbn [snd] in *; [|done..].
  rewrite handle_event_untimed; [|by rewrite (proj1 IH2)|done]. split; [done|].
  by apply keeps_handle_event.
Qed.

(** C21: no connection outlives its timeout.  From a freshly bound listener,
    whatever the clients, the sockets and the clock do and whatever events arrive:
    after every prefix of the events, even when it ends in a panic, connections are
    filed under their own token, which is never the listener's nor mio's, and
    registered with the poll, the heap is ordered, and a connection has no deadline
    only if the timeout was too large for one to be represented.  If the clock does not go
    back and every deadline can be represented, then once the last event was
    handled, having read the clock at [listener_now env] before closing and at
    [accept_now env] before accepting, every live connection has a deadline that
    is not before the first reading and not later than the timeout after the
    second.  If none can be represented, there is none, and no connection is
    ever closed for its age. *)
Theorem connections_time_out errors T rot port addr meas rng l events o l' :
  bind errors T rot port addr meas rng = Ok l -> 0 <= T -> listen events l = (o, l') ->
  listener_wf T (fun now => exists ev, ev ∈ events /\ now = accept_now ev.1) l' /\
  (Sorted Z.le (readings events) -> Forall (fun ev => timeout_fits T (accept_now ev.1)) events ->
   o = Ok tt -> forall env ev, last events = Some (env, ev) ->
   all_timed (listener_now env) (accept_now env) l') /\
  (Forall (fun ev => ~ timeout_fits T (accept_now ev.1)) events -> deadlines l' = []).
Proof.
  unfold bind. destruct (omap id errors); [|done]. intros Hb%Ok_inj HT Hrun.
  assert (idle T l) as Hl.
  { subst l. split_and!; [done|done|]. intros U. split_and!; [done|done| |constructor].
    intros t e He. cbn in He. by rewrite lookup_empty in He. }
  split_and!.
  - change l' with (o, l').2. rewrite <- Hrun. by apply listen_wf.
  - intros Hsort Hfit -> env ev [evs ->]%last_Some. by eapply listen_all_timed.
  - intros Hfit. change l' with (o, l').2. rewrite <- Hrun. by eapply listen_untimed.
Qed.
End Facts.

(** ** Witnesses *)
Module ListenerExample.
Import Toy.
Definition at_time (now : SystemTime) : ListenerEnv :=
  mkListenerEnv now (now + 1) (inr (Some "10.0.0.7:5000")) None None true (fun _ => KeExample.env []).
Definition clock (s : Z) : SystemTime := from_secs (1700000000 + s).
Definition listener : Listener Z :=
  mkListener {[1 := mkEntry (new_conn 1) [] 0 (Some (mkReady true false)); 2 := mkEntry (new_conn 2) [] 0 (Some (mkReady true false))]}
    [(clock 10, 1); (clock 30, 2)] 3 60 (mkLock false KeExample.kr) 123 "" [] 0.
(** Two clients connect, the first one times out when the second is heard. *)
Definition events : list (ListenerEnv * Event) :=
  [(at_time (clock 0), ListenerEvent); (at_time (clock 50), ListenerEvent);
   (at_time (clock 61), ConnEvent 2 false true)].
Definition bound : Listener Z :=
  mkListener ∅ [] 1 60 (mkLock false KeExample.kr) 123 "" [] 0.
End ListenerExample.

Lemma close_expired_correct_witness :
  let env := ListenerExample.at_time (ListenerExample.clock 20) in
  let l := ListenerExample.listener in
  exists l', close_expired_connections env l = (Ok tt, l') /\
    (forall d t, (d, t) ∈ deadlines l' <-> (d, t) ∈ deadlines l /\ listener_now env <= d) /\
    (forall t, (exists d, (d, t) ∈ deadlines l /\ d < listener_now env) -> connections l' !! t = None) /\
    (forall t, (forall d, (d, t) ∈ deadlines l -> listener_now env <= d) ->
       connections l' !! t = connections l !! t).
Proof.
  intros env l. apply (close_expired_correct 60 (fun _ => False) env l); [|by intros t n].
  split_and!; [done|by vm_compute| |repeat constructor].
  intros t e He. unfold l, ListenerExample.listener in He. cbn [connections] in He.
  apply lookup_insert_Some in He as [[<- <-]|[_ He]].
  - split; [by vm_compute|]. split; [done|]. split; [by eexists|]. left. eexists. split; [|done]. apply elem_of_cons. by left.
  - apply lookup_singleton_Some in He as [<- <-].
    split; [by vm_compute|]. split; [done|]. split; [by eexists|]. left. eexists. split; [|done]. apply elem_of_cons. right. apply elem_of_cons. by left.
Defined.

Lemma connections_time_out_witness :
  let '(o, l') := listen (P := Debug) (A := Toy.toy_aead) (G := Toy.toy_rng) (I := host_names)
    ListenerExample.events ListenerExample.bound in
  o = Ok tt /\ size (connections l') = 1%nat /\
  listener_wf 60 (fun now => exists ev, ev ∈ ListenerExample.events /\ now = accept_now ev.1) l' /\
  all_timed (ListenerExample.clock 61) (ListenerExample.clock 61 + 1) l'.
Proof.
  assert (Sorted Z.le (readings ListenerExample.events)) as Hsort
    by (repeat first [apply Sorted_nil|apply Sorted_cons|apply HdRel_nil|apply HdRel_cons|by vm_compute]).
  assert (Forall (fun ev => timeout_fits 60 (accept_now ev.1)) ListenerExample.events) as Hfit
    by (repeat (apply Forall_cons; split; [by vm_compute|]); apply Forall_nil_2).
  destruct (listen ListenerExample.events ListenerExample.bound) as [o l'] eqn:Hrun.
  assert (o = Ok tt /\ size (connections l') = 1%nat) as [Ho Hsize].
  { vm_compute in Hrun. injection Hrun as <- <-. by split. }
  destruct (connections_time_out (P := Debug) (A := Toy.toy_aead) (G := Toy.toy_rng) (I := host_names)
    [None; None] 60 (mkLock false KeExample.kr) 123 "" [] 0 ListenerExample.bound
    ListenerExample.events o l' eq_refl ltac:(lia) Hrun) as (Hwf & Hall & _).
  split_and!; [done|done|done|].
  by apply (Hall Hsort Hfit Ho (ListenerExample.at_time (ListenerExample.clock 61)) (ConnEvent 2 false true)).
Defined.
