(* ===== verification/Config.v ===== *)
(** * What both configuration readers use

    [error.rs], [cookie.rs]'s [CookieKey::parse], [metrics.rs]'s [MetricsConfig],
    and what the readers see of the outside: the settings that the [config] crate
    made of a file, the file system and the PEM parser of [rustls].  The readers
    themselves are in [NtpConfig] and [KeConfig]. *)

From stdpp Require Import prelude list numbers strings.
From Stdlib Require Import Strings.Byte.
From S2P Require Import Prelude Words IpAddr.

Open Scope Z_scope.
#[local] Open Scope string_scope.

(** Text as the bytes that the address parser reads. *)
Definition text (s : string) : bytes := String.list_byte_of_string s.
Definition untext (b : bytes) : string := String.string_of_list_byte b.
#[global] Arguments text : simpl never.
#[global] Arguments untext : simpl never.
Lemma text_untext b : text (untext b) = b.
Proof. apply String.list_byte_of_string_of_list_byte. Qed.

Definition result {E A} (r : E + A) : res E A := match r with inl e => Err e | inr a => Ok a end.
Lemma result_Ok {E A} (r : E + A) a : result r = Ok a <-> r = inr a.
Proof. destruct r; cbn; naive_solver. Qed.
Lemma result_Err {E A} (r : E + A) e : result r = Err e <-> r = inl e.
Proof. destruct r; cbn; naive_solver. Qed.
Lemma result_no_panic {E A} (r : E + A) : is_panic (result r) = false.
Proof. by destruct r. Qed.

(** ** error.rs *)

(** The errors that are put into a box: those of files and of addresses. *)
Inductive BoxedError := BoxedIo (e : io_error) | BoxedAddrParse.

(** [config::ConfigError]; [ConfigOther] stands for the variants that only the
    crate itself makes. *)
Inductive ConfigError :=
  | NotFound (key : string)
  | ConfigOther (what : string)
  | Message (m : string)
  | Foreign (e : BoxedError).

(** An error type that can be boxed and printed. *)
Class StdError (T : Type) := { boxed : T -> BoxedError; display : T -> string }.
#[export] Instance io_StdError : StdError io_error := {| boxed := BoxedIo; display := message |}.
Inductive AddrParseError := mkAddrParseError.
#[export] Instance addr_StdError : StdError AddrParseError :=
  {| boxed _ := BoxedAddrParse; display _ := "invalid IP address syntax" |}.

(** [WrapError<T>] for [Result<_, E>]. *)
Class WrapError (E T : Type) := wrap_err : forall {S}, res E S -> res T S.
#[export] Instance config_WrapError {E} `{StdError E} : WrapError E ConfigError :=
  fun S r => map_err (fun error => Foreign (boxed error)) r.
#[export] Instance io_WrapError {E} `{StdError E} : WrapError E io_error :=
  fun S r => map_err (fun error => IoError Other (display error)) r.

(** ** Surroundings *)

(** A [config::Config]: [get_array] yields the text of every element. *)
Record Settings := mkSettings {
  get_string : string -> ConfigError + string;
  get_int : string -> ConfigError + Z;
  get_array : string -> ConfigError + list string;
}.

(** The [config] crate's reading of a named file; files by name, by their open
    handle; the two PEM readers of [rustls]. *)
Record ConfigEnv := mkConfigEnv {
  build_settings : string -> ConfigError + Settings;
  file_open : string -> io_error + Z;
  file_read_to_end : Z -> io_error + bytes;
  pem_certs : Z -> option (list bytes);
  pem_pkcs8_private_keys : Z -> option (list bytes);
}.

(** ** cookie.rs *)
Definition CookieKey_parse (env : ConfigEnv) (filename : string) : io_result bytes :=
  file ← result (file_open env filename);
  buffer ← result (file_read_to_end env file);
  mret buffer.

Lemma CookieKey_parse_Ok env name k :
  CookieKey_parse env name = Ok k <->
  exists fd, file_open env name = inr fd /\ file_read_to_end env fd = inr k.
Proof.
  unfold CookieKey_parse. rewrite bind_Ok. setoid_rewrite result_Ok.
  split; intros (fd & Hf & H); exists fd; (split; [done|]).
  - by destruct (file_read_to_end env fd); [|apply Ok_inj in H as ->].
  - by rewrite H.
Qed.

Lemma CookieKey_parse_no_panic env name : is_panic (CookieKey_parse env name) = false.
Proof. unfold CookieKey_parse. by repeat (apply bind_is_panic; [apply result_no_panic|intros ? _]). Qed.

(** ** metrics.rs *)
Record MetricsConfig := mkMetrics { metrics_port : Z; metrics_addr : string }.
Definition metrics_ok (m : option MetricsConfig) : Prop :=
  forall m', m = Some m' -> in_width 16 (metrics_port m').

(** ** Parsing with [str::parse] *)
Definition parse_sock (s : string) : res AddrParseError SocketAddr :=
  match SocketAddr_from_str (text s) with Some a => Ok a | None => Err mkAddrParseError end.
Definition parse_ip (s : string) : res AddrParseError IpAddr :=
  match IpAddr_from_str (text s) with Some a => Ok a | None => Err mkAddrParseError end.

(** [T::try_from] of an [i64] into an unsigned integer of [w] bits. *)
Definition try_unsigned (w v : Z) : option Z := checked w v.

(** ** Lemmas on [wrap_err] *)
Section Wrap.
Context {E : Type} `{StdError E}.
Lemma wrap_err_Ok {A} (r : res E A) a : wrap_err (T := ConfigError) r = Ok a <-> r = Ok a.
Proof. unfold wrap_err, config_WrapError. destruct r; cbn; naive_solver. Qed.
Lemma wrap_err_Err {A} (r : res E A) e :
  wrap_err (T := ConfigError) r = Err e -> exists x, r = Err x /\ e = Foreign (boxed x).
Proof. unfold wrap_err, config_WrapError. destruct r; cbn; naive_solver. Qed.
Lemma wrap_err_no_panic {A} (r : res E A) : is_panic (wrap_err (T := ConfigError) r) = is_panic r.
Proof. by destruct r. Qed.
End Wrap.

Lemma parse_sock_Ok s a : parse_sock s = Ok a <-> SocketAddr_from_str (text s) = Some a.
Proof. unfold parse_sock. destruct (SocketAddr_from_str _); naive_solver. Qed.
Lemma parse_sock_no_panic s : is_panic (parse_sock s) = false.
Proof. unfold parse_sock. by destruct (SocketAddr_from_str _). Qed.

(** A list of addresses that parse. *)
Lemma parsed_socks_ok l addrs :
  Forall2 (fun t a => SocketAddr_from_str (text t) = Some a) l addrs -> Forall sock_ok addrs.
Proof. induction 1; constructor; eauto using SocketAddr_from_str_ok. Qed.
