(* ===== verification/NtpConfig.v ===== *)
(** * The NTP server's configuration

    [ntp/server/config.rs]: [NtpServerConfig] and its reader.  The theorems say
    which settings are accepted and with what result, in which form errors come,
    that an accepted configuration holds addresses and ports in their ranges, and
    that a configuration written down in settings and files reads back. *)

From stdpp Require Import prelude list numbers strings.
From Stdlib Require Import Strings.Byte.
From S2P Require Import Prelude Words IpAddr Config.

Open Scope Z_scope.
#[local] Open Scope string_scope.

(** A bad address, a bad port type or a missing file for the metrics never is an
    error here, and the port is cut to 16 bits. *)
Definition get_metrics_config (settings : Settings) : option MetricsConfig :=
  match get_string settings "metrics_addr" with
  | inr addr =>
    match get_int settings "metrics_port" with
    | inr port => Some (mkMetrics (wrap 16 port) addr)
    | inl _ => None
    end
  | inl _ => None
  end.

Record NtpServerConfig := mkNtpServerConfig {
  addrs : list SocketAddr;
  cookie_key : bytes;
  memcached_url : string;
  metrics_config : option MetricsConfig;
  upstream_addr : option SocketAddr;
}.

Definition new (cookie_key : bytes) (memcached_url : string) (metrics_config : option MetricsConfig)
    (upstream_addr : option SocketAddr) : NtpServerConfig :=
  mkNtpServerConfig [] cookie_key memcached_url metrics_config upstream_addr.

Definition add_address (addr : SocketAddr) (c : NtpServerConfig) : NtpServerConfig :=
  mkNtpServerConfig (addrs c ++ [addr]) (cookie_key c) (memcached_url c) (metrics_config c) (upstream_addr c).

(** The port of the upstream server, when one is given. *)
Definition get_upstream_port (settings : Settings) : res ConfigError (option Z) :=
  match get_int settings "upstream_port" with
  | inl (NotFound _) => Ok None
  | inl error => Err error
  | inr val =>
    match try_unsigned 16 val with
    | Some port => Ok (Some port)
    | None => Err (Message "the upstream port is not a valid u64")
    end
  end.

Definition get_upstream_addr (settings : Settings) : res ConfigError (option string) :=
  match get_string settings "upstream_addr" with
  | inl (NotFound _) => Ok None
  | inl error => Err error
  | inr addr => Ok (Some addr)
  end.

(** The loop over the addresses to listen on. *)
Fixpoint add_addresses (l : list string) (config : NtpServerConfig) : res ConfigError NtpServerConfig :=
  match l with
  | [] => Ok config
  | addr :: l =>
    sock_addr ← wrap_err (parse_sock addr);
    add_addresses l (add_address sock_addr config)
  end.

Definition parse (env : ConfigEnv) (filename : string) : res ConfigError NtpServerConfig :=
  settings ← unwrap_res (result (build_settings env filename));
  memcached_url ← result (get_string settings "memc_url");
  let metrics_config := get_metrics_config settings in
  upstream_port ← get_upstream_port settings;
  upstream_addr ← get_upstream_addr settings;
  upstream_sock_addr ←
    (match upstream_addr, upstream_port with
     | Some addr, Some port =>
       ip ← wrap_err (parse_ip addr);
       mret (Some (mkSock ip port 0))
     | _, _ => mret None
     end);
  cookie_key_filename ← result (get_string settings "cookie_key_file");
  cookie_key ← wrap_err (CookieKey_parse env cookie_key_filename);
  addrs ← result (get_array settings "addr");
  add_addresses addrs (new cookie_key memcached_url metrics_config upstream_sock_addr).

(** ** What the reader accepts *)

(** A value that may be missing. *)
Definition optional {A} (r : ConfigError + A) (o : option A) : Prop :=
  match o with
  | Some a => r = inr a
  | None => exists k, r = inl (NotFound k)
  end.

(** The upstream address that the settings give. *)
Definition upstream_given (settings : Settings) (u : option SocketAddr) : Prop :=
  exists port addr,
    optional (get_int settings "upstream_port") port /\
    optional (get_string settings "upstream_addr") addr /\
    (forall p, port = Some p -> in_width 16 p) /\
    match addr, port with
    | Some a, Some p => exists ip, IpAddr_from_str (text a) = Some ip /\ u = Some (mkSock ip p 0)
    | _, _ => u = None
    end.

(** The settings and files describe the configuration. *)
Definition describes (env : ConfigEnv) (settings : Settings) (c : NtpServerConfig) : Prop :=
  get_string settings "memc_url" = inr (memcached_url c) /\
  metrics_config c = get_metrics_config settings /\
  upstream_given settings (upstream_addr c) /\
  (exists name fd, get_string settings "cookie_key_file" = inr name /\
     file_open env name = inr fd /\ file_read_to_end env fd = inr (cookie_key c)) /\
  exists l, get_array settings "addr" = inr l /\
    Forall2 (fun t a => SocketAddr_from_str (text t) = Some a) l (addrs c).

Lemma add_addresses_Ok l c c' :
  add_addresses l c = Ok c' <->
  exists new, Forall2 (fun t a => SocketAddr_from_str (text t) = Some a) l new /\
    c' = mkNtpServerConfig (addrs c ++ new) (cookie_key c) (memcached_url c) (metrics_config c) (upstream_addr c).
Proof.
  revert c. induction l as [|t l IH]; intros c; cbn [add_addresses].
  - split.
    + intros <-%Ok_inj. exists []. rewrite app_nil_r. by destruct c.
    + intros (new & ->%Forall2_nil_inv_l & ->). rewrite app_nil_r. by destruct c.
  - rewrite bind_Ok. setoid_rewrite wrap_err_Ok. setoid_rewrite parse_sock_Ok. setoid_rewrite IH. cbn. split.
    + intros (a & Ha & new & Hn & ->). exists (a :: new). rewrite <- app_assoc. split; [by constructor|done].
    + intros (new & (a & new' & Ha & Hn & ->)%Forall2_cons_inv_l & ->). exists a. split; [done|].
      exists new'. by rewrite <- app_assoc.
Qed.

Lemma get_upstream_port_Ok settings o :
  get_upstream_port settings = Ok o <->
  optional (get_int settings "upstream_port") o /\ (forall p, o = Some p -> in_width 16 p).
Proof.
  unfold get_upstream_port, optional, try_unsigned, checked.
  destruct (get_int settings "upstream_port") as [[]|v]; destruct o; cbn; try case_bool_decide; naive_solver.
Qed.

Lemma get_upstream_addr_Ok settings o :
  get_upstream_addr settings = Ok o <-> optional (get_string settings "upstream_addr") o.
Proof.
  unfold get_upstream_addr, optional.
  destruct (get_string settings "upstream_addr") as [[]|v]; destruct o; cbn; naive_solver.
Qed.

Lemma parse_body_Ok env filename settings c :
  build_settings env filename = inr settings -> parse env filename = Ok c <-> describes env settings c.
Proof.
  intros Hb. unfold parse, describes, upstream_given. rewrite Hb. cbn [result unwrap_res]. res_step.
  repeat setoid_rewrite bind_Ok. setoid_rewrite result_Ok. setoid_rewrite wrap_err_Ok.
  setoid_rewrite CookieKey_parse_Ok. setoid_rewrite get_upstream_port_Ok. setoid_rewrite get_upstream_addr_Ok.
  setoid_rewrite add_addresses_Ok. cbn [new addrs cookie_key memcached_url metrics_config upstream_addr app].
  unfold parse_ip. split.
  - intros (url & Hurl & port & (Hport & Hrange) & addr & Haddr & u & Hu & name & Hname & key &
      (fd & Hopen & Hread) & l & Hl & new & Hnew & ->).
    cbn [addrs cookie_key memcached_url metrics_config upstream_addr]. split_and!; try done; [|eauto|eauto].
    exists port, addr. split_and!; try done.
    destruct addr as [a|]; [|by simpl_bind]. destruct port as [p|]; [|by simpl_bind].
    simpl_bind. apply wrap_err_Ok in H. destruct (IpAddr_from_str (text a)) as [ip|]; [|done].
    apply Ok_inj in H as ->. eauto.
  - intros (Hurl & Hm & (port & addr & Hport & Haddr & Hrange & Hu) & (name & fd & Hname & Hopen & Hread) & l & Hl & Hnew).
    exists (memcached_url c). split; [done|]. exists port. split; [done|]. exists addr. split; [done|].
    exists (upstream_addr c). split.
    { destruct addr as [a|], port as [p|]; try by rewrite Hu. destruct Hu as (ip & -> & ->). done. }
    exists name. split; [done|]. exists (cookie_key c). split; [by exists fd|]. exists l. split; [done|].
    exists (addrs c). split; [done|]. rewrite <- Hm. by destruct c.
Qed.

Lemma add_addresses_no_panic l c : is_panic (add_addresses l c) = false.
Proof.
  revert c. induction l as [|t l IH]; intros c; cbn [add_addresses]; [done|].
  apply bind_is_panic; [by rewrite wrap_err_no_panic, parse_sock_no_panic|auto].
Qed.

Lemma parse_body_no_panic env filename settings :
  build_settings env filename = inr settings -> is_panic (parse env filename) = false.
Proof.
  intros Hb. unfold parse. rewrite Hb. cbn [result unwrap_res]. res_step.
  apply bind_is_panic; [apply result_no_panic|intros url _].
  apply bind_is_panic; [|intros port _].
  { unfold get_upstream_port, try_unsigned, checked.
    destruct (get_int settings "upstream_port") as [[]|v]; try done. by case_bool_decide. }
  apply bind_is_panic; [|intros addr _].
  { unfold get_upstream_addr. by destruct (get_string settings "upstream_addr") as [[]|v]. }
  apply bind_is_panic; [|intros u _].
  { destruct addr as [a|], port as [p|]; try done. unfold parse_ip. by destruct (IpAddr_from_str (text a)). }
  apply bind_is_panic; [apply result_no_panic|intros name _].
  apply bind_is_panic; [rewrite wrap_err_no_panic; apply CookieKey_parse_no_panic|intros key _].
  apply bind_is_panic; [apply result_no_panic|intros l _]. apply add_addresses_no_panic.
Qed.

(** ** Errors *)

(** The errors that the documentation of [parse] announces, and their causes.  The
    text of the range error names the wrong type; the code has it so. *)
Inductive announced (env : ConfigEnv) (settings : Settings) : ConfigError -> Prop :=
  | missing_string k e : k ∈ ["memc_url"; "cookie_key_file"] ->
      get_string settings k = inl e -> announced env settings e
  | missing_addrs e : get_array settings "addr" = inl e -> announced env settings e
  | unreadable_port e : get_int settings "upstream_port" = inl e -> (forall k, e <> NotFound k) ->
      announced env settings e
  | unreadable_upstream e : get_string settings "upstream_addr" = inl e -> (forall k, e <> NotFound k) ->
      announced env settings e
  | port_range v : get_int settings "upstream_port" = inr v -> ~ in_width 16 v ->
      announced env settings (Message "the upstream port is not a valid u64")
  | bad_upstream a : get_string settings "upstream_addr" = inr a -> IpAddr_from_str (text a) = None ->
      announced env settings (Foreign BoxedAddrParse)
  | bad_address l a : get_array settings "addr" = inr l -> a ∈ l -> SocketAddr_from_str (text a) = None ->
      announced env settings (Foreign BoxedAddrParse)
  | bad_file name e : get_string settings "cookie_key_file" = inr name ->
      CookieKey_parse env name = Err e -> announced env settings (Foreign (BoxedIo e)).

Lemma add_addresses_Err l c e :
  add_addresses l c = Err e ->
  e = Foreign BoxedAddrParse /\ exists a, a ∈ l /\ SocketAddr_from_str (text a) = None.
Proof.
  revert c. induction l as [|t l IH]; intros c; cbn [add_addresses]; [done|].
  rewrite bind_Err. intros [(x & Hx & ->)%wrap_err_Err|(a & _ & (-> & b & Hb & Hn)%IH)].
  - split; [done|]. exists t. split; [set_solver|]. unfold parse_sock in Hx. by destruct (SocketAddr_from_str _).
  - split; [done|]. exists b. split; [set_solver|done].
Qed.

(** Every error is one of these, so an absent optional key is never an error. *)
Lemma parse_announced env filename settings e :
  build_settings env filename = inr settings -> parse env filename = Err e -> announced env settings e.
Proof.
  intros Hb. unfold parse. rewrite Hb. cbn [result unwrap_res]. res_step.
  rewrite bind_Err, result_Err. intros [H|(url & _ & H)]; [eapply missing_string; [|done]; set_solver|].
  apply bind_Err in H as [H|(port & _ & H)].
  { unfold get_upstream_port, try_unsigned, checked in H.
    destruct (get_int settings "upstream_port") as [err|v] eqn:Hp.
    - destruct err; try done; injection H as <-; by apply unreadable_port.
    - case_bool_decide; [done|]. injection H as <-. by eapply port_range. }
  apply bind_Err in H as [H|(addr & Ha & H)].
  { unfold get_upstream_addr in H. destruct (get_string settings "upstream_addr") as [err|v] eqn:Hp; [|done].
    destruct err; try done; injection H as <-; by apply unreadable_upstream. }
  apply get_upstream_addr_Ok in Ha.
  apply bind_Err in H as [H|(u & _ & H)].
  { destruct addr as [a|], port as [p|]; try done. apply bind_Err in H as [H|(? & _ & H)]; [|done].
    apply wrap_err_Err in H as (x & Hx & ->). eapply bad_upstream; [done|].
    unfold parse_ip in Hx. by destruct (IpAddr_from_str _). }
  rewrite bind_Err, result_Err in H. destruct H as [H|(name & Hname%result_Ok & H)]; [eapply missing_string; [|done]; set_solver|].
  apply bind_Err in H as [(x & Hx & ->)%wrap_err_Err|(key & _ & H)]; [by eapply bad_file|].
  rewrite bind_Err, result_Err in H. destruct H as [H|(l & Hl%result_Ok & H)]; [by apply missing_addrs|].
  apply add_addresses_Err in H as (-> & a & Hin & Hn). by eapply bad_address.
Qed.

(** C33: reading the NTP server's configuration.  [parse] returns a configuration
    exactly when the settings of the named file describe it: the memcached url is
    there; the metrics are those of [get_metrics_config]; the upstream port and
    address are each either absent or valid, and there is an upstream server when
    both are given; the cookie key file can be read and its content is the cookie
    key; the addresses to listen on are those of the list, each of which parses, in
    order.  Every error is one that the documentation announces, with its cause: an
    error of the [config] crate for a key that is required or that is present and of
    the wrong type, the range error of the upstream port, and, wrapped as foreign
    errors, that of the cookie key file or of an address that does not parse (the
    parser's error, where the documentation has an I/O error).  It panics exactly
    when the settings file itself cannot be read. *)
Theorem ntp_config_parse env filename :
  (forall c, parse env filename = Ok c <->
     exists settings, build_settings env filename = inr settings /\ describes env settings c) /\
  (forall e, parse env filename = Err e ->
     exists settings, build_settings env filename = inr settings /\ announced env settings e) /\
  (is_panic (parse env filename) = true <-> exists e, build_settings env filename = inl e).
Proof.
  destruct (build_settings env filename) as [e|settings] eqn:Hb.
  - unfold parse. rewrite Hb. cbn. split_and!; naive_solver.
  - split_and!.
    + intros c. rewrite (parse_body_Ok _ _ settings) by done. naive_solver.
    + intros e He. exists settings. split; [done|]. by eapply parse_announced.
    + rewrite (parse_body_no_panic _ _ settings) by done. naive_solver.
Qed.

(** ** Configurations in the ranges of their types *)
Definition config_ok (c : NtpServerConfig) : Prop :=
  Forall sock_ok (addrs c) /\ metrics_ok (metrics_config c) /\
  (forall u, upstream_addr c = Some u -> sock_ok u /\ scope_id u = 0).

(** ** Writing a configuration down *)
Definition setting {A} (key : string) (o : option A) : ConfigError + A :=
  match o with Some a => inr a | None => inl (NotFound key) end.

Definition render (c : NtpServerConfig) (key_file : string) : Settings := {|
  get_string k :=
    setting k (if String.eqb k "memc_url" then Some (memcached_url c)
      else if String.eqb k "metrics_addr" then metrics_addr <$> metrics_config c
      else if String.eqb k "upstream_addr" then (fun u => untext (show_ip (sock_ip u))) <$> upstream_addr c
      else if String.eqb k "cookie_key_file" then Some key_file else None);
  get_int k :=
    setting k (if String.eqb k "metrics_port" then metrics_port <$> metrics_config c
      else if String.eqb k "upstream_port" then sock_port <$> upstream_addr c else None);
  get_array k :=
    setting k (if String.eqb k "addr" then Some (map (fun a => untext (show_sock a)) (addrs c)) else None);
|}.

(** Writing a configuration down and reading it back.  Settings that spell out
    a well-formed configuration, with the addresses in their usual text form and the
    cookie key in a readable file, are parsed to that same configuration. *)
Lemma ntp_config_roundtrip env filename key_file fd c :
  config_ok c ->
  build_settings env filename = inr (render c key_file) ->
  file_open env key_file = inr fd -> file_read_to_end env fd = inr (cookie_key c) ->
  parse env filename = Ok c.
Proof.
  intros (Haddrs & Hm & Hu) Hb Hf Hk. apply (parse_body_Ok _ _ _ _ Hb). split_and!; [done| | |by exists key_file, fd|].
  - unfold get_metrics_config. cbn -[wrap]. destruct (metrics_config c) as [[p a]|] eqn:Hmc; [|done].
    cbn -[wrap]. by rewrite wrap_id by apply (Hm _ eq_refl).
  - exists (sock_port <$> upstream_addr c), ((fun u => untext (show_ip (sock_ip u))) <$> upstream_addr c).
    cbn. destruct (upstream_addr c) as [[ip p s]|] eqn:Huc; cbn; [|split_and!; [by eexists|by eexists|done|done]].
    destruct (Hu _ eq_refl) as [(Hip & Hp & _) Hs0]. cbn in *. subst s. split_and!; [done|done|naive_solver|].
    exists ip. by rewrite text_untext, ip_text_roundtrip.
  - eexists. split; [done|]. induction Haddrs as [|a l Ha Hl IH]; cbn [map]; constructor; [|done].
    rewrite text_untext. by apply sock_text_roundtrip.
Qed.

(** ** A concrete configuration

    Two listeners, an upstream server, and metrics. *)
Definition sample : NtpServerConfig :=
  mkNtpServerConfig
    [mkSock (V4 0x7f000001) 123 0; mkSock (V6 0x20010db8000000000000000000000001) 123 0]
    [x01; x02; x03] "memcache:11211" (Some (mkMetrics 9090 "127.0.0.1"))
    (Some (mkSock (V4 0x7f000001) 4460 0)).
Definition sample_env (fd : io_error + Z) : ConfigEnv :=
  mkConfigEnv (fun _ => inr (render sample "cookie.key")) (fun _ => fd) (fun _ => inr [x01; x02; x03])
    (fun _ => None) (fun _ => None).

Lemma sample_ok : config_ok sample.
Proof.
  split_and!; [by repeat (apply Forall_cons_2; [by vm_compute|])|by intros m [= <-]|by intros u [= <-]].
Qed.

Lemma ntp_config_roundtrip_witness : parse (sample_env (inr 3)) "ntp-server.config" = Ok sample.
Proof. apply (ntp_config_roundtrip _ _ "cookie.key" 3); [apply sample_ok|reflexivity..]. Defined.

(** The error of a cookie key file that is not there. *)
Example sample_error :
  parse (sample_env (inl (IoError Other "no such file"))) "ntp-server.config" =
  Err (Foreign (BoxedIo (IoError Other "no such file"))).
Proof. by vm_compute. Qed.
