(* ===== verification/KeConfig.v ===== *)
(** * The key exchange server's configuration

    [nts_ke/server/config.rs]: [KeServerConfig], the import of certificates and
    keys, and the reader. *)

From stdpp Require Import prelude list numbers strings.
From Stdlib Require Import Strings.Byte.
From S2P Require Import Prelude Words IpAddr Config.

Open Scope Z_scope.
#[local] Open Scope string_scope.

Definition ke_get_metrics_config (settings : Settings) : option MetricsConfig :=
  match get_string settings "metrics_addr" with
  | inr addr =>
    match get_int settings "metrics_port" with
    | inr port => Some (mkMetrics (wrap 16 port) addr)
    | inl _ => None
    end
  | inl _ => None
  end.

Record KeServerConfig := mkKeServerConfig {
  ke_addrs : list SocketAddr;
  ke_cookie_key : bytes;
  timeout : Z;
  ke_memcached_url : string;
  ke_metrics_config : option MetricsConfig;
  next_port : Z;
  tls_certs : list bytes;
  tls_secret_keys : list bytes;
}.

Definition ke_new (timeout : Z) (cookie_key : bytes) (memcached_url : string)
    (metrics_config : option MetricsConfig) (next_port : Z) : KeServerConfig :=
  mkKeServerConfig [] cookie_key timeout memcached_url metrics_config next_port [] [].

(** [&mut self] methods. *)
Definition Setter := KeServerConfig -> KeServerConfig.
Definition add_tls_cert (cert : bytes) : Setter := fun c =>
  mkKeServerConfig (ke_addrs c) (ke_cookie_key c) (timeout c) (ke_memcached_url c) (ke_metrics_config c)
    (next_port c) (tls_certs c ++ [cert]) (tls_secret_keys c).
Definition add_tls_secret_key (secret_key : bytes) : Setter := fun c =>
  mkKeServerConfig (ke_addrs c) (ke_cookie_key c) (timeout c) (ke_memcached_url c) (ke_metrics_config c)
    (next_port c) (tls_certs c) (tls_secret_keys c ++ [secret_key]).
Definition ke_add_address (addr : SocketAddr) : Setter := fun c =>
  mkKeServerConfig (ke_addrs c ++ [addr]) (ke_cookie_key c) (timeout c) (ke_memcached_url c)
    (ke_metrics_config c) (next_port c) (tls_certs c) (tls_secret_keys c).

Definition import_tls_certs (env : ConfigEnv) (filename : string) : M KeServerConfig io_error unit :=
  file ← lift (result (file_open env filename));
  match pem_certs env file with
  | Some certs => modify (fun c => fold_left (fun c cert => add_tls_cert cert c) certs c)
  | None => lift (Err (IoError InvalidData ("cannot parse TLS certificates from " +:+ filename)))
  end.

Definition import_tls_secret_keys (env : ConfigEnv) (filename : string) : M KeServerConfig io_error unit :=
  file ← lift (result (file_open env filename));
  match pem_pkcs8_private_keys env file with
  | Some secret_keys => modify (fun c => fold_left (fun c key => add_tls_secret_key key c) secret_keys c)
  | None => lift (Err (IoError InvalidData ("cannot parse TLS private keys from " +:+ filename)))
  end.

(** [wrap_err] on a method's result. *)
Definition wrapping {A} (m : M KeServerConfig io_error A) : M KeServerConfig ConfigError A :=
  fun c => let '(r, c) := m c in (wrap_err r, c).

Definition get_next_port (settings : Settings) : res ConfigError Z :=
  match get_int settings "next_port" with
  | inl error => Err error
  | inr val =>
    match try_unsigned 16 val with
    | Some port => Ok port
    | None => Err (Message "the next port is not a valid u16")
    end
  end.

Definition get_timeout (settings : Settings) : res ConfigError Z :=
  match get_int settings "conn_timeout" with
  | inl (NotFound _) => Ok 30
  | inl error => Err error
  | inr val =>
    match try_unsigned 64 val with
    | Some val => Ok val
    | None => Err (Message "the connection timeout is not a valid u64")
    end
  end.

Fixpoint ke_add_addresses (l : list string) : M KeServerConfig ConfigError unit :=
  match l with
  | [] => mret tt
  | addr :: l =>
    sock_addr ← lift (wrap_err (parse_sock addr));
    _ ← modify (ke_add_address sock_addr);
    ke_add_addresses l
  end.

(** The part of [parse] that works on the new configuration. *)
Definition fill (env : ConfigEnv) (settings : Settings) (certs_filename secret_keys_filename : string) :
    M KeServerConfig ConfigError unit :=
  _ ← wrapping (import_tls_certs env certs_filename);
  _ ← wrapping (import_tls_secret_keys env secret_keys_filename);
  addrs ← lift (result (get_array settings "addr"));
  ke_add_addresses addrs.

Definition ke_parse (env : ConfigEnv) (filename : string) : res ConfigError KeServerConfig :=
  settings ← unwrap_res (result (build_settings env filename));
  next_port ← get_next_port settings;
  memcached_url ← result (get_string settings "memc_url");
  timeout ← get_timeout settings;
  let metrics_config := ke_get_metrics_config settings in
  certs_filename ← result (get_string settings "tls_cert_file");
  secret_keys_filename ← result (get_string settings "tls_key_file");
  cookie_key_filename ← result (get_string settings "cookie_key_file");
  cookie_key ← wrap_err (CookieKey_parse env cookie_key_filename);
  let '(r, config) := fill env settings certs_filename secret_keys_filename
                        (ke_new timeout cookie_key memcached_url metrics_config next_port) in
  _ ← r;
  mret config.

(** ** What the reader accepts *)
Definition opens_to {A} (env : ConfigEnv) (settings : Settings) (key : string) (read : Z -> A -> Prop) (a : A) : Prop :=
  exists name fd, get_string settings key = inr name /\ file_open env name = inr fd /\ read fd a.

Definition ke_describes (env : ConfigEnv) (settings : Settings) (c : KeServerConfig) : Prop :=
  (get_int settings "next_port" = inr (next_port c) /\ in_width 16 (next_port c)) /\
  get_string settings "memc_url" = inr (ke_memcached_url c) /\
  ((exists k, get_int settings "conn_timeout" = inl (NotFound k) /\ timeout c = 30) \/
   (get_int settings "conn_timeout" = inr (timeout c) /\ in_width 64 (timeout c))) /\
  ke_metrics_config c = ke_get_metrics_config settings /\
  opens_to env settings "tls_cert_file" (fun fd l => pem_certs env fd = Some l) (tls_certs c) /\
  opens_to env settings "tls_key_file" (fun fd l => pem_pkcs8_private_keys env fd = Some l) (tls_secret_keys c) /\
  opens_to env settings "cookie_key_file" (fun fd b => file_read_to_end env fd = inr b) (ke_cookie_key c) /\
  exists l, get_array settings "addr" = inr l /\
    Forall2 (fun t a => SocketAddr_from_str (text t) = Some a) l (ke_addrs c).

(** ** The steps of the reader *)
Lemma get_next_port_Ok settings p :
  get_next_port settings = Ok p <-> get_int settings "next_port" = inr p /\ in_width 16 p.
Proof.
  unfold get_next_port, try_unsigned, checked. destruct (get_int settings "next_port") as [e|v]; cbn; [naive_solver|].
  case_bool_decide; naive_solver.
Qed.

Lemma get_timeout_Ok settings t :
  get_timeout settings = Ok t <->
  (exists k, get_int settings "conn_timeout" = inl (NotFound k) /\ t = 30) \/
  (get_int settings "conn_timeout" = inr t /\ in_width 64 t).
Proof.
  unfold get_timeout, try_unsigned, checked.
  destruct (get_int settings "conn_timeout") as [[]|v]; cbn; [naive_solver..|]. case_bool_decide; naive_solver.
Qed.

Section Readers.
Context (env : ConfigEnv).

Lemma add_certs l c :
  fold_left (fun c cert => add_tls_cert cert c) l c =
  mkKeServerConfig (ke_addrs c) (ke_cookie_key c) (timeout c) (ke_memcached_url c) (ke_metrics_config c)
    (next_port c) (tls_certs c ++ l) (tls_secret_keys c).
Proof.
  revert c. induction l as [|x l IH]; intros c; cbn [fold_left]; [rewrite app_nil_r; by destruct c|].
  rewrite IH. cbn. by rewrite <- app_assoc.
Qed.
Lemma add_keys l c :
  fold_left (fun c key => add_tls_secret_key key c) l c =
  mkKeServerConfig (ke_addrs c) (ke_cookie_key c) (timeout c) (ke_memcached_url c) (ke_metrics_config c)
    (next_port c) (tls_certs c) (tls_secret_keys c ++ l).
Proof.
  revert c. induction l as [|x l IH]; intros c; cbn [fold_left]; [rewrite app_nil_r; by destruct c|].
  rewrite IH. cbn. by rewrite <- app_assoc.
Qed.

Lemma import_tls_certs_Ok name c c' :
  wrapping (import_tls_certs env name) c = (Ok tt, c') <->
  exists fd l, file_open env name = inr fd /\ pem_certs env fd = Some l /\
    c' = fold_left (fun c cert => add_tls_cert cert c) l c.
Proof.
  unfold wrapping, import_tls_certs. rewrite bind_lift.
  destruct (file_open env name) as [e|fd]; cbn [result]; [naive_solver|].
  destruct (pem_certs env fd) eqn:Hp; cbn; naive_solver.
Qed.
Lemma import_tls_secret_keys_Ok name c c' :
  wrapping (import_tls_secret_keys env name) c = (Ok tt, c') <->
  exists fd l, file_open env name = inr fd /\ pem_pkcs8_private_keys env fd = Some l /\
    c' = fold_left (fun c key => add_tls_secret_key key c) l c.
Proof.
  unfold wrapping, import_tls_secret_keys. rewrite bind_lift.
  destruct (file_open env name) as [e|fd]; cbn [result]; [naive_solver|].
  destruct (pem_pkcs8_private_keys env fd) eqn:Hp; cbn; naive_solver.
Qed.

Lemma ke_add_addresses_Ok l c c' :
  ke_add_addresses l c = (Ok tt, c') <->
  exists new, Forall2 (fun t a => SocketAddr_from_str (text t) = Some a) l new /\
    c' = mkKeServerConfig (ke_addrs c ++ new) (ke_cookie_key c) (timeout c) (ke_memcached_url c)
           (ke_metrics_config c) (next_port c) (tls_certs c) (tls_secret_keys c).
Proof.
  revert c. induction l as [|t l IH]; intros c; cbn [ke_add_addresses].
  - split.
    + intros [= <-]. exists []. rewrite app_nil_r. by destruct c.
    + intros (new & ->%Forall2_nil_inv_l & ->). rewrite app_nil_r. by destruct c.
  - rewrite bind_lift. pose proof (parse_sock_Ok t) as Hp. destruct (parse_sock t) as [a|e|p] eqn:Ht.
    + assert (SocketAddr_from_str (text t) = Some a) as Ha by by apply Hp.
      cbn [wrap_err config_WrapError map_err]. rewrite bind_modify, IH. cbn. split.
      * intros (new & Hn & ->). exists (a :: new). rewrite <- app_assoc. split; [by constructor|done].
      * intros (new & (b & new' & Hb & Hn & ->)%Forall2_cons_inv_l & ->). exists new'.
        assert (b = a) as -> by congruence. by rewrite <- app_assoc.
    + cbn. split; [done|]. intros (new & (b & new' & Hb & Hn & ->)%Forall2_cons_inv_l & _). by apply Hp in Hb.
    + pose proof (parse_sock_no_panic t) as Hn. by rewrite Ht in Hn.
Qed.

Lemma fill_Ok settings certs keys c c' :
  fill env settings certs keys c = (Ok tt, c') <->
  exists fc lc fk lk l new,
    file_open env certs = inr fc /\ pem_certs env fc = Some lc /\
    file_open env keys = inr fk /\ pem_pkcs8_private_keys env fk = Some lk /\
    get_array settings "addr" = inr l /\
    Forall2 (fun t a => SocketAddr_from_str (text t) = Some a) l new /\
    c' = mkKeServerConfig (ke_addrs c ++ new) (ke_cookie_key c) (timeout c) (ke_memcached_url c)
           (ke_metrics_config c) (next_port c) (tls_certs c ++ lc) (tls_secret_keys c ++ lk).
Proof.
  unfold fill. rewrite M_bind_Ok. setoid_rewrite M_bind_Ok. setoid_rewrite bind_lift. split.
  - intros ([] & c1 & (fc & lc & Hfc & Hlc & ->)%import_tls_certs_Ok & [] & c2 &
      (fk & lk & Hfk & Hlk & ->)%import_tls_secret_keys_Ok & H).
    destruct (get_array settings "addr") as [e|l] eqn:Hl; cbn [result] in H; [done|].
    apply ke_add_addresses_Ok in H as (new & Hn & ->). rewrite add_keys, add_certs.
    by exists fc, lc, fk, lk, l, new.
  - intros (fc & lc & fk & lk & l & new & Hfc & Hlc & Hfk & Hlk & Hl & Hn & ->).
    eexists tt, _. split; [apply import_tls_certs_Ok; eauto|]. eexists tt, _.
    split; [apply import_tls_secret_keys_Ok; eauto|]. rewrite Hl. cbn [result].
    apply ke_add_addresses_Ok. exists new. split; [done|]. by rewrite add_keys, add_certs.
Qed.
End Readers.

Lemma ke_parse_body_Ok env filename settings c :
  build_settings env filename = inr settings -> ke_parse env filename = Ok c <-> ke_describes env settings c.
Proof.
  intros Hb. unfold ke_parse, ke_describes, opens_to. rewrite Hb. cbn [result unwrap_res]. res_step.
  rewrite bind_Ok. repeat setoid_rewrite bind_Ok. setoid_rewrite result_Ok. setoid_rewrite wrap_err_Ok.
  setoid_rewrite CookieKey_parse_Ok. setoid_rewrite get_next_port_Ok. setoid_rewrite get_timeout_Ok. split.
  - intros (port & Hp & url & Hurl & t & Ht & cn & Hcn & kn & Hkn & ckn & Hckn & ck & (fd & Hfd & Hck) & H).
    destruct (fill _ _ _ _ _) as [r config] eqn:Hf. apply bind_Ok in H as ([] & -> & <-%Ok_inj).
    apply fill_Ok in Hf as (fc & lc & fk & lk & l & new & Hfc & Hlc & Hfk & Hlk & Hl & Hn & ->).
    cbn [ke_new ke_addrs ke_cookie_key timeout ke_memcached_url ke_metrics_config next_port tls_certs tls_secret_keys app].
    split_and!; [apply Hp|apply Hp|done|done|done|by exists cn, fc|by exists kn, fk|by exists ckn, fd|by exists l].
  - intros (Hp & Hurl & Ht & Hm & (cn & fc & Hcn & Hfc & Hlc) & (kn & fk & Hkn & Hfk & Hlk) &
      (ckn & fd & Hckn & Hfd & Hck) & l & Hl & Hn).
    exists (next_port c). split; [done|]. exists (ke_memcached_url c). split; [done|].
    exists (timeout c). split; [done|]. exists cn. split; [done|]. exists kn. split; [done|].
    exists ckn. split; [done|]. exists (ke_cookie_key c). split; [by exists fd|].
    assert (fill env settings cn kn (ke_new (timeout c) (ke_cookie_key c) (ke_memcached_url c)
              (ke_get_metrics_config settings) (next_port c)) = (Ok tt, c)) as ->; [|done].
    apply fill_Ok. exists fc, (tls_certs c), fk, (tls_secret_keys c), l, (ke_addrs c).
    rewrite <- Hm. by destruct c.
Qed.

(** ** No panics *)
Lemma wrapping_no_panic {A} (m : M KeServerConfig io_error A) c :
  is_panic (m c).1 = false -> is_panic (wrapping m c).1 = false.
Proof. unfold wrapping. destruct (m c) as [[] ?]; done. Qed.
Lemma import_tls_certs_no_panic env name c : is_panic (import_tls_certs env name c).1 = false.
Proof.
  unfold import_tls_certs. rewrite bind_lift. destruct (file_open env name) as [e|fd]; cbn [result]; [done|].
  by destruct (pem_certs env fd).
Qed.
Lemma import_tls_secret_keys_no_panic env name c : is_panic (import_tls_secret_keys env name c).1 = false.
Proof.
  unfold import_tls_secret_keys. rewrite bind_lift. destruct (file_open env name) as [e|fd]; cbn [result]; [done|].
  by destruct (pem_pkcs8_private_keys env fd).
Qed.
Lemma ke_add_addresses_no_panic l c : is_panic (ke_add_addresses l c).1 = false.
Proof.
  revert c. induction l as [|t l IH]; intros c; cbn [ke_add_addresses]; [done|]. rewrite bind_lift.
  pose proof (parse_sock_no_panic t) as Hn. destruct (parse_sock t); cbn in *; [|done..]. apply IH.
Qed.

Lemma M_bind_no_panic {S E A B} (m : M S E A) (k : A -> M S E B) s :
  is_panic (m s).1 = false -> (forall a s', is_panic (k a s').1 = false) -> is_panic ((m ≫= k) s).1 = false.
Proof. intros Hm Hk. rewrite M_bind_eq. destruct (m s) as [[] ?]; [apply Hk|done..]. Qed.

Lemma fill_no_panic env settings cn kn c : is_panic (fill env settings cn kn c).1 = false.
Proof.
  unfold fill. apply M_bind_no_panic; [apply wrapping_no_panic, import_tls_certs_no_panic|intros _ c1].
  apply M_bind_no_panic; [apply wrapping_no_panic, import_tls_secret_keys_no_panic|intros _ c2].
  apply M_bind_no_panic; [apply result_no_panic|intros l c3]. apply ke_add_addresses_no_panic.
Qed.

Lemma ke_parse_body_no_panic env filename settings :
  build_settings env filename = inr settings -> is_panic (ke_parse env filename) = false.
Proof.
  intros Hb. unfold ke_parse. rewrite Hb. cbn [result unwrap_res]. res_step.
  apply bind_is_panic; [|intros port _].
  { unfold get_next_port, try_unsigned, checked. destruct (get_int settings "next_port"); cbn; [done|].
    by case_bool_decide. }
  apply bind_is_panic; [apply result_no_panic|intros url _].
  apply bind_is_panic; [|intros t _].
  { unfold get_timeout, try_unsigned, checked. destruct (get_int settings "conn_timeout") as [[]|]; try done.
    by case_bool_decide. }
  do 3 (apply bind_is_panic; [apply result_no_panic|intros ? _]).
  apply bind_is_panic; [rewrite wrap_err_no_panic; apply CookieKey_parse_no_panic|intros key _].
  match goal with |- context [fill ?e ?s ?a ?b ?c] =>
    pose proof (fill_no_panic e s a b c) as Hf; destruct (fill e s a b c) as [[] ?] end; done.
Qed.

(** The ranges of an accepted configuration. *)
Definition ke_config_ok (c : KeServerConfig) : Prop :=
  Forall sock_ok (ke_addrs c) /\ in_width 16 (next_port c) /\ in_width 64 (timeout c) /\
  metrics_ok (ke_metrics_config c).

Lemma ke_describes_ok env settings c : ke_describes env settings c -> ke_config_ok c.
Proof.
  intros ([_ Hp] & _ & Ht & Hm & _ & _ & _ & l & _ & Hl). split_and!; [|done| |].
  - by eapply parsed_socks_ok.
  - destruct Ht as [(k & _ & ->)|[_ Ht]]; done.
  - rewrite Hm. unfold ke_get_metrics_config, metrics_ok. intros m'.
    destruct (get_string settings "metrics_addr"); [done|].
    destruct (get_int settings "metrics_port"); [done|]. intros [= <-]. by apply wrap_range.
Qed.

(** ** Errors *)

(** The causes of an error, and the form it has: an error of the [config] crate, a
    message, or a wrapped error of a file or an address. *)
Inductive ke_announced (env : ConfigEnv) (settings : Settings) : ConfigError -> Prop :=
  | ke_missing_string k e : k ∈ ["memc_url"; "tls_cert_file"; "tls_key_file"; "cookie_key_file"] ->
      get_string settings k = inl e -> ke_announced env settings e
  | ke_missing_port e : get_int settings "next_port" = inl e -> ke_announced env settings e
  | ke_missing_addrs e : get_array settings "addr" = inl e -> ke_announced env settings e
  | ke_unreadable_timeout e : get_int settings "conn_timeout" = inl e -> (forall k, e <> NotFound k) ->
      ke_announced env settings e
  | ke_port_range v : get_int settings "next_port" = inr v -> ~ in_width 16 v ->
      ke_announced env settings (Message "the next port is not a valid u16")
  | ke_timeout_range v : get_int settings "conn_timeout" = inr v -> ~ in_width 64 v ->
      ke_announced env settings (Message "the connection timeout is not a valid u64")
  | ke_bad_address l a : get_array settings "addr" = inr l -> a ∈ l -> SocketAddr_from_str (text a) = None ->
      ke_announced env settings (Foreign BoxedAddrParse)
  | ke_bad_cookie_key name e : get_string settings "cookie_key_file" = inr name ->
      CookieKey_parse env name = Err e -> ke_announced env settings (Foreign (BoxedIo e))
  | ke_bad_file k name e : k ∈ ["tls_cert_file"; "tls_key_file"] -> get_string settings k = inr name ->
      file_open env name = inl e -> ke_announced env settings (Foreign (BoxedIo e))
  | ke_bad_certs name fd : get_string settings "tls_cert_file" = inr name ->
      file_open env name = inr fd -> pem_certs env fd = None ->
      ke_announced env settings (Foreign (BoxedIo (IoError InvalidData ("cannot parse TLS certificates from " +:+ name))))
  | ke_bad_keys name fd : get_string settings "tls_key_file" = inr name ->
      file_open env name = inr fd -> pem_pkcs8_private_keys env fd = None ->
      ke_announced env settings (Foreign (BoxedIo (IoError InvalidData ("cannot parse TLS private keys from " +:+ name)))).

Lemma M_bind_Err {S E A B} (m : M S E A) (k : A -> M S E B) s e :
  ((m ≫= k) s).1 = Err e -> (m s).1 = Err e \/ exists a s', m s = (Ok a, s') /\ (k a s').1 = Err e.
Proof. rewrite M_bind_eq. destruct (m s) as [[] ?]; cbn; naive_solver. Qed.

Section Errors.
Context (env : ConfigEnv) (settings : Settings).
Abbreviation announced := (ke_announced env settings).

Lemma import_tls_certs_Err name c e :
  get_string settings "tls_cert_file" = inr name ->
  (wrapping (import_tls_certs env name) c).1 = Err e -> announced e.
Proof.
  intros Hn. unfold wrapping, import_tls_certs. rewrite bind_lift.
  destruct (file_open env name) as [x|fd] eqn:Hf; cbn [result].
  - intros [= <-]. eapply (ke_bad_file _ _ "tls_cert_file"); [set_solver|done..].
  - destruct (pem_certs env fd) eqn:Hp; [done|]. intros [= <-]. by eapply ke_bad_certs.
Qed.
Lemma import_tls_secret_keys_Err name c e :
  get_string settings "tls_key_file" = inr name ->
  (wrapping (import_tls_secret_keys env name) c).1 = Err e -> announced e.
Proof.
  intros Hn. unfold wrapping, import_tls_secret_keys. rewrite bind_lift.
  destruct (file_open env name) as [x|fd] eqn:Hf; cbn [result].
  - intros [= <-]. eapply (ke_bad_file _ _ "tls_key_file"); [set_solver|done..].
  - destruct (pem_pkcs8_private_keys env fd) eqn:Hp; [done|]. intros [= <-]. by eapply ke_bad_keys.
Qed.
Lemma ke_add_addresses_Err l c e :
  (ke_add_addresses l c).1 = Err e ->
  e = Foreign BoxedAddrParse /\ exists a, a ∈ l /\ SocketAddr_from_str (text a) = None.
Proof.
  revert c. induction l as [|t l IH]; intros c; cbn [ke_add_addresses]; [done|]. rewrite bind_lift.
  unfold parse_sock. destruct (SocketAddr_from_str (text t)) as [a|] eqn:Ht; cbn.
  - intros (-> & b & Hb & Hn)%IH. split; [done|]. exists b. split; [set_solver|done].
  - intros [= <-]. split; [done|]. exists t. split; [set_solver|done].
Qed.

Lemma fill_Err cn kn c e :
  get_string settings "tls_cert_file" = inr cn -> get_string settings "tls_key_file" = inr kn ->
  (fill env settings cn kn c).1 = Err e -> announced e.
Proof.
  intros Hcn Hkn [H|(u & c1 & _ & H)]%M_bind_Err; [by eapply import_tls_certs_Err|].
  apply M_bind_Err in H as [H|(u' & c2 & _ & H)]; [by eapply import_tls_secret_keys_Err|].
  rewrite bind_lift in H. destruct (get_array settings "addr") as [x|l] eqn:Hl; cbn [result] in H.
  - injection H as <-. by apply ke_missing_addrs.
  - apply ke_add_addresses_Err in H as (-> & a & Ha & Hn). by eapply ke_bad_address.
Qed.

Lemma get_next_port_Err e : get_next_port settings = Err e -> announced e.
Proof.
  unfold get_next_port, try_unsigned, checked. destruct (get_int settings "next_port") as [x|v] eqn:Hp.
  - intros [= <-]. by apply ke_missing_port.
  - case_bool_decide; [done|]. intros [= <-]. by eapply ke_port_range.
Qed.
Lemma get_timeout_Err e : get_timeout settings = Err e -> announced e.
Proof.
  unfold get_timeout, try_unsigned, checked. destruct (get_int settings "conn_timeout") as [x|v] eqn:Hp.
  - destruct x; try done; intros [= <-]; by apply ke_unreadable_timeout.
  - case_bool_decide; [done|]. intros [= <-]. by eapply ke_timeout_range.
Qed.

Lemma ke_parse_announced filename e :
  build_settings env filename = inr settings -> ke_parse env filename = Err e -> announced e.
Proof.
  intros Hb. unfold ke_parse. rewrite Hb. cbn [result unwrap_res]. res_step.
  intros [H|(port & _ & H)]%bind_Err; [by apply get_next_port_Err|].
  apply bind_Err in H as [H%result_Err|(url & _ & H)]; [eapply ke_missing_string; [|done]; set_solver|].
  apply bind_Err in H as [H|(t & _ & H)]; [by apply get_timeout_Err|]. cbv zeta in H.
  apply bind_Err in H as [H%result_Err|(cn & Hcn%result_Ok & H)]; [eapply ke_missing_string; [|done]; set_solver|].
  apply bind_Err in H as [H%result_Err|(kn & Hkn%result_Ok & H)]; [eapply ke_missing_string; [|done]; set_solver|].
  apply bind_Err in H as [H%result_Err|(name & Hname%result_Ok & H)]; [eapply ke_missing_string; [|done]; set_solver|].
  apply bind_Err in H as [(x & Hx & ->)%wrap_err_Err|(key & _ & H)]; [by eapply ke_bad_cookie_key|].
  match type of H with context [fill ?e ?s ?a ?b ?c] => pose proof (fill_Err a b c) as Hf; destruct (fill e s a b c) as [r cfg] end.
  cbn in Hf. apply bind_Err in H as [->|(u & _ & H)]; [by apply Hf|done].
Qed.
End Errors.

(** C34: reading the key exchange server's configuration.  [ke_parse] returns a
    configuration exactly when the settings of the named file describe it: a port
    that fits 16 bits, the memcached url, a timeout that fits 64 bits or none, for
    which 30 seconds are taken, certificates, private keys and the cookie key in
    files that open and parse, in the order of the files, and addresses that parse,
    in order; and what it returns is in the range of its types.  Every error has one
    of the announced causes and its form.  It panics exactly when the settings file
    itself cannot be read. *)
Theorem ke_config_parse env filename :
  (forall c, ke_parse env filename = Ok c <->
     exists settings, build_settings env filename = inr settings /\ ke_describes env settings c) /\
  (forall c, ke_parse env filename = Ok c -> ke_config_ok c) /\
  (forall e, ke_parse env filename = Err e ->
     exists settings, build_settings env filename = inr settings /\ ke_announced env settings e) /\
  (is_panic (ke_parse env filename) = true <-> exists e, build_settings env filename = inl e).
Proof.
  destruct (build_settings env filename) as [e|settings] eqn:Hb.
  - unfold ke_parse. rewrite Hb. cbn. split_and!; naive_solver.
  - split_and!.
    + intros c. rewrite (ke_parse_body_Ok _ _ settings) by done. naive_solver.
    + intros c H. eapply ke_describes_ok. by apply (ke_parse_body_Ok env filename settings).
    + intros e He. exists settings. split; [done|]. by eapply ke_parse_announced.
    + rewrite (ke_parse_body_no_panic _ _ settings) by done. naive_solver.
Qed.
