(* ===== verification/Sockets.v ===== *)
(** * Listening sockets

    [cfsock.rs]: the sockets on which both servers listen.  The calls of [net2] and
    [libc] are the kernel's: a socket is built by a sequence of calls, each of which
    the kernel may refuse, and the model records the sequence. *)

From stdpp Require Import prelude list numbers strings.
From S2P Require Import Prelude Words IpAddr Config.

Open Scope Z_scope.

Inductive Family := Inet | Inet6.
Inductive Call :=
  | NewTcp (f : Family)
  | NewUdp (f : Family)
  | ReuseAddress (on : bool)
  | SetFreebind (fd level option_name value : Z)
  | Bind (addr : SocketAddr)
  | Listen (backlog : Z).

(** The kernel's answers, which may depend on the calls before; [setsockopt]
    returns an integer and leaves its error behind. *)
Record Kernel := mkKernel {
  target_linux : bool;
  net2 : list Call -> Call -> io_error + Z;
  setsockopt : list Call -> Call -> Z;
  last_os_error : list Call -> io_error;
}.

Section Sockets.
Context (k : Kernel).

Abbreviation MS := (M (list Call) io_error).

Definition call (c : Call) : MS Z := fun tr => (result (net2 k tr c), tr ++ [c]).

Definition IP_FREEBIND : Z := 0xf.
Definition SOL_IP : Z := 0.

(** Both versions of the function: the one for Linux, and the empty one. *)
Definition set_freebind (fd : Z) : MS unit := fun tr =>
  if target_linux k then
    let c := SetFreebind fd SOL_IP IP_FREEBIND 1 in
    let tr' := tr ++ [c] in
    if bool_decide (setsockopt k tr c = -1)
    then (Err (IoError Other (display (last_os_error k tr'))), tr')
    else (Ok tt, tr')
  else (Ok tt, tr).

Definition family (addr : SocketAddr) : Family := match sock_ip addr with V4 _ => Inet | V6 _ => Inet6 end.

Definition tcp_listener (addr : SocketAddr) : MS Z :=
  builder ← call (NewTcp (family addr));
  _ ← call (ReuseAddress true);
  _ ← set_freebind builder;
  _ ← call (Bind addr);
  _ ← call (Listen 128);
  mret builder.

Definition udp_listen (addr : SocketAddr) : MS Z :=
  builder ← call (NewUdp (family addr));
  _ ← call (ReuseAddress true);
  _ ← set_freebind builder;
  _ ← call (Bind addr);
  mret builder.

(** ** What was done to a socket *)

(** The calls between creating a socket and binding it. *)
Definition prepare (new : Call) (fd : Z) (addr : SocketAddr) : list Call :=
  [new; ReuseAddress true] ++
  (if target_linux k then [SetFreebind fd SOL_IP IP_FREEBIND 1] else []) ++ [Bind addr].

(** A run that made all the calls of [calls], for the socket it returns, or that
    stopped with an error after some of them. *)
Definition performed (calls : Z -> list Call) (run : io_result Z * list Call) : Prop :=
  match run with
  | (Ok fd, tr) => tr = calls fd
  | (Err _, tr) => exists fd, tr `prefix_of` calls fd
  | (Panic _, _) => False
  end.

Lemma prepare_performed new addr rest (m : Z -> MS Z) :
  (forall fd tr, performed (fun fd' => tr ++ rest) (m fd tr) /\ forall fd', (m fd tr).1 = Ok fd' -> fd' = fd) ->
  performed (fun fd => prepare new fd addr ++ rest)
    ((builder ← call new;
      _ ← call (ReuseAddress true);
      _ ← set_freebind builder;
      _ ← call (Bind addr);
      m builder) []).
Proof.
  intros Hm. unfold call, prepare, set_freebind. rewrite ?M_bind_eq.
  destruct (net2 k [] new) as [e|fd]; cbn [result app]; [exists 0; by eexists|].
  rewrite ?M_bind_eq. destruct (net2 k [new] _) as [e|v]; cbn [result app]; [exists fd; by eexists|].
  rewrite ?M_bind_eq. destruct (target_linux k); [case_bool_decide|]; cbn [app];
    [exists fd; by eexists|..]; rewrite ?M_bind_eq;
    (destruct (net2 k _ (Bind addr)) as [e|v']; cbn [result app]; [exists fd; by eexists|]);
    match goal with |- context [m fd ?tr] => destruct (Hm fd tr) as [Hp Hfd]; destruct (m fd tr) as [[fd'|e|p] tr'] end;
    try done; try (by rewrite (Hfd fd' eq_refl)); destruct Hp as [_ Hp]; by exists fd.
Qed.

Lemma tcp_listener_performed addr :
  performed (fun fd => prepare (NewTcp (family addr)) fd addr ++ [Listen 128]) (tcp_listener addr []).
Proof.
  apply (prepare_performed (NewTcp (family addr)) addr [Listen 128] (fun fd => _ ← call (Listen 128); mret fd)).
  intros fd tr. rewrite M_bind_eq. unfold call. destruct (net2 k tr (Listen 128)); cbn; (split; [|naive_solver]); [by exists 0|done].
Qed.

Lemma udp_listen_performed addr :
  performed (fun fd => prepare (NewUdp (family addr)) fd addr) (udp_listen addr []).
Proof.
  assert (performed (fun fd => prepare (NewUdp (family addr)) fd addr ++ []) (udp_listen addr [])) as H.
  { apply (prepare_performed (NewUdp (family addr)) addr [] (fun fd => mret fd)).
    intros fd tr. cbn. rewrite app_nil_r. naive_solver. }
  destruct (udp_listen addr []) as [[fd|e|p] tr]; cbn in H |- *; [by rewrite H, app_nil_r| |done].
  destruct H as [fd H]. exists fd. by rewrite app_nil_r in H.
Qed.
End Sockets.
