(* ===== verification/KeStart.v ===== *)
(** * The key exchange server process

    [nts_ke/server/server.rs] and [sub_command/ke_server.rs]: connecting to
    memcached and setting TLS up, binding the listeners and starting the threads,
    and the process made of these threads.  [rustls] decides whether it takes the
    certificates and the key; the kernel and [mio] decide whether a listener can be
    bound. *)

From stdpp Require Import prelude list numbers strings gmap.
From Stdlib Require Import Strings.Byte.
From S2P Require Import Prelude Words Crypto Time Cookie KeyRotator NtpServer.
From S2P Require Import KeRecords IpAddr KeStream KeConnection KeServing KeListener Config KeConfig Sockets.

Open Scope Z_scope.
#[local] Open Scope string_scope.

(** ** TLS *)
Inductive ProtocolVersion := TLSv1_2 | TLSv1_3.
Record TlsServerConfig := mkTls {
  versions : list ProtocolVersion;
  cert_chain : list bytes;
  private_key : bytes;
  protocols : list bytes;
}.

(** What starting the listeners sees of the outside, per address. *)
Record StartEnv := mkStartEnv {
  poll_new : SocketAddr -> option io_error;
  kernel : SocketAddr -> Kernel;
  from_std : SocketAddr -> option io_error;
  register_listener : SocketAddr -> option io_error;
}.

(** The threads that the server starts; a listener's by its place in the list. *)
Inductive Thread := RotationThread | MetricsThread (m : MetricsConfig) | ListenThread (i : nat).

Section Start.
Context {P : Profile} {A : Aead} {H : Hmac} {R ME : Type} {G : Rng R} {I : IpText}.

(** [KeServerState]; the rotator comes with the counters of its module. *)
Record KeServerState := mkKeServerState {
  config : KeServerConfig;
  state_rotator : RwLock State;
  tls_server_config : TlsServerConfig;
}.

(** [KeServer], with the globals its threads share and the threads started. *)
Record KeServer := mkKeServer {
  server_state : KeServerState;
  listeners : list (Listener R);
  server_client_addr : string;
  server_meas : list string;
  threads : list Thread;
}.

(** [KeServer::connect]; [accepts] is [set_single_cert]. *)
Definition ke_connect (config : KeServerConfig) (accepts : list bytes -> bytes -> bool)
    (worlds : Z -> World ME) : res (RotateError ME) KeServer :=
  let '(r, s) := connect "/nts/nts-keys" (ke_memcached_url config) (ke_cookie_key config) worlds 0 0 in
  rotator ← r;
  secret_key ← index (tls_secret_keys config) 0;
  _ ← (if accepts (tls_certs config) secret_key then mret tt else Panic UnwrapFailed);
  let tls := mkTls [TLSv1_3] (tls_certs config) secret_key [text "ntske/1"] in
  mret (mkKeServer
    (mkKeServerState config (mkLock false (mkState rotator (rotations s) (failures s))) tls)
    [] "" [] []).

Definition spawn (t : Thread) (k : KeServer) : KeServer :=
  mkKeServer (server_state k) (listeners k) (server_client_addr k) (server_meas k) (threads k ++ [t]).
Definition push_listener (l : Listener R) (k : KeServer) : KeServer :=
  mkKeServer (server_state k) (listeners k ++ [l]) (server_client_addr k) (server_meas k) (threads k).

Definition failure {B} (r : io_result B) : option io_error :=
  match r with Err e => Some e | _ => None end.

(** [KeServerListener::bind(addr, &self)]. *)
Definition bind_listener (env : StartEnv) (rng : R) (addr : SocketAddr) (k : KeServer) : io_result (Listener R) :=
  let c := config (server_state k) in
  let rotor := state_rotator (server_state k) in
  bind [poll_new env addr; failure (tcp_listener (kernel env addr) addr []).1;
        from_std env addr; register_listener env addr]
    (timeout c) (mkLock (poisoned rotor) (rot (guarded rotor))) (next_port c)
    (server_client_addr k) (server_meas k) rng.

(** The loop that binds; an error ends [start]. *)
Fixpoint bind_all (env : StartEnv) (rng : R) (addrs : list SocketAddr) : M KeServer io_error unit :=
  match addrs with
  | [] => mret tt
  | addr :: addrs =>
    k ← get_state;
    listener ← lift (bind_listener env rng addr k);
    _ ← modify (push_listener listener);
    bind_all env rng addrs
  end.

Definition spawn_metrics (m : option MetricsConfig) : M KeServer io_error unit :=
  match m with
  | Some metrics_config => modify (spawn (MetricsThread metrics_config))
  | None => mret tt
  end.

(** [KeServer::start], up to the point where it joins the listeners' threads: whether
    there is one to wait for.  Without one it returns at once. *)
Definition start (env : StartEnv) (rng : R) : M KeServer io_error bool :=
  _ ← modify (spawn RotationThread);
  k ← get_state;
  _ ← spawn_metrics (ke_metrics_config (config (server_state k)));
  _ ← bind_all env rng (ke_addrs (config (server_state k)));
  _ ← modify (fun k => fold_left (fun k i => spawn (ListenThread i) k) (seq 0 (length (listeners k))) k);
  k ← get_state;
  mret (bool_decide (0 < zlen (listeners k))).

(** ** The subcommand

    A process that exits with a code, panics, or waits for its listeners' threads;
    when [start] returns without an error, the process ends with code 0. *)
Inductive Outcome := Exit (code : Z) | Crash (p : panic) | Running (k : KeServer).

Definition resolve_config_filename (configfile : option string) : string :=
  match configfile with
  | Some filename => filename
  | None => "/etc/cfnts/ke-server.config"
  end.

Definition ke_run (cenv : ConfigEnv) (accepts : list bytes -> bytes -> bool) (worlds : Z -> World ME)
    (senv : StartEnv) (rng : R) (configfile : option string) : Outcome :=
  match ke_parse cenv (resolve_config_filename configfile) with
  | Err _ => Exit 1
  | Panic p => Crash p
  | Ok config =>
    match ke_connect config accepts worlds with
    | Err _ => Exit 1
    | Panic p => Crash p
    | Ok server =>
      match start senv rng server with
      | (Err _, _) => Exit 1
      | (Panic p, _) => Crash p
      | (Ok true, server) => Running server
      | (Ok false, _) => Exit 0
      end
    end
  end.
End Start.
Arguments KeServer : clear implicits.
Arguments Outcome : clear implicits.

(** ** What a listener leaves alone: the keys and the configuration *)
Section Shared.
Context {P : Profile} {A : Aead} {R : Type} {G : Rng R} {I : IpText}.

Definition conn_shared (s : KeSt R) : RwLock KeyRotator * Z := (rotator s, next_port_config s).
Definition listener_shared (l : Listener R) : RwLock KeyRotator * Z * Z := (l_rotator l, l_port l, config_timeout l).

Lemma shared_fixed {B} (m : M (KeSt R) unit B) : frames conn_fixed m -> frames conn_shared m.
Proof. apply (frames_weaken conn_fixed fst). Qed.
Lemma frames_ready env r w : frames conn_shared (ready env r w).
Proof.
  unfold ready. apply frames_bind; [destruct r; [apply shared_fixed, fixed_read_ready|frame]|intros _].
  apply frames_bind; [destruct w; [apply shared_fixed, fixed_write_ready|frame]|intros _].
  apply frames_get. intros s. case_decide; [|frame]. apply frames_on_result; [|frame|frame].
  unfold reregister. case_match; frame.
Qed.

Lemma run_conn_shared (m : M (KeSt R) unit unit) e l :
  frames conn_shared m -> listener_shared (run_conn m e l).2 = listener_shared l.
Proof.
  intros Hm. unfold run_conn. specialize (Hm (mkKe (entry_conn e) (l_rotator l) (l_port l)
    (l_client_addr l) (l_meas l) (l_rng l) (entry_written e) (entry_shutdowns e) (entry_interest e))).
  destruct (m _) as [o s]. injection Hm as Hr Hp. unfold listener_shared. cbn. by rewrite Hr, Hp.
Qed.

Lemma frames_force_close env t e : frames listener_shared (force_close env t e).
Proof.
  intros l. unfold force_close.
  pose proof (run_conn_shared (shutdown (conn_env env t)) e (set_connections (delete t) l) (shared_fixed _ (fixed_shutdown _))) as Hr.
  by destruct (run_conn _ _ _) as [[o e'] l'].
Qed.
Lemma frames_conn_ready env t r w e : frames listener_shared (conn_ready env t r w e).
Proof.
  intros l. unfold conn_ready.
  pose proof (run_conn_shared (ready (conn_env env t) r w) e l (frames_ready _ _ _)) as Hr.
  destruct (run_conn _ _ _) as [[o e'] l']. by destruct o.
Qed.
Lemma frames_register_conn env t e : frames listener_shared (register_conn env t e).
Proof.
  intros l. unfold register_conn.
  pose proof (run_conn_shared (register (conn_register env) (conn_env env t)) e l) as Hr.
  destruct (run_conn _ _ _) as [[o e'] l']. cbn [snd] in Hr.
  destruct o; apply Hr; unfold register; destruct (conn_register env); frame.
Qed.
#[local] Hint Resolve frames_force_close frames_conn_ready frames_register_conn : frame.

Lemma frames_close_loop fuel env now : frames listener_shared (close_loop fuel env now).
Proof. induction fuel as [|fuel IH]; cbn [close_loop]; frame. Qed.
#[local] Hint Resolve frames_close_loop : frame.

Lemma frames_accept env : frames listener_shared (accept env).
Proof.
  unfold accept, increment_next_conn_token_id. frame;
    apply frames_modify; intros l; unfold set_token; by destruct (checked _ _) || by case_bool_decide.
Qed.
#[local] Hint Resolve frames_accept : frame.

Lemma frames_handle_event env ev : frames listener_shared (handle_event env ev).
Proof. unfold handle_event, close_expired_connections. frame. Qed.
End Shared.

(** ** Starting *)
Section Starting.
Context {P : Profile} {A : Aead} {H : Hmac} {R ME : Type} {G : Rng R} {I : IpText}.
Implicit Types (k : KeServer R) (env : StartEnv).

(** Why an address cannot be bound: the first call that fails. *)
Definition bind_failure env (addr : SocketAddr) : option io_error :=
  head (omap id [poll_new env addr; failure (tcp_listener (kernel env addr) addr []).1;
                 from_std env addr; register_listener env addr]).

(** A listener before its first event. *)
Definition fresh_listener k (rng : R) : Listener R :=
  let c := config (server_state k) in
  let rotor := state_rotator (server_state k) in
  mkListener ∅ [] CONNECTION_MIO_TOKEN_ID_MIN (timeout c) (mkLock (poisoned rotor) (rot (guarded rotor)))
    (next_port c) (server_client_addr k) (server_meas k) rng.

Lemma bind_listener_eq env rng addr k :
  bind_listener env rng addr k =
  match bind_failure env addr with Some e => Err e | None => Ok (fresh_listener k rng) end.
Proof. unfold bind_listener, bind, bind_failure. by destruct (omap id _). Qed.

Definition with_listeners k (ls : list (Listener R)) : KeServer R :=
  mkKeServer (server_state k) (listeners k ++ ls) (server_client_addr k) (server_meas k) (threads k).

Lemma bind_all_run env rng addrs k :
  match bind_all env rng addrs k with
  | (Ok _, k') => Forall (fun a => bind_failure env a = None) addrs /\
      k' = with_listeners k (replicate (length addrs) (fresh_listener k rng))
  | (Err e, k') => exists a, a ∈ addrs /\ bind_failure env a = Some e
  | (Panic _, _) => False
  end.
Proof.
  revert k. induction addrs as [|a addrs IH]; intros k; cbn [bind_all].
  - cbn. split; [done|]. unfold with_listeners. rewrite app_nil_r. by destruct k.
  - rewrite bind_get_state, bind_lift, bind_listener_eq.
    destruct (bind_failure env a) as [e|] eqn:Ha; [exists a; set_solver|]. rewrite bind_modify.
    specialize (IH (push_listener (fresh_listener k rng) k)).
    destruct (bind_all env rng addrs _) as [[u|e|p] k']; [| |done].
    + destruct IH as [Hall ->]. split; [by constructor|].
      unfold with_listeners, push_listener. cbn. by rewrite <- app_assoc.
    + destruct IH as (b & Hb & ?). exists b. set_solver.
Qed.

(** The threads of a server with [n] listeners. *)
Definition all_threads (c : KeServerConfig) (n : nat) : list Thread :=
  [RotationThread] ++ match ke_metrics_config c with Some m => [MetricsThread m] | None => [] end ++
  map ListenThread (seq 0 n).

Lemma spawn_all l k :
  fold_left (fun k i => spawn (ListenThread i) k) l k =
  mkKeServer (server_state k) (listeners k) (server_client_addr k) (server_meas k)
    (threads k ++ map ListenThread l).
Proof.
  revert k. induction l as [|i l IH]; intros k; cbn [fold_left map]; [rewrite app_nil_r; by destruct k|].
  rewrite IH. cbn. by rewrite <- app_assoc.
Qed.

Lemma start_run env rng st :
  let k := mkKeServer st [] "" [] [] in
  let addrs := ke_addrs (config st) in
  match start env rng k with
  | (Ok waits, k') => Forall (fun a => bind_failure env a = None) addrs /\
      waits = bool_decide (addrs <> []) /\
      k' = mkKeServer st (replicate (length addrs) (fresh_listener k rng)) "" []
             (all_threads (config st) (length addrs))
  | (Err e, k') => exists a, a ∈ addrs /\ bind_failure env a = Some e
  | (Panic _, _) => False
  end.
Proof.
  intros k addrs. unfold start. rewrite bind_modify, bind_get_state.
  cbn [spawn server_state threads app k]. fold addrs.
  set (k1 := mkKeServer (R := R) st [] "" [] ([RotationThread] ++
    match ke_metrics_config (config st) with Some m => [MetricsThread m] | None => [] end)).
  rewrite (M_bind_run _ _ _ tt k1) by (unfold k1, spawn_metrics; by destruct (ke_metrics_config (config st))).
  rewrite M_bind_eq.
  pose proof (bind_all_run env rng addrs k1) as Hb.
  destruct (bind_all env rng addrs k1) as [[u|e|p] k2]; [|done..].
  destruct Hb as [Hall ->]. rewrite bind_modify, bind_get_state, spawn_all. unfold with_listeners.
  cbn [server_state listeners threads app k1]. cbn. rewrite length_replicate. split; [done|]. split; [|done].
  apply bool_decide_ext. rewrite zlen_replicate. destruct addrs; cbn [length]; [split; [lia|done]|split; [done|lia]].
Qed.

(** A server that [connect] has made ready for [c]. *)
Definition connected (c : KeServerConfig) (accepts : list bytes -> bytes -> bool) (st : KeServerState) : Prop :=
  config st = c /\
  (exists s v id, state_rotator st = mkLock false s /\
     same_config (mkRotator (ke_memcached_url c) "/nts/nts-keys" 3600 2 24 (ke_cookie_key c) 0 ∅) (rot s) /\
     @latest_key_value (RotateError ME) (rot s) = Ok (id, v)) /\
  exists key, head (tls_secret_keys c) = Some key /\ accepts (tls_certs c) key = true /\
    tls_server_config st = mkTls [TLSv1_3] (tls_certs c) key [text "ntske/1"].

Lemma index_0 {E B} (l : list B) : index (E := E) l 0 = match head l with Some x => Ok x | None => Panic SliceRange end.
Proof. unfold index. rewrite bool_decide_true by done. by destruct l. Qed.

(** There is a first private key, and [rustls] takes it with the certificates. *)
Definition key_taken (accepts : list bytes -> bytes -> bool) (c : KeServerConfig) : Prop :=
  exists key, head (tls_secret_keys c) = Some key /\ accepts (tls_certs c) key = true.

(** What [KeyRotator::connect] says for [c]. *)
Definition connecting (c : KeServerConfig) (worlds : Z -> World ME) : res (RotateError ME) KeyRotator :=
  (connect "/nts/nts-keys" (ke_memcached_url c) (ke_cookie_key c) worlds 0 0).1.

Lemma ke_connect_run (c : KeServerConfig) accepts (worlds : Z -> World ME) :
  (forall i, sane_clock (worlds i)) ->
  match ke_connect (R := R) c accepts worlds with
  | Ok k => is_ok (connecting c worlds) = true /\ connected c accepts (server_state k) /\
      k = mkKeServer (server_state k) [] "" [] []
  | Err e => connecting c worlds = Err e
  | Panic _ => is_ok (connecting c worlds) = true /\ ~ key_taken accepts c
  end.
Proof.
  intros Hw. unfold ke_connect, connecting.
  pose proof (connect_spec "/nts/nts-keys" (ke_memcached_url c) (ke_cookie_key c) worlds 0 0 Hw) as Hc.
  cbv zeta in Hc. destruct (connect _ _ _ _ _ _) as [[r|e|p] s]; [| |done]; res_step; [|done].
  destruct Hc as (m & v & Hm & Hrot & Hrs & Hcfg & Hlat).
  rewrite index_0. destruct (tls_secret_keys c) as [|key keys] eqn:Hk; cbn [head]; res_step.
  { split; [done|]. intros (key & Hh & _). by rewrite Hk in Hh. }
  destruct (accepts (tls_certs c) key) eqn:Ha; res_step; cycle 1.
  { split; [done|]. intros (key' & Hh & Ht). rewrite Hk in Hh. injection Hh as <-. congruence. }
  split; [done|]. split; [|done]. split_and!; [done| |exists key; by rewrite Hk]. eexists _, v, _. by split_and!.
Qed.

(** What is there when the threads run. *)
Definition started (cenv : ConfigEnv) accepts (worlds : Z -> World ME) senv (rng : R) configfile k : Prop :=
  let st := server_state k in
  let c := config st in
  ke_parse cenv (resolve_config_filename configfile) = Ok c /\
  is_ok (connecting c worlds) = true /\ connected c accepts st /\
  ke_addrs c <> [] /\ Forall (fun a => bind_failure senv a = None) (ke_addrs c) /\
  length (listeners k) = length (ke_addrs c) /\
  Forall (fun l => l = fresh_listener k rng) (listeners k) /\
  threads k = all_threads c (length (ke_addrs c)).

Lemma ke_run_started (cenv : ConfigEnv) accepts (worlds : Z -> World ME) senv (rng : R) configfile k :
  (forall i, sane_clock (worlds i)) ->
  ke_run cenv accepts worlds senv rng configfile = Running k -> started cenv accepts worlds senv rng configfile k.
Proof.
  intros Hw. unfold ke_run, started. destruct (ke_parse cenv _) as [c|e|p] eqn:Hp; [|done..].
  pose proof (ke_connect_run c accepts worlds Hw) as Hc.
  destruct (ke_connect c accepts worlds) as [k0|e|p]; [|done..].
  destruct Hc as (Hok & (Hcfg & Hc) & ->). pose proof (start_run senv rng (server_state k0)) as Hs. cbv zeta in Hs.
  destruct (start senv rng _) as [[[]|e|p] k']; [|done..]. destruct Hs as (Hall & Hne & ->). intros [= <-].
  cbn [server_state listeners threads]. rewrite Hcfg in *. symmetry in Hne. apply bool_decide_eq_true in Hne.
  split_and!; [done|done|by split|done|done|by rewrite length_replicate| |done]. by apply Forall_replicate.
Qed.

(** C15: starting the key exchange server.  The process that [ke-server] becomes is
    waiting for its threads only when its configuration reads, memcached gave the
    keys within five tries, [rustls] took the certificates with the first private
    key, and every address, of which there is at least one, was bound.  It then has
    one listener per address with the configured port and timeout, speaks TLS 1.3 with
    the protocol [ntske/1] only, has a latest key to make cookies with, and runs the
    rotation thread, the metrics thread if asked for, and one thread per listener.  If
    a file or memcached fails, or, once [rustls] has taken the key, a socket, it exits
    with code 1; without an address it has nothing to wait for and exits with code 0;
    it panics only if the settings file cannot be read or there is no first private key
    that [rustls] takes. *)
Theorem ke_server_starts (cenv : ConfigEnv) accepts (worlds : Z -> World ME) senv (rng : R) configfile :
  (forall i, sane_clock (worlds i)) ->
  match ke_run cenv accepts worlds senv rng configfile with
  | Running k => started cenv accepts worlds senv rng configfile k
  | Exit code =>
    (code = 0 /\ exists c, ke_parse cenv (resolve_config_filename configfile) = Ok c /\
       ke_addrs c = [] /\ is_ok (connecting c worlds) = true /\ key_taken accepts c) \/
    code = 1 /\
    ((exists e, ke_parse cenv (resolve_config_filename configfile) = Err e) \/
     (exists c, ke_parse cenv (resolve_config_filename configfile) = Ok c /\
        ((exists e, connecting c worlds = Err e) \/
         is_ok (connecting c worlds) = true /\ key_taken accepts c /\
         exists a err, a ∈ ke_addrs c /\ bind_failure senv a = Some err)))
  | Crash _ =>
    (exists e, build_settings cenv (resolve_config_filename configfile) = inl e) \/
    (exists c, ke_parse cenv (resolve_config_filename configfile) = Ok c /\
       is_ok (connecting c worlds) = true /\ ~ key_taken accepts c)
  end.
Proof.
  intros Hw. destruct (ke_run _ _ _ _ _ _) as [code|p|k] eqn:Hrun; [| |by apply ke_run_started].
  - unfold ke_run in Hrun. destruct (ke_parse cenv _) as [c|e|p] eqn:Hp; [|by injection Hrun as <-; right; eauto|done].
    pose proof (ke_connect_run c accepts worlds Hw) as Hc.
    destruct (ke_connect c accepts worlds) as [k|e|p]; [|injection Hrun as <-; right; split; [done|]; right; exists c; split; [done|]; left; by exists e|done].
    destruct Hc as (Hok & (Hcfg & _ & key & Hkey & Htake & _) & Hk). rewrite Hk in Hrun.
    assert (key_taken accepts c) by by exists key. pose proof (start_run senv rng (server_state k)) as Hs. cbv zeta in Hs.
    destruct (start senv rng _) as [[[]|e|p] k']; [done| | |done]; injection Hrun as <-; rewrite Hcfg in Hs.
    { left. split; [done|]. exists c. destruct Hs as (_ & Hne & _). symmetry in Hne.
      apply bool_decide_eq_false in Hne. split_and!; [done| |done|done]. by apply dec_stable. }
    destruct Hs as (a & Ha & He). right. split; [done|]. right. exists c. split; [done|right]. split_and!; [done|done|by exists a, e].
  - unfold ke_run in Hrun. destruct (ke_parse cenv _) as [c|e|q] eqn:Hp; [|done|left].
    + right. exists c. split; [done|]. pose proof (ke_connect_run c accepts worlds Hw) as Hc.
      destruct (ke_connect c accepts worlds) as [k|e|q]; [|done|done].
      destruct Hc as (_ & _ & Hk). rewrite Hk in Hrun. pose proof (start_run senv rng (server_state k)) as Hs. cbv zeta in Hs.
      by destruct (start senv rng _) as [[[]|e|q] k'].
    + destruct (build_settings cenv _) as [e|s] eqn:Hb; [eauto|].
      pose proof (ke_parse_body_no_panic _ _ _ Hb) as Hn. by rewrite Hp in Hn.
Qed.
End Starting.

(** ** The threads of the running process *)
Section Process.
Context {P : Profile} {A : Aead} {H : Hmac} {R ME : Type} {G : Rng R} {I : IpText}.
Implicit Types (k : KeServer R) (l : Listener R).

Definition rotor_of k : RwLock State := state_rotator (server_state k).
Definition set_rotor (rotor : RwLock State) k : KeServer R :=
  mkKeServer (mkKeServerState (config (server_state k)) rotor (tls_server_config (server_state k)))
    (listeners k) (server_client_addr k) (server_meas k) (threads k).

(** A listener as its thread sees it, with the current keys and globals. *)
Definition installed k l : Listener R :=
  mkListener (connections l) (deadlines l) (next_conn_token_id l) (config_timeout l)
    (mkLock (poisoned (rotor_of k)) (rot (guarded (rotor_of k)))) (l_port l)
    (server_client_addr k) (server_meas k) (l_rng l).

(** The process after a step of its [i]th listener left it as [l]. *)
Definition store k (i : nat) l : KeServer R :=
  let rotor := mkLock (poisoned (l_rotator l))
    (mkState (guarded (l_rotator l)) (rotations (guarded (rotor_of k))) (failures (guarded (rotor_of k)))) in
  mkKeServer (mkKeServerState (config (server_state k)) rotor (tls_server_config (server_state k)))
    (<[i := l]> (listeners k)) (l_client_addr l) (l_meas l) (threads k).

(** One step of one of the threads, when [clock] are the times that the listeners'
    clock can show.  A listener's thread that panics, or whose poll fails, is over;
    the others go on. *)
Inductive ke_step (clock : SystemTime -> Prop) : KeServer R * gset nat -> KeServer R * gset nat -> Prop :=
  | ke_step_rotate k over (w : World ME) :
      sane_clock w ->
      ke_step clock (k, over) (set_rotor (inner w (rotor_of k)).2 k, over)
  | ke_step_event k over i l env ev :
      listeners k !! i = Some l -> i ∉ over -> clock (accept_now env) ->
      ke_step clock (k, over)
        (store k i (handle_event env ev (installed k l)).2,
         if is_panic (handle_event env ev (installed k l)).1 then {[i]} ∪ over else over)
  | ke_step_poll_error k over i : ke_step clock (k, over) (k, {[i]} ∪ over).

(** The process as it should be: the lock of the keys is usable and guards a
    rotator configured as [r0], and every listener still has the configured port
    and timeout, with its connections filed under valid tokens, registered, and with
    deadlines unless one could not be represented. *)
Definition ke_healthy clock (c : KeServerConfig) (r0 : KeyRotator) (n : nat) k : Prop :=
  config (server_state k) = c /\ length (listeners k) = n /\
  poisoned (rotor_of k) = false /\ same_config r0 (rot (guarded (rotor_of k))) /\
  forall i l, listeners k !! i = Some l -> l_port l = next_port c /\ listener_wf (timeout c) clock l.

Lemma ke_healthy_step clock c r0 n y y' :
  duration r0 = 3600 -> number_of_forward_periods r0 = 2 -> number_of_backward_periods r0 = 24 ->
  ke_step clock y y' -> ke_healthy clock c r0 n y.1 -> ke_healthy clock c r0 n y'.1.
Proof.
  intros Hd Hf Hb Hst (Hc & Hn & Hp & Hr & Hl).
  destruct Hst as [k over w Hw|k over i l env ev Hi Ho Hclk|k over i]; cbn [fst] in *; [| |done].
  - assert (sane w (rot (guarded (rotor_of k)))) as Hs.
    { eapply sane_config; [exact Hr|]. by apply sane_clock_sane. }
    destruct (rotor_of k) as [po s] eqn:Hrot. cbn in *. subst po.
    rewrite inner_sane by done. unfold ke_healthy, rotor_of. cbn.
    split_and!; [done|done|done| |done]. eapply same_config_trans; [done|]. by apply rotate_config.
  - destruct (Hl i l Hi) as [Hport Hinv].
    pose proof (frames_handle_event env ev (installed k l)) as Hfr.
    assert (listener_wf (timeout c) clock (handle_event env ev (installed k l)).2) as Hinv'.
    { apply keeps_handle_event; [done| |exact Hinv]. eauto. }
    destruct (handle_event env ev (installed k l)) as [o l']. cbn [snd fst] in *.
    injection Hfr as Hfr1 Hfr2 Hfr3. unfold ke_healthy, store, rotor_of. cbn [server_state config listeners state_rotator].
    rewrite Hfr1. cbn. rewrite length_insert. split_and!; [done|done|done|done|].
    intros j l0 [(<- & <- & _)|[_ Hj]]%list_lookup_insert_Some; [|by apply (Hl j)].
    by rewrite Hfr2.
Qed.

(** C16: the key exchange process stays healthy.  From a server that [ke-server]
    started, through any interleaving of key rotations at sane times and of events of
    its listeners at any, including listeners whose thread panics or whose poll
    fails, the lock of the keys is never poisoned and its rotator keeps the configured
    memcached server and master key; and every listener keeps the configured port and
    timeout, with its connections filed under their own valid tokens and registered
    with the poll, the heap of deadlines ordered, and each connection with a deadline
    unless, at some time that the clock can show, the timeout is too large for one to
    be represented. *)
Theorem ke_process_healthy (cenv : ConfigEnv) accepts (worlds : Z -> World ME) senv (rng : R) configfile k clock y :
  (forall i, sane_clock (worlds i)) ->
  ke_run cenv accepts worlds senv rng configfile = Running k -> rtc (ke_step clock) (k, ∅) y ->
  let c := config (server_state k) in
  ke_healthy clock c (mkRotator (ke_memcached_url c) "/nts/nts-keys" 3600 2 24 (ke_cookie_key c) 0 ∅)
    (length (ke_addrs c)) y.1.
Proof.
  intros Hw Hrun Hsteps c. destruct (ke_run_started _ _ _ _ _ _ _ Hw Hrun) as
    (Hp & _ & (_ & (s & v & id & Hrot & Hcfg & _) & _) & _ & _ & Hlen & Hfresh & _). fold c in Hp, Hcfg, Hlen.
  match goal with |- ke_healthy _ _ ?r _ _ => set (r0 := r) in * end.
  assert (ke_healthy clock c r0 (length (ke_addrs c)) k) as Hh.
  { unfold ke_healthy, rotor_of. rewrite Hrot. split_and!; [done..|].
    intros i l Hl. rewrite Forall_lookup in Hfresh. rewrite (Hfresh i l Hl).
    split; [done|]. split_and!; [done|done| |constructor].
    intros t e Ht. cbn in Ht. by rewrite lookup_empty in Ht. }
  change k with (k, ∅ : gset nat).1 in Hh. induction Hsteps as [|y1 y2 y3 Hst _ IH]; [done|].
  apply IH. by apply (ke_healthy_step clock c r0 _ y1 y2).
Qed.
End Process.

(** ** A concrete process: two addresses, no metrics *)
Module KeStartExample.
Import Toy RotatorExample.

Definition settings : Settings := mkSettings
  (fun k => if String.eqb k "memc_url" then inr "memcache://localhost"
            else if String.eqb k "tls_cert_file" then inr "tls.crt"
            else if String.eqb k "tls_key_file" then inr "tls.key"
            else if String.eqb k "cookie_key_file" then inr "cookie.key" else inl (NotFound k))
  (fun k => if String.eqb k "next_port" then inr 123 else inl (NotFound k))
  (fun k => if String.eqb k "addr" then inr ["127.0.0.1:4460"; "[::1]:4460"] else inl (NotFound k)).
Definition cenv : ConfigEnv := mkConfigEnv (fun _ => inr settings) (fun _ => inr 3)
  (fun _ => inr [x01; x02]) (fun _ => Some [[x0a]]) (fun _ => Some [[x0b]; [x0c]]).
Definition accepts (certs : list bytes) (key : bytes) : bool := bool_decide (key = [x0b]).
Definition quiet (addr : SocketAddr) : Kernel :=
  mkKernel true (fun _ _ => inr 5) (fun _ _ => 0) (fun _ => IoError Other "").
Definition senv : StartEnv := mkStartEnv (fun _ => None) quiet (fun _ => None) (fun _ => None).
Abbreviation outcome := (ke_run (P := Debug) (H := toy_hmac) cenv accepts (fun _ => up 100) senv (0 : Z) None).
Definition process : KeServer Z :=
  match outcome with
  | Running k => k
  | _ => mkKeServer (mkKeServerState (ke_new 0 [] "" None 0) (mkLock true fresh) (mkTls [] [] [] [])) [] "" [] []
  end.

Lemma outcome_running : outcome = Running process.
Proof. vm_compute. reflexivity. Qed.
Lemma clock_sane h : 0 <= h <= 1000 -> sane_clock (up h).
Proof. intros Hh. unfold sane_clock, up, at_hour, as_secs, NANOS. cbn [now]. split; [lia|div_lia]. Qed.
End KeStartExample.

Section Witnesses.
Import Toy RotatorExample KeStartExample ListenerExample.

Lemma ke_server_starts_witness :
  started (P := Debug) cenv accepts (fun _ => up 100) senv (0 : Z) None process /\
  threads process = [RotationThread; ListenThread 0; ListenThread 1].
Proof.
  split; [|vm_compute; reflexivity].
  pose proof (ke_server_starts (P := Debug) cenv accepts (fun _ => up 100) senv (0 : Z) None
    (fun _ => clock_sane 100 ltac:(lia))) as Hs.
  rewrite outcome_running in Hs. exact Hs.
Defined.

(** A rotation, and a client that connects to the second listener. *)
Lemma ke_process_healthy_witness :
  let shown now := now = clock 0 + 1 in
  exists y, rtc (ke_step (P := Debug) (A := toy_aead) (H := toy_hmac) (ME := unit) shown) (process, ∅) y /\
    map (fun l => size (connections l)) (listeners y.1) = [0; 1]%nat /\
    ke_healthy shown (config (server_state process))
      (mkRotator "memcache://localhost" "/nts/nts-keys" 3600 2 24 [x01; x02] 0 ∅) 2 y.1.
Proof.
  intros shown. set (k1 := set_rotor (inner (P := Debug) (up 101) (rotor_of process)).2 process).
  destruct (listeners k1 !! 1%nat) as [l|] eqn:Hl; [|vm_compute in Hl; discriminate Hl].
  set (done := handle_event (P := Debug) (A := toy_aead) (at_time (clock 0)) ListenerEvent (installed k1 l)).
  exists (store k1 1 done.2, if is_panic done.1 then {[1%nat]} ∪ ∅ else ∅).
  assert (rtc (ke_step (P := Debug) (A := toy_aead) (H := toy_hmac) (ME := unit) shown) (process, ∅)
    (store k1 1 done.2, if is_panic done.1 then {[1%nat]} ∪ ∅ else ∅)) as Hst.
  { eapply rtc_l; [apply (ke_step_rotate _ process ∅ (up 101)), clock_sane; lia|].
    eapply rtc_l; [eapply (ke_step_event _ k1 ∅ 1 l (at_time (clock 0)) ListenerEvent)|apply rtc_refl].
    - exact Hl.
    - apply not_elem_of_empty.
    - reflexivity. }
  split; [exact Hst|]. split; [vm_compute in Hl; injection Hl as <-; vm_compute; reflexivity|].
  exact (ke_process_healthy (P := Debug) (A := toy_aead) cenv accepts (fun _ => up 100) senv (0 : Z) None process shown _
    (fun _ => clock_sane 100 ltac:(lia)) outcome_running Hst).
Defined.
End Witnesses.
