(* ===== verification/NtpStart.v ===== *)
(** * The NTP server process

    The rest of [ntp/server/server.rs], [start_ntp_server], and
    [sub_command/ntp_server.rs].  Unlike the key exchange server, which binds all
    its addresses before it starts a thread, this one starts each address's thread
    as soon as its socket is bound. *)

From stdpp Require Import prelude list numbers strings gmap.
From Stdlib Require Import Strings.Byte.
From S2P Require Import Prelude Words Crypto Time NtpProtocol Cookie KeyRotator NtpServer ServerLoop.
From S2P Require Import IpAddr Config NtpConfig Sockets.

Open Scope Z_scope.

(** The threads of the process; the refreshing one has its upstream server, a
    serving one its address and whether that is an IPv4 address. *)
Inductive NtpThread :=
  | Rotating
  | Refreshing (upstream : SocketAddr)
  | Metering (m : MetricsConfig)
  | Serving (addr : SocketAddr) (use_ipv4 : bool).

(** The sockets: that of the upstream thread, with its timeout, and the kernel for
    those to listen on. *)
Record NtpStartEnv := mkNtpStartEnv {
  start_time : SystemTime;
  upstream_bind : io_error + Z;
  upstream_timeout : option io_error;
  ntp_kernel : SocketAddr -> Kernel;
}.

Section Start.
Context {P : Profile} {H : Hmac} {R ME : Type}.

(** The process: its shared state and the threads started so far. *)
Record NtpProcess := mkNtpProcess { process : Process R; started : list NtpThread }.
Definition spawn (t : NtpThread) (y : NtpProcess) : NtpProcess := mkNtpProcess (process y) (started y ++ [t]).

Abbreviation MN := (M NtpProcess io_error).

(** [use_ipv4] is set and then cleared for IPv6 addresses. *)
Definition is_v4 (addr : SocketAddr) : bool := match sock_ip addr with V6 _ => false | V4 _ => true end.

(** [for addr in config.addrs()]. *)
Fixpoint serve_all (env : NtpStartEnv) (addrs : list SocketAddr) : MN unit :=
  match addrs with
  | [] => mret tt
  | addr :: addrs =>
    socket ← lift (udp_listen (ntp_kernel env addr) addr []).1;
    _ ← modify (spawn (Serving addr (is_v4 addr)));
    serve_all env addrs
  end.

(** The match on the upstream address; without one the state is adjusted, which
    [initial_servstate] has done. *)
Definition start_upstream (env : NtpStartEnv) (upstream : option SocketAddr) : MN unit :=
  match upstream with
  | Some upstream_addr =>
    socket ← lift (result (upstream_bind env));
    _ ← lift (match upstream_timeout env with Some e => Err e | None => Ok tt end);
    modify (spawn (Refreshing upstream_addr))
  | None => mret tt
  end.

Definition start_metrics (m : option MetricsConfig) : MN unit :=
  match m with Some metrics_config => modify (spawn (Metering metrics_config)) | None => mret tt end.

Definition start_threads (env : NtpStartEnv) (config : NtpServerConfig) : MN unit :=
  _ ← modify (spawn Rotating);
  _ ← start_upstream env (upstream_addr config);
  _ ← start_metrics (metrics_config config);
  serve_all env (addrs config).

(** The state that the threads share at first. *)
Definition first_state (env : NtpStartEnv) (config : NtpServerConfig) (keys : KeyRotator) (rng : R) : Srv R :=
  mkSrv (mkLock false keys)
    (mkLock false (initial_servstate (start_time env)
       ((fun u => untext (show_sock u)) <$> upstream_addr config)))
    (fun _ => 0) "" [] [] rng [] [].

Definition is_serving (t : NtpThread) : bool := match t with Serving _ _ => true | _ => false end.

(** [start_ntp_server], up to the point where it waits for the serving threads, with
    whether there is one, for the wait group is otherwise empty and [wg.wait()]
    returns at once; an error leaves behind the threads started before it. *)
Definition start_ntp_server (env : NtpStartEnv) (worlds : Z -> World ME) (rng : R) (config : NtpServerConfig) :
    res (io_error * NtpProcess) (NtpProcess * bool) :=
  let '(r, s) := connect "/nts/nts-keys" (memcached_url config) (cookie_key config) worlds 0 0 in
  key_rotator ← unwrap_res r;
  let y := mkNtpProcess (mkProcess (first_state env config key_rotator rng) (rotations s) (failures s)) [] in
  match start_threads env config y with
  | (Ok _, y) => Ok (y, existsb is_serving (started y))
  | (Err e, y) => Err (e, y)
  | (Panic p, _) => Panic p
  end.

Inductive NtpOutcome := NtpExit (code : Z) | NtpCrash (p : panic) | NtpRunning (y : NtpProcess).

Definition ntp_resolve_config_filename (configfile : option string) : string :=
  match configfile with
  | Some filename => filename
  | None => "/etc/cfnts/ntp-server.config"
  end.

Definition ntp_run (cenv : ConfigEnv) (env : NtpStartEnv) (worlds : Z -> World ME) (rng : R)
    (configfile : option string) : NtpOutcome :=
  match parse cenv (ntp_resolve_config_filename configfile) with
  | Err _ => NtpExit 1
  | Panic p => NtpCrash p
  | Ok config =>
    match start_ntp_server env worlds rng config with
    | Ok (y, true) => NtpRunning y
    | Ok (_, false) => NtpExit 0
    | Err _ => NtpExit 1
    | Panic p => NtpCrash p
    end
  end.
End Start.
Arguments NtpProcess : clear implicits.
Arguments NtpOutcome : clear implicits.

(** ** Starting *)
Section Starting.
Context {P : Profile} {A : Aead} {H : Hmac} {R ME : Type} {G : Rng R}.
Implicit Types (y : NtpProcess R) (env : NtpStartEnv) (z : Process R).

(** Why a socket cannot be had: that of an address, or that of the upstream thread. *)
Definition listen_failure env (addr : SocketAddr) : option io_error :=
  match (udp_listen (ntp_kernel env addr) addr []).1 with Err e => Some e | _ => None end.
Definition upstream_failure env (c : NtpServerConfig) : option io_error :=
  match upstream_addr c, upstream_bind env with
  | None, _ => None
  | Some _, inl e => Some e
  | Some _, inr _ => upstream_timeout env
  end.

Definition with_threads y (l : list NtpThread) : NtpProcess R := mkNtpProcess (process y) (started y ++ l).
Definition serving (addrs : list SocketAddr) : list NtpThread := map (fun a => Serving a (is_v4 a)) addrs.

Lemma with_threads_nil y : with_threads y [] = y.
Proof. unfold with_threads. rewrite app_nil_r. by destruct y. Qed.

Lemma serve_all_run env l y :
  match serve_all env l y with
  | (Ok _, y') => Forall (fun a => listen_failure env a = None) l /\ y' = with_threads y (serving l)
  | (Err e, y') => exists l1 a l2, l = l1 ++ a :: l2 /\ listen_failure env a = Some e /\
      y' = with_threads y (serving l1)
  | (Panic _, _) => False
  end.
Proof.
  revert y. induction l as [|a l IH]; intros y; cbn [serve_all].
  - cbn. split; [done|]. by rewrite with_threads_nil.
  - rewrite bind_lift. pose proof (udp_listen_performed (ntp_kernel env a) a) as Hu.
    destruct (udp_listen (ntp_kernel env a) a []) as [[fd|e|p] tr] eqn:Ha; cbn [fst]; [| |done].
    + rewrite bind_modify. specialize (IH (spawn (Serving a (is_v4 a)) y)).
      assert (listen_failure env a = None) by (unfold listen_failure; by rewrite Ha).
      assert (forall t, with_threads (spawn (Serving a (is_v4 a)) y) t = with_threads y (Serving a (is_v4 a) :: t)) as Hw
        by (intros t; unfold with_threads; cbn; by rewrite <- app_assoc).
      destruct (serve_all env l _) as [[u|e|p] y']; [| |done].
      * destruct IH as [Hall ->]. split; [by constructor|]. by rewrite Hw.
      * destruct IH as (l1 & b & l2 & -> & Hb & ->). exists (a :: l1), b, l2. by rewrite Hw.
    + exists [], a, l. split; [done|]. unfold listen_failure. rewrite Ha. by rewrite with_threads_nil.
Qed.

(** The threads before those that serve. *)
Definition helpers (c : NtpServerConfig) : list NtpThread :=
  [Rotating] ++ match upstream_addr c with Some u => [Refreshing u] | None => [] end ++
  match metrics_config c with Some m => [Metering m] | None => [] end.

Lemma start_threads_run env c (s : Process R) :
  match start_threads env c (mkNtpProcess s []) with
  | (Ok _, y') => upstream_failure env c = None /\ Forall (fun a => listen_failure env a = None) (addrs c) /\
      y' = mkNtpProcess s (helpers c ++ serving (addrs c))
  | (Err e, y') => upstream_failure env c = Some e /\ started y' = [Rotating] \/
      exists l1 a l2, addrs c = l1 ++ a :: l2 /\ listen_failure env a = Some e /\
        started y' = helpers c ++ serving l1
  | (Panic _, _) => False
  end.
Proof.
  unfold start_threads. rewrite bind_modify, M_bind_eq.
  change (spawn Rotating (mkNtpProcess s [])) with (mkNtpProcess (R := R) s [Rotating]).
  set (y1 := mkNtpProcess (R := R) s ([Rotating] ++ match upstream_addr c with Some u => [Refreshing u] | None => [] end)).
  assert (match upstream_failure env c with
          | Some e => start_upstream env (upstream_addr c) (mkNtpProcess (R := R) s [Rotating]) = (Err e, mkNtpProcess s [Rotating])
          | None => start_upstream env (upstream_addr c) (mkNtpProcess (R := R) s [Rotating]) = (Ok tt, y1)
          end) as Hu.
  { unfold upstream_failure, start_upstream, y1. destruct (upstream_addr c) as [u|]; [|done].
    rewrite bind_lift. destruct (upstream_bind env); cbn [result]; [done|]. rewrite bind_lift.
    by destruct (upstream_timeout env). }
  destruct (upstream_failure env c) as [e|]; rewrite Hu; [by left|].
  set (y2 := mkNtpProcess (R := R) s (helpers c)).
  rewrite (M_bind_run _ _ _ tt y2).
  - pose proof (serve_all_run env (addrs c) y2) as Hs. destruct (serve_all env (addrs c) y2) as [[u|e|p] y']; [| |done].
    + by destruct Hs as [? ->].
    + destruct Hs as (l1 & a & l2 & Hl & Ha & ->). right. by exists l1, a, l2.
  - unfold y1, y2, helpers, start_metrics. destruct (metrics_config c); cbn; [|by rewrite app_nil_r].
    unfold modify, spawn. cbn. by destruct (upstream_addr c).
Qed.

Lemma waits_iff c : existsb is_serving (helpers c ++ serving (addrs c)) = bool_decide (addrs c <> []).
Proof.
  unfold helpers. rewrite !existsb_app. cbn [existsb is_serving orb].
  replace (existsb is_serving (match upstream_addr c with Some u => _ | None => _ end)) with false
    by by destruct (upstream_addr c).
  replace (existsb is_serving (match metrics_config c with Some u => _ | None => _ end)) with false
    by by destruct (metrics_config c).
  by destruct (addrs c).
Qed.

(** What the configuration makes of the rotator. *)
Definition configured (c : NtpServerConfig) : KeyRotator :=
  mkRotator (memcached_url c) "/nts/nts-keys" 3600 2 24 (cookie_key c) 0 ∅.

(** C14: starting the NTP server.  The process that [ntp-server] becomes serves only
    when its configuration reads, memcached gave the keys, and every socket could be
    had, for at least one address; it then runs the rotation thread, the upstream and metrics threads if asked
    for, and one serving thread per address, of its family; a latest key is there,
    and through any interleaving of the threads the locks stay usable, the announced
    state in range and the keys those of the configured memcached server and master
    key.  If the configuration is refused or a socket fails it exits with code 1, and
    if it has no address to serve it exits with code 0; it panics only if the settings file cannot be read or memcached fails five times. *)
Theorem ntp_server_starts (cenv : ConfigEnv) env (worlds : Z -> World ME) (rng : R) configfile :
  (forall i, sane_clock (worlds i)) ->
  match ntp_run cenv env worlds rng configfile with
  | NtpRunning y => exists c, parse cenv (ntp_resolve_config_filename configfile) = Ok c /\
      addrs c <> [] /\
      upstream_failure env c = None /\ Forall (fun a => listen_failure env a = None) (addrs c) /\
      started y = helpers c ++ serving (addrs c) /\
      (exists id v, @latest_key_value (RotateError ME) (guarded (keys (srv (process y)))) = Ok (id, v)) /\
      forall z, rtc (thread_step (ME := ME)) (process y) z -> healthy (configured c) z
  | NtpExit code =>
      (code = 0 /\ exists c r, parse cenv (ntp_resolve_config_filename configfile) = Ok c /\ addrs c = [] /\
         (connect "/nts/nts-keys" (memcached_url c) (cookie_key c) worlds 0 0).1 = Ok r) \/
      code = 1 /\
      ((exists e, parse cenv (ntp_resolve_config_filename configfile) = Err e) \/
       exists c e, parse cenv (ntp_resolve_config_filename configfile) = Ok c /\
         (upstream_failure env c = Some e \/ exists a, a ∈ addrs c /\ listen_failure env a = Some e))
  | NtpCrash _ =>
      (exists e, build_settings cenv (ntp_resolve_config_filename configfile) = inl e) \/
      exists c e, parse cenv (ntp_resolve_config_filename configfile) = Ok c /\
        (connect "/nts/nts-keys" (memcached_url c) (cookie_key c) worlds 0 0).1 = Err e
  end.
Proof.
  intros Hw. unfold ntp_run. destruct (parse cenv _) as [c|e|p] eqn:Hp; [|by right; split; eauto|]; cycle 1.
  { left. destruct (build_settings cenv _) as [e|s] eqn:Hb; [eauto|].
    pose proof (parse_body_no_panic _ _ _ Hb) as Hn. by rewrite Hp in Hn. }
  unfold start_ntp_server.
  pose proof (connect_spec "/nts/nts-keys" (memcached_url c) (cookie_key c) worlds 0 0 Hw) as Hc. cbv zeta in Hc.
  destruct (connect _ _ _ _ _ _) as [[r|e|p] s] eqn:Hconn; [| |done]; cbn [unwrap_res]; res_step; cycle 1.
  { right. exists c, e. by rewrite Hconn. }
  destruct Hc as (m & v & _ & _ & _ & Hcfg & Hlat).
  pose proof (start_threads_run env c (mkProcess (first_state env c r rng) (rotations s) (failures s))) as Hs.
  destruct (start_threads env c _) as [[u|e|p] y]; [| |done].
  - destruct Hs as (Hu & Hl & ->). cbn [started]. rewrite waits_iff. case_bool_decide as Hne; cycle 1.
    { left. split; [done|]. exists c, r. by rewrite Hconn. }
    exists c. cbn [started process]. split_and!; [done|done|done|done|done|by eauto|].
    intros z Hst. eapply healthy_reachable; [|exact Hst].
    split_and!; [done|done| |exact Hcfg]. cbn. by destruct (upstream_addr c).
  - right. split; [done|]. right. exists c, e. split; [done|].
    destruct Hs as [[? _]|(l1 & a & l2 & -> & Ha & _)]; [by left|right; exists a; set_solver].
Qed.
End Starting.

(** ** A concrete process: the sample configuration *)
Section Witnesses.
Import Toy RotatorExample.

Definition calm : NtpStartEnv :=
  mkNtpStartEnv (at_hour 100) (inr 4) None
    (fun _ => mkKernel true (fun _ _ => inr 5) (fun _ _ => 0) (fun _ => IoError Other "")).
Abbreviation sample_run :=
  (ntp_run (P := Debug) (H := toy_hmac) (sample_env (inr 3)) calm (fun _ => up 100) (0 : Z) None).
Definition sample_process : NtpProcess Z :=
  match sample_run with
  | NtpRunning y => y
  | _ => mkNtpProcess (mkProcess (first_state calm sample (rot fresh) 0) 0 0) []
  end.
Lemma sample_running : sample_run = NtpRunning sample_process.
Proof. vm_compute. reflexivity. Qed.

Lemma ntp_server_starts_witness :
  exists c, parse (sample_env (inr 3)) "/etc/cfnts/ntp-server.config" = Ok c /\
    started sample_process = helpers c ++ serving (addrs c) /\
    (forall z, rtc (thread_step (P := Debug) (A := toy_aead) (ME := unit)) (process sample_process) z ->
       healthy (configured c) z).
Proof.
  pose proof (ntp_server_starts (P := Debug) (A := toy_aead) (sample_env (inr 3)) calm (fun _ => up 100) (0 : Z) None) as Hs.
  rewrite sample_running in Hs.
  destruct Hs as (c & Hp & _ & _ & _ & Ht & _ & Hh).
  { intros _. unfold sane_clock, up, at_hour, as_secs, NANOS. cbn [now]. split; [lia|div_lia]. }
  exists c. split_and!; [exact Hp|exact Ht|exact Hh].
Defined.
End Witnesses.
