(* ===== verification/Metrics.v ===== *)
(** * The metrics responder

    [metrics.rs]: a TCP server that answers every request, once it has been read up
    to its empty line, with the text of the Prometheus registry.  A connection is
    what arrives on it and how that ends, and what the kernel makes of the one
    write; the registry's encoder is a parameter. *)

From stdpp Require Import prelude list numbers strings.
From Stdlib Require Import Strings.Byte.
From S2P Require Import Prelude Words Config.

Open Scope Z_scope.

(** ** UTF-8, as [str::from_utf8] accepts it *)
Definition between (lo hi : Z) (b : byte) : bool := bool_decide (lo <= byte_val b) && bool_decide (byte_val b <= hi).
Definition cont (b : byte) : bool := between 0x80 0xbf b.

Fixpoint utf8 (s : bytes) : bool :=
  match s with
  | [] => true
  | b :: s =>
    if between 0 0x7f b then utf8 s
    else match s with
    | [] => false
    | c :: s =>
      if between 0xc2 0xdf b then cont c && utf8 s
      else match s with
      | [] => false
      | d :: s =>
        if between 0xe0 0xe0 b then between 0xa0 0xbf c && cont d && utf8 s
        else if between 0xed 0xed b then between 0x80 0x9f c && cont d && utf8 s
        else if between 0xe1 0xef b then cont c && cont d && utf8 s
        else match s with
        | [] => false
        | e :: s =>
          if between 0xf0 0xf0 b then between 0x90 0xbf c && cont d && cont e && utf8 s
          else if between 0xf4 0xf4 b then between 0x80 0x8f c && cont d && cont e && utf8 s
          else between 0xf1 0xf3 b && cont c && cont d && cont e && utf8 s
        end
      end
    end
  end.

(** ** Reading lines *)

(** What is still to come on a connection: bytes, and then the end of the stream, an
    error, or nothing at all, for ever: no timeout is set on the accepted sockets. *)
Inductive StreamEnd := Eof | ReadError (e : io_error) | Silence.
Record Incoming := mkIncoming { bytes_left : bytes; then_end : StreamEnd }.

(** Up to and including the first line feed; [None] when there is none. *)
Fixpoint split_line (s : bytes) : option (bytes * bytes) :=
  match s with
  | [] => None
  | b :: s =>
    if bool_decide (b = x0a) then Some ([b], s)
    else '(l, r) ← split_line s; Some (b :: l, r)
  end.

Definition invalid_utf8 : io_error := IoError InvalidData "stream did not contain valid UTF-8".

(** A call that blocks may never return: [None]. *)
Definition blocking (S A : Type) : Type := S -> option (res io_error A) * S.

(** [BufRead::read_line] into an empty string: the line read. *)
Definition read_line : blocking Incoming bytes := fun i =>
  let deliver l rest := (Some (if utf8 l then Ok l else Err invalid_utf8), rest) in
  match split_line (bytes_left i) with
  | Some (line, rest) => deliver line (mkIncoming rest (then_end i))
  | None =>
    match then_end i with
    | Eof => deliver (bytes_left i) (mkIncoming [] Eof)
    | ReadError e => (Some (Err e), mkIncoming [] (ReadError e))
    | Silence => (None, mkIncoming [] Silence)
    end
  end.

(** ** One connection *)
Inductive Action := Wrote (b : bytes) | ShutdownBoth | ShutdownWrite.
Record Connection := mkConnection { incoming : Incoming; actions : list Action }.
Definition act (a : Action) (c : Connection) : Connection := mkConnection (incoming c) (actions c ++ [a]).
Definition crlf : bytes := [x0d; x0a].

(** [while !done].  Every line but the last takes at least one byte. *)
Fixpoint wait_loop (fuel : nat) : blocking Connection unit := fun c =>
  match fuel with
  | O => (Some (Panic OutOfFuel), c)
  | S fuel =>
    let '(res, i) := read_line (incoming c) in
    let c := mkConnection i (actions c) in
    match res with
    | None => (None, c)
    | Some (Err e) => (Some (Err e), act ShutdownBoth c)
    | Some (Panic p) => (Some (Panic p), c)
    | Some (Ok req_line) =>
      if bool_decide (zlen req_line = 0) || bool_decide (req_line = crlf) then (Some (Ok tt), c)
      else wait_loop fuel c
    end
  end.

Definition wait_for_req_or_eof : blocking Connection unit := fun c =>
  wait_loop (S (length (bytes_left (incoming c)))) c.

Definition http_header : bytes :=
  text "HTTP/1.1 200 OK" ++ crlf ++ text "Content-Type: text/plain; version=0.0.4" ++ crlf ++ crlf.

(** [encoded] is the registry's text, or [None] when the encoder fails. *)
Definition scrape_result {E} (encoded : option bytes) : res E bytes :=
  buffer ← unwrap encoded;
  if utf8 buffer then Ok (http_header ++ buffer) else Panic UnwrapFailed.

(** What one [write] comes to: the kernel takes the first [n] bytes; it refuses; or
    it takes [n] bytes and waits for ever for a peer that reads no more. *)
Inductive Written := Takes (n : Z) | Refuses (e : io_error) | Stalls (n : Z).

Definition serve_metrics (encoded : option bytes) (w : Written) : blocking Connection unit := fun c =>
  let '(res, c) := wait_for_req_or_eof c in
  match res with
  | None => (None, c)
  | Some (Err e) => (Some (Err e), c)
  | Some (Panic p) => (Some (Panic p), c)
  | Some (Ok _) =>
    match scrape_result encoded with
    | Ok answer =>
      let wrote n := act (Wrote (take (Z.to_nat n) answer)) c in
      match w with
      | Takes n => (Some (Ok tt), act ShutdownWrite (wrote n))
      | Refuses _ => (Some (Ok tt), act ShutdownWrite c)
      | Stalls n => (None, wrote n)
      end
    | Err e => (Some (Err e), c)
    | Panic p => (Some (Panic p), c)
    end
  end.

(** ** The server

    Every connection is handed to a thread of its own, and the first [accept] that
    fails ends the server with its error.  [incoming] never ends, so that [None]
    stands for a server that goes on accepting. *)
Fixpoint accept_all {C} (streams : list (io_error + C)) (spawned : list C) : option io_error * list C :=
  match streams with
  | [] => (None, spawned)
  | inr conn :: streams => accept_all streams (spawned ++ [conn])
  | inl err :: _ => (Some err, spawned)
  end.

Definition run_metrics {C} (bound : option io_error) (streams : list (io_error + C)) : option io_error * list C :=
  match bound with
  | Some e => (Some e, [])
  | None => accept_all streams []
  end.

(** ** What a request is *)
Definition line (l : bytes) : Prop := exists l', l = l' ++ [x0a] /\ x0a ∉ l'.

(** [request s e rest]: of a stream that holds [s] and then goes on as [e], a request
    is read and [rest] is left: text lines up to the first empty one, or up to the
    end of the stream. *)
Inductive request : bytes -> StreamEnd -> bytes -> Prop :=
  | request_end e rest : request (crlf ++ rest) e rest
  | request_line l s e rest :
      line l -> utf8 l = true -> l <> crlf -> request s e rest -> request (l ++ s) e rest
  | request_eof s : x0a ∉ s -> utf8 s = true -> request s Eof [].

(** Text lines of which none is empty, and the beginning of another. *)
Inductive unfinished : bytes -> Prop :=
  | unfinished_rest s : x0a ∉ s -> unfinished s
  | unfinished_line l s : line l -> utf8 l = true -> l <> crlf -> unfinished s -> unfinished (l ++ s).

(** A request can be read; a peer began one and went silent. *)
Definition readable (i : Incoming) : Prop := exists rest, request (bytes_left i) (then_end i) rest.
Definition silent (i : Incoming) : Prop := then_end i = Silence /\ unfinished (bytes_left i).

Lemma split_line_Some s l r : split_line s = Some (l, r) -> s = l ++ r /\ line l.
Proof.
  revert l r. induction s as [|b s IH]; intros l r; cbn [split_line]; [done|]. case_bool_decide as Hb.
  - intros [= <- <-]. subst b. split; [done|]. exists []. split; [done|apply not_elem_of_nil].
  - destruct (split_line s) as [[l0 r0]|]; [|done]. cbn. intros [= <- <-].
    destruct (IH l0 r0 eq_refl) as [-> (l' & -> & Hl')]. split; [done|]. exists (b :: l').
    split; [done|]. rewrite elem_of_cons. naive_solver.
Qed.
Lemma split_line_None s : split_line s = None -> x0a ∉ s.
Proof.
  induction s as [|b s IH]; cbn [split_line]; [intros _; apply not_elem_of_nil|]. case_bool_decide; [done|].
  destruct (split_line s) as [[]|]; [done|]. intros _. rewrite elem_of_cons. naive_solver.
Qed.
Lemma split_line_line l s : line l -> split_line (l ++ s) = Some (l, s).
Proof.
  intros (l' & -> & Hl'). induction l' as [|b l' IH]; cbn [app split_line]; [by rewrite bool_decide_true|].
  rewrite elem_of_cons in Hl'. rewrite bool_decide_false by naive_solver. by rewrite IH by naive_solver.
Qed.
Lemma line_crlf : line crlf.
Proof. exists [x0d]. split; [done|]. rewrite list_elem_of_singleton. done. Qed.
Lemma line_newline l s : line l -> x0a ∈ l ++ s.
Proof. intros (l' & -> & _). set_solver. Qed.
Lemma line_nonempty l : line l -> 0 < zlen l.
Proof. intros (l' & -> & _). unfold zlen. rewrite length_app. cbn [length]. lia. Qed.

(** Inversion along the first line. *)
Lemma request_inv l s e rest :
  line l -> request (l ++ s) e rest -> utf8 l = true /\ (l = crlf /\ rest = s \/ l <> crlf /\ request s e rest).
Proof.
  intros Hl Hr. inversion Hr as [e' rest' Heq|l0 s0 e' rest' Hl0 Hu Hc Hr0 Heq|s' Hn Hu]; subst.
  - pose proof (split_line_line l s Hl) as H1. pose proof (split_line_line crlf rest line_crlf) as H2.
    assert (crlf ++ rest = l ++ s) as He by exact Heq. rewrite He, H1 in H2. injection H2 as -> ->. auto.
  - pose proof (split_line_line l s Hl) as H1. pose proof (split_line_line l0 s0 Hl0) as H2.
    rewrite Heq, H1 in H2. injection H2 as -> ->. auto.
  - exfalso. by apply Hn, line_newline.
Qed.

Lemma request_last s e rest : x0a ∉ s -> request s e rest -> e = Eof /\ utf8 s = true.
Proof.
  intros Hn Hr. inversion Hr as [e' rest' Heq|l0 s0 e' rest' Hl0 Hu Hc Hr0 Heq|s' _ Hu]; subst; [| |done].
  - exfalso. apply Hn, (line_newline crlf), line_crlf.
  - exfalso. by apply Hn, line_newline.
Qed.

Lemma unfinished_inv l s : line l -> unfinished (l ++ s) -> utf8 l = true /\ l <> crlf /\ unfinished s.
Proof.
  intros Hl Hr. inversion Hr as [s' Hn|l0 s0 Hl0 Hu Hc Hr0 Heq]; subst.
  - exfalso. by apply Hn, line_newline.
  - pose proof (split_line_line l s Hl) as H1. pose proof (split_line_line l0 s0 Hl0) as H2.
    rewrite Heq, H1 in H2. by injection H2 as -> ->.
Qed.

(** Only of a stream that goes on can a request be unfinished. *)
Lemma silent_unreadable i : silent i -> ~ readable i.
Proof.
  destruct i as [s e]. unfold silent, readable. cbn [bytes_left then_end]. intros [-> Hs] [rest Hr].
  induction Hs as [s Hn|l s Hl Hu Hc Hs IH].
  - by apply request_last in Hr as [? _].
  - apply request_inv in Hr as (_ & [[? _]|[_ ?]]); [done|by apply IH|done].
Qed.

Lemma wait_loop_spec fuel i acts :
  (length (bytes_left i) < fuel)%nat ->
  match wait_loop fuel (mkConnection i acts) with
  | (Some (Ok _), c) => actions c = acts /\ readable i
  | (Some (Err _), c) => actions c = acts ++ [ShutdownBoth] /\ ~ readable i /\ ~ silent i
  | (Some (Panic _), _) => False
  | (None, c) => actions c = acts /\ silent i
  end.
Proof.
  unfold readable, silent.
  revert i. induction fuel as [|fuel IH]; intros [s te] Hf; cbn [bytes_left then_end] in *; [lia|].
  cbn [wait_loop]. unfold read_line. cbn [incoming bytes_left then_end].
  destruct (split_line s) as [[l r]|] eqn:Hs.
  - apply split_line_Some in Hs as [-> Hl]. pose proof (line_nonempty l Hl) as Hpos.
    destruct (utf8 l) eqn:Hu; cycle 1.
    { split; [done|]. split.
      - intros [rest (Hu' & _)%request_inv]; [congruence|done].
      - intros [_ (Hu' & _)%unfinished_inv]; [congruence|done]. }
    rewrite bool_decide_false by lia. cbn [orb]. case_bool_decide as Hc.
    { subst l. split; [done|]. eexists. apply request_end. }
    specialize (IH (mkIncoming r te)). cbn [bytes_left then_end] in IH.
    rewrite length_app in Hf. unfold zlen in Hpos. specialize (IH ltac:(lia)). cbn [actions].
    destruct (wait_loop fuel _) as [[[u|e|p]|] c]; [| |done|].
    + destruct IH as [Ha [rest Hr]]. split; [done|]. exists rest. by apply request_line.
    + destruct IH as (Ha & Hr & Hw). split; [done|]. split.
      * intros [rest (_ & [[? _]|[_ ?]])%request_inv]; [done|by apply Hr; exists rest|done].
      * intros [? (_ & _ & ?)%unfinished_inv]; [by apply Hw|done].
    + destruct IH as (Ha & Hw & Hr). split; [done|]. split; [done|]. by apply unfinished_line.
  - apply split_line_None in Hs. destruct te as [|e|]; cycle 1.
    { split; [done|]. split; [|by intros [? _]]. intros [rest [? _]%request_last]; done. }
    { split; [done|]. split; [done|]. by apply unfinished_rest. }
    destruct (utf8 s) eqn:Hu; cycle 1.
    { split; [done|]. split; [|by intros [? _]]. intros [rest [_ ?]%request_last]; [congruence|done]. }
    destruct s as [|b s]; [cbn; split; [done|]; eexists; by apply request_eof|].
    rewrite zlen_cons, bool_decide_false by (pose proof (zlen_nonneg s); lia). cbn [orb].
    rewrite bool_decide_false by (intros Heq; apply Hs; rewrite Heq; unfold crlf; set_solver).
    destruct fuel as [|fuel]; cbn in Hf; [lia|]. cbn. split; [done|]. eexists. by apply request_eof.
Qed.

(** C37: answering a scrape.  Provided the registry's encoder gives text,
    [serve_metrics] never panics, and it fails to end exactly when the peer goes
    silent before its request is complete (text lines up to the first empty line
    or to the end of the stream), or sends a request and then does not take the
    answer: no timeout is set.  If a request can be read, the answer is written in
    one go, as much of it as the kernel takes, and the sending side is closed; if
    the stream fails or is not text, nothing is written and the connection is
    closed. *)
Theorem metrics_answered i encoded w :
  utf8 encoded = true ->
  let '(o, c) := serve_metrics (Some encoded) w (mkConnection i []) in
  let wrote n := Wrote (take (Z.to_nat n) (http_header ++ encoded)) in
  (o = None <-> silent i \/ readable i /\ exists n, w = Stalls n) /\
  match o with
  | Some (Ok _) => readable i /\
      match w with
      | Takes n => actions c = [wrote n; ShutdownWrite]
      | Refuses _ => actions c = [ShutdownWrite]
      | Stalls _ => False
      end
  | Some (Err _) => ~ readable i /\ ~ silent i /\ actions c = [ShutdownBoth]
  | Some (Panic _) => False
  | None => silent i /\ actions c = [] \/ exists n, w = Stalls n /\ actions c = [wrote n]
  end.
Proof.
  intros Hu. unfold serve_metrics, wait_for_req_or_eof. cbn [incoming].
  pose proof (wait_loop_spec (S (length (bytes_left i))) i [] ltac:(lia)) as Hw.
  pose proof (silent_unreadable i) as Hx.
  destruct (wait_loop _ _) as [[[u|e|p]|] [ci ca]]; [| |done|]; cbn [actions] in Hw.
  - destruct Hw as [-> Hr]. unfold scrape_result. cbn [unwrap]. res_step. rewrite Hu.
    destruct w as [n|e|n]; cbn [act actions app incoming]; (split; [|eauto]);
      (split; [done || eauto|intros [?|[_ [? ?]]]; done || naive_solver]).
  - destruct Hw as (-> & Hr & Hs). split; [naive_solver|done].
  - destruct Hw as (-> & Hs). split; [naive_solver|eauto].
Qed.

(** A request with more behind it; a request line and then silence. *)
Lemma metrics_answered_witness :
  let get := text "GET /metrics HTTP/1.1" ++ crlf in
  let serve i := serve_metrics (Some (text "up 1")) (Takes 1000) (mkConnection i []) in
  (readable (mkIncoming (get ++ crlf ++ text "more") (ReadError (IoError Other "reset"))) /\
   actions (serve (mkIncoming (get ++ crlf ++ text "more") (ReadError (IoError Other "reset")))).2 =
     [Wrote (http_header ++ text "up 1"); ShutdownWrite]) /\
  (serve (mkIncoming get Silence)).1 = None /\ silent (mkIncoming get Silence).
Proof.
  intros get serve.
  pose proof (metrics_answered (mkIncoming (get ++ crlf ++ text "more") (ReadError (IoError Other "reset")))
    (text "up 1") (Takes 1000) eq_refl) as H1.
  pose proof (metrics_answered (mkIncoming get Silence) (text "up 1") (Takes 1000) eq_refl) as H2.
  split.
  - destruct H1 as [_ [Hr Ha]]. split; [exact Hr|]. vm_compute. reflexivity.
  - assert (silent (mkIncoming get Silence)) as Hs.
    { split; [reflexivity|]. apply (unfinished_line get []).
      - exists (text "GET /metrics HTTP/1.1" ++ [x0d]). split; [reflexivity|].
        apply (bool_decide_unpack _). vm_compute. exact I.
      - vm_compute. reflexivity.
      - vm_compute. discriminate.
      - apply unfinished_rest, not_elem_of_nil. }
    split; [|exact Hs]. revert H2. unfold serve.
    destruct (serve_metrics _ _ (mkConnection (mkIncoming get Silence) [])) as [o c].
    intros [[_ H2] _]. apply H2. left. exact Hs.
Defined.

(** The connections accepted before the first failure are served, and no other. *)
Lemma accept_all_spec {C} (conns : list C) e rest spawned :
  accept_all (map inr conns) spawned = (None, spawned ++ conns) /\
  accept_all (map inr conns ++ inl e :: rest) spawned = (Some e, spawned ++ conns).
Proof.
  revert spawned. induction conns as [|c conns IH]; intros spawned; cbn [map app accept_all];
    [by rewrite app_nil_r|]. destruct (IH (spawned ++ [c])) as [-> ->]. by rewrite <- app_assoc.
Qed.
