(* ===== verification/Locks.v ===== *)
(** * Blocking on the lock of the keys

    The other files treat [read] and [write] of [RwLock] as calls that return.  Here
    they block: a state says which guards each thread holds and what it will still do
    to the lock of the key rotator, and a step is one acquisition or release.  The
    standard library leaves open whether a reader may overtake a writer that waits;
    [prefers_writers] is that choice.  The programs of the threads are read off
    [ntp/server/server.rs], [key_rotator.rs] and [nts_ke/server/connection.rs]. *)

From stdpp Require Import prelude list numbers strings gmap.
From Stdlib Require Import Strings.Byte.
From S2P Require Import Prelude Words Crypto NtpProtocol Cookie KeyRotator NtpServer ServerReplies.

Open Scope Z_scope.

Inductive Mode := Reading | Writing.
Inductive Op := AcquireRead | AcquireWrite | Release.
#[export] Instance Mode_eq_dec : EqDecision Mode.
Proof. solve_decision. Defined.
#[export] Instance Op_eq_dec : EqDecision Op.
Proof. solve_decision. Defined.

(** ** What the threads do to the lock *)
Section Programs.
Context {P : Profile} {A : Aead}.

(** [nts_response]: one guard per cookie, dropped before the next is taken. *)
Definition nts_locks (exts : list NtpExtension) : list Op :=
  concat (map (fun ext =>
    match ext_type ext with
    | NTSCookiePlaceholder =>
      if bool_decide (COOKIE_SIZE <= zlen (contents ext)) then [AcquireRead; Release] else []
    | _ => []
    end) exts) ++ [AcquireRead; Release].

(** [response]: the guard [point] lives until the reply is made, so that
    [nts_response] runs under it.  A panic drops the guards, too. *)
Definition response_locks (keys : KeyRotator) (query : bytes) : list Op :=
  match parse_ntp_packet query with
  | Ok query_packet =>
    if bool_decide (mode (header query_packet) ≠ Client) then []
    else if is_nts_packet query_packet then
      match extract_extension query_packet NTSCookie with
      | Some cookie =>
        match get_keyid (contents cookie) with
        | Some keyid =>
          [AcquireRead] ++
          match get keys keyid with
          | Some key =>
            match eat_cookie (E := io_error) (contents cookie) key with
            | Ok (Some nts_dir_keys) =>
              match parse_nts_packet query (c2s nts_dir_keys) with
              | Ok packet => nts_locks (auth_exts packet)
              | _ => []
              end
            | _ => []
            end
          | None => []
          end ++ [Release]
        | None => []
        end
      | None => []
      end
    else []
  | _ => []
  end.

(** One round of [periodic_rotate]: [inner], then [read_sleep]. *)
Definition rotation_locks : list Op := [AcquireWrite; Release; AcquireRead; Release].

(** [response] of the key exchange's connection. *)
Definition ke_response_locks : list Op := [AcquireRead; Release].
End Programs.

(** ** The lock *)
Record Worker := mkWorker { todo : list Op; held : list Mode; queued : bool }.
Definition idle (p : list Op) : Worker := mkWorker p [] false.

Section Lock.
Context (prefers_writers : bool).
Implicit Types (w : Worker) (ws : list Worker).

Definition free_for_read ws : bool :=
  forallb (fun w => negb (bool_decide (Writing ∈ held w))) ws &&
  (negb prefers_writers || forallb (fun w => negb (queued w)) ws).
Definition free_for_write ws : bool := forallb (fun w => bool_decide (held w = [])) ws.

(** A writer that cannot have the lock first queues up. *)
Definition step_worker ws w : option Worker :=
  match todo w with
  | [] => None
  | AcquireRead :: p => if free_for_read ws then Some (mkWorker p (Reading :: held w) false) else None
  | AcquireWrite :: p =>
    if free_for_write ws then Some (mkWorker p (Writing :: held w) false)
    else if queued w then None else Some (mkWorker (todo w) (held w) true)
  | Release :: p => Some (mkWorker p (tail (held w)) false)
  end.

Inductive lock_step : list Worker -> list Worker -> Prop :=
  | lock_step_at ws i w w' :
      ws !! i = Some w -> step_worker ws w = Some w' -> lock_step ws (<[i := w']> ws).

Definition deadlocked ws : Prop :=
  (exists w, w ∈ ws /\ todo w <> []) /\ forall w, w ∈ ws -> step_worker ws w = None.

(** ** Well-bracketed programs

    Every guard is released; the writing guard is taken, and released again, with no
    other guard held; and only with [nests] are reading guards taken under reading
    guards. *)
Fixpoint brackets (nests : bool) (h : list Mode) (p : list Op) : bool :=
  match p with
  | [] => bool_decide (h = [])
  | AcquireRead :: p =>
    (bool_decide (h = []) || nests && bool_decide (Forall (eq Reading) h)) && brackets nests (Reading :: h) p
  | AcquireWrite :: p => bool_decide (h = []) && brackets nests (Writing :: h) p
  | Release :: p => match h with [] => false | _ :: h => brackets nests h p end
  end.

Definition worker_ok (nests : bool) w : Prop :=
  brackets nests (held w) (todo w) = true /\ (queued w = true -> head (todo w) = Some AcquireWrite) /\
  (Writing ∈ held w -> held w = [Writing]).

Lemma step_worker_ok nests ws w w' : worker_ok nests w -> step_worker ws w = Some w' -> worker_ok nests w'.
Proof.
  destruct w as [p h q]. unfold worker_ok, step_worker. cbn [todo held queued].
  intros (Hb & Hq & Hw) Hs. destruct p as [|[] p]; [done|..]; cbn [brackets] in Hb.
  - destruct (free_for_read ws); [|done]. injection Hs as <-. apply andb_true_iff in Hb as [Hh Hb].
    split_and!; [done|done|]. cbn. intros [?|Hin]%elem_of_cons; [done|]. rewrite (Hw Hin) in Hh.
    apply orb_true_iff in Hh as [Hh|Hh]; [by apply bool_decide_eq_true in Hh|].
    apply andb_true_iff in Hh as [_ Hh%bool_decide_eq_true]. by apply Forall_cons_1 in Hh as [? _].
  - destruct (free_for_write ws).
    + injection Hs as <-. apply andb_true_iff in Hb as [->%bool_decide_eq_true Hb]. by split_and!.
    + destruct q; [done|]. injection Hs as <-. by split_and!.
  - injection Hs as <-. destruct h as [|m h]; [done|]. cbn. split_and!; [done|done|].
    intros Hin. assert (m :: h = [Writing]) as Heq by (apply Hw; set_solver). injection Heq as -> ->. set_solver.
Qed.

Lemma ok_reachable nests ws ws' : Forall (worker_ok nests) ws -> rtc lock_step ws ws' -> Forall (worker_ok nests) ws'.
Proof.
  intros Hok. induction 1 as [|ws1 ws2 ws3 Hst _ IH]; [done|]. apply IH.
  destruct Hst as [ws i w w' Hi Hs]. apply Forall_insert; [done|].
  eapply step_worker_ok; [|done]. rewrite Forall_lookup in Hok. by eapply Hok.
Qed.

Lemma free_for_read_true ws :
  (forall w, w ∈ ws -> ~ Writing ∈ held w) -> (prefers_writers = true -> forall w, w ∈ ws -> queued w = false) ->
  free_for_read ws = true.
Proof.
  intros Hw Hq. apply andb_true_iff. split.
  - apply forallb_forall. intros w Hin%list_elem_of_In. by rewrite bool_decide_false by by apply Hw.
  - destruct prefers_writers; [|done]. apply forallb_forall. intros w Hin%list_elem_of_In. by rewrite Hq.
Qed.
Lemma free_for_write_true ws : (forall w, w ∈ ws -> held w = []) -> free_for_write ws = true.
Proof. intros Hw. apply forallb_forall. intros w Hin%list_elem_of_In. by rewrite bool_decide_true by by apply Hw. Qed.

(** A thread that holds the writing guard goes on. *)
Lemma writer_steps nests ws w :
  worker_ok nests w -> Writing ∈ held w -> step_worker ws w <> None.
Proof.
  intros (Hb & _ & Hw) Hin. specialize (Hw Hin). unfold step_worker. rewrite Hw in Hb |- *.
  destruct (todo w) as [|[] p]; [done|..|done]; cbn [brackets] in Hb.
  - apply andb_true_iff in Hb as [Hb _]. apply orb_true_iff in Hb as [Hb|Hb]; [done|].
    apply andb_true_iff in Hb as [_ Hb%bool_decide_eq_true]. by apply Forall_cons_1 in Hb as [? _].
  - done.
Qed.

Lemma no_deadlock nests ws :
  nests && prefers_writers = false -> Forall (worker_ok nests) ws -> ~ deadlocked ws.
Proof.
  intros Hnp Hok [(w & Hw & Hto) Hstuck]. rewrite Forall_forall in Hok.
  destruct (decide (Exists (fun w => Writing ∈ held w) ws)) as [(v & Hv & Hvw)%Exists_exists|HnoW].
  { exact (writer_steps nests ws v (Hok v Hv) Hvw (Hstuck v Hv)). }
  assert (forall v, v ∈ ws -> ~ Writing ∈ held v) as HW.
  { intros v Hv Hin. apply HnoW, Exists_exists. eauto. }
  destruct (decide (Exists (fun w => held w <> []) ws)) as [(v & Hv & Hvh)%Exists_exists|Hno].
  - destruct (Hok v Hv) as (Hb & _ & _). specialize (Hstuck v Hv). unfold step_worker in Hstuck.
    destruct (todo v) as [|[] p]; cbn [brackets] in Hb; [by apply bool_decide_eq_true in Hb| | |done].
    + apply andb_true_iff in Hb as [Hb _]. rewrite bool_decide_false in Hb by done. cbn in Hb.
      apply andb_true_iff in Hb as [-> _]. rewrite free_for_read_true in Hstuck; [done|done|].
      intros Hp. by rewrite Hp in Hnp.
    + apply andb_true_iff in Hb as [Hb%bool_decide_eq_true _]. done.
  - assert (forall v, v ∈ ws -> held v = []) as Hempty.
    { intros v Hv. destruct (decide (held v = [])); [done|]. exfalso. apply Hno, Exists_exists. eauto. }
    assert (forall v, v ∈ ws -> head (todo v) = Some AcquireWrite -> False) as HnoA.
    { intros v Hv Hh. specialize (Hstuck v Hv). unfold step_worker in Hstuck.
      destruct (todo v) as [|[] p]; try done. by rewrite free_for_write_true in Hstuck. }
    destruct (Hok w Hw) as (Hb & _ & _). pose proof (Hstuck w Hw) as Hs. unfold step_worker in Hs.
    destruct (todo w) as [|[] p] eqn:Hp; [done| | |done].
    + rewrite free_for_read_true in Hs; [done|done|]. intros _ v Hv.
      destruct (queued v) eqn:Hq; [|done]. exfalso. apply (HnoA v Hv). by apply (Hok v Hv).
    + apply (HnoA w Hw). by rewrite Hp.
Qed.
End Lock.

(** ** The programs are well-bracketed *)
Lemma brackets_app nests h p q :
  brackets nests h p = true -> brackets nests [] q = true -> brackets nests h (p ++ q) = true.
Proof.
  revert h. induction p as [|[] p IH]; intros h; cbn [app brackets].
  - by intros ->%bool_decide_eq_true.
  - rewrite !andb_true_iff. intros [-> ?] ?. auto.
  - rewrite !andb_true_iff. intros [-> ?] ?. auto.
  - destruct h; [done|]. apply IH.
Qed.

Lemma brackets_concat nests l : Forall (fun p => brackets nests [] p = true) l -> brackets nests [] (concat l) = true.
Proof. induction 1; cbn [concat]; [done|]. by apply brackets_app. Qed.

(** Under a reading guard. *)
Lemma brackets_under p :
  brackets true [Reading] p = true -> brackets true [] ([AcquireRead] ++ p) = true.
Proof. intros Hp. cbn [app brackets]. by rewrite Hp. Qed.

Section Bracketed.
Context {P : Profile} {A : Aead}.

Lemma nts_locks_under exts p :
  brackets true [Reading] p = true -> brackets true [Reading] (nts_locks exts ++ p) = true.
Proof.
  intros Hp. unfold nts_locks. rewrite <- app_assoc.
  assert (brackets true [Reading] ([AcquireRead; Release] ++ p) = true) as Hp' by (cbn; by rewrite Hp).
  generalize dependent ([AcquireRead; Release] ++ p). intros p' Hp'.
  induction exts as [|e exts IH]; cbn [map concat]; [done|]. rewrite <- app_assoc.
  destruct (ext_type e); try apply IH. case_bool_decide; [|apply IH]. cbn [app brackets]. by rewrite IH.
Qed.

Lemma response_locks_ok kr d : brackets true [] (response_locks kr d) = true.
Proof.
  unfold response_locks. destruct (parse_ntp_packet d) as [q| |]; [|done..]. case_bool_decide; [done|].
  destruct (is_nts_packet q); [|done]. destruct (extract_extension q NTSCookie) as [c|]; [|done].
  destruct (get_keyid (contents c)) as [id|]; [|done]. apply brackets_under.
  destruct (get kr id) as [key|]; [|done]. destruct (eat_cookie _ _) as [[k|]| |]; [|done..].
  destruct (parse_nts_packet d (c2s k)); [|done..]. by apply nts_locks_under.
Qed.
End Bracketed.

(** ** The processes *)
Section Processes.
Context {P : Profile} {A : Aead}.

(** A serving thread before it answers some datagrams, under whatever keys there
    will be; the rotation thread before some rounds; a key exchange listener before
    it answers some requests. *)
Definition serving (queries : list (KeyRotator * bytes)) : Worker :=
  idle (concat (map (fun q => response_locks q.1 q.2) queries)).
Definition rotating (rounds : nat) : Worker := idle (concat (replicate rounds rotation_locks)).
Definition listening (requests : nat) : Worker := idle (concat (replicate requests ke_response_locks)).

Lemma idle_ok nests p : brackets nests [] p = true -> worker_ok nests (idle p).
Proof. intros Hp. split_and!; [done|done|]. cbn. by intros ?%elem_of_nil. Qed.

Lemma serving_ok queries : worker_ok true (serving queries).
Proof.
  apply idle_ok, brackets_concat, Forall_map, Forall_true. intros q. apply response_locks_ok.
Qed.
Lemma rotating_ok nests n : worker_ok nests (rotating n).
Proof. apply idle_ok, brackets_concat, Forall_replicate. by destruct nests. Qed.
Lemma listening_ok nests n : worker_ok nests (listening n).
Proof. apply idle_ok, brackets_concat, Forall_replicate. by destruct nests. Qed.

(** C18: where the lock of the keys cannot block the program.  If readers may overtake
    a waiting writer, any number of serving threads that answer any datagrams next to
    the rotation thread never reach a state in which none of them can go on.  The key
    exchange server, which never takes the lock twice, does not under either policy. *)
Theorem locks_progress :
  (forall queries rounds ws, rtc (lock_step false) (rotating rounds :: map serving queries) ws -> ~ deadlocked false ws) /\
  (forall prefers requests rounds ws,
     rtc (lock_step prefers) (rotating rounds :: map listening requests) ws -> ~ deadlocked prefers ws).
Proof.
  split.
  - intros queries rounds ws Hst. apply (no_deadlock false true); [done|]. eapply ok_reachable; [|exact Hst].
    constructor; [apply rotating_ok|]. apply Forall_map, Forall_true. intros q. apply serving_ok.
  - intros prefers requests rounds ws Hst. apply (no_deadlock prefers false); [done|]. eapply ok_reachable; [|exact Hst].
    constructor; [apply rotating_ok|]. apply Forall_map, Forall_true. intros q. apply listening_ok.
Qed.

(** The datagram is an NTS query that the server answers with cookies. *)
Definition answered (kr : KeyRotator) (d : bytes) : Prop :=
  exists q c id key k p,
    parse_ntp_packet d = Ok q /\ mode (header q) = Client /\ is_nts_packet q = true /\
    extract_extension q NTSCookie = Some c /\ get_keyid (contents c) = Some id /\ get kr id = Some key /\
    eat_cookie (E := io_error) (contents c) key = Ok (Some k) /\ parse_nts_packet d (c2s k) = Ok p.

Lemma answered_nests kr d : answered kr d -> exists rest, response_locks kr d = AcquireRead :: AcquireRead :: rest.
Proof.
  intros (q & c & id & key & k & p & Hq & Hm & Hn & Hc & Hid & Hkey & He & Hp). unfold response_locks.
  rewrite Hq, bool_decide_false, Hn, Hc, Hid, Hkey, He, Hp by (by intros []). unfold nts_locks.
  induction (auth_exts p) as [|e l IH]; cbn [map concat app]; [by eexists|].
  destruct (ext_type e); try done. case_bool_decide; [by eexists|done].
Qed.

(** Every program starts by taking the lock for reading. *)
Lemma response_locks_head kr d : response_locks kr d = [] \/ exists p, response_locks kr d = AcquireRead :: p.
Proof.
  unfold response_locks. destruct (parse_ntp_packet d) as [q| |]; [|by left..]. case_bool_decide; [by left|].
  destruct (is_nts_packet q); [|by left]. destruct (extract_extension q NTSCookie) as [c|]; [|by left].
  destruct (get_keyid (contents c)) as [id|]; [|by left]. right. by eexists.
Qed.
Lemma serving_head queries : todo (serving queries) = [] \/ exists p, todo (serving queries) = AcquireRead :: p.
Proof.
  induction queries as [|q queries IH]; [by left|]. cbn.
  destruct (response_locks_head q.1 q.2) as [->|[p ->]]; [apply IH|right; by eexists].
Qed.

(** C17: one NTS query can stop the server for good.  If a waiting writer keeps new
    readers out, which the standard library allows, then answering any NTS query
    while the keys are due for rotation can reach a state in which no thread can go
    on: the serving thread holds the guard of its first read and waits, in its second
    read, behind the rotation thread, which waits for that guard; every other thread
    that is to answer a query with the keys waits behind them. *)
Theorem nested_read_deadlocks kr d others :
  answered kr d ->
  exists ws, rtc (lock_step true) (serving [(kr, d)] :: rotating 1 :: map serving others) ws /\ deadlocked true ws.
Proof.
  intros (rest & Hd)%answered_nests.
  set (w0 := serving [(kr, d)]). set (r0 := rotating 1).
  set (w1 := mkWorker (AcquireRead :: rest) [Reading] false). set (r1 := mkWorker rotation_locks [] true).
  assert (forall ws, Forall (fun v => held v = [] /\ queued v = false) (r0 :: ws) ->
    step_worker true (w0 :: r0 :: ws) w0 = Some w1) as Hread.
  { intros ws Hws. unfold step_worker, w0, serving. cbn [map concat fst snd idle todo]. rewrite Hd, app_nil_r.
    rewrite Forall_forall in Hws. rewrite free_for_read_true; [done| |].
    - intros v [->|Hv]%elem_of_cons Hin; [by apply elem_of_nil in Hin|].
      destruct (Hws _ Hv) as [He _]. rewrite He in Hin. by apply elem_of_nil in Hin.
    - intros _ v [->|Hv]%elem_of_cons; [done|]. by apply Hws. }
  assert (Forall (fun v => held v = [] /\ queued v = false) (map serving others)) as Hidle
    by (apply Forall_map, Forall_true; done).
  exists (w1 :: r1 :: map serving others). split.
  - eapply rtc_l; [apply (lock_step_at true _ 0 w0 w1); [done|apply Hread; by constructor]|].
    eapply rtc_l; [apply (lock_step_at true _ 1 r0 r1); [done|done]|]. apply rtc_refl.
  - split; [exists w1; split; [set_solver|done]|].
    assert (forall v, free_for_read true (w1 :: r1 :: v) = false) as Hf.
    { intros v. unfold free_for_read. cbn. by rewrite andb_false_r. }
    intros v [->|[->|Hv]%elem_of_cons]%elem_of_cons; unfold step_worker; [by rewrite Hf|done|].
    apply list_elem_of_fmap in Hv as (qs & -> & _).
    destruct (serving_head qs) as [->|[p ->]]; [done|by rewrite Hf].
Qed.
End Processes.

Section Witnesses.
Import Toy ServerExample.

Lemma nested_read_deadlocks_witness :
  exists ws, rtc (lock_step true) (serving (P := Debug) (A := toy_aead) [(kr, query)] :: rotating 1 ::
      map (serving (P := Debug) (A := toy_aead)) [[(kr, plain)]; [(kr, query)]]) ws /\ deadlocked true ws.
Proof.
  apply (nested_read_deadlocks (P := Debug) (A := toy_aead)).
  exists (parsed query), cookie, 360000, rotator_key, session.
  eexists (match parse_nts_packet (P := Debug) query (c2s session) with Ok p => p | _ => packet end).
  split_and!; vm_compute; reflexivity.
Defined.
End Witnesses.
