(* ===== verification/ServerThreads.v ===== *)
(** * The NTP server's threads, access by access

    Any number of serving threads run the programs of [ServerProgs] over one shared
    state, in any interleaving of their single accesses, while the keys are rotated
    and the upstream state is refreshed in between.  A rotation waits until no guard
    of the keys is held.  The file shows that this makes no difference to what is
    replied and counted: every round behaves as if it had run alone with the keys
    and the state of one moment each ([threads_serializable]).  It does make a
    difference to the measurements, which [CLIENT_ADDR] attributes
    ([client_addr_races]). *)

From stdpp Require Import prelude list numbers strings pretty relations.
From Stdlib Require Import Strings.Byte.
From S2P Require Import Prelude Words Threads Crypto Time NtpProtocol Cookie KeyRotator ServerClock NtpServer.
From S2P Require Import ServerProgs ServerReplies ServerLoop Locks.

Open Scope Z_scope.

(** ** Programs that read at one moment

    The keys are taken in one bracket of guards, the state is read once, and the
    address makes no difference but to the measurements. *)
Inductive phase := Fresh | Inside (nested : nat) | Over.

(** What is seen of a program's accesses from outside, measurements apart. *)
Definition observable (o : Access) : bool :=
  match o with ReadAddr | SendNtp _ | SendNts _ => false | _ => true end.
Definition seen (l : list Access) : list Access := filter (fun o => observable o = true) l.

(** All answers from one pair of values. *)
Definition fixed (K : RwLock KeyRotator) (V : RwLock ServerState) (o : Access) (u : unit) : Answer o * unit :=
  (match o return Answer o with
   | AcquireKeys => read_lock K
   | ReadState => V
   | ReadAddr => ""
   | _ => tt
   end, u).

Abbreviation SProg := (Prog Answer).
Definition same {Y} (p p' : SProg Y) : Prop := forall K V,
  (exec (fixed K V) p tt).1 = (exec (fixed K V) p' tt).1 /\
  seen (calls (fixed K V) p tt) = seen (calls (fixed K V) p' tt).

Fixpoint disciplined {Y} (ph : phase) (st : bool) (p : SProg Y) (Q : phase -> bool -> Y -> Prop) : Prop :=
  match p with
  | Done y => Q ph st y
  | Call o k =>
    (match o return (Answer o -> SProg Y) -> Prop with
     | AcquireKeys => fun k =>
       match ph with
       | Fresh => (forall x, disciplined (Inside 0) st (k (Ok x)) Q) /\
                  (forall q, disciplined Over st (k (Panic q)) Q)
       | Inside n => forall x, disciplined (Inside (S n)) st (k (Ok x)) Q
       | Over => False
       end
     | ReleaseKeys => fun k =>
       match ph with
       | Inside O => disciplined Over st (k tt) Q
       | Inside (S n) => disciplined (Inside n) st (k tt) Q
       | _ => False
       end
     | ReadState => fun k => st = true /\ forall v, disciplined ph false (k v) Q
     | ReadAddr => fun k => forall a, disciplined ph st (k a) Q /\ same (k a) (k "")
     | _ => fun k => forall a, disciplined ph st (k a) Q
     end) k
  end.

Lemma same_bind {Y Z} (p p' : SProg Y) (f : Y -> SProg Z) : same p p' -> same (pbind p f) (pbind p' f).
Proof.
  intros Hs K V. destruct (Hs K V) as [He Hc]. rewrite !exec_bind, !calls_bind.
  destruct (exec _ p tt) as [y []], (exec _ p' tt) as [y' []]. cbn in He. subst y'. split; [done|].
  unfold seen in *. by rewrite !filter_app, Hc.
Qed.

Lemma disciplined_weaken {Y} ph st (p : SProg Y) (Q Q' : phase -> bool -> Y -> Prop) :
  (forall ph' st' y, Q ph' st' y -> Q' ph' st' y) -> disciplined ph st p Q -> disciplined ph st p Q'.
Proof.
  intros HQ. revert ph st. induction p as [y|o k IH]; intros ph st; cbn; [apply HQ|].
  destruct o; try (by intros H x; eapply IH).
  - destruct ph as [|n|]; [|by intros H x; apply IH|done]. intros [H1 H2]. split; intros; by apply IH.
  - destruct ph as [|[|n]|]; [done|apply IH|apply IH|done].
  - intros [? H]. split; [done|]. intros v. by apply IH.
  - intros H a. destruct (H a) as [H1 H2]. split; [by apply IH|done].
Qed.

Lemma disciplined_bind {Y Z} ph st (p : SProg Y) (f : Y -> SProg Z) Q :
  disciplined ph st p (fun ph' st' y => disciplined ph' st' (f y) Q) -> disciplined ph st (pbind p f) Q.
Proof.
  revert ph st. induction p as [y|o k IH]; intros ph st; cbn; [done|].
  destruct o; try (by intros H x; apply IH).
  - destruct ph as [|n|]; [|by intros H x; apply IH|done]. intros [H1 H2]. split; intros; by apply IH.
  - destruct ph as [|[|n]|]; [done|apply IH|apply IH|done].
  - intros [? H]. split; [done|]. intros v. by apply IH.
  - intros H a. destruct (H a) as [H1 H2]. split; [by apply IH|by apply same_bind].
Qed.

(** ** One thread against the others *)
Section Rely.
Context (KK : RwLock KeyRotator -> Prop) (VV : RwLock ServerState -> Prop).

(** The guards that the thread holds and the keys behind them. *)
Inductive grip := Free | Holding (nested : nat) (K : KeyRotator).

Definition may_answer (l : grip) (o : Access) : Answer o -> grip -> Prop :=
  match o return Answer o -> grip -> Prop with
  | AcquireKeys => fun a l' =>
    match l with
    | Free => exists K, KK K /\ a = read_lock K /\ l' = if poisoned K then Free else Holding 0 (guarded K)
    | Holding n K => a = Ok K /\ l' = Holding (S n) K
    end
  | ReleaseKeys => fun _ l' => l' = match l with Holding (S n) K => Holding n K | _ => Free end
  | ReadState => fun v l' => VV v /\ l' = l
  | _ => fun _ l' => l' = l
  end.

Definition grip_of (ph : phase) (K : RwLock KeyRotator) : grip :=
  match ph with Inside n => Holding n (guarded K) | _ => Free end.

Lemma seen_cons o l l' : seen l = seen l' -> seen (o :: l) = seen (o :: l').
Proof. intros H. unfold seen in *. rewrite !filter_cons, H. done. Qed.
Lemma seen_hidden o l : observable o = false -> seen (o :: l) = seen l.
Proof. intros H. unfold seen. by rewrite filter_cons_False by congruence. Qed.

(** [K] and [V] explain the run of a program that began in a phase with [K0] and [V0]. *)
Definition explained {Y} ph st K0 V0 (p : SProg Y) (Q : phase -> bool -> Y -> Prop) (l : grip) (y : Y) (ops : list Access) : Prop :=
  exists K V ph' st',
    KK K /\ VV V /\ (ph <> Fresh -> K = K0) /\ (st = false -> V = V0) /\ Q ph' st' y /\ l = grip_of ph' K /\
    (exec (fixed K V) p tt).1 = y /\ seen ops = seen (calls (fixed K V) p tt).

Lemma explained_call {Y} o (k : Answer o -> SProg Y) a ph st K0 V0 ph1 st1 K1 V1 Q l y ops :
  (forall K V, (ph1 <> Fresh -> K = K1) -> (st1 = false -> V = V1) ->
     (ph <> Fresh -> K = K0) /\ (st = false -> V = V0) /\ (fixed K V o tt).1 = a) ->
  explained ph1 st1 K1 V1 (k a) Q l y ops -> explained ph st K0 V0 (Call o k) Q l y (o :: ops).
Proof.
  intros Hf (K & V & ph' & st' & HK & HV & HKe & HVe & HQ & Hl & He & Hc).
  destruct (Hf K V HKe HVe) as (? & ? & Ha). exists K, V, ph', st'. cbn in *. rewrite Ha.
  split_and!; try done. by apply seen_cons.
Qed.

Lemma wp_disciplined {Y} (p : SProg Y) ph st K0 V0 Q :
  KK K0 -> VV V0 -> ((exists n, ph = Inside n) -> poisoned K0 = false) -> disciplined ph st p Q ->
  wp may_answer (grip_of ph K0) p (explained ph st K0 V0 p Q).
Proof.
  intros HK HV. revert ph st K0 V0 HK HV. induction p as [y|o k IH]; intros ph st K0 V0 HK HV Hpo.
  { intros HQ. exists K0, V0, ph, st. by split_and!. }
  destruct o; cbn [disciplined wp may_answer]; intros Hd x l' Hm.
  4, 5, 7, 8, 9: subst l'; (eapply wp_weaken; [|by apply (IH x ph st K0 V0)]); intros l y ops;
    apply (explained_call _ k); intros K V ? ?; split_and!; [done|done|by destruct x].
  - destruct ph as [|n|]; [|destruct Hm as [-> ->]|done].
    + destruct Hm as (K & HK' & -> & ->), Hd as [H1 H2]. destruct (poisoned K) eqn:Hp.
      * eapply wp_weaken; [|apply (IH (read_lock K) Over st K V0 HK' HV); [by intros [n ?]|]].
        { intros l y ops. apply (explained_call AcquireKeys k). intros K' V HKe ?. split_and!; [done|done|].
          cbn. by rewrite HKe. }
        unfold read_lock. rewrite Hp. apply H2.
      * eapply wp_weaken; [|apply (IH (read_lock K) (Inside 0) st K V0 HK' HV); [done|]].
        { intros l y ops. apply (explained_call AcquireKeys k). intros K' V HKe ?. split_and!; [done|done|].
          cbn. by rewrite HKe. }
        unfold read_lock. rewrite Hp. apply H1.
    + eapply wp_weaken; [|apply (IH _ (Inside (S n)) st K0 V0 HK HV); [intros _; apply Hpo; eauto|apply Hd]].
      intros l y ops. apply (explained_call AcquireKeys k). intros K V HKe ?. split_and!; [by intros; apply HKe|done|].
      cbn. rewrite HKe by done. unfold read_lock. by rewrite Hpo by eauto.
  - destruct x, ph as [|[|n]|]; [done| | |done]; subst l'.
    + eapply wp_weaken; [|apply (IH tt Over st K0 V0 HK HV); [by intros [n ?]|done]].
      intros l y ops. apply (explained_call ReleaseKeys k). intros K V HKe ?. split_and!; auto.
    + eapply wp_weaken; [|apply (IH tt (Inside n) st K0 V0 HK HV); [intros _; apply Hpo; eauto|done]].
      intros l y ops. apply (explained_call ReleaseKeys k). intros K V HKe ?. split_and!; auto.
  - destruct Hd as [-> Hd], Hm as [Hv ->].
    eapply wp_weaken; [|by apply (IH x ph false K0 x)].
    intros l y ops. apply (explained_call ReadState k). intros K V ? HVe. split_and!; [done|done|]. by apply HVe.
  - subst l'. destruct (Hd x) as [H1 H2]. eapply wp_weaken; [|by apply (IH x ph st K0 V0)].
    intros l y ops (K & V & ph' & st' & ? & ? & ? & ? & ? & ? & He & Hc). destruct (H2 K V) as [He2 Hc2].
    exists K, V, ph', st'. split_and!; try done; [cbn; congruence|]. cbn [calls fixed fst snd].
    by rewrite !seen_hidden, Hc, Hc2 by done.
Qed.
End Rely.

(** ** The handlers are disciplined *)
Section Discipline.
Context {P : Profile} {A : Aead} {R : Type} {G : Rng R}.
Abbreviation T := (Code Answer R io_error).

Definition tdisc {X} (ph : phase) (st : bool) (t : T X) (Q : phase -> bool -> io_result X -> Prop) : Prop :=
  forall r : R, disciplined ph st (t r) (fun ph' st' y => Q ph' st' y.1).

Lemma tdisc_bind {X Y} ph st (t : T X) (f : X -> T Y) Q :
  tdisc ph st t (fun ph' st' o =>
    match o with
    | Ok x => tdisc ph' st' (f x) Q
    | Err e => Q ph' st' (Err e)
    | Panic p => Q ph' st' (Panic p)
    end) -> tdisc ph st (t ≫= f) Q.
Proof.
  intros H r. apply disciplined_bind. eapply disciplined_weaken; [|apply H].
  intros ph' st' [[x|e|p] r'] Ho; cbn in *; [apply Ho|done..].
Qed.
Lemma tdisc_on_result {X Y} ph st (t : T X) (f : X -> T Y) (fe : io_error -> T Y) Q :
  tdisc ph st t (fun ph' st' o =>
    match o with
    | Ok x => tdisc ph' st' (f x) Q
    | Err e => tdisc ph' st' (fe e) Q
    | Panic p => Q ph' st' (Panic p)
    end) -> tdisc ph st (on_result_t t f fe) Q.
Proof.
  intros H r. apply disciplined_bind. eapply disciplined_weaken; [|apply H].
  intros ph' st' [[x|e|p] r'] Ho; cbn in *; [apply Ho|apply Ho|done].
Qed.
Lemma tdisc_weaken {X} ph st (t : T X) (Q Q' : phase -> bool -> io_result X -> Prop) :
  (forall ph' st' o, Q ph' st' o -> Q' ph' st' o) -> tdisc ph st t Q -> tdisc ph st t Q'.
Proof. intros HQ H r. eapply disciplined_weaken; [|apply H]. intros. by apply HQ. Qed.

(** Code that takes no part in it, at any time or at least under a guard. *)
Definition keeps {X} (t : T X) : Prop := forall ph st, tdisc ph st t (fun ph' st' _ => ph' = ph /\ st' = st).
Definition nests {X} (t : T X) : Prop := forall n st, tdisc (Inside n) st t (fun ph' st' _ => ph' = Inside n /\ st' = st).

Lemma keeps_nests {X} (t : T X) : keeps t -> nests t.
Proof. intros H n st. apply H. Qed.
Lemma keeps_ret {X} (x : X) : keeps (mret x).
Proof. done. Qed.
Lemma keeps_lift {X} (o : io_result X) : keeps (lift_t o).
Proof. done. Qed.
Lemma keeps_rng {X} (m : M R io_error X) : keeps (on_rng_t m).
Proof. done. Qed.
Lemma keeps_inc c : keeps (inc_t c).
Proof. done. Qed.
Lemma keeps_bind {X Y} (t : T X) (f : X -> T Y) : keeps t -> (forall x, keeps (f x)) -> keeps (t ≫= f).
Proof.
  intros Ht Hf ph st. apply tdisc_bind. eapply tdisc_weaken; [|apply Ht].
  intros ph' st' [] [-> ->]; [apply Hf|done..].
Qed.
Lemma nests_bind {X Y} (t : T X) (f : X -> T Y) : nests t -> (forall x, nests (f x)) -> nests (t ≫= f).
Proof.
  intros Ht Hf n st. apply tdisc_bind. eapply tdisc_weaken; [|apply Ht].
  intros ph' st' [] [-> ->]; [apply Hf|done..].
Qed.
Lemma nests_guard {X} (f : KeyRotator -> T X) : (forall x, nests (f x)) -> nests (with_guard f).
Proof.
  intros Hf n st r x. apply disciplined_bind. eapply disciplined_weaken; [|apply Hf].
  intros ph' st' y [-> ->]. by cbn.
Qed.
Lemma keeps_measure ip elapsed send :
  (forall m, keeps (send m)) -> (forall m r K V, (exec (fixed K V) (send m r) tt).1 = (Ok tt, r) /\
     seen (calls (fixed K V) (send m r) tt) = []) -> keeps (measure_t ip true elapsed send).
Proof.
  intros Hk Hs ph st r a. split.
  - cbn. destruct (str_contains ip a); [apply Hk|done].
  - intros K V. assert (forall b, let p := (if str_contains ip b then send (pretty elapsed) else mret tt : T unit) r in
      (exec (fixed K V) p tt).1 = (Ok tt, r) /\ seen (calls (fixed K V) p tt) = []) as H
      by (intros b; destruct (str_contains ip b); [apply Hs|done]).
    destruct (H a) as [Ha1 Ha2], (H "") as [Hb1 Hb2]. exact (conj (eq_trans Ha1 (eq_sym Hb1)) (eq_trans Ha2 (eq_sym Hb2))).
Qed.

Create HintDb discipline.
#[local] Hint Resolve keeps_ret keeps_lift keeps_rng keeps_inc : discipline.
#[local] Hint Extern 2 (keeps (_ ≫= _)) => apply keeps_bind : discipline.
#[local] Hint Extern 2 (nests (_ ≫= _)) => apply nests_bind : discipline.
#[local] Hint Extern 3 (keeps (match ?x with _ => _ end)) => destruct x : discipline.
#[local] Hint Extern 3 (nests (match ?x with _ => _ end)) => destruct x : discipline.
#[local] Hint Extern 1 (nests (with_guard _)) => apply nests_guard : discipline.
#[local] Hint Extern 4 (nests _) => apply keeps_nests : discipline.
#[local] Hint Extern 1 (forall _, keeps _) => intros : discipline.
#[local] Hint Extern 1 (forall _, nests _) => intros : discipline.

Lemma keeps_kod q : keeps (send_kiss_of_death_t q).
Proof. unfold send_kiss_of_death_t, kiss_of_death_t. auto 10 with discipline. Qed.
Lemma keeps_make_cookie k x : keeps (make_cookie_t k x).
Proof. unfold make_cookie_t. auto 10 with discipline. Qed.
#[local] Hint Resolve keeps_kod keeps_make_cookie : discipline.

Lemma nests_loop k exts resp : nests (nts_response_loop_t k exts resp).
Proof.
  revert resp. induction exts as [|ext exts IH]; intros resp; [apply keeps_nests, keeps_ret|].
  cbn [nts_response_loop_t]. destruct (ext_type ext); try apply IH. case_bool_decide; [|apply IH].
  auto 10 with discipline.
Qed.
Lemma nests_process_nts env h k q : nests (process_nts_t env h k q).
Proof.
  unfold process_nts_t, nts_response_t. destruct (parse_nts_packet q (c2s k)); [|auto 10 with discipline..].
  pose proof nests_loop. auto 10 with discipline.
Qed.

(** Both channels are there, which [main] sees to. *)
Definition channels_open (env : Env) : Prop := ntp_channel env = true /\ nts_channel env = true.

(** The keys were taken in one bracket, or not at all. *)
Definition closed {X} (ph : phase) (st : bool) (o : io_result X) : Prop := ph = Fresh \/ ph = Over.

Lemma closed_keeps {X Y} st (t : T X) (f : X -> T Y) :
  keeps t -> (forall x, tdisc Fresh st (f x) closed) -> tdisc Fresh st (t ≫= f) closed.
Proof.
  intros Ht Hf. apply tdisc_bind. eapply tdisc_weaken; [|apply Ht].
  intros ph st' [] [-> ->]; [apply Hf|by left..].
Qed.
Lemma closed_of_keeps {X} st (t : T X) : keeps t -> tdisc Fresh st t closed.
Proof. intros Ht. eapply tdisc_weaken; [|apply Ht]. intros ph st' o [-> _]. by left. Qed.
Lemma closed_guard {X} st (f : KeyRotator -> T X) : (forall x, nests (f x)) -> tdisc Fresh st (with_guard f) closed.
Proof.
  intros Hf r. split.
  - intros x. apply disciplined_bind. eapply disciplined_weaken; [|apply Hf]. intros ph st' y [-> ->]. by right.
  - intros p. by right.
Qed.

Lemma tdisc_read_state {X} (f : RwLock ServerState -> T X) Q :
  (forall v, tdisc Fresh false (f v) Q) -> tdisc Fresh true (access ReadState ≫= f) Q.
Proof. intros Hf. apply tdisc_bind. intros r. split; [done|]. exact Hf. Qed.

Lemma closed_response env q r_time t_time :
  channels_open env -> tdisc Fresh true (response_t env q r_time t_time) closed.
Proof.
  intros [Hc1 Hc2]. unfold response_t. rewrite Hc1, Hc2. apply closed_keeps; [apply keeps_lift|intros packet].
  apply tdisc_read_state. intros v.
  apply closed_keeps; [apply keeps_lift|intros h]. apply closed_keeps; [apply keeps_inc|intros _].
  case_bool_decide; [by apply closed_of_keeps|].
  apply closed_keeps; [apply keeps_lift|intros cfg]. apply closed_keeps; [apply keeps_lift|intros ip].
  apply closed_keeps; [by apply keeps_measure|intros _].
  destruct (is_nts_packet packet); [|by apply closed_of_keeps].
  apply closed_keeps; [apply keeps_inc|intros _]. apply closed_keeps; [apply keeps_lift|intros cookie].
  destruct (get_keyid (contents cookie)) as [keyid|]; [|apply closed_of_keeps; auto with discipline].
  apply closed_guard. intros point. destruct (get point keyid) as [key|]; [|auto with discipline].
  apply nests_bind; [auto with discipline|intros [nk|]]; [|auto with discipline].
  apply nests_bind; [apply nests_process_nts|intros res].
  apply nests_bind; [by apply keeps_nests, keeps_measure|auto with discipline].
Qed.

(** What follows the response: one more access. *)
Lemma closed_any {X} ph st (t : T X) : ph = Fresh \/ ph = Over -> keeps t -> tdisc ph st t closed.
Proof. intros Hph Ht. eapply tdisc_weaken; [|apply Ht]. intros ph' st' o [-> _]. done. Qed.

Lemma closed_round ipv4 env q :
  channels_open env -> tdisc Fresh true (run_server_round_t ipv4 env q) closed.
Proof.
  intros Hc. unfold run_server_round_t. destruct q as [q|]; [|by apply closed_of_keeps].
  destruct (address q) as [src|]; [|by apply closed_of_keeps]. apply closed_keeps; [done|intros _].
  destruct (scan_cmsgs _ _ _ _) as [rt msgs]. apply closed_keeps; [apply keeps_lift|intros sys].
  apply tdisc_on_result. eapply tdisc_weaken; [|by apply closed_response].
  intros ph st [data|e|p] Hph; [destruct (sendmsg _ _); by apply closed_any|by apply closed_any|done].
Qed.
End Discipline.

(** ** A round alone *)
Section Alone.
Context {P : Profile} {A : Aead} {R : Type} {G : Rng R}.

Definition sends (l : list Access) : list SendMsg := omap (fun o => match o with Sendmsg m => Some m | _ => None end) l.
Definition incs (c : Counter) (o : Access) : Z :=
  match o with Inc c' => if decide (c = c') then 1 else 0 | _ => 0 end.

Lemma sends_app l l' : sends (l ++ l') = sends l ++ sends l'.
Proof. unfold sends. by rewrite omap_app. Qed.
Lemma sends_cons o l : sends (o :: l) = sends [o] ++ sends l.
Proof. apply (sends_app [o]). Qed.
Lemma incs_cons c o l : total (incs c) (o :: l) = incs c o + total (incs c) l.
Proof. done. Qed.
Lemma seen_shown o l : observable o = true -> seen (o :: l) = o :: seen l.
Proof. intros Ho. unfold seen. by rewrite filter_cons_True by done. Qed.

(** What is sent and counted is seen. *)
Lemma sends_seen l : sends (seen l) = sends l.
Proof.
  induction l as [|o l IH]; [done|]. rewrite (sends_cons o l). destruct (observable o) eqn:Ho.
  - by rewrite seen_shown, sends_cons, IH by done.
  - rewrite seen_hidden, IH by done. by destruct o.
Qed.
Lemma incs_seen c l : total (incs c) (seen l) = total (incs c) l.
Proof.
  induction l as [|o l IH]; [done|]. rewrite incs_cons. destruct (observable o) eqn:Ho.
  - by rewrite seen_shown, incs_cons, IH by done.
  - rewrite seen_hidden, IH by done. by destruct o.
Qed.

Lemma act_effect o (s : Srv R) :
  let s' := (act o s).2 in
  keys s' = keys s /\ servstate s' = servstate s /\ sent s' = sent s ++ sends [o] /\
  forall c, counters s' c = counters s c + incs c o.
Proof.
  destruct o; cbn; rewrite ?app_nil_r; split_and!; try done; intros c'; try lia. case_decide; lia.
Qed.
Lemma act_answer o (s : Srv R) : o <> ReadAddr -> (act o s).1 = (fixed (keys s) (servstate s) o tt).1.
Proof. by destruct o. Qed.

(** Everything that is sent and counted is among the calls. *)
Lemma act_records {Y} (p : SProg Y) (s : Srv R) :
  sent (exec act p s).2 = sent s ++ sends (calls act p s) /\
  forall c, counters (exec act p s).2 c = counters s c + total (incs c) (calls act p s).
Proof.
  revert s. induction p as [y|o k IH]; intros s; cbn [exec calls].
  { rewrite app_nil_r. split; [done|]. intros c. unfold total. cbn. lia. }
  destruct (act_effect o s) as (_ & _ & Hs & Hc). destruct (act o s) as [a s1]. cbn [fst snd] in *.
  destruct (IH a s1) as [Hs' Hc']. rewrite sends_cons. split; [by rewrite Hs', Hs, app_assoc|].
  intros c. rewrite Hc', Hc, incs_cons. lia.
Qed.

(** [p] on a state does what [p'] does with the answers of that state. *)
Definition alike {Y} (p p' : SProg Y) (s : Srv R) : Prop :=
  (exec act p s).1 = (exec (fixed (keys s) (servstate s)) p' tt).1 /\
  seen (calls act p s) = seen (calls (fixed (keys s) (servstate s)) p' tt).

Lemma alike_call {Y} o (k : Answer o -> SProg Y) s :
  (let s' := (act o s).2 in alike (k (act o s).1) (k (fixed (keys s) (servstate s) o tt).1) s') ->
  alike (Call o k) (Call o k) s.
Proof.
  destruct (act_effect o s) as (Hk & Hv & _). unfold alike. cbn [exec calls fst snd].
  destruct (act o s) as [a s1]. cbn [fst snd] in *. rewrite Hk, Hv. intros [Hy Hc]. split; [done|]. by apply seen_cons.
Qed.

Lemma alike_same {Y} (p p1 p2 : SProg Y) s : same p1 p2 -> alike p p1 s -> alike p p2 s.
Proof. intros Hs [Hy Hc]. destruct (Hs (keys s) (servstate s)) as [He Hc']. unfold alike. by rewrite <- He, <- Hc'. Qed.

(** A disciplined program alone on a state takes its answers from it. *)
Lemma act_fixed {Y} (p : SProg Y) ph st Q (s : Srv R) :
  ((exists n, ph = Inside n) -> poisoned (keys s) = false) -> disciplined ph st p Q -> alike p p s.
Proof.
  revert ph st s. induction p as [y|o k IH]; intros ph st s Hpo.
  { done. }
  destruct (act_effect o s) as (Hk & _).
  intros Hd. apply alike_call. destruct o; cbn [act fst snd fixed] in *.
  4, 5, 7, 8, 9: by apply (IH tt ph st); rewrite ?Hk.
  - unfold read_lock. destruct ph as [|n|]; [|rewrite Hpo by eauto|done].
    + destruct Hd as [H1 H2]. destruct (poisoned (keys s)) eqn:Hp.
      * apply (IH _ Over st); [by intros [n ?]|apply H2].
      * apply (IH _ (Inside 0) st); [done|apply H1].
    + apply (IH _ (Inside (S n)) st); [intros _; apply Hpo; eauto|apply Hd].
  - destruct ph as [|[|n]|]; [done| | |done].
    + apply (IH _ Over st); [by intros [n ?]|done].
    + apply (IH _ (Inside n) st); [intros _; apply Hpo; eauto|done].
  - destruct Hd as [_ Hd]. by apply (IH _ ph false).
  - destruct (Hd (client_addr s)) as [H1 H2]. eapply alike_same; [exact H2|]. by apply (IH _ ph st).
Qed.

(** The state on which a round runs alone. *)
Definition alone (K : RwLock KeyRotator) (V : RwLock ServerState) (r : R) : Srv R :=
  mkSrv K V (fun _ => 0) "" [] [] r [] [].

Definition round_alone (KK : RwLock KeyRotator -> Prop) (VV : RwLock ServerState -> Prop) ipv4 env q (r : R)
    (y : io_result unit * R) (ops : list Access) : Prop :=
  exists K V s1, KK K /\ VV V /\ run_server_round ipv4 env q (alone K V r) = (y.1, s1) /\ rng s1 = y.2 /\
    sends ops = sent s1 /\ forall c, total (incs c) ops = counters s1 c.

Lemma wp_round KK VV ipv4 env q (r : R) K0 V0 :
  KK K0 -> VV V0 -> channels_open env ->
  wp (may_answer KK VV) Free (run_server_round_t ipv4 env q r)
    (fun l y ops => l = Free /\ round_alone KK VV ipv4 env q r y ops).
Proof.
  intros HK HV Hch. pose proof (closed_round ipv4 env q Hch r) as Hd.
  eapply wp_weaken; [|apply (wp_disciplined KK VV _ Fresh true K0 V0 _ HK HV (ltac:(by intros [n ?])) Hd)].
  intros l y ops (K & V & ph & st & HK' & HV' & _ & _ & Hph & -> & He & Hc).
  split; [by destruct Hph as [-> | ->]|]. exists K, V.
  pose proof (program_round ipv4 env q (alone K V r) r) as Hp.
  assert (alike (run_server_round_t ipv4 env q r) (run_server_round_t ipv4 env q r) (alone K V r)) as Ha
    by (by eapply (act_fixed _ Fresh true); [intros [n ?]|]).
  destruct (run_server_round ipv4 env q (alone K V r)) as [o s1]. change (set_rng r (alone K V r)) with (alone K V r) in Hp.
  change (rng (alone K V r)) with r in Hp. unfold alike in Ha.
  destruct (act_records (run_server_round_t ipv4 env q r) (alone K V r)) as [Hs Hn]. rewrite Hp in Ha, Hs, Hn.
  cbn [keys servstate alone fst snd] in *. destruct Ha as (Hy & Hcalls). rewrite He in Hy. rewrite <- Hy. exists s1.
  split_and!; [done..| |].
  - rewrite <- (sends_seen ops), Hc, <- Hcalls, sends_seen. symmetry. exact Hs.
  - intros c. rewrite <- (incs_seen c ops), Hc, <- Hcalls, incs_seen. specialize (Hn c). cbn in Hn. by rewrite Hn.
Qed.
End Alone.

(** ** The threads together *)
Section System.
Context {P : Profile} {A : Aead} {H : Hmac} {R ME : Type} {G : Rng R}.

(** The process, and how many guards of the keys each thread holds. *)
Record Shared := mkShared { process : Process R; guards : nat -> nat }.

Definition set_guard (i n : nat) (g : nat -> nat) : nat -> nat := fun j => if decide (j = i) then n else g j.

Definition hand (i : nat) (o : Access) (s : Shared) : option (Answer o * Shared) :=
  let y := process s in
  let '(a, srv') := act o (srv y) in
  Some (a, mkShared (mkProcess srv' (proc_rotations y) (proc_failures y))
    (match o with
     | AcquireKeys => if poisoned (keys (srv y)) then guards s else set_guard i (S (guards s i)) (guards s)
     | ReleaseKeys => set_guard i (Nat.pred (guards s i)) (guards s)
     | _ => guards s
     end)).

(** The rotation thread writes when no guard is held; the upstream thread replaces
    the state in one write. *)
Inductive around : Shared -> Shared -> Prop :=
  | around_rotate (w : World ME) s :
      (forall i, guards s i = 0%nat) -> around s (mkShared (rotate_keys w (process s)).2 (guards s))
  | around_refresh u s :
      around s (mkShared (mkProcess (refresh_servstate_round u (srv (process s))).2
                  (proc_rotations (process s)) (proc_failures (process s))) (guards s)).

(** A serving thread: its family, what it receives, and its generator. *)
Record Serving := mkServing { is_ipv4 : bool; arriving : list (Env * option RecvMsg); thread_rng : R }.
Definition thread_of (t : Serving) : SProg (io_result unit * R) := run_server_t (is_ipv4 t) (arriving t) (thread_rng t).

(** Rounds one after the other, each alone with some keys and some state: the
    thread's outcome, what is sent and what is counted. *)
Inductive serial (KK : RwLock KeyRotator -> Prop) (VV : RwLock ServerState -> Prop) (ipv4 : bool) :
    list (Env * option RecvMsg) -> R -> io_result unit * R -> list SendMsg -> (Counter -> Z) -> Prop :=
  | serial_end r n : (forall c, n c = 0) -> serial KK VV ipv4 [] r (Ok tt, r) [] n
  | serial_round env q events r K V s1 y msgs n n' :
      KK K -> VV V -> run_server_round ipv4 env q (alone K V r) = (Ok tt, s1) ->
      serial KK VV ipv4 events (rng s1) y msgs n -> (forall c, n' c = counters s1 c + n c) ->
      serial KK VV ipv4 ((env, q) :: events) r y (sent s1 ++ msgs) n'
  | serial_stop env q events r K V s1 o n :
      KK K -> VV V -> run_server_round ipv4 env q (alone K V r) = (o, s1) -> is_ok o = false ->
      (forall c, n c = counters s1 c) -> serial KK VV ipv4 ((env, q) :: events) r (o, rng s1) (sent s1) n.

Lemma wp_run KK VV ipv4 events (r : R) K0 V0 :
  KK K0 -> VV V0 -> Forall (fun e => channels_open e.1) events ->
  wp (may_answer KK VV) Free (run_server_t ipv4 events r)
    (fun _ y ops => forall n, (forall c, n c = total (incs c) ops) -> serial KK VV ipv4 events r y (sends ops) n).
Proof.
  intros HK HV Hev. revert r. induction Hev as [|[env q] events Hch _ IH]; intros r.
  { cbn. intros n Hn. by apply serial_end. }
  cbn [run_server_t]. unfold mbind, Code_bind. apply wp_bind. eapply wp_weaken; [|by apply (wp_round KK VV _ _ _ _ K0 V0)].
  intros l [o r1] ops [-> (K & V & s1 & HK1 & HV1 & Hrun & Hr & Hs & Hc)]. cbn [fst snd] in *. subst r1.
  assert (is_ok o = false -> forall n, (forall c, n c = total (incs c) (ops ++ [])) ->
    serial KK VV ipv4 ((env, q) :: events) r (o, rng s1) (sends (ops ++ [])) n) as Hstop.
  { intros Ho n Hn. rewrite app_nil_r in *. rewrite Hs. eapply serial_stop; try done. intros c. by rewrite Hn. }
  destruct o as [[]|e|p]; [|exact (Hstop eq_refl)..].
  eapply wp_weaken; [|apply IH]. intros l y ops' Hser n Hn. rewrite sends_app, Hs.
  eapply serial_round; [done|done|done|by apply Hser|].
  intros c. rewrite Hn, total_app, Hc. done.
Qed.

(** What a thread knows: the keys behind its guards, and that keys and state are
    among those of the execution. *)
Definition knows (KK : RwLock KeyRotator -> Prop) (VV : RwLock ServerState -> Prop) (i : nat) (l : grip) (s : Shared) : Prop :=
  KK (keys (srv (process s))) /\ VV (servstate (srv (process s))) /\
  match l with
  | Free => guards s i = 0%nat
  | Holding n K => guards s i = S n /\ keys (srv (process s)) = mkLock false K
  end.

Lemma knows_call KK VV i l o s a s' :
  knows KK VV i l s -> hand i o s = Some (a, s') -> exists l', may_answer KK VV l o a l' /\ knows KK VV i l' s'.
Proof.
  intros (HK & HV & Hl). unfold hand. destruct (act_effect o (srv (process s))) as (Hk & Hv & _).
  destruct (act o (srv (process s))) as [x y] eqn:Ha. intros [= <- <-]. unfold knows. cbn [process guards srv] in *.
  cbn [snd] in *. rewrite Hk, Hv.
  destruct o; try (by exists l).
  - injection Ha as <- <-. destruct l as [|n K].
    + exists (if poisoned (keys (srv (process s))) then Free else Holding 0 (guarded (keys (srv (process s))))).
      split; [by exists (keys (srv (process s)))|]. destruct (keys (srv (process s))) as [[] K]; cbn.
      * by split_and!.
      * unfold set_guard. rewrite decide_True, Hl by done. by split_and!.
    + destruct Hl as [Hg Hkeys]. rewrite Hkeys in *. exists (Holding (S n) K). cbn. unfold set_guard. rewrite decide_True, Hg by done. by split_and!.
  - exists (match l with Holding (S n) K => Holding n K | _ => Free end). split; [done|]. unfold set_guard. rewrite decide_True by done.
    destruct l as [|[|n] K]; [by rewrite Hl| |]; destruct Hl as [-> Hkeys]; by split_and!.
  - injection Ha as <- <-. exists l. by split_and!.
Qed.

Lemma knows_other KK VV i j l o s a s' :
  i <> j -> knows KK VV i l s -> hand j o s = Some (a, s') -> knows KK VV i l s'.
Proof.
  intros Hne (HK & HV & Hl). unfold hand. destruct (act_effect o (srv (process s))) as (Hk & Hv & _).
  destruct (act o (srv (process s))) as [x y]. intros [= <- <-]. unfold knows. cbn [process guards srv snd] in *. rewrite Hk, Hv.
  split; [done|]. split; [done|].
  destruct o; try done; unfold set_guard.
  - destruct (poisoned _); [done|]. by rewrite decide_False.
  - by rewrite decide_False.
Qed.

Lemma refresh_effect u (s : Srv R) :
  let s' := (refresh_servstate_round u s).2 in
  keys s' = keys s /\ sent s' = sent s /\
  forall c, c <> UPSTREAM_QUERY_COUNTER -> c <> UPSTREAM_FAILURE_COUNTER -> counters s' c = counters s c.
Proof.
  unfold refresh_servstate_round. rewrite bind_lift. destruct (up_connect u); [|done]. rewrite bind_lift.
  destruct (serialize_ntp_packet upstream_query); [|done..]. rewrite bind_lift. destruct (up_send u); [|done].
  unfold inc. rewrite !bind_modify.
  assert (forall c, c <> UPSTREAM_QUERY_COUNTER ->
    counters (set_counters (fun f c' => if decide (c' = UPSTREAM_QUERY_COUNTER) then f c' + 1 else f c')
      (add_upstream_sent a s)) c = counters s c) as Hq by (intros c Hc; cbn; by rewrite decide_False).
  destruct (up_recv u) as [d|]; [|split_and!; [done..|]; intros c H1 H2; cbn; by rewrite !decide_False].
  destruct (parse_ntp_packet (take 2048 d)) as [q|e|p]; [|split_and!; [done..|]; intros c H1 H2; cbn; by rewrite !decide_False|].
  - rewrite bind_get_state, bind_lift. destruct (read_lock _); (split_and!; [done..|intros c H1 _; exact (Hq c H1)]).
  - split_and!; [done..|intros c H1 _; exact (Hq c H1)].
Qed.

Lemma knows_around KK VV i l s s' :
  KK (keys (srv (process s'))) -> VV (servstate (srv (process s'))) -> knows KK VV i l s -> around s s' -> knows KK VV i l s'.
Proof.
  intros HK HV (_ & _ & Hl) Ha. split; [done|]. split; [done|]. destruct Ha as [w s Hg|u s]; cbn [process guards srv] in *.
  - destruct l as [|n K]; [done|]. destruct Hl as [Hg' _]. rewrite Hg in Hg'. done.
  - destruct l as [|n K]; [done|]. destruct (refresh_effect u (srv (process s))) as (-> & _). done.
Qed.

(** Everything sent and counted is in the history. *)
Lemma recorded (c c' : Config Answer Shared (io_result unit * R)) :
  let before := srv (process (shared c)) in let after := srv (process (shared c')) in
  rtc (pstep hand around) c c' -> exists h, history c' = history c ++ h /\
  sent after = sent before ++ sends (map snd h) /\
  forall k, k <> UPSTREAM_QUERY_COUNTER -> k <> UPSTREAM_FAILURE_COUNTER ->
    counters after k = counters before k + total (incs k) (map snd h).
Proof.
  cbn zeta. induction 1 as [c|c c1 c' Hst _ (h & Hh & Hs & Hn)].
  { exists []. rewrite !app_nil_r. split_and!; [done..|]. intros. unfold total. cbn. lia. }
  destruct Hst as [c i o k a s' Hi Ha|c s' Hr]; cbn [history shared] in *.
  - exists ((i, o) :: h). split; [by rewrite Hh, <- app_assoc|]. cbn [map snd].
    unfold hand in Ha. destruct (act_effect o (srv (process (shared c)))) as (_ & _ & Hse & Hce).
    destruct (act o (srv (process (shared c)))) as [x y]. injection Ha as <- <-. cbn [process srv snd] in *. split.
    + by rewrite Hs, Hse, (sends_cons o (map snd h)), app_assoc.
    + intros n H1 H2. rewrite Hn, Hce, incs_cons by done. lia.
  - exists h. split; [done|]. destruct Hr as [w s Hg|u s]; cbn [process srv] in *.
    + unfold rotate_keys in *. destruct (inner _ _) as [oo l']. done.
    + destruct (refresh_effect u (srv (process s))) as (_ & Hse & Hce). rewrite Hse in Hs. split; [done|].
      intros n H1 H2. by rewrite Hn, Hce.
Qed.

Lemma history_ids n (c c' : Config Answer Shared (io_result unit * R)) :
  length (progs c) = n -> Forall (fun e => e.1 < n)%nat (history c) -> rtc (pstep hand around) c c' ->
  Forall (fun e => e.1 < n)%nat (history c').
Proof.
  intros Hl Hh Hst. cut (length (progs c') = n /\ Forall (fun e => e.1 < n)%nat (history c')); [by intros []|].
  induction Hst as [|c c1 c2 H1 _ IH]; [done|]. destruct H1 as [c i o k a s' Hi Ha|c s' Hr]; [|by apply IH].
  apply IH; cbn; [by rewrite length_insert|]. apply Forall_app. split; [done|]. apply Forall_singleton. cbn.
  rewrite <- Hl. by eapply lookup_lt_Some.
Qed.

(** Keys and states that the locks held at some moment of the execution. *)
Definition keys_of (c c' : Config Answer Shared (io_result unit * R)) (K : RwLock KeyRotator) : Prop :=
  exists s, visited hand around c c' s /\ keys (srv (process s)) = K.
Definition states_of (c c' : Config Answer Shared (io_result unit * R)) (V : RwLock ServerState) : Prop :=
  exists s, visited hand around c c' s /\ servstate (srv (process s)) = V.

(** C6: the threads of the NTP server are serializable.  Let any number of serving
    threads handle their datagrams, interleaved access by access with each other,
    with key rotations and with refreshes of the upstream state, panics included.
    When a thread is through, its outcome, the replies it sent and what it counted
    are those of its rounds run one after the other, each alone and as a whole, with
    keys and a state that the two locks held at some moment of the execution.  No
    reply is lost or altered, and each counter is the sum of what the threads
    counted. *)
Theorem threads_serializable (threads : list Serving) (y0 : Process R) c' :
  Forall (fun t => Forall (fun e => channels_open e.1) (arriving t)) threads ->
  let c0 := mkConfig (map thread_of threads) (mkShared y0 (fun _ => 0%nat)) [] in
  rtc (pstep hand around) c0 c' ->
  (forall i t y, threads !! i = Some t -> progs c' !! i = Some (Done y) ->
     serial (keys_of c0 c') (states_of c0 c') (is_ipv4 t) (arriving t) (thread_rng t) y
       (sends (ops_of i (history c'))) (fun k => total (incs k) (ops_of i (history c')))) /\
  sent (srv (process (shared c'))) = sent (srv y0) ++ sends (map snd (history c')) /\
  forall k, k <> UPSTREAM_QUERY_COUNTER -> k <> UPSTREAM_FAILURE_COUNTER ->
    counters (srv (process (shared c'))) k = counters (srv y0) k +
      foldr Z.add 0 (map (fun i => total (incs k) (ops_of i (history c'))) (seq 0 (length threads))).
Proof.
  intros Hch c0 Hst. split_and!.
  - intros i t y Ht Hi.
    set (KK := keys_of c0 c'). set (VV := states_of c0 c').
    set (Q i (y : io_result unit * R) ops := forall t, threads !! i = Some t ->
      serial KK VV (is_ipv4 t) (arriving t) (thread_rng t) y (sends ops) (fun k => total (incs k) ops)).
    assert (forall s, visited hand around c0 c' s -> KK (keys (srv (process s))) /\ VV (servstate (srv (process s)))) as Hv
      by (intros s Hs; split; by exists s).
    apply (threads_sound hand _ (may_answer KK VV) (knows KK VV) (knows_call KK VV) (knows_other KK VV)
      (fun i l s s' Hk Hr => knows_around KK VV i l s s' (proj1 (Hv s' (proj2 Hr))) (proj2 (Hv s' (proj2 Hr))) Hk (proj1 Hr))
      Q c0 c' i y); [|by apply visited_steps|done|done].
    assert (visited hand around c0 c' (shared c0)) as H0 by (by exists c0).
    intros j p Hj. cbn in Hj. rewrite list_lookup_fmap in Hj. destruct (threads !! j) as [tj|] eqn:Htj; [|done].
    injection Hj as <-. exists Free. destruct (Hv _ H0) as [HK HV]. split; [done|].
    eapply wp_weaken; [|apply (wp_run KK VV _ _ _ _ _ HK HV); by rewrite Forall_lookup in Hch; apply (Hch j)].
    intros l y' ops Hser t' Ht'. cbn [ops_of history c0]. unfold Q. assert (t' = tj) as -> by congruence. by apply Hser.
  - destruct (recorded c0 c' Hst) as (h & Hh & Hs & _). cbn in Hh. rewrite Hh. exact Hs.
  - intros k H1 H2. destruct (recorded c0 c' Hst) as (h & Hh & _ & Hn). cbn in Hh. rewrite Hh, (Hn k H1 H2).
    rewrite (total_split (incs k) (length threads) h); [done|]. rewrite <- Hh.
    apply (history_ids _ c0 c'); [cbn; by rewrite length_map|done|done].
Qed.
End System.
Arguments Shared : clear implicits.
Arguments Serving : clear implicits.

(** ** What the threads do to the lock of the keys

    [Locks] has the acquisitions of a response as a list of their own; they are those
    of the program. *)
Section LockPrograms.
Context {P : Profile} {A : Aead} {R : Type} {G : Rng R} {L : AeadLaws A} {GL : RngLaws G}.
Abbreviation T := (Code Answer R io_error).

Definition lock_ops (l : list Access) : list Op :=
  omap (fun o => match o with AcquireKeys => Some AcquireRead | ReleaseKeys => Some Release | _ => None end) l.

Lemma lock_ops_app l l' : lock_ops (l ++ l') = lock_ops l ++ lock_ops l'.
Proof. unfold lock_ops. by rewrite omap_app. Qed.
Lemma lock_ops_seen l : lock_ops (seen l) = lock_ops l.
Proof.
  induction l as [|o l IH]; [done|]. destruct (observable o) eqn:Ho.
  - rewrite seen_shown by done. change (lock_ops ([o] ++ seen l) = lock_ops ([o] ++ l)). by rewrite !lock_ops_app, IH.
  - rewrite seen_hidden, IH by done. by destruct o.
Qed.

Section Fixed.
Context (kr : KeyRotator) (V : RwLock ServerState).
Abbreviation here := (fixed (mkLock false kr) V).

Definition outcome {X} (t : T X) (r : R) : io_result X * R := (exec here (t r) tt).1.
Definition locks {X} (t : T X) (r : R) : list Op := lock_ops (calls here (t r) tt).

Lemma outcome_bind {X Y} (t : T X) (f : X -> T Y) r :
  outcome (t ≫= f) r =
  match outcome t r with (Ok x, r') => outcome (f x) r' | (Err e, r') => (Err e, r') | (Panic p, r') => (Panic p, r') end.
Proof. unfold outcome, mbind, Code_bind. rewrite exec_bind. by destruct (exec here (t r) tt) as [[[] ?] []]. Qed.
Lemma locks_bind {X Y} (t : T X) (f : X -> T Y) r :
  locks (t ≫= f) r = locks t r ++ match outcome t r with (Ok x, r') => locks (f x) r' | _ => [] end.
Proof.
  unfold locks, outcome, mbind, Code_bind. rewrite calls_bind, lock_ops_app. f_equal.
  by destruct (exec here (t r) tt) as [[[] ?] []].
Qed.
Lemma locks_guard {X} (f : KeyRotator -> T X) r :
  locks (with_guard f) r = AcquireRead :: locks (f kr) r ++ [Release] /\ outcome (with_guard f) r = outcome (f kr) r.
Proof.
  unfold locks, outcome, with_guard. cbn. rewrite calls_bind, exec_bind. split.
  - rewrite lock_ops_app. by destruct (exec here (f kr r) tt) as [y []].
  - by destruct (exec here (f kr r) tt) as [y []].
Qed.

(** Code without locks that goes on with [x]. *)
Definition goes {X} (t : T X) (x : X) : Prop := forall r, locks t r = [] /\ exists r', outcome t r = (Ok x, r').

Lemma locks_go {X Y} (t : T X) x (f : X -> T Y) r l :
  goes t x -> (forall r', locks (f x) r' = l) -> locks (t ≫= f) r = l.
Proof. intros Hg Hf. destruct (Hg r) as [Hl [r' Ho]]. rewrite locks_bind, Hl, Ho. apply Hf. Qed.

Definition lockless {X} (t : T X) : Prop := forall r, locks t r = [].
Lemma lockless_bind {X Y} (t : T X) (f : X -> T Y) : lockless t -> (forall x, lockless (f x)) -> lockless (t ≫= f).
Proof. intros Ht Hf r. rewrite locks_bind, Ht. destruct (outcome t r) as [[x|e|p] r']; [apply Hf|done..]. Qed.
Lemma lockless_measure ip ch el send : (forall m, lockless (send m)) -> lockless (measure_t ip ch el send).
Proof.
  intros Hs. apply lockless_bind; [done|]. intros a. destruct (str_contains ip a); [|done].
  destruct ch; [apply Hs|done].
Qed.

Create HintDb lockless.
#[local] Hint Extern 2 (lockless (_ ≫= _)) => apply lockless_bind : lockless.
#[local] Hint Extern 3 (lockless (match ?x with _ => _ end)) => destruct x : lockless.
#[local] Hint Extern 1 (forall _, lockless _) => intros : lockless.
#[local] Hint Extern 5 (lockless _) => done : lockless.

Lemma lockless_kod q : lockless (send_kiss_of_death_t q).
Proof. unfold send_kiss_of_death_t, kiss_of_death_t. auto 10 with lockless. Qed.
Lemma lockless_make_cookie k x : lockless (make_cookie_t k x).
Proof. unfold make_cookie_t. auto 10 with lockless. Qed.

Lemma goes_lift {X} (x : X) : goes (lift_t (Ok x)) x.
Proof. intros r. split; [done|]. by exists r. Qed.
Lemma goes_inc c : goes (inc_t c) tt.
Proof. intros r. split; [done|]. by exists r. Qed.
Lemma goes_measure ip el send : (forall m, goes (send m) tt) -> goes (measure_t ip true el send) tt.
Proof.
  intros Hs r. split; [apply lockless_measure; intros m r'; apply (Hs m)|].
  unfold measure_t. rewrite outcome_bind. change (outcome (access ReadAddr) r) with (Ok (E := io_error) "", r). cbv iota beta.
  destruct (str_contains ip ""); [apply Hs|by exists r].
Qed.

Context (k : NTSKeys) (v : bytes) (Hk : keys_wf k) (Hv : get kr (latest_key_id kr) = Some v).

Lemma make_cookie_goes r : exists c r', outcome (make_cookie_t k kr) r = (Ok (mkExt NTSCookie c), r').
Proof.
  unfold make_cookie_t. rewrite (latest_key_value_eq kr v Hv), outcome_bind.
  change (outcome (lift_t ?o) r) with (o, r). cbv iota beta. rewrite outcome_bind.
  change (outcome (on_rng_t ?m) r) with (m r). rewrite make_cookie_run by done. by eexists _, _.
Qed.

Lemma locks_loop exts resp r :
  exists resp' r', outcome (nts_response_loop_t k exts resp) r = (Ok resp', r') /\
    locks (nts_response_loop_t k exts resp) r ++ [AcquireRead; Release] = nts_locks exts.
Proof.
  revert resp r. induction exts as [|ext exts IH]; intros resp r; [by exists resp, r|].
  cbn [nts_response_loop_t]. unfold nts_locks. cbn [map concat].
  destruct (ext_type ext); try apply IH. case_bool_decide; [|apply IH].
  destruct (locks_guard (make_cookie_t k) r) as [Hl Ho]. rewrite outcome_bind, locks_bind, Hl, Ho, lockless_make_cookie.
  destruct (make_cookie_goes r) as (c & r1 & ->). destruct (IH (mkNts (nts_header resp) (auth_exts resp)
    (auth_enc_exts resp ++ [mkExt NTSCookie c])) r1) as (resp' & r' & Hout & Hlocks). exists resp', r'.
  split; [done|]. rewrite <- app_assoc, Hlocks. done.
Qed.

Lemma locks_process_nts env h q r :
  locks (process_nts_t env h k q) r =
  match parse_nts_packet q (c2s k) with Ok packet => nts_locks (auth_exts packet) | _ => [] end.
Proof.
  unfold process_nts_t. destruct (parse_nts_packet q (c2s k)) as [packet| |]; [| |done].
  - unfold nts_response_t. rewrite locks_bind. destruct (locks_loop (auth_exts packet) (mkNts h [] []) r) as (resp & r1 & Ho & Hl).
    rewrite locks_bind, Ho.
    match goal with |- context [locks (with_guard ?f) r1] => destruct (locks_guard f r1) as [Hg _];
      assert (locks (f kr) r1 = []) as Hn by (apply lockless_bind; [apply lockless_make_cookie|auto with lockless]); rewrite Hg, Hn end.
    rewrite <- Hl, <- app_assoc. f_equal. match goal with |- context [match ?o with _ => _ end] => by destruct o as [[] ?] end.
  - apply lockless_bind; [done|intros; apply lockless_kod].
Qed.
End Fixed.

Lemma goes_read_state kr V : goes kr V (access ReadState) V.
Proof. intros r. split; [done|]. by exists r. Qed.

Lemma locks_response env query (s : Srv R) r_time t_time d r :
  ready env s r_time t_time d ->
  locks (guarded (keys s)) (servstate s) (response_t env query r_time t_time) r = response_locks (guarded (keys s)) query.
Proof.
  intros Hrd. pose proof (fun q => create_header_ok env s q r_time t_time d Hrd) as Hh.
  destruct Hrd as ((Hp & _ & [v Hv]) & _ & _ & _ & _ & _ & _ & _ & (ip & Hip) & Hc1 & Hc2).
  unfold response_t, response_locks. rewrite Hc1, Hc2, Hip.
  destruct (parse_ntp_packet query) as [q|e|p]; [|done..].
  eapply locks_go; [apply goes_lift|intros r1]. eapply locks_go; [apply goes_read_state|intros r2]. rewrite Hh.
  eapply locks_go; [apply goes_lift|intros r3]. eapply locks_go; [apply goes_inc|intros r4].
  case_bool_decide; [done|]. eapply locks_go; [apply goes_lift|intros r5]. eapply locks_go; [apply goes_lift|intros r6].
  eapply locks_go; [apply goes_measure; intros m r'; split; [done|by exists r']|intros r7].
  destruct (is_nts_packet q); [|done]. eapply locks_go; [apply goes_inc|intros r8].
  destruct (extract_extension q NTSCookie) as [c|]; [|done]. eapply locks_go; [apply goes_lift|intros r9].
  destruct (get_keyid (contents c)) as [id|]; [|apply lockless_bind; [done|intros _; apply lockless_kod]].
  match goal with |- context [with_guard ?f] => destruct (locks_guard (guarded (keys s)) (servstate s) f r9) as [-> _] end.
  cbn [app]. f_equal. f_equal.
  destruct (get (guarded (keys s)) id) as [key|]; [|apply lockless_bind; [done|intros _; apply lockless_kod]].
  destruct (eat_cookie_total (E := io_error) (contents c) key) as [o Ho]. rewrite Ho.
  eapply locks_go; [apply goes_lift|intros r10].
  destruct o as [k|]; [|apply lockless_bind; [done|intros _; apply lockless_kod]].
  assert (keys_wf k) as Hk by (by apply eat_cookie_Some in Ho as (? & _)).
  rewrite locks_bind, (locks_process_nts _ _ k v Hk Hv).
  destruct (outcome _ _ _ _) as [[x| |] r']; [|by rewrite app_nil_r..].
  rewrite lockless_bind; [by rewrite app_nil_r|by apply lockless_measure|done].
Qed.

(** C19: the acquisitions of [Locks] are those of the code.  When nothing around the
    server is broken, the accesses of a response to the lock of the keys, in their
    order, are the acquisitions and releases that [response_locks] lists for the
    datagram: the guard of the first read is held around those of the cookies. *)
Theorem lock_program env query (s : Srv R) r_time t_time d :
  ready env s r_time t_time d ->
  lock_ops (calls act (response_t env query r_time t_time (rng s)) s) = response_locks (guarded (keys s)) query.
Proof.
  intros Hrd. rewrite <- (locks_response env query s r_time t_time d (rng s) Hrd).
  destruct Hrd as ((Hp & _) & _ & _ & _ & _ & _ & _ & _ & _ & Hch).
  destruct (act_fixed (response_t env query r_time t_time (rng s)) Fresh true _ s (ltac:(by intros [n ?]))
    (closed_response env query r_time t_time Hch (rng s))) as [_ Hc].
  unfold locks. rewrite <- lock_ops_seen, Hc, lock_ops_seen. by destruct (keys s) as [[] kr].
Qed.
End LockPrograms.

(** ** The shared address *)
Section Races.
Context {P : Profile} {A : Aead} {H : Hmac} {R ME : Type} {G : Rng R}.

Definition srv_of (s : Shared R) : Srv R := srv (process s).

(** A datagram [r] from [src] that is a plain client query, which the server, with
    its surroundings in order and [ip] for the measurement client, answers with [m]. *)
Definition plain_arrival (ip : string) (s : Srv R) (ipv4 : bool) (env : Env) (src : string) (r : RecvMsg)
    (m : SendMsg) : Prop :=
  exists q d rt, address r = Some src /\
    receive_system (scan_cmsgs ipv4 (cmsgs r) (0, 0) []).1 = Ok rt /\ ready env s rt (transmit_time env) d /\
    experiment env = Some (Some ip) /\
    parse_ntp_packet (take (Z.to_nat BUF_SIZE) (datagram r)) = Ok q /\ mode (header q) = Client /\
    is_nts_packet q = false /\ sendmsg env m = None /\
    m = mkSend (serialize_header (reply_header (guarded (servstate s)) q rt (transmit_time env) d))
          (List.filter (pktinfo ipv4) (cmsgs r)) src.

(** What its thread does: first the address, then, having read [addr] back, the rest. *)
Abbreviation move o a := (existT (P := Answer) o a).
Definition measurement (ip addr : string) (env : Env) : list string :=
  if str_contains ip addr then [pretty (ntp_elapsed env)] else [].
Definition head_moves (src : string) : list (sigT Answer) := [move (SetAddr src) tt].
Definition tail_moves (ip : string) (V : RwLock ServerState) (env : Env) (addr : string) (m : SendMsg) :
    list (sigT Answer) :=
  [move ReadState V; move (Inc QUERY_COUNTER) tt; move ReadAddr addr] ++
  map (fun x => move (SendNtp x) tt) (measurement ip addr env) ++ [move (Sendmsg m) tt].

#[local] Ltac reduce := cbn -[create_header run_server_t serialize_header bool_decide is_nts_packet mode header str_contains pretty].

Lemma plain_follows ip (s : Srv R) ipv4 env src r m addr rest g :
  plain_arrival ip s ipv4 env src r m ->
  follows (run_server_t ipv4 ((env, Some r) :: rest) g)
    (head_moves src ++ tail_moves ip (servstate s) env addr m) (run_server_t ipv4 rest g).
Proof.
  intros (q & d & rt & Ha & Hrt & Hrd & He & Hq & Hm & Hn & Hs & Em).
  pose proof (create_header_ok _ _ q _ _ _ Hrd) as Hh.
  destruct Hrd as (_ & _ & _ & _ & _ & _ & _ & _ & _ & Hch & _).
  pose proof (scan_cmsgs_msgs ipv4 (cmsgs r) (0, 0) []) as Hmsgs. cbn in Hmsgs.
  cbn [run_server_t]. unfold run_server_round_t, response_t, measure_t, inc_t, access, on_result_t, lift_t.
  rewrite Ha. destruct (scan_cmsgs ipv4 (cmsgs r) (0, 0) []) as [rtv msgs]. cbn in Hrt, Hmsgs. subst msgs.
  rewrite Hrt, Hq, He, Hch. cbn [unwrap].
  unfold head_moves, tail_moves, measurement.
  reduce. eexists. split; [reflexivity|].
  reduce. eexists. split; [reflexivity|].
  reduce. rewrite Hh. reduce. rewrite Hm, bool_decide_false by (intros Hx; by apply Hx). reduce. eexists. split; [reflexivity|].
  reduce. eexists. split; [reflexivity|].
  rewrite Hn. destruct (str_contains ip addr); reduce.
  - eexists. split; [reflexivity|]. reduce. rewrite <- Em, Hs. reduce. by eexists.
  - rewrite <- Em, Hs. reduce. by eexists.
Qed.

(** The shared state with another [Srv]. *)
Definition put (s : Shared R) (v : Srv R) : Shared R :=
  mkShared (mkProcess v (proc_rotations (process s)) (proc_failures (process s))) (guards s).

(** What the measurements depend on. *)
Definition looks (V : RwLock ServerState) (addr : string) (replies : list SendMsg) (meas : list string)
    (s : Shared R) : Prop :=
  servstate (srv_of s) = V /\ client_addr (srv_of s) = addr /\ sent (srv_of s) = replies /\
  ntp_meas (srv_of s) = meas.

Lemma play_head i src V addr replies meas s :
  looks V addr replies meas s ->
  exists s', plays hand (map (pair i) (head_moves src)) s s' /\ looks V src replies meas s'.
Proof.
  intros (? & _ & ? & ?). exists (put s (set_client_addr src (srv_of s))).
  split; [eexists; by split|by split_and!].
Qed.

Lemma play_tail i ip env m V addr replies meas s :
  looks V addr replies meas s ->
  exists s', plays hand (map (pair i) (tail_moves ip V env addr m)) s s' /\
    looks V addr (replies ++ [m]) (meas ++ measurement ip addr env) s'.
Proof.
  intros (<- & <- & <- & <-). set (v := srv_of s).
  set (v1 := set_counters (fun f c' => if decide (c' = QUERY_COUNTER) then f c' + 1 else f c') v).
  unfold tail_moves, measurement. destruct (str_contains ip (client_addr v)) eqn:Hc; cbn [map app].
  - exists (put s (add_sent m (add_ntp_meas (pretty (ntp_elapsed env)) v1))). split; [|done].
    exists (put s v). split; [by destruct s as [[] ?]|]. exists (put s v1). split; [done|].
    exists (put s v1). split; [done|]. eexists. split; [done|]. by eexists.
  - exists (put s (add_sent m v1)). split; [|rewrite app_nil_r; done].
    exists (put s v). split; [by destruct s as [[] ?]|]. exists (put s v1). split; [done|].
    exists (put s v1). split; [done|]. by eexists.
Qed.

(** The three orders: the client's round before the stranger's; the client's round
    within the stranger's; and the stranger's address set within the client's round. *)
Section Orders.
Context (c : Config Answer (Shared R) (io_result unit * R)) (i j : nat) (ip client stranger : string).
Context (v4i v4j : bool) (ei ej : Env) (ri rj : RecvMsg) (mi mj : SendMsg).
Context (resti restj : list (Env * option RecvMsg)) (gi gj : R).
Hypothesis Hne : i <> j.
Hypothesis Hi : progs c !! i = Some (run_server_t v4i ((ei, Some ri) :: resti) gi).
Hypothesis Hj : progs c !! j = Some (run_server_t v4j ((ej, Some rj) :: restj) gj).
Hypothesis Hpi : plain_arrival ip (srv_of (shared c)) v4i ei client ri mi.
Hypothesis Hpj : plain_arrival ip (srv_of (shared c)) v4j ej stranger rj mj.

(** Both threads have answered and wait for their next datagram, every other thread
    is where it was, and [meas] was measured. *)
Definition answered_both (meas : list string) (c' : Config Answer (Shared R) (io_result unit * R)) : Prop :=
  progs c' = <[i := run_server_t v4i resti gi]> (<[j := run_server_t v4j restj gj]> (progs c)) /\
  sent (srv_of (shared c')) = sent (srv_of (shared c)) ++ [mi; mj] /\
  ntp_meas (srv_of (shared c')) = ntp_meas (srv_of (shared c)) ++ meas.

Let V := servstate (srv_of (shared c)).

(** A schedule made of the four blocks, each thread's head before its tail. *)
Lemma blocks_run sched ai aj addr meas s' :
  plays hand sched (shared c) s' ->
  looks V addr (sent (srv_of (shared c)) ++ [mi; mj]) (ntp_meas (srv_of (shared c)) ++ meas) s' -> Forall (fun e => e.1 = i \/ e.1 = j) sched ->
  moves_of i sched = head_moves client ++ tail_moves ip V ei ai mi ->
  moves_of j sched = head_moves stranger ++ tail_moves ip V ej aj mj ->
  exists c', rtc (pstep hand (around (ME := ME))) c c' /\ answered_both meas c'.
Proof.
  intros Hp (_ & _ & Hsent & Hmeas) Hall Hmi Hmj.
  cut (exists c', rtc (pstep hand (around (ME := ME))) c c' /\
    progs c' = <[i := run_server_t v4i resti gi]> (<[j := run_server_t v4j restj gj]> (progs c)) /\ shared c' = s').
  { intros (c' & Hst & Hpr & Hsh). exists c'. split; [exact Hst|]. unfold answered_both. by rewrite Hsh. }
  apply lookup_lt_Some in Hi as Hli. apply lookup_lt_Some in Hj as Hlj.
  apply (schedule_runs _ _ sched); [done| |by rewrite !length_insert|].
  { eapply Forall_impl; [exact Hall|]. intros e [->| ->]; done. }
  intros k p p' Hk Hk'. destruct (decide (k = i)) as [->|Hki].
  - rewrite list_lookup_insert_eq in Hk' by (by rewrite length_insert). injection Hk' as <-.
    assert (p = run_server_t v4i ((ei, Some ri) :: resti) gi) as -> by congruence.
    rewrite Hmi. by apply (plain_follows ip (srv_of (shared c))).
  - rewrite list_lookup_insert_ne in Hk' by done. destruct (decide (k = j)) as [->|Hkj].
    + rewrite list_lookup_insert_eq in Hk' by done. injection Hk' as <-.
      assert (p = run_server_t v4j ((ej, Some rj) :: restj) gj) as -> by congruence.
      rewrite Hmj. by apply (plain_follows ip (srv_of (shared c))).
    + rewrite list_lookup_insert_ne in Hk' by done.
      assert (moves_of k sched = []) as ->; [|cbn; congruence].
      clear -Hall Hki Hkj. unfold moves_of. induction Hall as [|e l He _ IH]; [done|].
      rewrite filter_cons_False; [done|]. destruct He as [->| ->]; done.
Qed.

Let hi := map (pair i) (head_moves client).
Let hj := map (pair j) (head_moves stranger).
Let ti addr := map (pair i) (tail_moves ip V ei addr mi).
Let tj addr := map (pair j) (tail_moves ip V ej addr mj).

Lemma looks_now : looks V (client_addr (srv_of (shared c))) (sent (srv_of (shared c))) (ntp_meas (srv_of (shared c))) (shared c).
Proof. by split_and!. Qed.

#[local] Ltac by_blocks :=
  unfold hi, hj, ti, tj;
  rewrite ?moves_of_app, ?moves_of_block, ?Forall_app, ?Forall_fmap; repeat case_decide; try done;
  split_and?; try (apply Forall_true; cbn; auto); by rewrite ?app_nil_r.

Lemma one_after_the_other :
  exists c', rtc (pstep hand (around (ME := ME))) c c' /\
    answered_both (measurement ip client ei ++ measurement ip stranger ej) c'.
Proof.
  destruct (play_head i client _ _ _ _ _ looks_now) as (s1 & P1 & L1).
  destruct (play_tail i ip ei mi _ _ _ _ _ L1) as (s2 & P2 & L2).
  destruct (play_head j stranger _ _ _ _ _ L2) as (s3 & P3 & L3).
  destruct (play_tail j ip ej mj _ _ _ _ _ L3) as (s4 & P4 & L4). rewrite <- !app_assoc in L4.
  apply (blocks_run (hi ++ ti client ++ hj ++ tj stranger) client stranger stranger _ s4);
    [by eauto using plays_app|exact L4|by_blocks..].
Qed.

Lemma one_within_the_other :
  exists c', rtc (pstep hand (around (ME := ME))) c c' /\
    answered_both (measurement ip client ei ++ measurement ip client ej) c'.
Proof.
  destruct (play_head j stranger _ _ _ _ _ looks_now) as (s1 & P1 & L1).
  destruct (play_head i client _ _ _ _ _ L1) as (s2 & P2 & L2).
  destruct (play_tail i ip ei mi _ _ _ _ _ L2) as (s3 & P3 & L3).
  destruct (play_tail j ip ej mj _ _ _ _ _ L3) as (s4 & P4 & L4). rewrite <- !app_assoc in L4.
  apply (blocks_run (hj ++ hi ++ ti client ++ tj client) client client client _ s4);
    [by eauto using plays_app|exact L4|by_blocks..].
Qed.

Lemma one_across_the_other :
  exists c', rtc (pstep hand (around (ME := ME))) c c' /\
    answered_both (measurement ip stranger ei ++ measurement ip stranger ej) c'.
Proof.
  destruct (play_head i client _ _ _ _ _ looks_now) as (s1 & P1 & L1).
  destruct (play_head j stranger _ _ _ _ _ L1) as (s2 & P2 & L2).
  destruct (play_tail i ip ei mi _ _ _ _ _ L2) as (s3 & P3 & L3).
  destruct (play_tail j ip ej mj _ _ _ _ _ L3) as (s4 & P4 & L4). rewrite <- !app_assoc in L4.
  apply (blocks_run (hi ++ hj ++ ti stranger ++ tj stranger) stranger stranger stranger _ s4);
    [by eauto using plays_app|exact L4|by_blocks..].
Qed.
End Orders.

(** C20: the measurements race.  In any state of the server's threads in which two of
    them are about to receive one plain query each, the one from an address in which
    [meas_client_ip] occurs and the other from one in which it does not, the queries
    can be answered one after the other with one measurement, as they should.  But
    [CLIENT_ADDR] is shared: there is also an interleaving in which the stranger's
    query is measured, too, and one in which nothing is measured.  All three send the
    same replies and leave every thread at the same point. *)
Theorem client_addr_races c i j ip client stranger v4i v4j ei ej ri rj mi mj resti restj gi gj :
  i <> j ->
  progs c !! i = Some (run_server_t v4i ((ei, Some ri) :: resti) gi) ->
  progs c !! j = Some (run_server_t v4j ((ej, Some rj) :: restj) gj) ->
  plain_arrival ip (srv_of (shared c)) v4i ei client ri mi ->
  plain_arrival ip (srv_of (shared c)) v4j ej stranger rj mj ->
  str_contains ip client = true -> str_contains ip stranger = false ->
  let answered meas := exists c', rtc (pstep hand (around (ME := ME))) c c' /\
    answered_both c i j v4i v4j mi mj resti restj gi gj meas c' in
  answered [pretty (ntp_elapsed ei)] /\
  answered [pretty (ntp_elapsed ei); pretty (ntp_elapsed ej)] /\
  answered [].
Proof.
  intros Hne Hi Hj Hpi Hpj Hc Hs answered. unfold answered.
  pose proof (one_after_the_other c i j ip client stranger v4i v4j ei ej ri rj mi mj resti restj gi gj Hne Hi Hj Hpi Hpj) as H1.
  pose proof (one_within_the_other c i j ip client stranger v4i v4j ei ej ri rj mi mj resti restj gi gj Hne Hi Hj Hpi Hpj) as H2.
  pose proof (one_across_the_other c i j ip client stranger v4i v4j ei ej ri rj mi mj resti restj gi gj Hne Hi Hj Hpi Hpj) as H3.
  unfold measurement in *. rewrite Hc, Hs in *. by split_and!.
Qed.
End Races.

(** ** Concrete threads *)
Module ThreadsExample.
Import Toy ServerExample.
Abbreviation machine := (pstep (hand (R := Z)) (around (P := Debug) (H := toy_hmac) (ME := unit))).

(** Two threads with one plain query each, from the measurement client and from
    another one. *)
Definition from (addr : string) : option RecvMsg := Some (mkRecv plain (Some addr) [ScmTimestamp 1700000000 123456]).
Definition serving (addr : string) (r : Z) : Serving Z := mkServing true [(env, from addr)] r.
Definition client : string := "10.0.0.1:4123".
Definition stranger : string := "10.0.0.77:4123".
Definition start : Config Answer (Shared Z) (io_result unit * Z) :=
  mkConfig (map (thread_of (P := Debug) (A := toy_aead)) [serving client 5; serving stranger 6])
    (mkShared (mkProcess srv 0 0) (fun _ => 0%nat)) [].

Definition after (turns : list nat) : Config Answer (Shared Z) (io_result unit * Z) :=
  default start (run_turns hand turns start).

Lemma after_steps turns : is_Some (run_turns hand turns start) -> rtc machine start (after turns).
Proof. intros [c Hc]. unfold after. rewrite Hc. by apply (run_turns_steps _ _ turns). Qed.

(** The answer to the query, to either address. *)
Definition answer (addr : string) : SendMsg :=
  mkSend (serialize_header (reply_header (guarded (servstate srv)) (parsed plain)
    (1700000000 * NANOS + 123456000) noon 9)) [] addr.
Lemma arrival addr :
  plain_arrival (P := Debug) "10.0.0.1" srv true env addr
    (mkRecv plain (Some addr) [ScmTimestamp 1700000000 123456]) (answer addr).
Proof.
  exists (parsed plain), 9, (1700000000 * NANOS + 123456000). split_and!; try by vm_compute.
  destruct srv_ready as (? & ? & ? & ? & ? & ? & ? & ? & ? & ? & ?).
  split_and!; try assumption; by vm_compute.
Qed.
End ThreadsExample.

Import Toy ServerExample ThreadsExample.

Lemma client_addr_races_witness :
  let answered meas := exists c', rtc machine start c' /\
    answered_both (P := Debug) (A := toy_aead) start 0 1 true true (answer client) (answer stranger) [] [] 5 6 meas c' in
  answered ["100"] /\ answered ["100"; "100"] /\ answered [].
Proof.
  exact (client_addr_races (P := Debug) (A := toy_aead) (H := toy_hmac) (ME := unit) start 0 1 "10.0.0.1"
    client stranger true true env env (mkRecv plain (Some client) [ScmTimestamp 1700000000 123456])
    (mkRecv plain (Some stranger) [ScmTimestamp 1700000000 123456]) (answer client) (answer stranger) [] [] 5 6
    ltac:(discriminate) eq_refl eq_refl (arrival client) (arrival stranger) eq_refl eq_refl).
Defined.

Lemma threads_serializable_witness :
  let c := after [1; 0; 0; 0; 0; 0; 0; 1; 1; 1; 1; 1]%nat in
  exists y, progs c !! 0%nat = Some (Done y) /\
    serial (P := Debug) (A := toy_aead) (keys_of (P := Debug) (H := toy_hmac) (ME := unit) start c)
      (states_of (P := Debug) (H := toy_hmac) (ME := unit) start c) true [(env, from client)] 5 y
      (sends (ops_of 0 (history c))) (fun k => total (incs k) (ops_of 0 (history c))) /\
    length (sends (ops_of 0 (history c))) = 1%nat.
Proof.
  intros c. destruct (threads_serializable (P := Debug) (A := toy_aead) (H := toy_hmac) (ME := unit)
    [serving client 5; serving stranger 6] (mkProcess srv 0 0) c) as [Hser _].
  - by repeat (apply Forall_cons_2 || apply Forall_nil_2).
  - apply after_steps. vm_compute. by eexists.
  - exists (Ok tt, 5). assert (progs c !! 0%nat = Some (Done (Ok tt, 5))) as Hd by (vm_compute; reflexivity).
    split; [exact Hd|]. split; [exact (Hser 0%nat (serving client 5) _ eq_refl Hd)|by vm_compute].
Defined.

Lemma lock_program_witness :
  lock_ops (calls act (response_t (P := Debug) (A := toy_aead) env query noon noon 5) srv) =
    [AcquireRead; AcquireRead; Release; AcquireRead; Release; Release] /\
  response_locks (P := Debug) (A := toy_aead) kr query = [AcquireRead; AcquireRead; Release; AcquireRead; Release; Release].
Proof.
  assert (response_locks (P := Debug) (A := toy_aead) kr query =
    [AcquireRead; AcquireRead; Release; AcquireRead; Release; Release]) as Hl by (by vm_compute).
  split; [|exact Hl]. rewrite <- Hl. exact (lock_program (P := Debug) (L := toy_aead_laws) env query srv noon noon 9 srv_ready).
Defined.
