(* ===== verification/ClientCommand.v ===== *)
(** * The client subcommand

    [sub_command/client.rs]: the experiment that the [client] subcommand runs.  It
    reads its parameters, paces key exchanges at the configured rate, runs each one
    with its time transfers on a thread of a pool, counts what fails and sends what
    it measures to the writers of the result files, and at the end writes down the
    rate of the next run.  This file has the parameters, the counters and channels,
    and one job as a whole; what it sees of the network is a [JobEnv].  The jobs
    interleaved are in [ClientPool], and [run] is in [ClientRun]. *)

From stdpp Require Import prelude list numbers strings pretty.
From Stdlib Require Import Strings.Byte.
From S2P Require Import Prelude Words Crypto Float64 Time Cookie NtpServer KeRecords KeClient NtpClient.
From S2P Require Import IpAddr Config.

Open Scope Z_scope.

(** ** [i32] *)
Definition swrap (w z : Z) : Z := (z + 2 ^ (w - 1)) mod 2 ^ w - 2 ^ (w - 1).
Definition fit_i32 {P : Profile} {E} (z : Z) : res E Z :=
  if bool_decide (in_swidth 32 z) then Ok z
  else if overflow_checks then Panic ArithOverflow else Ok (swrap 32 z).

(** [str::parse::<i32>]: decimal digits after an optional sign. *)
Fixpoint parse_signed_digits (sign acc : Z) (s : bytes) : option Z :=
  match s with
  | [] => Some acc
  | b :: s =>
    d ← digit b;
    let acc := acc * 10 + sign * d in
    if bool_decide (in_swidth 32 acc) then parse_signed_digits sign acc s else None
  end.
Definition parse_i32 (s : bytes) : option Z :=
  match s with
  | [] => None
  | b :: s' =>
    if bool_decide (b = x2b) then match s' with [] => None | _ => parse_signed_digits 1 0 s' end
    else if bool_decide (b = x2d) then match s' with [] => None | _ => parse_signed_digits (-1) 0 s' end
    else parse_signed_digits 1 0 s
  end.
(** [i32::to_string]. *)
Definition show_i32 (n : Z) : bytes := if bool_decide (n < 0) then x2d :: show_dec (- n) else show_dec n.

(** ** Arguments *)
Record Matches := mkMatches { value_of : string -> option string; is_present : string -> bool }.

Definition get_use_ipv4 (matches : Matches) : option bool :=
  let ipv4 := is_present matches "ipv4" in
  if ipv4 then Some true
  else if is_present matches "ipv6" then Some false else None.

Definition load_tls_certs (env : ConfigEnv) (path : string) : res ConfigError (list bytes) :=
  file ← wrap_err (result (file_open env path));
  match pem_certs env file with
  | Some certs => Ok certs
  | None => Err (Message ("could not load certificate from " +:+ path))
  end.

(** A certificate file that cannot be loaded is passed over; one without a
    certificate is not. *)
Definition get_trusted_cert {E} (env : ConfigEnv) (cert_file : option string) : res E (option bytes) :=
  match cert_file with
  | Some file =>
    match load_tls_certs env file with
    | Ok certs => cert ← index certs 0; Ok (Some cert)
    | Err _ => Ok None
    | Panic p => Panic p
    end
  | None => Ok None
  end.

(** ** The rate *)

(** [f64] with an infinity, which a rate of zero leads to. *)
Inductive rate := Finite (x : f64) | Infinite.
Definition fneg (x : f64) : f64 := F64 (- fm x) (fe x).
(** [n as f64] and division of floats with signs. *)
Definition f64_of_int (n : Z) : f64 := if bool_decide (n < 0) then fneg (f64_of_Z (- n)) else f64_of_Z n.
Definition fdiv_signed (x y : f64) : f64 :=
  if bool_decide (fm y < 0) then fdiv (fneg x) (fneg y) else fdiv x y.

Definition inter_request_time (reqs_per_second : Z) : rate :=
  if bool_decide (reqs_per_second = 0) then Infinite
  else Finite (fmul (fdiv_signed (f64_of_Z 1) (f64_of_int reqs_per_second)) (f64_of_Z 1000)).

(** [f64::round], half away from zero, and the saturating casts. *)
Definition fround_signed (x : f64) : Z := if bool_decide (fm x < 0) then - fround (fneg x) else fround x.
Definition as_i32 (n : Z) : Z := Z.max (- 2 ^ 31) (Z.min (2 ^ 31 - 1) n).
Definition as_u64 (n : Z) : Z := Z.max 0 (Z.min (2 ^ 64 - 1) n).

Definition get_total_requests (total_runtime_ms : Z) (irt : rate) : Z :=
  match irt with
  | Infinite => 0
  | Finite x => as_i32 (fround_signed (fdiv_signed (f64_of_int total_runtime_ms) x))
  end.
Definition sleep_ms (irt : rate) : Z :=
  match irt with
  | Infinite => 2 ^ 64 - 1
  | Finite x => as_u64 (fround_signed x)
  end.

(** ** Parameters of the experiment *)
Record Plan := mkPlan {
  warmup_runs : Z;
  num_runs : Z;
  total_runtime_ms : Z;
  exchanges_per_cookie : Z;
  step_size : Z;
  reqs_per_second : Z;
  num_clients : Z;
  is_aux_client : bool;
  aux_req_rate : Z;
  num_aux_clients : Z;
}.

Definition get_i32 {E} (settings : Settings) (key : string) : res E Z :=
  s ← unwrap_res (result (get_string settings key)); unwrap (parse_i32 (text s)).

(** [File::open], [read_to_string], [parse]. *)
Definition read_i32 {E} (read : string -> option bytes) (name : string) : res E Z :=
  tmp ← unwrap (read name); unwrap (parse_i32 tmp).

Definition read_plan {E} (experiment : ConfigError + Settings) (read : string -> option bytes) : res E Plan :=
  experiment_config ← unwrap_res (result experiment);
  warmup_runs ← get_i32 experiment_config "warmup_runs";
  num_runs ← get_i32 experiment_config "num_runs";
  total_runtime_ms ← get_i32 experiment_config "total_runtime_ms";
  exchanges_per_cookie ← get_i32 experiment_config "exchanges_per_cookie";
  step_size ← get_i32 experiment_config "step_size";
  reqs_per_second ← read_i32 read "tests/reqs_per_second";
  num_clients ← read_i32 read "tests/num_clients";
  aux_yaml ← unwrap_res (result (get_string experiment_config "is_aux_client"));
  let is_aux_client := str_contains "true" aux_yaml in
  aux_req_rate ← get_i32 experiment_config "aux_req_rate";
  num_aux_clients ← read_i32 read "tests/num_aux_clients";
  let reqs_per_second := if is_aux_client then aux_req_rate else reqs_per_second in
  Ok (mkPlan warmup_runs num_runs total_runtime_ms exchanges_per_cookie step_size reqs_per_second
        num_clients is_aux_client aux_req_rate num_aux_clients).

(** ** Counters, channels and files *)
Inductive ErrorCounter := KE_TIMEOUT | KE_OS_FAILURE | KE_OTHER | NTP_TIMEOUT | NTP_OS_FAILURE | NTP_OTHER.
#[export] Instance ErrorCounter_eq_dec : EqDecision ErrorCounter.
Proof. solve_decision. Defined.

(** Whether a sender is set up and its receiver still there. *)
Record Channels := mkChannels { ke_open : bool; ntp_open : bool; err_open : bool }.

(** What a job sees: the network of its key exchange, that of each time transfer,
    the durations measured, and the channels. *)
Record JobEnv := mkJobEnv {
  job_ke : KeClientEnv;
  job_ke_nanos : Z;
  job_ntp : nat -> NtpClientEnv;
  job_ntp_nanos : nat -> Z;
  job_channels : Channels;
}.

Section Client.
Context {P : Profile} {A : Aead} {R : Type} {G : Rng R} {I : IpText}.

(** The printed errors of the two clients. *)
Context (ke_error_text : ClientError -> string) (ntp_error_text : NtpClientError -> string).

(** The counters, what was sent on the three channels, the random generator, and
    the file [tests/reqs_per_second]. *)
Record Client := mkClient {
  errors : ErrorCounter -> Z;
  ke_lines : list string;
  ntp_lines : list string;
  err_lines : list string;
  client_rng : R;
  rate_file : bytes;
}.

Abbreviation MC := (M Client unit).

(** [fetch_add(1)]. *)
Definition count (c : ErrorCounter) : MC unit :=
  modify (fun s => mkClient (fun c' => if decide (c' = c) then swrap 32 (errors s c' + 1) else errors s c')
                     (ke_lines s) (ntp_lines s) (err_lines s) (client_rng s) (rate_file s)).
Definition send (open : bool) (f : Client -> Client) : MC unit :=
  if open then modify f else lift (Panic UnwrapFailed).
Definition send_ke (ch : Channels) (m : string) : MC unit :=
  send (ke_open ch) (fun s => mkClient (errors s) (ke_lines s ++ [m]) (ntp_lines s) (err_lines s) (client_rng s) (rate_file s)).
Definition send_ntp (ch : Channels) (m : string) : MC unit :=
  send (ntp_open ch) (fun s => mkClient (errors s) (ke_lines s) (ntp_lines s ++ [m]) (err_lines s) (client_rng s) (rate_file s)).
Definition send_err (ch : Channels) (m : string) : MC unit :=
  send (err_open ch) (fun s => mkClient (errors s) (ke_lines s) (ntp_lines s) (err_lines s ++ [m]) (client_rng s) (rate_file s)).
(** [run_nts_ntp_client], whose result is examined later. *)
Definition ntp_exchange (env : NtpClientEnv) (state : NtsKeResult) : MC (res NtpClientError NtpResult) := fun s =>
  let '(r, g) := run_nts_ntp_client env state (client_rng s) in
  let s := mkClient (errors s) (ke_lines s) (ntp_lines s) (err_lines s) g (rate_file s) in
  match r with Panic p => (Panic p, s) | _ => (Ok r, s) end.

Definition classify (timeout os other : ErrorCounter) (err : string) : ErrorCounter :=
  if str_contains "time" err then timeout else if str_contains "os" err then os else other.

(** [for _ in 0..exchanges_per_cookie]: the same state, and so the same first
    cookie, every time. *)
Fixpoint transfers (env : JobEnv) (state : NtsKeResult) (n i : nat) : MC unit :=
  match n with
  | O => mret tt
  | S n =>
    r ← ntp_exchange (job_ntp env i) state;
    _ ← send_ntp (job_channels env) (pretty (job_ntp_nanos env i));
    match r with
    | Err err =>
      let err := ntp_error_text err in
      _ ← count (classify NTP_TIMEOUT NTP_OS_FAILURE NTP_OTHER err);
      send_err (job_channels env) ("NTP: " +:+ err)
    | _ => transfers env state n (S i)
    end
  end.

(** One job of the pool. *)
Definition job (config : ClientConfig) (exchanges : Z) (env : JobEnv) : MC unit :=
  match run_nts_ke_client (job_ke env) config with
  | Panic p => lift (Panic p)
  | Err err =>
    let err := ke_error_text err in
    _ ← count (classify KE_TIMEOUT KE_OS_FAILURE KE_OTHER err);
    send_err (job_channels env) ("KE: " +:+ err)
  | Ok state =>
    _ ← send_ke (job_channels env) (pretty (job_ke_nanos env));
    transfers env state (Z.to_nat exchanges) 0
  end.

Fixpoint for_range {B} (n : nat) (f : nat -> M B unit unit) (i : nat) : M B unit unit :=
  match n with O => mret tt | S n => _ ← f i; for_range n f (S i) end.

(** The failures so far, after each run. *)
Definition report (ch : Channels) : MC unit :=
  s ← get_state;
  _ ← send_ke ch ("Timeout Errors: " +:+ pretty (errors s KE_TIMEOUT));
  _ ← send_ke ch ("OS Errors: " +:+ pretty (errors s KE_OS_FAILURE));
  _ ← send_ke ch ("Other Errors: " +:+ pretty (errors s KE_OTHER));
  _ ← send_ntp ch ("Timeout Errors: " +:+ pretty (errors s NTP_TIMEOUT));
  _ ← send_ntp ch ("OS Errors: " +:+ pretty (errors s NTP_OS_FAILURE));
  send_ntp ch ("Other Errors: " +:+ pretty (errors s NTP_OTHER)).

Definition add_i32 (a b : Z) : MC Z := lift (fit_i32 (a + b)).
Definition mul_i32 (a b : Z) : MC Z := lift (fit_i32 (a * b)).

(** The rates that are printed and sent before the experiment. *)
Definition announce (ch : Channels) (p : Plan) : MC unit :=
  additional_external_requests ← mul_i32 (aux_req_rate p) (num_aux_clients p);
  _ ← add_i32 additional_external_requests (reqs_per_second p);
  a ← mul_i32 (reqs_per_second p) (exchanges_per_cookie p);
  b ← mul_i32 additional_external_requests (exchanges_per_cookie p);
  c ← add_i32 a b;
  _ ← send_ntp ch (pretty c +:+ " total request(s) per second");
  d ← add_i32 (reqs_per_second p) additional_external_requests;
  send_ke ch (pretty d +:+ " total request(s) per second").

End Client.

(** ** The schedule *)
Lemma ratio_pos_fm x a b : ratio x = (a, b) -> 0 < a -> 0 < b -> 0 < fm x.
Proof.
  unfold ratio. case_bool_decide; intros [= <- <-] Ha Hb.
  - pose proof (Z.pow_pos_nonneg 2 (fe x)). nia.
  - destruct (decide (0 < fm x)) as [|Hn]; [done|exfalso].
    pose proof (Z.gcd_nonneg (fm x) (2 ^ (- fe x))). set (g := Z.gcd _ _) in *.
    destruct (decide (g = 0)) as [Hg|Hg]; [rewrite Hg, Z.div_0_r in Ha; lia|].
    assert (fm x / g <= 0) by (apply Z.div_le_upper_bound; lia). lia.
Qed.

Lemma fdiv_signed_pos x y a b : ratio y = (a, b) -> 0 < a -> 0 < b -> fdiv_signed x y = fdiv x y.
Proof.
  intros Hr Ha Hb. unfold fdiv_signed. pose proof (ratio_pos_fm y a b Hr Ha Hb). by rewrite bool_decide_false by lia.
Qed.

Lemma fround_signed_pos x a b : ratio x = (a, b) -> 0 < a -> 0 < b -> fround_signed x = (2 * a + b) / (2 * b).
Proof.
  intros Hr Ha Hb. unfold fround_signed. pose proof (ratio_pos_fm x a b Hr Ha Hb).
  rewrite bool_decide_false by lia. unfold fround. by rewrite Hr.
Qed.

Lemma f64_of_int_exact n : 0 <= n < 2 ^ 53 -> ratio (f64_of_int n) = (n, 1).
Proof. intros. unfold f64_of_int. rewrite bool_decide_false by lia. by apply f64_of_Z_exact. Qed.

(** Two roundings: the time between requests, in milliseconds. *)
Lemma inter_request_time_close n :
  0 < n < 2 ^ 31 ->
  exists x a b, inter_request_time n = Finite x /\ ratio x = (a, b) /\ 0 < a /\ 0 < b /\
    2 ^ 53 * Z.abs (a * n - 1000 * b) <= 3000 * b.
Proof.
  intros Hn. unfold inter_request_time. rewrite bool_decide_false by lia.
  rewrite (fdiv_signed_pos _ _ n 1) by (try apply f64_of_int_exact; lia).
  unfold fdiv. rewrite f64_of_int_exact, f64_of_Z_exact by lia. rewrite !Z.mul_1_l.
  pose proof (round_rel 1 n ltac:(lia) ltac:(lia)) as H1. unfold fmul. rewrite f64_of_Z_exact by lia.
  destruct (ratio (round_f64 1 n)) as [a1 b1]. destruct H1 as (Ha1 & Hb1 & H1). rewrite !Z.mul_1_r.
  pose proof (round_rel (a1 * 1000) b1 ltac:(lia) ltac:(lia)) as H2. eexists _.
  destruct (ratio (round_f64 (a1 * 1000) b1)) as [a2 b2] eqn:Hr. destruct H2 as (Ha2 & Hb2 & H2).
  exists a2, b2. split_and!; [done|done|done|done|].
  set (K := 2 ^ 53) in *. assert (1000 <= K) by (unfold K; lia).
  assert (b1 * (a2 * n - 1000 * b2) = n * (a2 * b1 - a1 * 1000 * b2) + 1000 * b2 * (a1 * n - 1 * b1)) as E by ring.
  apply (Z.mul_le_mono_pos_l _ _ b1 Hb1).
  replace (b1 * (K * Z.abs (a2 * n - 1000 * b2))) with (K * Z.abs (b1 * (a2 * n - 1000 * b2)))
    by (rewrite Z.abs_mul, (Z.abs_eq b1) by lia; ring). rewrite E.
  assert (a1 * n <= 2 * b1) by nia. clear E.
  assert (Z.abs (n * (a2 * b1 - a1 * 1000 * b2)) = n * Z.abs (a2 * b1 - a1 * 1000 * b2)) as E1
    by (rewrite Z.abs_mul, (Z.abs_eq n) by lia; ring).
  assert (Z.abs (1000 * b2 * (a1 * n - 1 * b1)) = 1000 * b2 * Z.abs (a1 * n - 1 * b1)) as E2
    by (rewrite Z.abs_mul, (Z.abs_eq (1000 * b2)) by lia; ring).
  pose proof (Z.abs_triangle (n * (a2 * b1 - a1 * 1000 * b2)) (1000 * b2 * (a1 * n - 1 * b1))) as Ht.
  rewrite E1, E2 in Ht.
  transitivity (n * (a1 * 1000 * b2) + 1000 * b2 * b1); [nia|]. nia.
Qed.

(** One more rounding: the number of requests before it is made an integer. *)
Lemma runtime_ratio_close T n x a b :
  0 < T < 2 ^ 31 -> 0 < n -> ratio x = (a, b) -> 0 < a -> 0 < b ->
  2 ^ 53 * Z.abs (a * n - 1000 * b) <= 3000 * b ->
  exists c d, ratio (fdiv_signed (f64_of_int T) x) = (c, d) /\ 0 < c /\ 0 < d /\
    2 ^ 53 * Z.abs (1000 * c - T * n * d) <= 5 * (T * n * d).
Proof.
  intros HT Hn Hx Ha Hb H2. rewrite (fdiv_signed_pos _ x a b) by done. unfold fdiv.
  rewrite f64_of_int_exact, Hx by lia. rewrite Z.mul_1_l.
  pose proof (round_rel (T * b) a ltac:(nia) ltac:(lia)) as H3.
  destruct (ratio (round_f64 (T * b) a)) as [c d] eqn:Hr. destruct H3 as (Hc & Hd & H3).
  exists c, d. split_and!; [done|done|done|]. set (K := 2 ^ 53) in *. assert (1000 <= K) by (unfold K; lia).
  assert (4 * (1000 * b) <= 5 * (a * n)) as Hab by nia.
  apply (Z.mul_le_mono_pos_l _ _ a Ha).
  replace (a * (K * Z.abs (1000 * c - T * n * d))) with (K * Z.abs (a * (1000 * c - T * n * d)))
    by (rewrite Z.abs_mul, (Z.abs_eq a) by lia; ring).
  replace (a * (1000 * c - T * n * d)) with (1000 * (c * a - T * b * d) + T * d * - (a * n - 1000 * b)) by ring.
  pose proof (Z.abs_triangle (1000 * (c * a - T * b * d)) (T * d * - (a * n - 1000 * b))) as Ht.
  rewrite !Z.abs_mul, Z.abs_opp, (Z.abs_eq T), (Z.abs_eq d), (Z.abs_eq 1000) in Ht by lia.
  assert (0 < T * d) by nia.
  assert (T * d * (K * Z.abs (a * n - 1000 * b)) <= T * d * (3000 * b)) by (apply Z.mul_le_mono_nonneg_l; lia).
  assert (T * d * (4 * (1000 * b)) <= T * d * (5 * (a * n))) by (apply Z.mul_le_mono_nonneg_l; lia).
  transitivity (1000 * (T * b * d) + T * d * (3000 * b)); [nia|]. nia.
Qed.

(** The number of requests of a run.  For a positive rate and a duration that give
    fewer than [2 ^ 31] requests, [total_requests] is their product in requests,
    rounded to the nearest integer, despite the three roundings of the floating-point
    computation. *)
Lemma total_requests_exact T n :
  0 < n < 2 ^ 31 -> 0 <= T < 2 ^ 31 -> T * n <= 1000 * (2 ^ 31 - 2) ->
  Z.abs (1000 * get_total_requests T (inter_request_time n) - T * n) <= 500.
Proof.
  intros Hn HT Hmax. destruct (inter_request_time_close n Hn) as (x & a & b & -> & Hx & Ha & Hb & H2).
  cbn [get_total_requests]. destruct (decide (T = 0)) as [->|HT0].
  { rewrite (fdiv_signed_pos _ x a b) by done. unfold fdiv. rewrite f64_of_int_exact, Hx, !Z.mul_0_l by lia. done. }
  destruct (runtime_ratio_close T n x a b) as (c & d & Hr & Hc & Hd & H3); [lia|lia|done..|].
  rewrite (fround_signed_pos _ c d) by done.
  set (q := (2 * c + d) / (2 * d)).
  assert (0 <= 2 * c + d - 2 * d * q < 2 * d) as Hq.
  { unfold q. pose proof (Z.div_mod (2 * c + d) (2 * d) ltac:(lia)).
    pose proof (Z.mod_pos_bound (2 * c + d) (2 * d) ltac:(lia)). lia. }
  assert (Z.abs (1000 * q - T * n) <= 500) as Hfin.
  { change (2 ^ 53) with 9007199254740992 in *. change (2 ^ 31) with 2147483648 in *.
    assert (0 <= T * n) by nia.
    assert (9007199254740992 * Z.abs (1000 * c - T * n * d) <= 5 * (T * n) * d) by lia.
    assert (d * Z.abs (1000 * q - T * n) <= 500 * d + Z.abs (1000 * c - T * n * d)) by nia.
    nia. }
  unfold as_i32. rewrite Z.min_r, Z.max_r; lia.
Qed.

(** ** The rate of the next run *)
Lemma digit_digit_char d : 0 <= d < 10 -> digit (digit_char d) = Some d.
Proof.
  intros Hd. unfold digit, digit_char. rewrite (bool_decide_true (d < 10)), byte_val_to_byte, Z.mod_small by lia.
  rewrite bool_decide_true by lia. f_equal. lia.
Qed.

Lemma parse_signed_digits_map sign l acc :
  sign = 1 \/ sign = -1 -> 0 <= acc -> Forall (fun d => 0 <= d < 10) l ->
  in_swidth 32 (sign * fold_left (fun acc d => acc * 10 + d) l acc) ->
  parse_signed_digits sign (sign * acc) (map digit_char l) = Some (sign * fold_left (fun acc d => acc * 10 + d) l acc).
Proof.
  intros Hs Ha Hl. revert acc Ha. induction Hl as [|d l Hd Hl IH]; intros acc Ha Hr; [done|].
  cbn [map parse_signed_digits fold_left] in *. rewrite digit_digit_char by done. cbn [mbind option_bind].
  replace (sign * acc * 10 + sign * d) with (sign * (acc * 10 + d)) by ring.
  pose proof (value_mono 10 l (acc * 10 + d) ltac:(lia) ltac:(lia) Hl).
  rewrite bool_decide_true by (unfold in_swidth in *; destruct Hs as [-> | ->]; lia). apply IH; [lia|done].
Qed.

Lemma show_dec_cons z :
  0 <= z < 10 ^ 10 -> exists d l, 0 <= d < 10 /\ Forall (fun d => 0 <= d < 10) (d :: l) /\
    show_dec z = map digit_char (d :: l) /\ value 10 (d :: l) = z.
Proof.
  intros Hz. destruct (digits_head 10 10 z) as (d & l & Hdl & _); [lia..|].
  pose proof (digits_range 10 10 z ltac:(lia) ltac:(lia)) as Hr.
  pose proof (digits_value 10 10 z ltac:(lia) ltac:(lia)) as Hv. unfold show_dec. rewrite Hdl in *.
  exists d, l. pose proof (Forall_cons_1 _ _ _ Hr) as [Hd _]. by split; [|split].
Qed.

Lemma digit_char_sign d c : 0 <= d < 10 -> digit_of 10 c = None -> digit_char d <> c.
Proof. intros Hd Hc <-. by rewrite digit_of_char in Hc by lia. Qed.

Lemma parse_show_i32 n : in_swidth 32 n -> parse_i32 (show_i32 n) = Some n.
Proof.
  unfold in_swidth. intros Hn. unfold show_i32. case_bool_decide as Hneg.
  - destruct (show_dec_cons (- n)) as (d & l & Hd & Hl & -> & Hv); [lia|]. unfold parse_i32.
    rewrite bool_decide_false by done. rewrite bool_decide_true by done. cbn [map].
    change (digit_char d :: map digit_char l) with (map digit_char (d :: l)). unfold value in Hv.
    change 0 with (-1 * 0). rewrite parse_signed_digits_map; [|by right|lia|done|]; rewrite Hv; [f_equal; lia|].
    unfold in_swidth. lia.
  - destruct (show_dec_cons n) as (d & l & Hd & Hl & -> & Hv); [lia|]. unfold parse_i32. cbn [map].
    rewrite !bool_decide_false by (by apply digit_char_sign).
    change (digit_char d :: map digit_char l) with (map digit_char (d :: l)). unfold value in Hv.
    change 0 with (1 * 0). rewrite parse_signed_digits_map; [|by left|lia|done|]; rewrite Hv; [f_equal; lia|].
    unfold in_swidth. lia.
Qed.

Section Facts.
Context {P : Profile} {A : Aead} {R : Type} {G : Rng R} {I : IpText}.
Context (ke_text : ClientError -> string) (ntp_text : NtpClientError -> string).
Implicit Types (s : Client (R := R)).

(** ** What a job leaves behind *)
Definition failures (s : Client (R := R)) (cs : list ErrorCounter) : Z := foldr (fun c n => errors s c + n) 0 cs.
Definition ke_counters := [KE_TIMEOUT; KE_OS_FAILURE; KE_OTHER].
Definition ntp_counters := [NTP_TIMEOUT; NTP_OS_FAILURE; NTP_OTHER].

(** The counters are far from wrapping around. *)
Definition room s (n : Z) : Prop := forall c, 0 <= errors s c /\ errors s c + n < 2 ^ 31.

(** From [s] to [s'] [a] key exchanges succeeded and [b] failed, and of the time
    transfers [c] were measured, [d] of which failed. *)
Definition moved s s' (a b c d : Z) : Prop :=
  zlen (ke_lines s') = zlen (ke_lines s) + a /\
  failures s' ke_counters = failures s ke_counters + b /\
  zlen (ntp_lines s') = zlen (ntp_lines s) + c /\
  failures s' ntp_counters = failures s ntp_counters + d /\
  zlen (err_lines s') = zlen (err_lines s) + b + d /\
  (forall k, errors s k <= errors s' k <= errors s k + b + d).

Lemma zlen_snoc {B} (l : list B) x : zlen (l ++ [x]) = zlen l + 1.
Proof. unfold zlen. rewrite length_app. cbn [length]. lia. Qed.

Lemma swrap_small z : in_swidth 32 z -> swrap 32 z = z.
Proof. unfold in_swidth, swrap. intros. rewrite Z.mod_small; lia. Qed.

Definition all_open (ch : Channels) : Prop := ke_open ch = true /\ ntp_open ch = true /\ err_open ch = true.

Lemma classify_in t o x err : classify t o x err ∈ [t; o; x].
Proof. unfold classify. destruct (str_contains _ _); [set_solver|]. destruct (str_contains _ _); set_solver. Qed.
End Facts.

(** ** A small experiment *)
Module ClientExample.
Import Toy KeClientExample.

Definition ke_text (e : ClientError) : string := match e with Io e => message e | _ => "failure" end.
Definition ntp_text (e : NtpClientError) : string := match e with NtpIo e => message e | _ => "failure" end.
Definition channels : Channels := mkChannels true true true.
Definition silent_udp : NtpClientEnv :=
  mkNtpClientEnv (fun _ _ => inr [mkAddr true [x31]]) true None None None
    (fun _ => inl (IoError WouldBlock "timed out")) (from_secs 1700000000) (from_secs 1700000001).
(** A job whose key exchange gives one cookie, and one whose server says nothing. *)
Definition lucky : JobEnv :=
  mkJobEnv (cenv ([x00; x05; x00; x64] ++ replicate 100 xaa ++ [x80; x00; x00; x00])) 5000 (fun _ => silent_udp) (fun _ => 7000) channels.
Definition unlucky : JobEnv := mkJobEnv (cenv []) 5000 (fun _ => silent_udp) (fun _ => 7000) channels.
Definition pool (i : nat) : JobEnv := match i with O => lucky | _ => unlucky end.
Definition idle_client : Client (R := Z) := mkClient (fun _ => 0) [] [] [] 9 [].

Definition experiment : Settings := mkSettings
  (fun k => if String.eqb k "num_runs" then inr "1" else if String.eqb k "total_runtime_ms" then inr "20"
            else if String.eqb k "exchanges_per_cookie" then inr "3" else if String.eqb k "step_size" then inr "-10"
            else if String.eqb k "is_aux_client" then inr "false" else inr "0")
  (fun k => inl (NotFound k)) (fun k => inl (NotFound k)).
Definition parameters (name : string) : option bytes :=
  Some (if String.eqb name "tests/reqs_per_second" then text "100"
        else if String.eqb name "tests/num_clients" then text "2" else text "0").
End ClientExample.

Section Witnesses.
Import Toy KeClientExample ClientExample.

Lemma total_requests_exact_witness :
  Z.abs (1000 * get_total_requests 60000 (inter_request_time 333) - 60000 * 333) <= 500.
Proof. apply total_requests_exact; lia. Defined.
End Witnesses.
