(* ===== verification/ClientPool.v ===== *)
(** * The client's thread pool

    [sub_command/client.rs] hands its jobs to a [ThreadPool] and waits with
    [pool.join()].  Here a job is a program whose calls are its accesses to what the
    jobs share, the counters and the three channels; the workers run their jobs
    interleaved, and take the next one from a queue.  The file shows that the pool
    always comes to the point where [join] returns, after a bounded number of steps,
    and that the books then balance as if the jobs had run one after the other
    ([pool_accounts]). *)

From stdpp Require Import prelude list numbers strings pretty relations.
From Stdlib Require Import Strings.Byte.
From S2P Require Import Prelude Words Threads Crypto Time Cookie KeRecords KeClient NtpClient ClientCommand.

Open Scope Z_scope.

(** ** Jobs as programs *)
Inductive Effect := CountErr (c : ErrorCounter) | LineKe (m : string) | LineNtp (m : string) | LineErr (m : string).
Definition Nothing (o : Effect) : Type := unit.

Section Jobs.
Context {P : Profile} {A : Aead} {R : Type} {G : Rng R} {I : IpText}.
Context (ke_text : ClientError -> string) (ntp_text : NtpClientError -> string).
Abbreviation J := (Code Nothing R unit).
Abbreviation St := (Client (R := R)).

Definition send_t (open : bool) (o : Effect) : J unit := if open then access o else lift_t (Panic UnwrapFailed).

Definition ntp_exchange_t (env : NtpClientEnv) (state : NtsKeResult) : J (res NtpClientError NtpResult) := fun r =>
  let '(x, g) := run_nts_ntp_client env state r in
  Done (match x with Panic p => Panic p | _ => Ok x end, g).

Fixpoint transfers_t (env : JobEnv) (state : NtsKeResult) (n i : nat) : J unit :=
  match n with
  | O => mret tt
  | S n =>
    r ← ntp_exchange_t (job_ntp env i) state;
    _ ← send_t (ntp_open (job_channels env)) (LineNtp (pretty (job_ntp_nanos env i)));
    match r with
    | Err err =>
      let err := ntp_text err in
      _ ← access (CountErr (classify NTP_TIMEOUT NTP_OS_FAILURE NTP_OTHER err));
      send_t (err_open (job_channels env)) (LineErr ("NTP: " +:+ err))
    | _ => transfers_t env state n (S i)
    end
  end.

Definition job_t (config : ClientConfig) (exchanges : Z) (env : JobEnv) : J unit :=
  match run_nts_ke_client (job_ke env) config with
  | Panic p => lift_t (Panic p)
  | Err err =>
    let err := ke_text err in
    _ ← access (CountErr (classify KE_TIMEOUT KE_OS_FAILURE KE_OTHER err));
    send_t (err_open (job_channels env)) (LineErr ("KE: " +:+ err))
  | Ok state =>
    _ ← send_t (ke_open (job_channels env)) (LineKe (pretty (job_ke_nanos env)));
    transfers_t env state (Z.to_nat exchanges) 0
  end.

(** ** What an access does to the client's state *)
Definition set_client_rng (g : R) (s : St) : St :=
  mkClient (errors s) (ke_lines s) (ntp_lines s) (err_lines s) g (rate_file s).
Definition effect (o : Effect) (s : St) : Nothing o * St :=
  (tt, match o with
       | CountErr c => mkClient (fun c' => if decide (c' = c) then swrap 32 (errors s c' + 1) else errors s c')
                         (ke_lines s) (ntp_lines s) (err_lines s) (client_rng s) (rate_file s)
       | LineKe m => mkClient (errors s) (ke_lines s ++ [m]) (ntp_lines s) (err_lines s) (client_rng s) (rate_file s)
       | LineNtp m => mkClient (errors s) (ke_lines s) (ntp_lines s ++ [m]) (err_lines s) (client_rng s) (rate_file s)
       | LineErr m => mkClient (errors s) (ke_lines s) (ntp_lines s) (err_lines s ++ [m]) (client_rng s) (rate_file s)
       end).

Abbreviation program_of := (Threads.program_of (h := effect) (own := client_rng) (set_own := set_client_rng)).

Lemma program_send (open : bool) o f :
  (forall s, f s = (effect o s).2) -> program_of (send_t open o) (send open f).
Proof.
  intros Hf. unfold send_t, send. destruct open; [|apply program_lift]. intros s r0.
  unfold modify. rewrite Hf. by destruct o.
Qed.
Lemma program_count c : program_of (access (CountErr c)) (count c).
Proof. done. Qed.
Lemma program_ntp_exchange env st : program_of (ntp_exchange_t env st) (ntp_exchange env st).
Proof.
  intros s r0. unfold ntp_exchange, ntp_exchange_t. by destruct (run_nts_ntp_client env st (client_rng s)) as [[] g].
Qed.
Lemma program_transfers env st n i : program_of (transfers_t env st n i) (transfers ntp_text env st n i).
Proof.
  revert i. induction n as [|n IH]; intros i; [apply program_ret|]. cbn [transfers_t transfers].
  apply program_bind; [apply program_ntp_exchange|intros r]. apply program_bind; [by apply program_send|intros _].
  destruct r as [x|e|p]; [apply IH| |apply IH].
  apply program_bind; [apply program_count|intros _]. by apply program_send.
Qed.
Lemma program_job config ex env : program_of (job_t config ex env) (job ke_text ntp_text config ex env).
Proof.
  unfold job_t, job. destruct (run_nts_ke_client (job_ke env) config) as [st|e|p]; [| |apply program_lift].
  - apply program_bind; [by apply program_send|intros _; apply program_transfers].
  - apply program_bind; [apply program_count|intros _]. by apply program_send.
Qed.

(** Accesses have no answer, so that a job's are fixed by its generator. *)
Definition quiet (o : Effect) (u : unit) : Nothing o * unit := (tt, u).
Definition planned {X} (p : Prog Nothing X) : list Effect := calls quiet p tt.

Lemma planned_call {X} o (k : Nothing o -> Prog Nothing X) : planned (Call o k) = o :: planned (k tt).
Proof. done. Qed.
Lemma planned_send {X} o (f : unit -> J X) r : planned ((send_t true o ≫= f) r) = o :: planned (f tt r).
Proof. done. Qed.
Lemma planned_ntp_exchange {X} env st (f : res NtpClientError NtpResult -> J X) r :
  planned ((ntp_exchange_t env st ≫= f) r) = [] \/
  exists x g, is_panic x = false /\ planned ((ntp_exchange_t env st ≫= f) r) = planned (f x g).
Proof.
  unfold mbind, Code_bind, ntp_exchange_t. destruct (run_nts_ntp_client env st r) as [[x|e|p] g]; cbn; [right|right|by left].
  - by exists (Ok x), g.
  - by exists (Err e), g.
Qed.

(** ** The books of a list of accesses

    What they write to each channel and add to each counter. *)
Inductive Entry := Counter (c : ErrorCounter) | KeLine | NtpLine | ErrLine.
Definition weight (e : Entry) (o : Effect) : Z :=
  match e, o with
  | Counter c, CountErr c' => if decide (c = c') then 1 else 0
  | KeLine, LineKe _ | NtpLine, LineNtp _ | ErrLine, LineErr _ => 1
  | _, _ => 0
  end.
Definition amount (e : Entry) (s : St) : Z :=
  match e with
  | Counter c => errors s c
  | KeLine => zlen (ke_lines s)
  | NtpLine => zlen (ntp_lines s)
  | ErrLine => zlen (err_lines s)
  end.
Definition counted (cs : list ErrorCounter) (ops : list Effect) : Z :=
  foldr (fun c n => total (weight (Counter c)) ops + n) 0 cs.

Definition books (ops : list Effect) (a b c d : Z) : Prop :=
  total (weight KeLine) ops = a /\ counted ke_counters ops = b /\
  total (weight NtpLine) ops = c /\ counted ntp_counters ops = d /\
  total (weight ErrLine) ops = b + d /\ (forall k, 0 <= total (weight (Counter k)) ops <= b + d).

Lemma books_app ops ops' a b c d a' b' c' d' :
  books ops a b c d -> books ops' a' b' c' d' -> books (ops ++ ops') (a + a') (b + b') (c + c') (d + d').
Proof.
  intros (A1 & A2 & A3 & A4 & A5 & A6) (B1 & B2 & B3 & B4 & B5 & B6). unfold books, counted in *.
  cbn [foldr ke_counters ntp_counters] in *. rewrite !total_app. split_and!; [lia..|].
  intros k. rewrite total_app. specialize (A6 k). specialize (B6 k). lia.
Qed.
Lemma books_nil : books [] 0 0 0 0.
Proof. split_and!; try done. Qed.
Lemma books_ke m : books [LineKe m] 1 0 0 0.
Proof. split_and!; try done. Qed.
Lemma books_ntp m : books [LineNtp m] 0 0 1 0.
Proof. split_and!; try done. Qed.
Lemma books_failed (iske : bool) c m :
  c ∈ (if iske then ke_counters else ntp_counters) ->
  books [CountErr c; LineErr m] 0 (Z.b2z iske) 0 (Z.b2z (negb iske)).
Proof.
  intros Hc. destruct iske; cbn [ke_counters ntp_counters] in Hc;
    (assert (c ∈ [KE_TIMEOUT; KE_OS_FAILURE; KE_OTHER; NTP_TIMEOUT; NTP_OS_FAILURE; NTP_OTHER]) by set_solver);
    repeat (apply elem_of_cons in Hc as [-> |Hc]); try (by apply elem_of_nil in Hc);
    (split_and!; [done..|intros k; destruct k; split; vm_compute; discriminate]).
Qed.

(** Time transfers, and a job, as accesses. *)
Lemma transfers_books env st n i r :
  all_open (job_channels env) ->
  exists c d, books (planned (transfers_t env st n i r)) 0 0 c d /\ 0 <= d <= 1 /\ d <= c <= Z.of_nat n.
Proof.
  intros (Hk & Hn & He). revert i r. induction n as [|n IH]; intros i r; cbn [transfers_t].
  { exists 0, 0. split; [apply books_nil|lia]. }
  match goal with |- context [planned ((_ ≫= ?f) r)] =>
    destruct (planned_ntp_exchange (job_ntp env i) st f r) as [-> |(x & g & Hx & ->)] end.
  { exists 0, 0. split; [apply books_nil|lia]. }
  rewrite Hn, planned_send. change (?o :: ?l) with ([o] ++ l). destruct x as [v|e|p]; [| |done].
  - destruct (IH (S i) g) as (c & d & Hb & Hcd). exists (1 + c), d. split; [|lia].
    exact (books_app _ _ _ _ _ _ _ _ _ _ (books_ntp _) Hb).
  - rewrite He. exists 1, 1. split; [|lia].
    exact (books_app _ _ _ _ _ _ _ _ _ _ (books_ntp _) (books_failed false _ _ (classify_in _ _ _ _))).
Qed.
Lemma job_books config ex env r :
  all_open (job_channels env) ->
  exists a b c d, books (planned (job_t config ex env r)) a b c d /\
    0 <= a /\ 0 <= b /\ 0 <= d <= c /\ a + b <= 1 /\ b + d <= 1 /\ c <= Z.max 0 ex * a /\
    (is_panic (run_nts_ke_client (job_ke env) config) = false -> a + b = 1).
Proof.
  intros Hch. pose proof Hch as (Hk & Hn & He). unfold job_t.
  destruct (run_nts_ke_client (job_ke env) config) as [st|e|p].
  - rewrite Hk, planned_send. destruct (transfers_books env st (Z.to_nat ex) 0 r Hch) as (c & d & Hb & Hd & Hc).
    exists 1, 0, c, d. split; [exact (books_app _ _ _ _ _ _ _ _ _ _ (books_ke _) Hb)|]. split_and!; lia.
  - rewrite He. exists 0, 1, 0, 0. split; [apply (books_failed true), classify_in|]. split_and!; lia.
  - exists 0, 0, 0, 0. split; [apply books_nil|]. split_and!; (done || lia).
Qed.

(** The accesses of several jobs, in any order. *)
Abbreviation starts config ex envs gens := (zip_with (job_t config ex) envs gens).
Lemma jobs_books config ex envs gens :
  length gens = length envs -> Forall (fun env => all_open (job_channels env)) envs ->
  exists a b c d, books (concat (planned <$> starts config ex envs gens)) a b c d /\
    0 <= a /\ 0 <= b /\ 0 <= d <= c /\ a + b <= zlen envs /\ b + d <= zlen envs /\ c <= Z.max 0 ex * a /\
    (Forall (fun env => is_panic (run_nts_ke_client (job_ke env) config) = false) envs -> a + b = zlen envs).
Proof.
  intros Hl Hch. revert gens Hl. induction Hch as [|env envs Henv _ IH]; intros gens Hl.
  { exists 0, 0, 0, 0. split; [apply books_nil|]. unfold zlen. split_and!; cbn; lia. }
  destruct gens as [|g gens]; [done|]. injection Hl as Hl. destruct (IH gens Hl) as (a' & b' & c' & d' & Hb' & Hq').
  destruct (job_books config ex env g Henv) as (a & b & c & d & Hb & Hq).
  exists (a + a'), (b + b'), (c + c'), (d + d'). split; [exact (books_app _ _ _ _ _ _ _ _ _ _ Hb Hb')|].
  unfold zlen in *. cbn [length]. split_and!; try lia. intros [H1 H2]%Forall_cons. destruct Hq as (_ & _ & _ & _ & _ & _ & Hq).
  destruct Hq' as (_ & _ & _ & _ & _ & _ & Hq'). specialize (Hq H1). specialize (Hq' H2). lia.
Qed.

(** A job makes at most so many accesses. *)
Lemma transfers_length env st n i r :
  all_open (job_channels env) -> (length (planned (transfers_t env st n i r)) <= n + 2)%nat.
Proof.
  intros (Hk & Hn & He). revert i r. induction n as [|n IH]; intros i r; cbn [transfers_t]; [cbn; lia|].
  match goal with |- context [planned ((_ ≫= ?f) r)] =>
    destruct (planned_ntp_exchange (job_ntp env i) st f r) as [-> |(x & g & Hx & ->)] end; [cbn; lia|].
  rewrite Hn, planned_send. destruct x as [v|e|p]; [| |done].
  - specialize (IH (S i) g). cbn [length]. lia.
  - rewrite He. change (3 <= S n + 2)%nat. lia.
Qed.
Lemma job_length config ex env r :
  all_open (job_channels env) -> (length (planned (job_t config ex env r)) <= Z.to_nat ex + 3)%nat.
Proof.
  intros Hch. unfold job_t. destruct (run_nts_ke_client (job_ke env) config) as [st|e|p]; [| |cbn; lia].
  - rewrite (proj1 Hch), planned_send. pose proof (transfers_length env st (Z.to_nat ex) 0 r Hch). cbn [length]. lia.
  - rewrite (proj2 (proj2 Hch)). change (2 <= Z.to_nat ex + 3)%nat. lia.
Qed.
Lemma jobs_length config ex envs gens :
  Forall (fun env => all_open (job_channels env)) envs ->
  (length (concat (planned <$> starts config ex envs gens)) <= (Z.to_nat ex + 3) * length envs)%nat.
Proof.
  intros Hch. revert gens. induction Hch as [|env envs Henv _ IH]; intros [|g gens]; cbn [zip_with]; cbn; try lia.
  rewrite length_app. pose proof (job_length config ex env g Henv). specialize (IH gens). cbn in IH. lia.
Qed.

(** ** The jobs interleaved *)
Abbreviation Pool := (Config Nothing St (res unit unit * R)).
Definition pool_hand (i : nat) (o : Effect) (s : St) : option (Nothing o * St) := Some (effect o s).
Definition pool_step : Pool -> Pool -> Prop := pstep pool_hand (fun _ _ => False).
Definition finished (c : Pool) : Prop := Forall (fun p => exists x, p = Done x) (progs c).

Definition apply_all (ops : list Effect) (s : St) : St := fold_left (fun s o => (effect o s).2) ops s.

Lemma pool_invariant c c' :
  pool_step c c' ->
  (exists o, history c' = history c ++ [o] /\ shared c' = (effect o.2 (shared c)).2) /\
  map snd (history c') ++ concat (planned <$> progs c') ≡ₚ map snd (history c) ++ concat (planned <$> progs c).
Proof.
  intros [c1 i o k [] s' Hi Ha|]; [|done]. injection Ha as Ha. assert (s' = (effect o (shared c1)).2) as -> by (by symmetry). cbn [progs shared history].
  split; [by eexists|]. apply list_elem_of_split_length in Hi as (l1 & l2 & Hl & ->). rewrite Hl.
  rewrite insert_app_r_alt, Nat.sub_diag by done. cbn [insert list_insert]. rewrite !fmap_app, !concat_app, <- app_assoc. cbn [map snd app fmap list_fmap concat].
  apply Permutation_app_head. by rewrite planned_call, <- app_comm_cons, Permutation_middle.
Qed.
Lemma pool_reachable n c c' :
  nsteps pool_step n c c' -> history c = [] ->
  length (history c') = n /\ shared c' = apply_all (map snd (history c')) (shared c) /\
  map snd (history c') ++ concat (planned <$> progs c') ≡ₚ concat (planned <$> progs c).
Proof.
  intros Hst Hh. revert c' Hst. induction n as [|n IH]; intros c' Hst.
  { inv Hst. by rewrite Hh. }
  apply nsteps_inv_r in Hst as (c1 & H1 & Hst). destruct (IH c1 H1) as (Hn & Hs & Hp).
  destruct (pool_invariant _ _ Hst) as [(o & Ho & Hs') Hp']. rewrite Ho, length_app, map_app. split_and!.
  - cbn. lia.
  - unfold apply_all in *. by rewrite fold_left_app, Hs', Hs.
  - rewrite <- map_app, <- Ho. by rewrite Hp'.
Qed.
Lemma pool_progress c : finished c \/ exists c', pool_step c c'.
Proof.
  unfold finished. assert (Forall (fun p => exists x, p = Done x) (progs c) \/ exists i o k, progs c !! i = Some (Call o k)) as [H|H].
  { induction (progs c) as [|[x|o k] l [IH|(i & IH)]]; eauto; right; [by exists (S i)|by exists 0%nat, o, k..]. }
  - by left.
  - right. destruct H as (i & o & k & Hi). eexists. by eapply pstep_call.
Qed.

Lemma total_cons f (o : Effect) ops : total f (o :: ops) = f o + total f ops.
Proof. done. Qed.
Lemma total_perm f (ops ops' : list Effect) : ops ≡ₚ ops' -> total f ops = total f ops'.
Proof. induction 1; unfold total in *; cbn; lia. Qed.
Lemma weight_nonneg e o : 0 <= weight e o.
Proof. destruct e, o; cbn; try lia. case_decide; lia. Qed.
Lemma total_nonneg e ops : 0 <= total (weight e) ops.
Proof. unfold total. induction ops as [|o ops IH]; cbn; [done|]. pose proof (weight_nonneg e o). lia. Qed.

Lemma effect_amount e o (s : St) :
  (forall c, - 2 ^ 31 <= errors s c + weight (Counter c) o < 2 ^ 31) -> amount e (effect o s).2 = amount e s + weight e o.
Proof.
  intros Hr. destruct e as [c| | |], o as [c'| | |]; cbn; rewrite ?zlen_snoc; try lia.
  specialize (Hr c). cbn in Hr. case_decide; [|lia]. by rewrite swrap_small by (unfold in_swidth; lia).
Qed.
Lemma apply_all_amount ops (s : St) :
  (forall c, 0 <= errors s c /\ errors s c + total (weight (Counter c)) ops < 2 ^ 31) ->
  forall e, amount e (apply_all ops s) = amount e s + total (weight e) ops.
Proof.
  revert s. induction ops as [|o ops IH]; intros s Hr e; [cbn; lia|].
  assert (forall e, amount e (effect o s).2 = amount e s + weight e o) as Ho.
  { intros e'. apply effect_amount. intros c. destruct (Hr c) as [H1 H2]. rewrite total_cons in H2.
    pose proof (weight_nonneg (Counter c) o). pose proof (total_nonneg (Counter c) ops). lia. }
  change (apply_all (o :: ops) s) with (apply_all ops (effect o s).2). rewrite IH, Ho.
  - rewrite total_cons. lia.
  - intros c. destruct (Hr c) as [H1 H2]. specialize (Ho (Counter c)). cbn [amount] in Ho. rewrite Ho.
    rewrite total_cons in H2. pose proof (weight_nonneg (Counter c) o). lia.
Qed.
Lemma books_moved ops (s : St) a b c d n :
  books ops a b c d -> b + d <= n -> room s n -> moved s (apply_all ops s) a b c d.
Proof.
  intros (H1 & H2 & H3 & H4 & H5 & H6) Hn Hr. assert (forall e, amount e (apply_all ops s) = amount e s + total (weight e) ops) as Ha.
  { apply apply_all_amount. intros k. specialize (Hr k). specialize (H6 k). lia. }
  unfold moved, failures. unfold counted in *. cbn [foldr ke_counters ntp_counters] in *.
  pose proof (Ha KeLine) as K1. pose proof (Ha NtpLine) as K2. pose proof (Ha ErrLine) as K3.
  assert (forall k, errors (apply_all ops s) k = errors s k + total (weight (Counter k)) ops) as Hk
    by (intros k; exact (Ha (Counter k))). cbn [amount] in *. rewrite !Hk. split_and!; [lia..|].
  intros k. rewrite Hk. specialize (H6 k). lia.
Qed.
Lemma books_perm ops ops' a b c d : ops ≡ₚ ops' -> books ops' a b c d -> books ops a b c d.
Proof.
  intros Hp. unfold books, counted. cbn [foldr ke_counters ntp_counters]. rewrite !(fun f => total_perm f _ _ Hp).
  intros (? & ? & ? & ? & ? & Hk). split_and!; [done..|]. intros k. rewrite (total_perm _ _ _ Hp). apply Hk.
Qed.
Lemma finished_planned (c : Pool) : finished c -> concat (planned <$> progs c) = [].
Proof.
  unfold finished. induction 1 as [|p l [x ->] _ IH]; [done|]. by rewrite fmap_cons.
Qed.

(** C28: the experiment's books balance whatever the scheduling.  Let the pool run the
    jobs [envs], each alone what [job] does, each with some state of its thread's generator, their accesses to
    the counters and channels interleaved in any order, with the writers of the
    result files there.  Then a job's every access is possible at once and a run of
    the pool makes at most [exchanges_per_cookie + 3] of them per job, so that
    [pool.join()] returns; and when it does, at most one key exchange per job has
    been measured or counted as failed, and exactly one if no key exchange panicked;
    at most [exchanges_per_cookie] time transfers per successful key exchange have
    been measured; and the file of errors has one line for each failure counted. *)
Theorem pool_accounts config ex envs gens (s : St) :
  length gens = length envs -> Forall (fun env => all_open (job_channels env)) envs -> room s (zlen envs) ->
  let c0 := mkConfig (starts config ex envs gens) s [] in
  Forall (fun env => program_of (job_t config ex env) (job ke_text ntp_text config ex env)) envs /\
  forall n c, nsteps pool_step n c0 c ->
    (n <= (Z.to_nat ex + 3) * length envs)%nat /\
    (finished c \/ exists c', pool_step c c') /\
    (finished c -> exists ke_ok ke_failed ntp ntp_failed,
       moved s (shared c) ke_ok ke_failed ntp ntp_failed /\
       0 <= ke_ok /\ 0 <= ke_failed /\ 0 <= ntp_failed <= ntp /\
       ke_ok + ke_failed <= zlen envs /\ ke_failed + ntp_failed <= zlen envs /\ ntp <= Z.max 0 ex * ke_ok /\
       (Forall (fun env => is_panic (run_nts_ke_client (job_ke env) config) = false) envs ->
        ke_ok + ke_failed = zlen envs)).
Proof.
  intros Hl Hch Hroom c0. split; [apply Forall_forall; intros; apply program_job|]. intros n c Hst. destruct (pool_reachable n c0 c Hst eq_refl) as (Hn & Hs & Hp). cbn [progs shared c0] in *.
  split; [|split; [apply pool_progress|]].
  - pose proof (jobs_length config ex envs gens Hch) as Hb. rewrite <- Hp, length_app, length_map in Hb. lia.
  - intros Hf. rewrite finished_planned, app_nil_r in Hp by done.
    destruct (jobs_books config ex envs gens Hl Hch) as (a & b & a' & b' & Hb & Hq).
    exists a, b, a', b'. split; [|exact Hq]. rewrite Hs. eapply books_moved; [by eapply books_perm|apply Hq|done].
Qed.
End Jobs.

(** ** Three jobs on two workers *)
Module PoolExample.
Import Toy KeClientExample ClientExample.

#[local] Existing Instances toy_aead host_names.
Definition envs : list JobEnv := [lucky; unlucky; lucky].
Definition gens : list Z := [4; 5; 6].
Definition start : Config Nothing (Client (R := Z)) (res unit unit * Z) :=
  mkConfig (zip_with (job_t (P := Debug) ke_text ntp_text cfg 3) envs gens) idle_client [].
(** The first two jobs by turns, then the third. *)
Definition turns : list nat := [0; 1; 0; 1; 0; 0; 2; 2; 2; 2]%nat.
Definition over (c : Config Nothing (Client (R := Z)) (res unit unit * Z)) : bool :=
  forallb (fun p => match p with Done _ => true | _ => false end) (progs c) &&
  ((errors (shared c) NTP_TIMEOUT =? 2) && (errors (shared c) KE_OTHER =? 1)).
End PoolExample.

Section Witnesses.
Import Toy KeClientExample ClientExample PoolExample.

Lemma pool_accounts_witness :
  exists c, rtc pool_step start c /\ finished c /\ errors (shared c) NTP_TIMEOUT = 2 /\ errors (shared c) KE_OTHER = 1 /\
    exists ke_ok ke_failed ntp ntp_failed, moved idle_client (shared c) ke_ok ke_failed ntp ntp_failed /\
      ke_ok + ke_failed = 3.
Proof.
  assert (match run_turns pool_hand turns start with Some c => over c | None => false end = true) as H by (vm_compute; reflexivity).
  destruct (run_turns pool_hand turns start) as [c|] eqn:Hc; [|discriminate].
  assert (rtc pool_step start c) as Hst by (by apply (run_turns_steps pool_hand _ turns)).
  exists c. split; [exact Hst|]. apply andb_prop in H as [Hf [H1%Z.eqb_eq H2%Z.eqb_eq]%andb_prop].
  assert (finished c) as Hf'.
  { apply Forall_forall. intros p Hp%list_elem_of_In. rewrite forallb_forall in Hf. specialize (Hf p Hp).
    destruct p as [x|]; [by exists x|done]. }
  clear Hf. rename Hf' into Hf.
  split; [exact Hf|]. split; [exact H1|]. split; [exact H2|]. apply rtc_nsteps in Hst as (n & Hst).
  destruct (pool_accounts (P := Debug) (A := toy_aead) (I := host_names) ke_text ntp_text cfg 3 envs gens idle_client
    eq_refl) as (_ & Hall).
  - repeat constructor.
  - intros k. cbn [errors idle_client]. unfold zlen. cbn. lia.
  - destruct (Hall n c Hst) as (_ & _ & Hend).
    destruct (Hend Hf) as (a & b & a' & b' & Hm & _ & _ & _ & _ & _ & _ & Hsum).
    exists a, b, a', b'. split; [exact Hm|]. apply Hsum. repeat constructor; vm_compute; reflexivity.
Defined.
End Witnesses.
