(* ===== verification/ClientRun.v ===== *)
(** * The run of the client subcommand

    [run] of [sub_command/client.rs], with its thread pool.  The crate [threadpool] is
    a parameter: [ThreadPool] says with how many workers a pool starts and what a batch
    of jobs, from the first [execute] to [join], makes of what the jobs share, and
    [ThreadPoolLaws] that a pool of no worker is refused and that a batch is some
    interleaving of its jobs run to their ends.  A pool that follows given turns, with
    at most as many jobs under way as it has workers, satisfies them ([by_turns]). *)

From stdpp Require Import prelude list numbers strings pretty relations.
From Stdlib Require Import Strings.Byte.
From S2P Require Import Prelude Words Threads Crypto Float64 Time Cookie NtpServer KeRecords KeClient NtpClient.
From S2P Require Import IpAddr Config ClientCommand ClientPool.

Open Scope Z_scope.

Abbreviation Job R := (Prog Nothing (res unit unit * R)).

(** The pool: [pool_starts n] is whether [ThreadPool::new(n)] gets its workers, and
    [pool_run k n jobs] the effect of the [k]th batch on a pool of [n]. *)
Class ThreadPool (R : Type) := {
  pool_starts : Z -> bool;
  pool_run : nat -> Z -> list (Job R) -> Client (R := R) -> Client (R := R);
}.
(** [new] panics without workers; [join] returns when every job has ended. *)
Class ThreadPoolLaws {R} (W : ThreadPool R) : Prop := {
  pool_nonzero : pool_starts 0 = false;
  pool_joined k n jobs s : pool_starts n = true ->
    exists c, rtc pool_step (mkConfig jobs s []) c /\ finished c /\ shared c = pool_run k n jobs s;
}.

(** How [run] ends: it returns, or, as an auxiliary client, goes on for ever. *)
Inductive Ending := Returned | Pacing.

Section Run.
Context {P : Profile} {A : Aead} {R : Type} {G : Rng R} {I : IpText} {W : ThreadPool R}.
Context (ke_error_text : ClientError -> string) (ntp_error_text : NtpClientError -> string).
Abbreviation MC := (M (Client (R := R)) unit).

(** What [run] sees: the arguments, the configuration and parameter files, whether
    a certificate is one that [rustls] takes, the jobs of the warm-up and of every
    run with the generators of their threads, the channels of the main thread, and
    whether the rate can be written. *)
Record RunEnv := mkRunEnv {
  matches : Matches;
  config_env : ConfigEnv;
  experiment_file : ConfigError + Settings;
  parameter_file : string -> option bytes;
  good_cert : bytes -> bool;
  warmups : nat -> JobEnv;
  jobs : nat -> nat -> JobEnv;
  job_rng : nat -> nat -> R;
  main_channels : Channels;
  rate_file_create : bool;
  rate_file_write : bool;
}.

Definition client_config (env : RunEnv) (host : string) (trusted_cert : option bytes) : ClientConfig :=
  mkClientConfig (text host) (text <$> value_of (matches env) "port") (good_cert env <$> trusted_cert)
    (get_use_ipv4 (matches env)).

(** [ThreadPool::new(num_clients as usize)]. *)
Definition new_pool (num_clients : Z) : MC Z :=
  let workers := wrap 64 num_clients in
  if pool_starts workers then mret workers else lift (Panic Explicit).

(** [pool.execute] for every job, and [pool.join()]. *)
Definition execute_all (k : nat) (workers : Z) (js : list (Job R)) : MC unit := modify (pool_run k workers js).

(** [false] when a failing key exchange ends the whole run. *)
Fixpoint warm_up (env : RunEnv) (config : ClientConfig) (n i : nat) : MC bool :=
  match n with
  | O => mret true
  | S n =>
    match run_nts_ke_client (job_ke (warmups env i)) config with
    | Panic p => lift (Panic p)
    | Err _ => mret false
    | Ok state =>
      _ ← ntp_exchange (job_ntp (warmups env i) 0) state;
      warm_up env config n (S i)
    end
  end.

(** The file is emptied before the next rate is computed. *)
Definition write_next_rate (env : RunEnv) (p : Plan) : MC unit :=
  let set b := modify (fun s => mkClient (errors s) (ke_lines s) (ntp_lines s) (err_lines s) (client_rng s) b) in
  _ ← lift (if rate_file_create env then Ok tt else Panic UnwrapFailed);
  _ ← set [];
  next ← add_i32 (reqs_per_second p) (step_size p);
  if rate_file_write env then set (show_i32 next) else lift (Panic UnwrapFailed).

(** A job of an auxiliary client, which touches nothing shared. *)
Definition aux_job (config : ClientConfig) (env : JobEnv) : Code Nothing R unit unit :=
  match run_nts_ke_client (job_ke env) config with
  | Panic p => lift_t (Panic p)
  | Err _ => mret tt
  | Ok state => _ ← ntp_exchange_t (job_ntp env 0) state; mret tt
  end.

(** The jobs of one run. *)
Definition run_jobs (env : RunEnv) (config : ClientConfig) (ex : Z) (total r : nat) : list (Job R) :=
  map (fun i => job_t ke_error_text ntp_error_text config ex (jobs env r i) (job_rng env r i)) (seq 0 total).
Definition aux_jobs (env : RunEnv) (config : ClientConfig) (rounds : nat) : list (Job R) :=
  map (fun i => aux_job config (jobs env 0 i) (job_rng env 0 i)) (seq 0 rounds).

(** An auxiliary client paces jobs without end, here the first [rounds] of them. *)
Definition run (env : RunEnv) (rounds : nat) : MC Ending :=
  host ← lift (unwrap (value_of (matches env) "host"));
  trusted_cert ← lift (get_trusted_cert (config_env env) (value_of (matches env) "cert"));
  plan ← lift (read_plan (experiment_file env) (parameter_file env));
  let config := client_config env host trusted_cert in
  let total_requests := get_total_requests (total_runtime_ms plan) (inter_request_time (reqs_per_second plan)) in
  _ ← announce (main_channels env) plan;
  workers ← new_pool (num_clients plan);
  if is_aux_client plan then
    _ ← execute_all 0 workers (aux_jobs env config rounds);
    mret Pacing
  else
    warm ← warm_up env config (Z.to_nat (warmup_runs plan)) 0;
    if negb warm then mret Returned
    else
      _ ← for_range (Z.to_nat (num_runs plan)) (fun r =>
            _ ← execute_all r workers
                  (run_jobs env config (exchanges_per_cookie plan) (Z.to_nat total_requests) r);
            report (main_channels env)) 0;
      _ ← write_next_rate env plan;
      mret Returned.
End Run.
Arguments RunEnv : clear implicits.

(** ** A batch *)
Section Batch.
Context {R : Type} {W : ThreadPool R} (L : ThreadPoolLaws W).

(** A batch applies the accesses of its jobs in some order. *)
Lemma pool_run_applies k n (js : list (Job R)) s :
  pool_starts n = true ->
  exists ops, ops ≡ₚ concat (planned <$> js) /\ pool_run k n js s = apply_all ops s.
Proof.
  intros Hn. destruct (pool_joined k n js s Hn) as (c & [m Hst]%rtc_nsteps & Hf & <-).
  destruct (pool_reachable m _ c Hst eq_refl) as (_ & Hs & Hp). cbn [progs shared] in Hs, Hp.
  exists (map snd (history c)). split; [|exact Hs]. by rewrite finished_planned, app_nil_r in Hp.
Qed.

Lemma apply_all_rate ops (s : Client (R := R)) : rate_file (apply_all ops s) = rate_file s.
Proof. revert s. induction ops as [|o ops IH]; intros s; [done|]. cbn. unfold apply_all in IH. rewrite IH. by destruct o. Qed.
Lemma frames_execute_all k n js : pool_starts n = true -> frames (E := unit) rate_file (execute_all k n js).
Proof. intros Hn s. cbn. destruct (pool_run_applies k n js s Hn) as (ops & _ & ->). apply apply_all_rate. Qed.
End Batch.

(** ** A pool that follows turns

    Workers take the jobs in the order in which they were handed over, so that a job
    can be under way when fewer jobs before it than there are workers are unfinished.
    A turn that cannot be taken is passed over; after the given turns the jobs are
    finished one by one. *)
Section ByTurns.
Context {R : Type}.
Abbreviation Pool := (Config Nothing (Client (R := R)) (res unit unit * R)).

Definition is_done (p : Job R) : bool := match p with Done _ => true | Call _ _ => false end.
Definition worker_free (workers : Z) (i : nat) (ps : list (Job R)) : bool :=
  bool_decide (zlen (List.filter (fun p => negb (is_done p)) (take i ps)) < workers).
Definition take_turn (workers : Z) (i : nat) (c : Pool) : Pool :=
  match progs c !! i with
  | Some (Call o k) =>
    if worker_free workers i (progs c)
    then mkConfig (<[i := k tt]> (progs c)) (effect o (shared c)).2 (history c ++ [(i, o)]) else c
  | _ => c
  end.
Definition take_turns (workers : Z) (turns : list nat) (c : Pool) : Pool :=
  fold_left (fun c i => take_turn workers i c) turns c.
Definition accesses (js : list (Job R)) (i : nat) : nat :=
  match js !! i with Some p => length (planned p) | None => 0%nat end.
Definition all_turns (js : list (Job R)) (m n : nat) : list nat :=
  concat (map (fun i => replicate (accesses js i) i) (seq m n)).

Definition by_turns (limit : Z) (turns : nat -> list nat) : ThreadPool R := {|
  pool_starts n := bool_decide (1 <= n <= limit);
  pool_run k n js s := shared (take_turns n (turns k ++ all_turns js 0 (length js)) (mkConfig js s []));
|}.

Lemma take_turn_steps w i c : rtc pool_step c (take_turn w i c).
Proof.
  unfold take_turn. destruct (progs c !! i) as [[x|o k]|] eqn:Hi; [done| |done].
  destruct (worker_free w i (progs c)); [|done]. apply rtc_once.
  eapply (pstep_call _ _ c i o k tt); [done|]. unfold pool_hand. by destruct (effect o (shared c)) as [[] s'].
Qed.
Lemma take_turns_steps w turns c : rtc pool_step c (take_turns w turns c).
Proof.
  revert c. induction turns as [|i turns IH]; intros c; [done|]. cbn.
  etransitivity; [apply take_turn_steps|apply IH].
Qed.

Lemma take_turns_length w turns c : length (progs (take_turns w turns c)) = length (progs c).
Proof.
  revert c. induction turns as [|i turns IH]; intros c; [done|]. cbn. unfold take_turns in IH. rewrite IH.
  unfold take_turn. destruct (progs c !! i) as [[x|o k]|]; [done| |done].
  destruct (worker_free _ _ _); [|done]. apply length_insert.
Qed.

(** Turns only shorten what is left of the jobs. *)
Definition shorter (n : nat -> nat) (c : Pool) : Prop :=
  forall i p, progs c !! i = Some p -> (length (planned p) <= n i)%nat.
Lemma take_turn_shorter w i n c : shorter n c -> shorter n (take_turn w i c).
Proof.
  intros Hn. unfold take_turn. destruct (progs c !! i) as [[x|o k]|] eqn:Hi; [done| |done].
  destruct (worker_free w i (progs c)); [|done]. intros j p. cbn [progs].
  intros [(<- & <- & _)|[_ Hj]]%list_lookup_insert_Some; [|by apply Hn].
  specialize (Hn i _ Hi). rewrite planned_call in Hn. cbn in Hn. lia.
Qed.
Lemma take_turns_shorter w turns n c : shorter n c -> shorter n (take_turns w turns c).
Proof. revert c. induction turns as [|i turns IH]; intros c Hn; [done|]. by apply IH, take_turn_shorter. Qed.

Definition done_below (m : nat) (c : Pool) : Prop :=
  forall j q, (j < m)%nat -> progs c !! j = Some q -> is_done q = true.

Lemma free_when_done w i c : 0 < w -> done_below i c -> worker_free w i (progs c) = true.
Proof.
  intros Hw Hd. unfold worker_free. replace (List.filter _ _) with (@nil (Job R)); [by apply bool_decide_true|].
  symmetry. assert (Forall (fun p => is_done p = true) (take i (progs c))) as Hf.
  { apply Forall_lookup. intros j q [Hq Hj]%lookup_take_Some. by eapply Hd. }
  induction Hf as [|p l Hp _ IH]; cbn; [done|]. by rewrite Hp.
Qed.

(** As many turns as a job has accesses left finish it, when those before it are. *)
Lemma block_done w i n c :
  0 < w -> done_below i c -> shorter (fun j => if decide (j = i) then n else accesses (progs c) j) c ->
  done_below (S i) (take_turns w (replicate n i) c).
Proof.
  intros Hw. revert c. induction n as [|n IH]; intros c Hd Hn.
  - intros j q Hj Hq. destruct (decide (j = i)) as [->|]; [|apply (Hd j); [lia|done]].
    specialize (Hn i q Hq). cbv beta in Hn. rewrite decide_True in Hn by done. destruct q; [done|]. rewrite planned_call in Hn. cbn in Hn. lia.
  - cbn. apply IH.
    + intros j q Hj. unfold take_turn. destruct (progs c !! i) as [[x|o k]|] eqn:Hi; [by apply Hd| |by apply Hd].
      destruct (worker_free _ _ _); [|by apply Hd]. cbn [progs]. rewrite list_lookup_insert_ne by lia. by apply Hd.
    + intros j q Hq. case_decide as Hji; [subst j|unfold accesses; by rewrite Hq].
      unfold take_turn in Hq. destruct (progs c !! i) as [[x|o k]|] eqn:Hi.
      * pose proof (eq_trans (eq_sym Hi) Hq) as [= <-]. cbn. lia.
      * rewrite free_when_done in Hq by done. cbn [progs] in Hq.
        rewrite list_lookup_insert_eq in Hq by (by eapply lookup_lt_Some). injection Hq as <-.
        specialize (Hn i _ Hi). cbv beta in Hn. rewrite decide_True, planned_call in Hn by done. cbn in Hn. lia.
      * by pose proof (eq_trans (eq_sym Hi) Hq).
Qed.

Lemma all_turns_done w js m n c :
  0 < w -> done_below m c -> shorter (accesses js) c -> done_below (m + n) (take_turns w (all_turns js m n) c).
Proof.
  intros Hw. revert m c. induction n as [|n IH]; intros m c Hd Hs; [by rewrite Nat.add_0_r|].
  unfold all_turns. cbn [seq map concat]. unfold take_turns. rewrite fold_left_app.
  replace (m + S n)%nat with (S m + n)%nat by lia. apply IH; [|by apply take_turns_shorter].
  apply block_done; [done|done|]. intros j q Hq. case_decide; [subst j; by apply (Hs m)|].
  unfold accesses. by rewrite Hq.
Qed.

#[export] Instance by_turns_laws limit turns : ThreadPoolLaws (by_turns limit turns).
Proof.
  split; [by apply bool_decide_false; lia|]. intros k n js s Hn%bool_decide_eq_true.
  eexists. split; [apply take_turns_steps|]. split; [|done].
  set (c0 := mkConfig js s []). unfold take_turns. rewrite fold_left_app.
  set (c1 := fold_left _ (turns k) c0).
  assert (shorter (accesses js) c1) as Hs.
  { apply take_turns_shorter. intros i p Hp. unfold accesses. cbn in Hp. by rewrite Hp. }
  pose proof (all_turns_done n js 0 (length js) c1 ltac:(lia) ltac:(intros j q; lia) Hs) as Hd.
  assert (length (progs (take_turns n (all_turns js 0 (length js)) c1)) = length js) as Hl
    by (rewrite take_turns_length; apply take_turns_length).
  apply Forall_lookup. intros i p Hp. pose proof (lookup_lt_Some _ _ _ Hp) as Hi.
  assert (i < length js)%nat as Hi' by (rewrite <- Hl; exact Hi). specialize (Hd i p Hi' Hp). destruct p as [x|]; [by exists x|done].
Qed.
End ByTurns.

(** ** The file of the rate *)
Section Rate.
Context {P : Profile} {A : Aead} {R : Type} {G : Rng R} {I : IpText} {W : ThreadPool R} {L : ThreadPoolLaws W}.
Context (ke_text : ClientError -> string) (ntp_text : NtpClientError -> string).
Abbreviation keeps_rate m := (frames (S := Client (R := R)) (E := unit) rate_file m).

Lemma frames_send open f : (forall s, rate_file (f s) = rate_file s) -> keeps_rate (send open f).
Proof. intros Hf. unfold send. destruct open; [by apply frames_modify|frame]. Qed.
Lemma frames_send_ke ch m : keeps_rate (send_ke ch m).
Proof. by apply frames_send. Qed.
Lemma frames_send_ntp ch m : keeps_rate (send_ntp ch m).
Proof. by apply frames_send. Qed.
Lemma frames_ntp_exchange env st : keeps_rate (ntp_exchange env st).
Proof.
  intros s. unfold ntp_exchange. by destruct (run_nts_ntp_client env st (client_rng s)) as [[] ?].
Qed.
#[local] Hint Resolve frames_send_ke frames_send_ntp frames_ntp_exchange : frame.

Lemma frames_announce ch p : keeps_rate (announce ch p).
Proof. unfold announce, mul_i32, add_i32. frame. Qed.
Lemma frames_warm_up env config n i : keeps_rate (warm_up env config n i).
Proof. revert i. induction n as [|n IH]; intros i; cbn [warm_up]; [frame|]. frame; apply IH. Qed.

Lemma fit_i32_range {E} z r : fit_i32 (E := E) z = Ok r -> in_swidth 32 r.
Proof.
  unfold fit_i32. case_bool_decide; [by intros <-%Ok_inj|]. destruct overflow_checks; [done|].
  intros <-%Ok_inj. unfold swrap, in_swidth. pose proof (Z.mod_pos_bound (z + 2 ^ (32 - 1)) (2 ^ 32) ltac:(lia)). lia.
Qed.

(** The next run reads the rate that this one wrote.  A run that comes to its end,
    or an auxiliary client that goes on, has either left the file of the rate alone,
    because the client is an auxiliary one or because a key exchange of the warm-up
    failed, or has written to it the text of its rate plus the step, which the next
    run parses to that number. *)
Lemma next_rate_read env rounds s o s' :
  run ke_text ntp_text env rounds s = (Ok o, s') ->
  exists p, read_plan (E := unit) (experiment_file env) (parameter_file env) = Ok p /\
    (rate_file s' = rate_file s \/
     is_aux_client p = false /\ exists next, fit_i32 (E := unit) (reqs_per_second p + step_size p) = Ok next /\
       parse_i32 (rate_file s') = Some next).
Proof.
  unfold run. rewrite bind_lift. destruct (unwrap (value_of (matches env) "host")) as [host| |]; [|done..].
  rewrite bind_lift. destruct (get_trusted_cert _ _) as [cert| |]; [|done..].
  rewrite bind_lift. destruct (read_plan _ _) as [p| |]; [|done..]. cbv zeta. intros Hrun. exists p. split; [done|].
  rewrite M_bind_eq in Hrun. pose proof (frames_announce (main_channels env) p s) as Hf1.
  destruct (announce _ _ s) as [[u1| |] s1]; [|done..]. cbn [snd] in Hf1.
  unfold new_pool in Hrun. destruct (pool_starts (wrap 64 (num_clients p))) eqn:Hw; [|done].
  rewrite (M_bind_run _ _ _ (wrap 64 (num_clients p)) s1) in Hrun by done. destruct (is_aux_client p).
  { left. rewrite <- Hf1. rewrite (M_bind_run _ _ _ tt (pool_run 0 (wrap 64 (num_clients p))
      (aux_jobs env (client_config env host cert) rounds) s1)) in Hrun by done. injection Hrun as _ <-.
    exact (frames_execute_all L 0 _ (aux_jobs env _ rounds) Hw s1). }
  match type of Hrun with (warm_up ?e ?c ?n ?i ≫= _) s1 = _ => pose proof (frames_warm_up e c n i s1) as Hf2 end.
  rewrite M_bind_eq in Hrun. destruct (warm_up _ _ _ _ s1) as [[warm| |] s2]; [|done..]. cbn [snd] in Hf2.
  destruct (negb warm); [injection Hrun as _ <-; left; congruence|].
  rewrite M_bind_eq in Hrun. destruct (for_range _ _ _ s2) as [[u3| |] s3]; [|done..]. right. split; [done|].
  unfold write_next_rate in Hrun. rewrite M_bind_eq, bind_lift in Hrun. destruct (rate_file_create env); [|done].
  rewrite bind_modify in Hrun. unfold add_i32 in Hrun. rewrite bind_lift in Hrun.
  destruct (fit_i32 (reqs_per_second p + step_size p)) as [next| |] eqn:Hnext; [|done..].
  destruct (rate_file_write env); [|done]. injection Hrun as _ <-. exists next. split; [done|].
  cbn. by apply parse_show_i32, (fit_i32_range (E := unit) _ _ Hnext).
Qed.
End Rate.

(** ** A small experiment *)
Module RunExample.
Import Toy KeClientExample ClientExample.

(** Room for a thousand threads; the two jobs of a run take turns. *)
Definition pair_pool : ThreadPool Z := by_turns 1000 (fun _ => [1; 0; 0; 1; 0; 1]%nat).
Definition run_env : RunEnv Z :=
  mkRunEnv (mkMatches (fun k => if String.eqb k "host" then Some "a.b" else None) (fun _ => false))
    (mkConfigEnv (fun _ => inl (NotFound "")) (fun _ => inr 0) (fun _ => inr []) (fun _ => None) (fun _ => None))
    (inr experiment) parameters (fun _ => true) (fun _ => unlucky) (fun _ => pool) (fun _ i => Z.of_nat i) channels true true.
End RunExample.

Section Witnesses.
Import Toy KeClientExample ClientExample RunExample.

Lemma next_rate_read_witness :
  exists s', run (P := Debug) (A := toy_aead) (I := host_names) (W := pair_pool) ke_text ntp_text run_env 0 idle_client =
      (Ok Returned, s') /\
    (rate_file s' = [] \/ exists next, fit_i32 (P := Debug) (E := unit) (100 + -10) = Ok next /\
       parse_i32 (rate_file s') = Some next) /\ zlen (ke_lines s') = 5.
Proof.
  destruct (run (P := Debug) (A := toy_aead) (I := host_names) (W := pair_pool) ke_text ntp_text run_env 0 idle_client)
    as [o s'] eqn:Hrun.
  assert (o = Ok Returned /\ zlen (ke_lines s') = 5) as [-> Hl].
  { change o with (o, s').1. change s' with (o, s').2 at 2. rewrite <- Hrun. split; vm_compute; reflexivity. }
  exists s'. split; [reflexivity|]. split; [|exact Hl].
  destruct (next_rate_read (P := Debug) (A := toy_aead) (I := host_names) (W := pair_pool) ke_text ntp_text run_env 0
    idle_client _ s' Hrun) as (p & Hp & Hr).
  assert (read_plan (E := unit) (inr experiment) parameters = Ok (mkPlan 0 1 20 3 (-10) 100 2 false 0 0)) as Hp'
    by (vm_compute; reflexivity).
  change (experiment_file run_env) with (inr (A := ConfigError) experiment) in Hp.
  change (parameter_file run_env) with parameters in Hp. rewrite Hp' in Hp. apply Ok_inj in Hp. subst p.
  destruct Hr as [Hr|[_ Hr]]; [left; exact Hr|right; exact Hr].
Defined.
End Witnesses.
