(* ===== verification/Experiment.v ===== *)
(** * The experiment of the client

    What the [client] subcommand leaves behind when its network works, whatever the
    scheduling of its pool: every line of the three result files, no failure counted,
    and the rate of the next run.  [EndToEnd] shows when a job's network works. *)

From stdpp Require Import prelude list numbers strings pretty.
From Stdlib Require Import Strings.Byte.
From S2P Require Import Prelude Words Crypto Float64 Time Cookie KeyRotator NtpServer ServerReplies.
From S2P Require Import KeRecords KeServing KeClient NtpClient IpAddr Config Threads ClientCommand ClientPool ClientRun.

Open Scope Z_scope.

Section Experiment.
Context {P : Profile} {A : Aead} {R : Type} {G : Rng R} {I : IpText} {W : ThreadPool R} {L : ThreadPoolLaws W}.
Context (ke_text : ClientError -> string) (ntp_text : NtpClientError -> string).
Implicit Types (s : Client (R := R)).

(** From [s] to [s'] these lines were written and nothing else happened but to the
    generator. *)
Definition outputs s s' (kl nl : list string) : Prop :=
  errors s' = errors s /\ ke_lines s' = ke_lines s ++ kl /\ ntp_lines s' = ntp_lines s ++ nl /\
  err_lines s' = err_lines s /\ rate_file s' = rate_file s.

Lemma outputs_refl s : outputs s s [] [].
Proof. unfold outputs. by rewrite !app_nil_r. Qed.
Lemma outputs_trans s1 s2 s3 kl nl kl' nl' :
  outputs s1 s2 kl nl -> outputs s2 s3 kl' nl' -> outputs s1 s3 (kl ++ kl') (nl ++ nl').
Proof.
  intros (E1 & K1 & N1 & X1 & F1) (E2 & K2 & N2 & X2 & F2).
  unfold outputs. rewrite E2, K2, N2, X2, F2, E1, K1, N1, X1, F1. by rewrite !app_assoc.
Qed.

(** Code that ends well from every state with the counters [e]. *)
Definition does {B} (e : ErrorCounter -> Z) (m : M Client unit B) (b : B) (kl nl : list string) : Prop :=
  forall s, errors s = e -> exists s', m s = (Ok b, s') /\ outputs s s' kl nl.

Lemma does_eq {B} e (m : M Client unit B) b kl nl kl' nl' :
  does e m b kl nl -> kl = kl' -> nl = nl' -> does e m b kl' nl'.
Proof. by intros ? <- <-. Qed.
Lemma does_ret {B} e (b : B) : does e (mret b) b [] [].
Proof. intros s _. exists s. split; [done|apply outputs_refl]. Qed.
Lemma does_lift {B} e (r : res unit B) b : r = Ok b -> does e (lift r) b [] [].
Proof. intros -> s _. exists s. split; [done|apply outputs_refl]. Qed.
Lemma does_bind {B C} e (m : M Client unit B) (f : B -> M Client unit C) b c kl nl kl' nl' :
  does e m b kl nl -> does e (f b) c kl' nl' -> does e (m ≫= f) c (kl ++ kl') (nl ++ nl').
Proof.
  intros Hm Hf s Hs. destruct (Hm s Hs) as (s1 & H1 & O1). destruct (Hf s1) as (s2 & H2 & O2).
  { destruct O1 as (-> & _). done. }
  exists s2. split; [by rewrite (M_bind_run _ _ _ _ _ H1)|by eapply outputs_trans].
Qed.
Lemma does_get {B} e (f : Client -> M Client unit B) b kl nl :
  (forall s, errors s = e -> does e (f s) b kl nl) -> does e (get_state ≫= f) b kl nl.
Proof. intros Hf s Hs. rewrite bind_get_state. by apply Hf. Qed.
Lemma does_send_ke e ch m : ke_open ch = true -> does e (send_ke ch m) tt [m] [].
Proof. intros Ho s _. unfold send_ke, send. rewrite Ho. eexists. split; [done|]. unfold outputs. cbn. by rewrite app_nil_r. Qed.
Lemma does_send_ntp e ch m : ntp_open ch = true -> does e (send_ntp ch m) tt [] [m].
Proof. intros Ho s _. unfold send_ntp, send. rewrite Ho. eexists. split; [done|]. unfold outputs. cbn. by rewrite app_nil_r. Qed.

(** ** Jobs whose network works *)
Definition good_transfers (env : JobEnv) (st : NtsKeResult) (n : nat) : Prop :=
  forall i (g : R), (i < n)%nat -> exists r g', run_nts_ntp_client (job_ntp env i) st g = (Ok r, g').
Definition good_job (config : ClientConfig) (ex : Z) (env : JobEnv) : Prop :=
  all_open (job_channels env) /\
  exists st, run_nts_ke_client (job_ke env) config = Ok st /\ good_transfers env st (Z.to_nat ex).

Lemma does_ntp_exchange e env st :
  (forall g : R, exists r g', run_nts_ntp_client env st g = (Ok r, g')) ->
  forall s, errors s = e -> exists r s', ntp_exchange env st s = (Ok (Ok r), s') /\ outputs s s' [] [].
Proof.
  intros Hall s _. destruct (Hall (client_rng s)) as (r & g' & Hr). unfold ntp_exchange. rewrite Hr.
  eexists r, _. split; [done|]. unfold outputs. cbn. by rewrite !app_nil_r.
Qed.

Lemma does_transfers e env st n i :
  all_open (job_channels env) -> good_transfers env st (i + n) ->
  does e (transfers ntp_text env st n i) tt [] (map (fun j => pretty (job_ntp_nanos env j)) (seq i n)).
Proof.
  intros Hch. revert i. induction n as [|n IH]; intros i Hall; cbn [transfers seq map]; [apply does_ret|].
  intros s Hs. destruct (does_ntp_exchange e (job_ntp env i) st) with (s := s) as (r & s1 & H1 & O1);
    [intros g; apply Hall; lia|done|]. rewrite (M_bind_run _ _ _ _ _ H1).
  assert (errors s1 = e) as Hs1 by (by destruct O1 as (-> & _)).
  destruct (does_bind e (send_ntp (job_channels env) (pretty (job_ntp_nanos env i)))
    (fun _ => transfers ntp_text env st n (S i)) tt tt [] [pretty (job_ntp_nanos env i)] []
    (map (fun j => pretty (job_ntp_nanos env j)) (seq (S i) n))) with (s := s1) as (s2 & H2 & O2).
  - apply does_send_ntp, Hch.
  - apply IH. replace (S i + n)%nat with (i + S n)%nat by lia. done.
  - done.
  - exists s2. split; [exact H2|exact (outputs_trans _ _ _ _ _ _ _ O1 O2)].
Qed.
Lemma does_job e config ex env :
  good_job config ex env ->
  does e (job ke_text ntp_text config ex env) tt [pretty (job_ke_nanos env)]
    (map (fun i => pretty (job_ntp_nanos env i)) (seq 0 (Z.to_nat ex))).
Proof.
  intros (Hch & st & Hst & Hall). unfold job. rewrite Hst.
  apply (does_bind e _ _ tt tt [_] [] []); [apply does_send_ke, Hch|]. by apply does_transfers.
Qed.

(** ** The rest of a run *)
Definition report_ke (e : ErrorCounter -> Z) : list string :=
  ["Timeout Errors: " +:+ pretty (e KE_TIMEOUT); "OS Errors: " +:+ pretty (e KE_OS_FAILURE); "Other Errors: " +:+ pretty (e KE_OTHER)].
Definition report_ntp (e : ErrorCounter -> Z) : list string :=
  ["Timeout Errors: " +:+ pretty (e NTP_TIMEOUT); "OS Errors: " +:+ pretty (e NTP_OS_FAILURE); "Other Errors: " +:+ pretty (e NTP_OTHER)].

Lemma does_report e ch : all_open ch -> does e (report ch) tt (report_ke e) (report_ntp e).
Proof.
  intros (Hk & Hn & _). apply does_get. intros s ->. eapply does_eq.
  { do 3 (eapply does_bind; [by apply does_send_ke|]). do 2 (eapply does_bind; [by apply does_send_ntp|]). by apply does_send_ntp. }
  all: reflexivity.
Qed.

(** The arithmetic on the rates stays in the range of [i32]. *)
Definition rates_fit (p : Plan) : Prop :=
  let aux := aux_req_rate p * num_aux_clients p in
  in_swidth 32 aux /\ in_swidth 32 (aux + reqs_per_second p) /\
  in_swidth 32 (reqs_per_second p * exchanges_per_cookie p) /\ in_swidth 32 (aux * exchanges_per_cookie p) /\
  in_swidth 32 (reqs_per_second p * exchanges_per_cookie p + aux * exchanges_per_cookie p) /\
  in_swidth 32 (reqs_per_second p + step_size p).
Definition total_rate (p : Plan) : Z := reqs_per_second p + aux_req_rate p * num_aux_clients p.

Lemma fit_i32_ok {E} z : in_swidth 32 z -> fit_i32 (E := E) z = Ok z.
Proof. intros Hz. unfold fit_i32. by rewrite bool_decide_true. Qed.

Lemma does_announce e ch p :
  all_open ch -> rates_fit p ->
  does e (announce ch p) tt [pretty (total_rate p) +:+ " total request(s) per second"]
    [pretty (total_rate p * exchanges_per_cookie p) +:+ " total request(s) per second"].
Proof.
  intros (Hk & Hn & _) (H1 & H2 & H3 & H4 & H5 & _). unfold announce, mul_i32, add_i32, total_rate.
  rewrite Z.mul_add_distr_r. eapply does_eq.
  { do 5 (eapply does_bind; [by apply does_lift, fit_i32_ok|]). eapply does_bind; [by apply does_send_ntp|].
    eapply does_bind; [apply does_lift, fit_i32_ok; by rewrite Z.add_comm|]. by apply does_send_ke. }
  all: reflexivity.
Qed.

(** A warm-up exchange gets its keys, and its time transfer does not panic. *)
Definition warm_job (config : ClientConfig) (env : JobEnv) : Prop :=
  exists st, run_nts_ke_client (job_ke env) config = Ok st /\
    forall g : R, is_panic (run_nts_ntp_client (job_ntp env 0) st g).1 = false.

Lemma does_warm_up e (env : RunEnv R) config n i :
  (forall j, (i <= j < i + n)%nat -> warm_job config (warmups env j)) -> does e (warm_up env config n i) true [] [].
Proof.
  revert i. induction n as [|n IH]; intros i Hw; cbn [warm_up]; [apply does_ret|].
  destruct (Hw i ltac:(lia)) as (st & -> & Hst). intros s Hs. specialize (Hst (client_rng s)).
  destruct (run_nts_ntp_client (job_ntp (warmups env i) 0) st (client_rng s)) as [r g'] eqn:Hr.
  assert (ntp_exchange (job_ntp (warmups env i) 0) st s =
    (Ok r, mkClient (errors s) (ke_lines s) (ntp_lines s) (err_lines s) g' (rate_file s))) as Hx.
  { unfold ntp_exchange. rewrite Hr. by destruct r. }
  rewrite (M_bind_run _ _ _ _ _ Hx). destruct (IH (S i)) with (s := mkClient (errors s) (ke_lines s) (ntp_lines s) (err_lines s) g' (rate_file s))
    as (s' & Hs' & O); [intros; apply Hw; lia|done|]. exists s'. by split.
Qed.

(** ** The jobs of a pool *)
Definition job_ntp_lines (env : JobEnv) (ex : nat) : list string :=
  map (fun i => pretty (job_ntp_nanos env i)) (seq 0 ex).

Lemma planned_transfers env st n i g :
  all_open (job_channels env) -> good_transfers env st (i + n) ->
  planned (transfers_t ntp_text env st n i g) = map (fun j => LineNtp (pretty (job_ntp_nanos env j))) (seq i n).
Proof.
  intros Hch. revert i g. induction n as [|n IH]; intros i g Hall; [done|]. cbn [transfers_t seq map].
  destruct (Hall i g) as (x & g' & Hx); [lia|].
  unfold mbind at 1, Code_bind at 1, ntp_exchange_t. rewrite Hx. cbn [pbind]. rewrite (proj1 (proj2 Hch)), planned_send.
  f_equal. apply IH. by replace (S i + n)%nat with (i + S n)%nat by lia.
Qed.
Lemma planned_job config ex env g :
  good_job config ex env ->
  planned (job_t ke_text ntp_text config ex env g) =
  LineKe (pretty (job_ke_nanos env)) :: map LineNtp (job_ntp_lines env (Z.to_nat ex)).
Proof.
  intros (Hch & st & Hst & Hall). unfold job_t. rewrite Hst, (proj1 Hch), planned_send.
  rewrite planned_transfers by done. unfold job_ntp_lines. by rewrite map_map.
Qed.

(** The lines among accesses. *)
Definition ke_line (o : Effect) : option string := match o with LineKe m => Some m | _ => None end.
Definition ntp_line (o : Effect) : option string := match o with LineNtp m => Some m | _ => None end.
Definition only_lines (o : Effect) : Prop := is_Some (ke_line o) \/ is_Some (ntp_line o).

Lemma apply_lines ops s :
  Forall only_lines ops -> outputs s (apply_all ops s) (omap ke_line ops) (omap ntp_line ops).
Proof.
  intros Hf. revert s. induction Hf as [|o ops Ho _ IH]; intros s; [apply outputs_refl|].
  assert (outputs s (effect o s).2 (omap ke_line [o]) (omap ntp_line [o])) as H1.
  { destruct o; [by destruct Ho as [[? ?]|[? ?]]| | |by destruct Ho as [[? ?]|[? ?]]]; unfold outputs; cbn; by rewrite ?app_nil_r. }
  pose proof (outputs_trans _ _ _ _ _ _ _ H1 (IH _)) as H2.
  assert (forall X (f : Effect -> option X), omap f (o :: ops) = omap f [o] ++ omap f ops) as Happ
    by (intros X f; cbn; by destruct (f o)).
  by rewrite !Happ.
Qed.

(** What the jobs of one run plan. *)
Definition run_ke_lines (env : RunEnv R) (total r : nat) : list string :=
  map (fun i => pretty (job_ke_nanos (jobs env r i))) (seq 0 total).
Definition run_ntp_lines (env : RunEnv R) (ex total r : nat) : list string :=
  concat (map (fun i => job_ntp_lines (jobs env r i) ex) (seq 0 total)).

Lemma omap_lines l : omap ke_line (map LineNtp l) = [] /\ omap ntp_line (map LineNtp l) = l.
Proof. induction l as [|m l [IH1 IH2]]; [done|]. cbn in *. by rewrite IH1, IH2. Qed.

Lemma run_planned (env : RunEnv R) config ex idx r :
  (forall i, i ∈ idx -> good_job config ex (jobs env r i)) ->
  let ops := concat (planned <$> map (fun i => job_t ke_text ntp_text config ex (jobs env r i) (job_rng env r i)) idx) in
  Forall only_lines ops /\ omap ke_line ops = map (fun i => pretty (job_ke_nanos (jobs env r i))) idx /\
  omap ntp_line ops = concat (map (fun i => job_ntp_lines (jobs env r i) (Z.to_nat ex)) idx).
Proof.
  induction idx as [|i idx IH]; intros Hgood ops; [by split_and!|]. unfold ops. clear ops.
  destruct IH as (H1 & H2 & H3); [intros j Hj; apply Hgood; set_solver|].
  rewrite map_cons, fmap_cons. cbn [concat map]. rewrite planned_job by (apply Hgood; set_solver).
  destruct (omap_lines (job_ntp_lines (jobs env r i) (Z.to_nat ex))) as [O1 O2].
  rewrite !omap_app. cbn [omap list_omap ke_line ntp_line]. rewrite O1, O2, H2, H3. split_and!; [|done|done].
  apply Forall_app. split; [|done]. apply Forall_cons. split; [left; by eexists|].
  apply Forall_fmap, Forall_true. intros m. right. by eexists.
Qed.

Lemma execute_outputs (env : RunEnv R) config ex total r n s :
  pool_starts n = true -> (forall i, (i < total)%nat -> good_job config ex (jobs env r i)) ->
  exists kl nl, outputs s (pool_run r n (run_jobs ke_text ntp_text env config ex total r) s) kl nl /\
    kl ≡ₚ run_ke_lines env total r /\ nl ≡ₚ run_ntp_lines env (Z.to_nat ex) total r.
Proof.
  intros Hn Hgood.
  destruct (pool_run_applies L r n (run_jobs ke_text ntp_text env config ex total r) s Hn) as (ops & Hp & ->).
  destruct (run_planned env config ex (seq 0 total) r) as (H1 & H2 & H3).
  { intros i Hi%elem_of_seq. apply Hgood. lia. }
  exists (omap ke_line ops), (omap ntp_line ops). split_and!.
  - apply apply_lines. unfold run_jobs in Hp. by rewrite Hp.
  - unfold run_ke_lines. rewrite <- H2. by rewrite Hp.
  - unfold run_ntp_lines. rewrite <- H3. by rewrite Hp.
Qed.

(** The lines of the runs: those of each run in some order, and its report. *)
Definition in_blocks (expected : nat -> list string) (report : list string) (from runs : nat) (l : list string) : Prop :=
  exists blocks, Forall2 (fun r b => b ≡ₚ expected r) (seq from runs) blocks /\
    l = concat (map (fun b => b ++ report) blocks).

Lemma does_runs (env : RunEnv R) config ex total n from runs s :
  all_open (main_channels env) -> pool_starts n = true ->
  (forall r i, (from <= r < from + runs)%nat -> (i < total)%nat -> good_job config ex (jobs env r i)) ->
  exists s' kl nl,
    for_range runs (fun r => _ ← execute_all r n (run_jobs ke_text ntp_text env config ex total r);
                             report (main_channels env)) from s = (Ok tt, s') /\
    outputs s s' kl nl /\
    in_blocks (run_ke_lines env total) (report_ke (errors s)) from runs kl /\
    in_blocks (run_ntp_lines env (Z.to_nat ex) total) (report_ntp (errors s)) from runs nl.
Proof.
  intros Hch Hn. revert from s. induction runs as [|runs IH]; intros from s Hgood; cbn [for_range].
  { exists s, [], []. split_and!; [done|apply outputs_refl|by exists []..]. }
  destruct (execute_outputs env config ex total from n s Hn) as (k1 & n1 & O1 & Hk & Hl); [intros; apply Hgood; lia|].
  set (s1 := pool_run _ _ _ s) in *.
  destruct (does_report (errors s) (main_channels env) Hch s1) as (s2 & H2 & O2); [apply O1|].
  pose proof (outputs_trans _ _ _ _ _ _ _ O1 O2) as O12. assert (errors s2 = errors s) as Es by apply O12.
  destruct (IH (S from) s2) as (s3 & k3 & n3 & H3 & O3 & (bk & Fk & Ek) & (bn & Fn & En)); [intros; apply Hgood; lia|].
  rewrite Es in Ek, En.
  exists s3, ((k1 ++ report_ke (errors s)) ++ k3), ((n1 ++ report_ntp (errors s)) ++ n3). split_and!.
  - rewrite (M_bind_run _ _ _ tt s2); [exact H3|]. unfold execute_all. by rewrite bind_modify.
  - exact (outputs_trans _ _ _ _ _ _ _ O12 O3).
  - exists (k1 :: bk). split; [by constructor|]. cbn. by rewrite Ek.
  - exists (n1 :: bn). split; [by constructor|]. cbn. by rewrite En.
Qed.

(** C27: the experiment runs to its end.  When the arguments and the parameter files
    are there, there are workers and the pool gets its threads, the rates stay in range,
    and the network of every exchange works, then, whatever the scheduling of the pool,
    the subcommand ends, and has written first the rate, and then for every run one
    measurement of each of its key exchanges and [exchanges_per_cookie] of the time
    transfers of each, in some order, followed by the report of the run; no failure is
    counted; the file of the rate holds the text of the next rate, which the next run
    reads; and the number of requests of a run is the rate times the duration,
    rounded. *)
Theorem experiment_completes (env : RunEnv R) rounds s host cert p :
  value_of (matches env) "host" = Some host ->
  get_trusted_cert (E := unit) (config_env env) (value_of (matches env) "cert") = Ok cert ->
  read_plan (E := unit) (experiment_file env) (parameter_file env) = Ok p ->
  is_aux_client p = false -> 0 < num_clients p < 2 ^ 31 -> pool_starts (num_clients p) = true ->
  rates_fit p -> all_open (main_channels env) ->
  let config := client_config env host cert in
  let ex := exchanges_per_cookie p in
  let runs := Z.to_nat (num_runs p) in
  let total := Z.to_nat (get_total_requests (total_runtime_ms p) (inter_request_time (reqs_per_second p))) in
  (forall i, (i < Z.to_nat (warmup_runs p))%nat -> warm_job config (warmups env i)) ->
  (forall r i, (r < runs)%nat -> (i < total)%nat -> good_job config ex (jobs env r i)) ->
  rate_file_create env = true -> rate_file_write env = true ->
  exists s' kl nl, run ke_text ntp_text env rounds s = (Ok Returned, s') /\
    errors s' = errors s /\ err_lines s' = err_lines s /\
    ke_lines s' = ke_lines s ++ [pretty (total_rate p) +:+ " total request(s) per second"] ++ kl /\
    in_blocks (run_ke_lines env total) (report_ke (errors s)) 0 runs kl /\
    ntp_lines s' = ntp_lines s ++ [pretty (total_rate p * ex) +:+ " total request(s) per second"] ++ nl /\
    in_blocks (run_ntp_lines env (Z.to_nat ex) total) (report_ntp (errors s)) 0 runs nl /\
    parse_i32 (rate_file s') = Some (reqs_per_second p + step_size p) /\
    (0 < reqs_per_second p < 2 ^ 31 -> 0 <= total_runtime_ms p < 2 ^ 31 ->
     total_runtime_ms p * reqs_per_second p <= 1000 * (2 ^ 31 - 2) ->
     Z.abs (1000 * Z.of_nat total - total_runtime_ms p * reqs_per_second p) <= 500).
Proof.
  intros Hhost Hcert Hplan Haux Hnc Hw Hfit Hch config ex runs total Hwarm Hgood Hcreate Hwrite.
  destruct (does_announce (errors s) (main_channels env) p Hch Hfit s eq_refl) as (s1 & H1 & O1).
  assert (errors s1 = errors s) as E1 by apply O1.
  destruct (does_warm_up (errors s) env config (Z.to_nat (warmup_runs p)) 0 (fun j Hj => Hwarm j (proj2 Hj)) s1 E1) as (s2 & H2 & O2).
  assert (errors s2 = errors s) as E2 by (rewrite <- E1; apply O2).
  assert (wrap 64 (num_clients p) = num_clients p) as Hwrap by (apply wrap_id; unfold in_width; lia).
  destruct (does_runs env config ex total (num_clients p) 0 runs s2 Hch Hw) as (s3 & kl & nl & H3 & O3 & Bk & Bn).
  { intros r i Hr Hi. apply Hgood; lia. }
  destruct (outputs_trans _ _ _ _ _ _ _ O1 (outputs_trans _ _ _ _ _ _ _ O2 O3)) as (E & K & N & X & _).
  assert (in_swidth 32 (reqs_per_second p + step_size p)) as Hnext by apply Hfit. rewrite E2 in Bk, Bn.
  exists (mkClient (errors s3) (ke_lines s3) (ntp_lines s3) (err_lines s3) (client_rng s3)
    (show_i32 (reqs_per_second p + step_size p))), kl, nl.
  split.
  { unfold run, new_pool. rewrite Hhost. cbn [unwrap]. rewrite bind_lift, bind_lift, Hcert, bind_lift, Hplan. cbv zeta.
    rewrite (M_bind_run _ _ _ _ _ H1), Hwrap, Hw, (M_bind_run _ _ _ (num_clients p) s1) by done. rewrite Haux. fold config.
    rewrite (M_bind_run _ _ _ _ _ H2). cbn [negb]. fold ex runs total. rewrite (M_bind_run _ _ _ _ _ H3).
    unfold write_next_rate, add_i32. rewrite Hcreate, Hwrite, M_bind_eq, bind_lift, bind_modify, bind_lift, fit_i32_ok by done. done. }
  cbn [errors ke_lines ntp_lines err_lines rate_file]. split_and!; try done; [by apply parse_show_i32|].
  intros Hr HT Hmax. pose proof (total_requests_exact _ _ Hr HT Hmax) as Ht. unfold total. lia.
Qed.
End Experiment.

(** ** Witness: one run of two jobs with three transfers each *)
Module ExperimentExample.
Import Toy KeClientExample ClientExample RunExample ServerReplies.ServerExample.

Definition cookie : bytes := cookie_bytes 360000 (replicate 16 x05) rotator_key KeExample.session.
Definition stream : bytes := be_bytes 2 5 ++ be_bytes 2 100 ++ cookie ++ [x80; x00; x00; x00].
Definition keys_got : NtsKeResult := mkKeResult [cookie] [] 0 [x61; x2e; x62] 123 KeExample.session None.
Definition answer (wire : bytes) : io_error + bytes :=
  match (response (P := Debug) (A := toy_aead) (G := toy_rng) env wire noon noon srv).1 with
  | Ok b => inr b | _ => inl (IoError WouldBlock "") end.
Definition udp : NtpClientEnv :=
  mkNtpClientEnv (fun _ _ => inr [mkAddr true [x31]]) true None None None answer noon noon.
(** The network of a job, and that of the [n]th job, which takes longer. *)
Definition slower (n : nat) : JobEnv :=
  mkJobEnv (cenv stream) (5000 + Z.of_nat n) (fun _ => udp) (fun i => 7000 + 10 * Z.of_nat n + Z.of_nat i) channels.
Definition working : JobEnv := slower 0.
Definition working_env : RunEnv Z :=
  mkRunEnv (matches run_env) (config_env run_env) (inr experiment) parameters (fun _ => true)
    (fun _ => working) (fun _ i => slower i) (fun _ i => Z.of_nat i) channels true true.
Definition plan : Plan := mkPlan 0 1 20 3 (-10) 100 2 false 0 0.
End ExperimentExample.

Section Witnesses.
Import Toy KeClientExample ClientExample RunExample ServerReplies.ServerExample ExperimentExample.

Lemma working_good n : good_job (P := Debug) (A := toy_aead) (R := Z) (I := host_names) (client_config working_env "a.b" None) 3 (slower n).
Proof.
  split; [by repeat split|]. exists keys_got. split; [vm_compute; reflexivity|]. intros i g _.
  destruct (nts_exchange (P := Debug) toy_aead_laws toy_rng_laws toy_rng_laws udp keys_got cookie [] KeExample.session env srv noon noon 9 g)
    as (r & g' & Hr & _).
  - split; [exists [mkAddr true [x31]], (mkAddr true [x31]); split; reflexivity|]. do 4 (split; [reflexivity|]).
    split; split; vm_compute; congruence.
  - reflexivity.
  - by vm_compute.
  - reflexivity.
  - apply srv_ready.
  - split; [by vm_compute|]. split; [by vm_compute|]. exists rotator_key. split; by vm_compute.
  - intros wire rep s' Hr. change (answer wire = inr rep). unfold answer. by rewrite Hr.
  - by exists r, g'.
Qed.

(** The second job's key exchange is through first, and the transfers alternate. *)
Lemma experiment_completes_witness :
  exists s' kl nl, run (P := Debug) (A := toy_aead) (I := host_names) (W := pair_pool) ke_text ntp_text working_env 0 idle_client =
      (Ok Returned, s') /\
    ke_lines s' = "100 total request(s) per second" :: kl /\
    kl = ["5001"; "5000"; "Timeout Errors: 0"; "OS Errors: 0"; "Other Errors: 0"] /\
    in_blocks (run_ke_lines working_env 2) (report_ke (fun _ => 0)) 0 1 kl /\
    ntp_lines s' = "300 total request(s) per second" :: nl /\
    nl = ["7000"; "7010"; "7001"; "7011"; "7002"; "7012"; "Timeout Errors: 0"; "OS Errors: 0"; "Other Errors: 0"] /\
    in_blocks (run_ntp_lines working_env 3 2) (report_ntp (fun _ => 0)) 0 1 nl /\
    parse_i32 (rate_file s') = Some 90.
Proof.
  destruct (experiment_completes (P := Debug) (A := toy_aead) (I := host_names) (W := pair_pool) ke_text ntp_text working_env 0
    idle_client "a.b" None plan) as (s' & kl & nl & Hrun & _ & _ & Hk & Bk & Hn & Bn & Hf & _).
  - reflexivity.
  - reflexivity.
  - vm_compute. reflexivity.
  - reflexivity.
  - done.
  - reflexivity.
  - vm_compute. repeat split; congruence.
  - by repeat split.
  - intros i Hi. cbn in Hi. lia.
  - intros r i _ _. apply working_good.
  - reflexivity.
  - reflexivity.
  - assert (ke_lines s' = ["100 total request(s) per second"; "5001"; "5000"; "Timeout Errors: 0"; "OS Errors: 0"; "Other Errors: 0"] /\
      ntp_lines s' = ["300 total request(s) per second"; "7000"; "7010"; "7001"; "7011"; "7002"; "7012";
        "Timeout Errors: 0"; "OS Errors: 0"; "Other Errors: 0"]) as [Ek En].
    { change s' with (Ok (E := unit) Returned, s').2. rewrite <- Hrun. split; vm_compute; reflexivity. }
    assert (kl = tail (ke_lines s')) as Tk by (rewrite Hk; reflexivity).
    assert (nl = tail (ntp_lines s')) as Tn by (rewrite Hn; reflexivity).
    exists s', kl, nl. split; [exact Hrun|]. split; [rewrite Tk, Ek; reflexivity|]. split; [rewrite Tk, Ek; reflexivity|].
    split; [exact Bk|]. split; [rewrite Tn, En; reflexivity|]. split; [rewrite Tn, En; reflexivity|].
    split; [exact Bn|exact Hf].
Defined.
End Witnesses.
