(* ===== verification/EndToEnd.v ===== *)
(** * From the key exchange to the measured time transfers

    The whole system on one job of the client: a key exchange server process makes
    cookies under the latest key of its rotator; a client obtains them over TLS; and
    NTP server processes of the same operator, whose rotators have only the master
    key and memcached in common with the first, answer the client's queries.  The
    theorem puts the refinement of the connection ([KeServing]), the two clients,
    the portability of cookies and the server's replies together. *)

From stdpp Require Import prelude list numbers strings pretty gmap.
From Stdlib Require Import Strings.Byte.
From S2P Require Import Prelude Words Crypto Time NtpProtocol Cookie KeyRotator NtpServer ServerReplies Portability.
From S2P Require Import KeRecords KeStream KeConnection KeServing KeClient NtpClient ClientCommand Experiment.

Open Scope Z_scope.

Section EndToEnd.
Context {P : Profile} {H : Hmac} {ME : Type} {A : Aead} {L : AeadLaws A} {I : IpText}.
Context {RK RN RC : Type} {GK : Rng RK} {GN : Rng RN} {GC : Rng RC}.
Context {LK : RngLaws GK} {LN : RngLaws GN} {LC : RngLaws GC}.
Context (ke_text : ClientError -> string) (ntp_text : NtpClientError -> string).

(** An NTP server process when it receives a query: its first rotation, the ones
    after it, and the server with the times of the query. *)
Record NtpProcess := mkNtpProcess {
  first_world : World ME;
  later_worlds : list (World ME);
  first_state : State;
  server_env : Env;
  server : Srv RN;
  query_time : SystemTime;
  header_time : SystemTime;
  dispersion : Z;
}.

(** The process belongs to the operator of the key exchange server that rotated from
    [s1] in the hour [w1]: same prefix, period and master key, and memcached shows
    no two secrets for that hour.  It rotated once within reach of the hour, went
    on, with or without success, for no longer than it keeps keys, and serves. *)
Definition operated (w1 : World ME) (s1 : State) (p : NtpProcess) : Prop :=
  let r1 := rot s1 in let r2 := rot (first_state p) in let q := period_of w1 r1 in
  sane (first_world p) r2 /\ prefix r2 = prefix r1 /\ duration r2 = duration r1 /\ master_key r2 = master_key r1 /\
  q ∈ window r2 (period_of (first_world p) r2) /\ secret (first_world p) r2 q = secret w1 r1 q /\
  Forall (fun w => sane w r2 /\ current w r2 q /\
    (forall v, secret w r2 q = Some v -> secret w1 r1 q = Some v)) (later_worlds p) /\
  (exists u2 s2' s3, rotate (first_world p) (first_state p) = (Ok u2, s2') /\
    (periodic_rotate (later_worlds p) (mkLock false s2') []).2 = mkLock false s3 /\
    keys (server p) = mkLock false (rot s3)) /\
  ServerReplies.ready (server_env p) (server p) (query_time p) (header_time p) (dispersion p).

(** The network of a time transfer brings the client the reply of [p]. *)
Definition carries (env : NtpClientEnv) (p : NtpProcess) : Prop :=
  forall wire reply s', response (server_env p) wire (query_time p) (header_time p) (server p) = (Ok reply, s') ->
    udp_recv env wire = inr reply.

(** A transfer with a cookie of the key exchange server. *)
Lemma transfer_served w1 s1 u1 s1' p env st cookie cs k (g : RC) :
  sane w1 (rot s1) -> rotate w1 s1 = (Ok u1, s1') -> operated w1 s1 p -> carries env p ->
  udp_works env st -> res_keys st = k -> keys_wf k -> res_cookies st = cookie :: cs -> usable_cookie (rot s1') k cookie ->
  exists r g', run_nts_ntp_client env st g = (Ok r, g') /\ result_stratum r = ss_stratum (guarded (servstate (server p))).
Proof.
  intros Hs1 Hr1 (Hs2 & Hpre & Hdur & Hmk & Hq & Hsec & Hws & (u2 & s2' & s3 & Hr2 & Hs3 & Hkeys) & Hrd) Hnet Hudp Hk Hkwf Hcs Hus.
  destruct (latest_key_elsewhere w1 (first_world p) (later_worlds p) s1 s1' (first_state p) s2' u1 u2)
    as (s3' & Hs3' & Hkey); [done..|]. assert (s3' = s3) as -> by congruence.
  destruct (exchange_run env st cookie cs k (server_env p) (server p) (query_time p) (header_time p) (dispersion p) g)
    as (t1 & t4 & rx & tx & g' & _ & _ & _ & _ & ->); try done.
  - rewrite Hkeys. by eapply usable_elsewhere.
  - by eexists _, _.
Qed.

(** C1: the system works end to end.  A key exchange server that has rotated
    successfully in the hour [w1] is fed with a client's request, in any
    segmentation, and answers once.  A job of the client whose connection carries
    this answer, and whose time transfers reach NTP servers of the same operator in
    whatever hours their clocks and rotations have come to within the time a key is
    kept, ends well: it writes one measurement of the key exchange and one of each
    of its [exchanges_per_cookie] transfers, and counts no failure.  It is a good job
    in the sense of the experiment as a whole. *)
Theorem job_served w1 s1 u1 s1' k (s0 : KeSt RK) tok envs chunks request :
  sane w1 (rot s1) -> rotate w1 s1 = (Ok u1, s1') -> rotator s0 = mkLock false (rot s1') ->
  keys_wf k -> in_width 16 (next_port_config s0) -> conn s0 = new_conn tok ->
  Forall2 (delivers k) envs chunks -> Forall (fun c => c ≠ []) chunks ->
  client_request (E := unit) = Ok request -> concat chunks = request ->
  exists s' b, feed envs s0 = (Ok tt, s') /\ written s' = written s0 ++ [b] /\
    forall config ex env (s : Client (R := RC)),
      plumbing (job_ke env) config k -> peer_stream (job_ke env) = b -> all_open (job_channels env) ->
      (forall i, (i < Z.to_nat ex)%nat -> exists p, operated w1 s1 p /\ carries (job_ntp env i) p /\
         udp_works (job_ntp env i) (mkKeResult [] [0] 15 (host config) (next_port_config s0) k (use_ipv4 config))) ->
      good_job (R := RC) config ex env /\
      exists s', job ke_text ntp_text config ex env s = (Ok tt, s') /\
        outputs s s' [pretty (job_ke_nanos env)] (map (fun i => pretty (job_ntp_nanos env i)) (seq 0 (Z.to_nat ex))).
Proof.
  intros Hs1 Hr1 Hrot Hk Hport Hconn Hd Hne Hreq Hcat.
  destruct (rotate_Ok_latest _ _ _ _ Hs1 Hr1) as [Hlat Hkey].
  assert (keys_ready (rotator s0)) as Hready.
  { rewrite Hrot. split_and!; [done| |done]. cbn [guarded]. rewrite Hlat. apply wrap_range; lia. }
  destruct (ke_exchange L LK k s0 tok envs chunks request) as (s' & b & Hfeed & Hw & Hclient); [done..|].
  exists s', b. split; [done|]. split; [done|]. intros config ex env s Hpl Hstream Hch Hnet.
  destruct (Hclient _ _ Hpl Hstream) as (r & Hr & Hrk & Hrp & Hrh & _ & _ & Hip & Hlen & Hus).
  destruct (res_cookies r) as [|cookie cs] eqn:Hcs; [done|]. apply Forall_cons in Hus as [Hus _].
  assert (good_job (R := RC) config ex env) as Hgood; [|split; [done|by apply (does_job ke_text ntp_text (errors s))]].
  split; [done|]. exists r. split; [done|]. intros j g Hj. destruct (Hnet j Hj) as (p & Hop & Hca & Hudp).
  destruct (transfer_served w1 s1 u1 s1' p (job_ntp env j) r cookie cs k g) as (x & g' & Hx & _); try done.
  - unfold udp_works in *. cbn [res_next_server res_next_port res_use_ipv4] in Hudp. by rewrite Hrh, Hrp, Hip.
  - by rewrite Hrot in Hus.
  - by exists x, g'.
Qed.
End EndToEnd.

(** ** Witness: cookies of hour 100 served at hour 124 *)
Module EndToEndExample.
Import Toy RotatorExample ClientExample.

Definition minting : State := step (up 100) fresh.
Definition ke_start : KeSt Z :=
  mkKe (new_conn 3) (mkLock false (rot minting)) 4123 "127.0.0.1:9" [] 5 [] 0 None.
(** Another process: it last reached memcached at hour 110. *)
Definition later : list (World unit) := [down 100; up 110; down 124].
Definition serving : State := guarded (periodic_rotate (P := Debug) later (mkLock false (step (up 98) fresh)) []).2.
Definition hour : SystemTime := at_hour 124.
Definition ntp_server : Srv Z :=
  mkSrv (mkLock false (rot serving)) (mkLock false (initial_servstate hour None)) (fun _ => 0) "127.0.0.1:4123" [] [] 5 [] [].
Definition ntp_env : Env := mkEnv (Some (Some "10.0.0.1")) 100 200 hour hour true true (fun _ => None).
Definition process : NtpProcess (ME := unit) (RN := Z) :=
  mkNtpProcess (up 98) later fresh ntp_env ntp_server hour hour 9.
Definition reply (wire : bytes) : io_error + bytes :=
  match (response (P := Debug) (A := toy_aead) (G := toy_rng) ntp_env wire hour hour ntp_server).1 with
  | Ok b => inr b | _ => inl (IoError WouldBlock "") end.
Definition udp : NtpClientEnv :=
  mkNtpClientEnv (fun _ _ => inr [mkAddr true [x31]]) true None None None reply hour hour.
Definition served_job (stream : bytes) : JobEnv :=
  mkJobEnv (KeClientExample.cenv stream) 5000 (fun _ => udp) (fun i => 7000 + Z.of_nat i) channels.

Lemma process_ready : ServerReplies.ready (P := Debug) ntp_env ntp_server hour hour 9.
Proof.
  split; [split; [reflexivity|split; [by vm_compute|apply (bool_decide_eq_true_1 _); vm_compute; reflexivity]]|]. do 7 (split; [by vm_compute|]). split; [by eexists|]. by split.
Qed.
Lemma process_operated : operated (P := Debug) (up 100) fresh process.
Proof.
  split; [vm_compute; split_and!; done|]. do 3 (split; [done|]). split; [apply elem_of_window; by vm_compute|].
  split; [by vm_compute|]. split.
  { repeat (apply Forall_cons; split; [split_and!; [vm_compute; split_and!; done|vm_compute; split_and!; done|by vm_compute]|]).
    by apply Forall_nil_2. }
  split; [|apply process_ready]. exists tt, (step (up 98) fresh), serving.
  split; [apply rotated; by vm_compute|]. split; [by vm_compute|done].
Qed.
End EndToEndExample.

Section Witnesses.
Import Toy RotatorExample ClientExample EndToEndExample.

Lemma job_served_witness :
  exists s' b, feed (P := Debug) (A := toy_aead) (G := toy_rng) (I := host_names)
      (map KeExample.env KeExample.pieces) ke_start = (Ok tt, s') /\ written s' = [b] /\
    exists c', job (P := Debug) (A := toy_aead) (I := host_names) ke_text ntp_text KeClientExample.cfg 3 (served_job b) idle_client =
      (Ok tt, c') /\ outputs idle_client c' ["5000"] ["7000"; "7001"; "7002"].
Proof.
  destruct (job_served (P := Debug) (ME := unit) (A := toy_aead) (I := host_names) (GK := toy_rng) (GN := toy_rng) (GC := toy_rng)
    ke_text ntp_text (up 100) fresh tt minting KeExample.session ke_start 3
    (map KeExample.env KeExample.pieces) KeExample.pieces (concat KeExample.pieces)) as (s' & b & Hf & Hw & Hc).
  - vm_compute; split_and!; done.
  - apply rotated. by vm_compute.
  - reflexivity.
  - by vm_compute.
  - by vm_compute.
  - reflexivity.
  - assert (forall c, delivers KeExample.session (KeExample.env c) c) as Hd.
    { intros c. split_and!; [by exists 1|done|done|done|split; [by eexists|done]|done|done]. }
    repeat constructor; apply Hd.
  - repeat constructor; done.
  - by vm_compute.
  - reflexivity.
  - destruct (Hc KeClientExample.cfg 3 (served_job b) idle_client) as (_ & c' & Hj & Ho).
    + apply KeClientExample.cenv_plumbing.
    + reflexivity.
    + repeat split.
    + intros i _. exists process. split; [apply process_operated|]. split.
      * intros wire rep s'' Hr. change (reply wire = inr rep). unfold reply.
        cbn [server_env query_time header_time server process] in Hr. by rewrite Hr.
      * split; [exists [mkAddr true [x31]], (mkAddr true [x31]); split; reflexivity|]. do 4 (split; [reflexivity|]).
        split; split; vm_compute; congruence.
    + exists s', b. split; [exact Hf|]. split; [exact Hw|]. exists c'. split; [exact Hj|exact Ho].
Defined.
End Witnesses.
