(* ===== verification/Main.v ===== *)
(** * The command line and the entry point

    [cmd.rs] and [main.rs].  The command line is described to [clap], which parses it;
    the parser is a parameter with its documented laws.  [main] sets up, for the chosen
    subcommand, the channels of its measurements with the threads that write them to
    the result files, and runs it. *)

From stdpp Require Import prelude list numbers strings.
From S2P Require Import Prelude Words Crypto KeRecords KeClient NtpClient Config ClientCommand.

Open Scope Z_scope.

(** ** cmd.rs *)
Record Arg := mkArg {
  arg_name : string;
  long : option string;
  short : option string;
  position : option Z;
  takes_value : bool;
  required : bool;
  conflicts_with : option string;
}.
Record App := mkApp { app_name : string; args : list Arg; subcommands : list (string * list Arg) }.

Definition create_clap_client_subcommand : string * list Arg :=
  ("client"%string,
   [mkArg "host" None None (Some 1) true true None;
    mkArg "port" (Some "port") (Some "p") None true false None;
    mkArg "cert" (Some "cert") (Some "c") None true false None;
    mkArg "ipv4" (Some "ipv4") (Some "4") None false false (Some "ipv6");
    mkArg "ipv6" (Some "ipv6") (Some "6") None false false (Some "ipv4")]).
Definition create_clap_ke_server_subcommand : string * list Arg :=
  ("ke-server"%string, [mkArg "configfile" (Some "file") (Some "f") None true false None]).
Definition create_clap_ntp_server_subcommand : string * list Arg :=
  ("ntp-server"%string, [mkArg "configfile" (Some "file") (Some "f") None true false None]).
Definition create_clap_command (name : string) : App :=
  mkApp name [mkArg "debug" (Some "debug") (Some "d") None false false None]
    [create_clap_client_subcommand; create_clap_ke_server_subcommand; create_clap_ntp_server_subcommand].

(** ** clap *)
Record AppMatches := mkAppMatches { debug : bool; subcommand : option (string * Matches) }.
Definition subcommand_matches (m : AppMatches) (name : string) : option Matches :=
  match subcommand m with
  | Some (name', m') => if bool_decide (name' = name) then Some m' else None
  | None => None
  end.

(** [get_matches]: [None] when the process ends with a usage message. *)
Class Clap := get_matches : App -> list string -> option AppMatches.

(** What the documentation of [clap] says: a subcommand is one of those described;
    of its arguments the required ones have a value, and of two that conflict at most
    one is present. *)
Class ClapLaws (C : Clap) : Prop := {
  clap_subcommand app l m name sub :
    get_matches app l = Some m -> subcommand m = Some (name, sub) ->
    exists described, (name, described) ∈ subcommands app /\
      (forall a, a ∈ described -> required a = true -> takes_value a = true -> is_Some (value_of sub (arg_name a))) /\
      (forall a b, a ∈ described -> b ∈ described -> conflicts_with a = Some (arg_name b) ->
         is_present sub (arg_name a) && is_present sub (arg_name b) = false);
}.

(** ** main.rs *)
Inductive Severity := SeverityInfo | SeverityDebug.
Inductive Destination := Stdout | Stderr.
Record Logger := mkLogger { level : Severity; destination : Destination }.

(** The builder is set up step by step; a later level replaces an earlier one. *)
Definition create_logger (m : AppMatches) : Logger :=
  let builder := mkLogger SeverityInfo Stdout in
  if debug m then mkLogger SeverityDebug (destination builder) else builder.

(** The six senders. *)
Inductive Cell := CLIENT_KE_S | CLIENT_NTP_S | CLIENT_ERR_S | SERVER_KE_S | SERVER_NTP_S | SERVER_NTS_S.
#[export] Instance Cell_eq_dec : EqDecision Cell.
Proof. solve_decision. Defined.

Inductive Start := RunKeServer (m : Matches) | RunNtpServer (m : Matches) | RunClient (m : Matches).

(** The senders set, each with the file that its writer's thread opens, and the
    subcommand that was run. *)
Record MainState := mkMain { cells : list (Cell * string); runs : list Start }.

(** An error is [process::exit] with its code. *)
Abbreviation MM := (M MainState Z).

(** A channel, its sender put into the cell, and the thread of its writer. *)
Definition open_channel (c : Cell) (file : string) : MM unit :=
  s ← get_state;
  if bool_decide (c ∈ map fst (cells s)) then lift (Panic UnwrapFailed)
  else modify (fun s => mkMain (cells s ++ [(c, file)]) (runs s)).
Definition start (r : Start) : MM unit := modify (fun s => mkMain (cells s) (runs s ++ [r])).

Definition when_some {B} (o : option B) (f : B -> MM unit) : MM unit :=
  match o with Some b => f b | None => mret tt end.

(** [init_ok]: no logger was set before. *)
Definition main (init_ok : bool) (m : AppMatches) : MM unit :=
  let logger := create_logger m in
  _ ← lift (if init_ok then Ok tt else Panic UnwrapFailed);
  _ ← (match subcommand m with None => lift (Err 1) | Some _ => mret tt end);
  _ ← when_some (subcommand_matches m "ke-server") (fun ke_server_matches =>
        _ ← open_channel SERVER_KE_S "results/server_ke_create";
        start (RunKeServer ke_server_matches));
  _ ← when_some (subcommand_matches m "ntp-server") (fun ntp_server_matches =>
        _ ← open_channel SERVER_NTP_S "results/server_ntp_alone";
        _ ← open_channel SERVER_NTS_S "results/server_nts_auth";
        start (RunNtpServer ntp_server_matches));
  when_some (subcommand_matches m "client") (fun client_matches =>
        _ ← open_channel CLIENT_KE_S "results/client_nts_ke";
        _ ← open_channel CLIENT_NTP_S "results/client_nts_ntp";
        _ ← open_channel CLIENT_ERR_S "results/client_err";
        start (RunClient client_matches)).

(** A writer's thread: it panics, and drops its end of the channel, when its file
    cannot be opened (it is not created) or a line cannot be written.  [alive] says
    whether it is still there after it was given as many values as [writes] tells. *)
Definition alive (opened : bool) (writes : list bool) : bool := opened && forallb id writes.

(** A send works when the cell is set and its writer is there. *)
Definition can_send (s : MainState) (opened : string -> bool) (writes : Cell -> list bool) (c : Cell) : bool :=
  match list_find (fun p => p.1 = c) (cells s) with
  | Some (_, (_, file)) => alive (opened file) (writes c)
  | None => false
  end.

(** ** What the subcommands find *)

(** The senders that the code behind a subcommand uses. *)
Definition used_by (r : Start) : list Cell :=
  match r with
  | RunKeServer _ => [SERVER_KE_S]
  | RunNtpServer _ => [SERVER_NTP_S; SERVER_NTS_S]
  | RunClient _ => [CLIENT_KE_S; CLIENT_NTP_S; CLIENT_ERR_S]
  end.

Definition result_file (c : Cell) : string :=
  match c with
  | SERVER_KE_S => "results/server_ke_create"
  | SERVER_NTP_S => "results/server_ntp_alone"
  | SERVER_NTS_S => "results/server_nts_auth"
  | CLIENT_KE_S => "results/client_nts_ke"
  | CLIENT_NTP_S => "results/client_nts_ntp"
  | CLIENT_ERR_S => "results/client_err"
  end.

Section Main.
Context {C : Clap} {L : ClapLaws C}.

Definition initial : MainState := mkMain [] [].

(** What [main] does for each subcommand. *)
Definition chosen (name : string) (sub : Matches) : option Start :=
  if bool_decide (name = "ke-server"%string) then Some (RunKeServer sub)
  else if bool_decide (name = "ntp-server"%string) then Some (RunNtpServer sub)
  else if bool_decide (name = "client"%string) then Some (RunClient sub) else None.

Lemma main_run m name sub :
  subcommand m = Some (name, sub) ->
  main true m initial =
  (Ok tt, match chosen name sub with
          | Some r => mkMain (map (fun c => (c, result_file c)) (used_by r)) [r]
          | None => initial
          end).
Proof.
  intros Hs. unfold main, chosen. rewrite bind_lift, Hs. unfold subcommand_matches. rewrite Hs.
  destruct (decide (name = "ke-server"%string)) as [->|H1]; [done|].
  destruct (decide (name = "ntp-server"%string)) as [->|H2]; [done|].
  destruct (decide (name = "client"%string)) as [->|H3]; [done|].
  rewrite !bool_decide_false by done. done.
Qed.

Lemma described_chosen app_name name described sub :
  (name, described) ∈ subcommands (create_clap_command app_name) -> is_Some (chosen name sub).
Proof. cbn. rewrite !elem_of_cons, elem_of_nil. intros [[= -> _]|[[= -> _]|[[= -> _]|[]]]]; by eexists. Qed.

(** Every subcommand finds its channels.  For a command line that [clap] accepts,
    [main] exits with code 1 if there is no subcommand; otherwise it runs exactly the
    subcommand named, after it has set exactly the senders that the code behind that
    subcommand uses, each once and with the writer of its own result file.  A send on
    one of them then works exactly as long as its file could be opened and written. *)
Lemma main_channels_ready app_name l m :
  get_matches (create_clap_command app_name) l = Some m ->
  match subcommand m with
  | None => main true m initial = (Err 1, initial)
  | Some (name, sub) => exists r s, main true m initial = (Ok tt, s) /\ runs s = [r] /\ chosen name sub = Some r /\
      map fst (cells s) = used_by r /\ NoDup (map fst (cells s)) /\
      forall opened writes c, c ∈ used_by r ->
        can_send s opened writes c = alive (opened (result_file c)) (writes c)
  end.
Proof.
  intros Hm. destruct (subcommand m) as [[name sub]|] eqn:Hs; [|unfold main; by rewrite Hs].
  destruct (clap_subcommand _ _ _ _ _ Hm Hs) as (described & Hin & _).
  destruct (described_chosen app_name name described sub Hin) as [r Hr].
  rewrite (main_run m name sub Hs), Hr. eexists r, _. split; [done|]. split; [done|]. split; [done|].
  split_and!; [by destruct r|destruct r; apply (bool_decide_unpack _); by vm_compute|].
  intros opened writes c Hc. destruct r; cbn [used_by] in Hc; rewrite !elem_of_cons, elem_of_nil in Hc;
    destruct_or? Hc; try done; by subst c.
Qed.

(** The client's arguments.  For a command line that [clap] accepts, the host that
    [client::run] unwraps is there, and the address family it asks for is the one
    whose flag was given: IPv4 with [--ipv4], IPv6 with [--ipv6], either without. *)
Lemma client_args_understood app_name l m sub :
  get_matches (create_clap_command app_name) l = Some m -> subcommand m = Some ("client"%string, sub) ->
  is_Some (value_of sub "host") /\
  get_use_ipv4 sub =
    match is_present sub "ipv4", is_present sub "ipv6" with
    | true, false => Some true
    | false, true => Some false
    | _, _ => None
    end.
Proof.
  intros Hm Hs. destruct (clap_subcommand _ _ _ _ _ Hm Hs) as (described & Hin & Hreq & Hcon).
  assert (described = create_clap_client_subcommand.2) as ->.
  { cbn in Hin. rewrite !elem_of_cons, elem_of_nil in Hin. by destruct Hin as [[= ->]|[[=]|[[=]|[]]]]. }
  split.
  - apply (Hreq (mkArg "host" None None (Some 1) true true None)); [|done..]. cbn. set_solver.
  - pose proof (Hcon (mkArg "ipv4" (Some "ipv4") (Some "4") None false false (Some "ipv6"))
      (mkArg "ipv6" (Some "ipv6") (Some "6") None false false (Some "ipv4"))) as Hx.
    cbn [arg_name] in Hx. unfold get_use_ipv4. cbv zeta.
    destruct (is_present sub "ipv4"), (is_present sub "ipv6"); try done.
    discriminate Hx; [cbn; set_solver|cbn; set_solver|done].
Qed.
End Main.

(** ** A parser that satisfies the laws: a subcommand and one value, which every
    required argument gets. *)
Module ToyClap.
Definition needs (described : list Arg) (k : string) : bool :=
  existsb (fun a => String.eqb (arg_name a) k && required a) described.
Definition toy_clap : Clap := fun app l =>
  match l with
  | [] => Some (mkAppMatches false None)
  | name :: values =>
    '(_, (_, described)) ← list_find (fun p => p.1 = name) (subcommands app);
    v ← head values;
    Some (mkAppMatches false (Some (name,
      mkMatches (fun k => if needs described k then Some v else None) (fun _ => false))))
  end.
#[export] Instance toy_clap_laws : ClapLaws toy_clap.
Proof.
  split. intros app l m name sub Hm Hs. unfold get_matches, toy_clap in Hm.
  destruct l as [|n values]; [by injection Hm as <-|].
  destruct (list_find _ _) as [[i [n' described]]|] eqn:Hf; [|done]. cbn in Hm.
  destruct (head values) as [v|]; [|done]. cbn in Hm. injection Hm as <-. injection Hs as <- <-.
  apply list_find_Some in Hf as (Hi & Hn & _). cbn in Hn. subst n'.
  exists described. split_and!; [by eapply list_elem_of_lookup_2| |done].
  intros a Ha Hr _. cbn. replace (needs described (arg_name a)) with true; [by eexists|]. symmetry.
  apply existsb_exists. exists a. split; [by apply list_elem_of_In|]. by rewrite String.eqb_refl, Hr.
Qed.
End ToyClap.

Section Witnesses.
Import ToyClap.

Definition sample_matches : AppMatches :=
  default (mkAppMatches false None) (get_matches (Clap := toy_clap) (create_clap_command "cfnts") ["client"; "time.example"]).

Lemma main_channels_ready_witness :
  exists r s, main true sample_matches initial = (Ok tt, s) /\ runs s = [r] /\
    map fst (cells s) = [CLIENT_KE_S; CLIENT_NTP_S; CLIENT_ERR_S].
Proof.
  pose proof (main_channels_ready (C := toy_clap) "cfnts" ["client"; "time.example"]%string sample_matches eq_refl) as Hm.
  destruct (subcommand sample_matches) as [[name sub]|] eqn:Hs; [|vm_compute in Hs; discriminate Hs].
  destruct Hm as (r & s & H1 & H2 & Hch & H3 & _). exists r, s. split_and!; [exact H1|exact H2|]. rewrite H3.
  assert (name = "client"%string) as -> by (vm_compute in Hs; injection Hs; intros _ <-; reflexivity).
  vm_compute in Hch. injection Hch as <-. reflexivity.
Defined.

Lemma client_args_understood_witness :
  exists sub, subcommand sample_matches = Some ("client"%string, sub) /\
    is_Some (value_of sub "host") /\ get_use_ipv4 sub = None.
Proof.
  eexists. assert (subcommand sample_matches = Some ("client"%string, _)) as Hs by (vm_compute; reflexivity).
  split; [exact Hs|].
  destruct (client_args_understood (C := toy_clap) "cfnts" ["client"; "time.example"]%string sample_matches _ eq_refl Hs)
    as [Hh Hi]. split; [exact Hh|]. rewrite Hi. reflexivity.
Defined.
End Witnesses.
